(** * ASCII Agent: change-driven regeneration pipeline

    A shallow embedding of the scheduling, budgeting, arbitration and
    versioning code of the extension:

    - [Utils]      utils.ts            (path helpers, pattern matching)
    - [Watcher]    watcher.ts          (event classifier, debounce timers)
    - [Assembler]  architecture-agent.ts (token-budgeted context gathering)
    - [LmClient]   lm-client.ts        (single-flight request arbiter)
    - [LmBundle]   out/extension.js    (the bundled build of lm-client)
    - [History]    history.ts          (snapshot store and pruning)
    - [Js], [Glob] utils.ts            (string methods, brace expansion)
    - [Extension]  extension.ts        (writing an output file)
    - [TokenTracker] token-tracker.ts  (session and lifetime tallies)
    - [Config]     config.ts           (defaults, merge, validation)
    - [ConfigJs]   config.ts           (loading, on untyped JSON values)
    - [Agent]      architecture-agent.ts (candidate files and their order)
    - [TreeGenerator] tree-generator.ts (the file tree and its cap)

    The JavaScript event loop is modelled by explicit state passing: a
    virtual clock, a table of pending timers, and one transition per
    macrotask (an incoming event, a timer expiry, a resolved promise). *)

From Stdlib Require Import List String Ascii ZArith Lia Bool Arith PeanoNat.
From Stdlib Require Import Permutation Sorted.
From Stdlib Require Import DecimalString.
Import ListNotations.

Local Open Scope string_scope.
Local Open Scope Z_scope.

(* ===================================================================== *)
(** ** utils.ts *)
(* ===================================================================== *)

Module Utils.

(** [s.replace(/\\/g, "/")] *)
Fixpoint normalizeSeparators (s : string) : string :=
  match s with
  | EmptyString => EmptyString
  | String c rest =>
      String (if Ascii.eqb c "\"%char then "/"%char else c)
             (normalizeSeparators rest)
  end.

(** [s.replace(/\/$/, "")]: drop one trailing slash. *)
Fixpoint stripTrailingSlash (s : string) : string :=
  match s with
  | EmptyString => EmptyString
  | String c EmptyString => if Ascii.eqb c "/"%char then EmptyString else s
  | String c rest => String c (stripTrailingSlash rest)
  end.

Definition startsWith (s pre : string) : bool := String.prefix pre s.

Definition endsWith (s suf : string) : bool :=
  let n := String.length s in
  let k := String.length suf in
  (Nat.leb k n && String.eqb (String.substring (n - k) k s) suf)%bool.

(** [s.slice(k)] for [0 <= k]. *)
Definition sliceFrom (k : nat) (s : string) : string :=
  String.substring k (String.length s - k) s.

(** [workspaceRelativePath(uri, workspaceRoot)], on the [fsPath] strings of
    the two URIs. *)
Definition workspaceRelativePath (uriFsPath rootFsPath : string) : string :=
  let rootPath := stripTrailingSlash (normalizeSeparators rootFsPath) in
  let filePath := normalizeSeparators uriFsPath in
  if startsWith filePath (rootPath ++ "/")
  then sliceFrom (String.length rootPath + 1) filePath
  else filePath.

(** [s.split("/").pop() ?? ""]: the text after the last slash. *)
Fixpoint lastSegmentFrom (acc s : string) : string :=
  match s with
  | EmptyString => acc
  | String c rest =>
      if Ascii.eqb c "/"%char then lastSegmentFrom EmptyString rest
      else lastSegmentFrom (acc ++ String c EmptyString) rest
  end.

Definition lastSegment (s : string) : string := lastSegmentFrom EmptyString s.

Section Matching.
(** The glob engine [minimatch(path, pattern)] compiles the pattern to a
    regular expression; pattern matching is taken as a capability. *)
Variable minimatch : string -> string -> bool.

(** [patterns.some((pattern) => minimatch(filePath, pattern))] *)
Definition matchesAnyPattern (filePath : string) (patterns : list string)
  : bool :=
  existsb (fun pattern => minimatch filePath pattern) patterns.
End Matching.

End Utils.

(* ===================================================================== *)
(** ** types.ts: configuration *)
(* ===================================================================== *)

Record AsciiAgentConfig := {
  ignore : list string;
  architectureWatchPatterns : list string;
  outputPaths_fileTree : string;
  outputPaths_architecture : string;
  debounceMs : Z;
  maxHistorySnapshots : Z;
  contextFiles : list string;
  filePriority : list string
}.

(* ===================================================================== *)
(** ** watcher.ts *)
(* ===================================================================== *)

Module Watcher.

Inductive Classification := Ignore | TreeOnly | TreeAndArch.

Definition Classification_eqb (a b : Classification) : bool :=
  match a, b with
  | Ignore, Ignore | TreeOnly, TreeOnly | TreeAndArch, TreeAndArch => true
  | _, _ => false
  end.

Inductive Concern := Tree | Arch.

Definition Concern_eqb (a b : Concern) : bool :=
  match a, b with
  | Tree, Tree | Arch, Arch => true
  | _, _ => false
  end.

(** A pending [setTimeout]: its handle, the time it is due, and the closure
    it runs (the session whose handlers it calls, and for which concern). *)
Record Timer := {
  tid : nat;
  due : Z;
  owner : nat;
  concern : Concern
}.

(** A handler invocation: time, session, concern. *)
Record Signal := {
  sigTime : Z;
  sigSession : nat;
  sigConcern : Concern
}.

(** The module state of watcher.ts together with the event loop it runs
    on.  [treeDebounceTimer] and [archDebounceTimer] are the two
    module-level [let] bindings; every session reads and writes the same
    two. *)
Record Loop := {
  now : Z;
  nextId : nat;
  pending : list Timer;
  treeDebounceTimer : option nat;
  archDebounceTimer : option nat;
  subscribed : list nat;
  nextSession : nat;
  signals : list Signal
}.

Definition init (t0 : Z) : Loop :=
  {| now := t0; nextId := 0; pending := []; treeDebounceTimer := None;
     archDebounceTimer := None; subscribed := []; nextSession := 0;
     signals := [] |}.

Definition slot (c : Concern) (s : Loop) : option nat :=
  match c with
  | Tree => treeDebounceTimer s
  | Arch => archDebounceTimer s
  end.

Definition setSlot (c : Concern) (v : option nat) (s : Loop) : Loop :=
  match c with
  | Tree =>
      {| now := now s; nextId := nextId s; pending := pending s;
         treeDebounceTimer := v; archDebounceTimer := archDebounceTimer s;
         subscribed := subscribed s; nextSession := nextSession s;
         signals := signals s |}
  | Arch =>
      {| now := now s; nextId := nextId s; pending := pending s;
         treeDebounceTimer := treeDebounceTimer s; archDebounceTimer := v;
         subscribed := subscribed s; nextSession := nextSession s;
         signals := signals s |}
  end.

Definition setPending (p : list Timer) (s : Loop) : Loop :=
  {| now := now s; nextId := nextId s; pending := p;
     treeDebounceTimer := treeDebounceTimer s;
     archDebounceTimer := archDebounceTimer s;
     subscribed := subscribed s; nextSession := nextSession s;
     signals := signals s |}.

Definition setNow (t : Z) (s : Loop) : Loop :=
  {| now := t; nextId := nextId s; pending := pending s;
     treeDebounceTimer := treeDebounceTimer s;
     archDebounceTimer := archDebounceTimer s;
     subscribed := subscribed s; nextSession := nextSession s;
     signals := signals s |}.

Definition setSubscribed (l : list nat) (s : Loop) : Loop :=
  {| now := now s; nextId := nextId s; pending := pending s;
     treeDebounceTimer := treeDebounceTimer s;
     archDebounceTimer := archDebounceTimer s;
     subscribed := l; nextSession := nextSession s;
     signals := signals s |}.

(** [clearTimeout(id)] *)
Definition clearTimeout (id : nat) (s : Loop) : Loop :=
  setPending (filter (fun tm => negb (Nat.eqb (tid tm) id)) (pending s)) s.

(** The longest delay a timer takes, in milliseconds: [2 ** 31 - 1]. *)
Definition TIMEOUT_MAX : Z := 2147483647.

(** The delay a timer is armed with (whole milliseconds): the runtime
    replaces a delay below 1 or above [TIMEOUT_MAX] by 1. *)
Definition timerDelay (delay : Z) : Z :=
  if (delay <? 1) || (TIMEOUT_MAX <? delay) then 1 else delay.

(** [setTimeout(callback, delay)]: the new handle is [nextId s]; the timer
    is due after the delay the runtime arms it with. *)
Definition setTimeout (sid : nat) (c : Concern) (delay : Z) (s : Loop) : Loop :=
  {| now := now s; nextId := S (nextId s);
     pending := pending s ++
       [{| tid := nextId s; due := now s + timerDelay delay; owner := sid;
           concern := c |}];
     treeDebounceTimer := treeDebounceTimer s;
     archDebounceTimer := archDebounceTimer s;
     subscribed := subscribed s; nextSession := nextSession s;
     signals := signals s |}.

(** [scheduleTreeRegen] / [scheduleArchRegen]: clear the timer the module
    variable points to, then point it to a fresh timer. *)
Definition schedule (c : Concern) (delay : Z) (sid : nat) (s : Loop) : Loop :=
  let s1 := match slot c s with
            | Some id => clearTimeout id s
            | None => s
            end in
  setSlot c (Some (nextId s1)) (setTimeout sid c delay s1).

Definition scheduleTreeRegen := schedule Tree.
Definition scheduleArchRegen := schedule Arch.

(** The timer callback: reset the module variable, then call the session's
    handler (errors of the handler are caught and logged). *)
Definition fire (tm : Timer) (s : Loop) : Loop :=
  let s1 := setSlot (concern tm) None s in
  {| now := now s1; nextId := nextId s1; pending := pending s1;
     treeDebounceTimer := treeDebounceTimer s1;
     archDebounceTimer := archDebounceTimer s1;
     subscribed := subscribed s1; nextSession := nextSession s1;
     signals := signals s1 ++
       [{| sigTime := now s1; sigSession := owner tm;
           sigConcern := concern tm |}] |}.

(** The pending timer that is due first; among equally due timers, the one
    registered first. *)
Fixpoint earliest (l : list Timer) : option Timer :=
  match l with
  | [] => None
  | tm :: rest =>
      match earliest rest with
      | Some tm' => if due tm <=? due tm' then Some tm else Some tm'
      | None => Some tm
      end
  end.

(** Run every timer due at or before [T], in due order, each at its due
    time (or at the current time when already overdue). *)
Fixpoint fireDue (fuel : nat) (T : Z) (s : Loop) : Loop :=
  match fuel with
  | O => s
  | S fuel' =>
      match earliest (pending s) with
      | Some tm =>
          if due tm <=? T
          then fireDue fuel' T
                 (fire tm (setNow (Z.max (now s) (due tm))
                                  (clearTimeout (tid tm) s)))
          else s
      | None => s
      end
  end.

(** Let the clock run to [T]. *)
Definition advance (T : Z) (s : Loop) : Loop :=
  let s' := fireDue (List.length (pending s)) T s in
  setNow (Z.max (now s') T) s'.

Section Session.
Variable minimatch : string -> string -> bool.
Variable config : AsciiAgentConfig.
(** [workspaceFolders[0].uri.fsPath] *)
Variable workspaceRoot : string.

Definition HISTORY_DIR : string := ".ascii_history".

(** [new Set([config.outputPaths.fileTree, config.outputPaths.architecture])] *)
Definition outputFilePaths : list string :=
  [outputPaths_fileTree config; outputPaths_architecture config].

Definition has (set : list string) (x : string) : bool :=
  existsb (String.eqb x) set.

Definition classifyEvent (uri : string) : Classification :=
  let relPath := Utils.workspaceRelativePath uri workspaceRoot in
  if has outputFilePaths relPath then Ignore
  else if (Utils.startsWith relPath ".ascii_history/"
           || String.eqb relPath ".ascii_history")%bool then Ignore
  else if (Utils.matchesAnyPattern minimatch relPath (ignore config)
           || Utils.matchesAnyPattern minimatch (Utils.lastSegment relPath)
                (ignore config))%bool then Ignore
  else if Utils.matchesAnyPattern minimatch relPath
            (architectureWatchPatterns config) then TreeAndArch
  else TreeOnly.

(** [handleEvent(uri)] of the session [sid]. *)
Definition handleEvent (sid : nat) (uri : string) (s : Loop) : Loop :=
  match classifyEvent uri with
  | Ignore => s
  | TreeOnly => scheduleTreeRegen (debounceMs config) sid s
  | TreeAndArch =>
      scheduleArchRegen (debounceMs config) sid
        (scheduleTreeRegen (debounceMs config) sid s)
  end.

(** The file-system watcher raises a change event at time [t]: timers
    due by then have run; the event reaches [handleEvent] when the
    session is still subscribed. *)
Definition deliver (sid : nat) (t : Z) (uri : string) (s : Loop) : Loop :=
  let s1 := advance t s in
  if existsb (Nat.eqb sid) (subscribed s1) then handleEvent sid uri s1
  else s1.

Fixpoint deliverAll (sid : nat) (evs : list (Z * string)) (s : Loop) : Loop :=
  match evs with
  | [] => s
  | (t, uri) :: rest => deliverAll sid rest (deliver sid t uri s)
  end.
End Session.

(** The handle [startWatching] returns: without a workspace folder the
    inert [{ dispose: () => undefined }], otherwise a watching session. *)
Inductive WatcherSession :=
| Inert
| Watching (sid : nat).

(** [startWatching]: with a workspace folder, a new session subscribes its
    [handleEvent] to a watcher on the first folder. *)
Definition startWatching (workspaceFolders : list string) (s : Loop)
  : WatcherSession * Loop :=
  match workspaceFolders with
  | [] => (Inert, s)
  | _ :: _ =>
      (Watching (nextSession s),
       {| now := now s; nextId := nextId s; pending := pending s;
          treeDebounceTimer := treeDebounceTimer s;
          archDebounceTimer := archDebounceTimer s;
          subscribed := subscribed s ++ [nextSession s];
          nextSession := S (nextSession s);
          signals := signals s |})
  end.

(** [cancelPendingTimers()] *)
Definition cancelPendingTimers (s : Loop) : Loop :=
  let s1 := match treeDebounceTimer s with
            | Some id => setSlot Tree None (clearTimeout id s)
            | None => s
            end in
  match archDebounceTimer s1 with
  | Some id => setSlot Arch None (clearTimeout id s1)
  | None => s1
  end.

(** [dispose()] of a watching session: the same two clears, then the
    subscriptions of this session are dropped. *)
Definition dispose (sid : nat) (s : Loop) : Loop :=
  let s1 := cancelPendingTimers s in
  setSubscribed (filter (fun x => negb (Nat.eqb x sid)) (subscribed s1)) s1.

(** [stopWatching(session)]: [session.dispose()]. *)
Definition stopWatching (session : WatcherSession) (s : Loop) : Loop :=
  match session with
  | Inert => s
  | Watching sid => dispose sid s
  end.

Definition signalsOf (c : Concern) (s : Loop) : list Signal :=
  filter (fun g => Concern_eqb (sigConcern g) c) (signals s).

End Watcher.

(* ===================================================================== *)
(** ** architecture-agent.ts: context gathering *)
(* ===================================================================== *)

Module Assembler.

(** The part of [vscode.LanguageModelChat] the assembler uses.
    [countTokens text] is [None] when the call rejects. *)
Record LanguageModelChat := {
  modelName : string;
  countTokens : string -> option nat
}.

Definition newline : string := String "010"%char EmptyString.

(** [Math.ceil(text.length / 4)] *)
Definition charEstimate (text : string) : nat :=
  ((String.length text + 3) / 4)%nat.

(** [safeCountTokens(model, text)] *)
Definition safeCountTokens (model : LanguageModelChat) (text : string) : nat :=
  match countTokens model text with
  | Some count => count
  | None => charEstimate text
  end.

(** [`// File: ${relPath}\n${content}\n`] *)
Definition fileSectionOf (relPath content : string) : string :=
  "// File: " ++ relPath ++ newline ++ content ++ newline.

Section Gather.
(** [vscode.workspace.fs.readFile] on a workspace-relative path, decoded;
    [None] when the read throws. *)
Variable readFile : string -> option string.
Variable model : option LanguageModelChat.
(** Token counts and budgets are natural numbers. *)
Variable tokenBudget : nat.

(** [model ? await safeCountTokens(model, fileSection)
          : Math.ceil(fileSection.length / 4)] *)
Definition tokenCountOf (fileSection : string) : nat :=
  match model with
  | Some m => safeCountTokens m fileSection
  | None => charEstimate fileSection
  end.

(** The [for (const relPath of prioritized)] loop; the pair is
    [(sections, usedTokens)].  An unreadable file is skipped ([continue]);
    the first section that does not fit ends the loop ([break]). *)
Fixpoint gatherLoop (prioritized : list string) (sections : list string)
  (usedTokens : nat) : list string * nat :=
  match prioritized with
  | [] => (sections, usedTokens)
  | relPath :: rest =>
      match readFile relPath with
      | None => gatherLoop rest sections usedTokens
      | Some content =>
          let fileSection := fileSectionOf relPath content in
          let tokenCount := tokenCountOf fileSection in
          if (tokenBudget <? usedTokens + tokenCount)%nat
          then (sections, usedTokens)
          else gatherLoop rest (sections ++ [fileSection])%list
                 (usedTokens + tokenCount)%nat
      end
  end.

(** The sections pushed by the loop, for the candidates in priority order
    ([prioritizeFiles(collectCandidateFiles(...))]). *)
Definition selectedSections (prioritized : list string) : list string :=
  fst (gatherLoop prioritized [] 0%nat).

(** [sections.join("\n---\n")] *)
Definition gatherSourceContext (prioritized : list string) : string :=
  String.concat (newline ++ "---" ++ newline) (selectedSections prioritized).

(** Cumulative measured size of a selection. *)
Definition measuredSize (sections : list string) : nat :=
  fold_right (fun sec acc => (tokenCountOf sec + acc)%nat) 0%nat sections.
End Gather.

End Assembler.

(* ===================================================================== *)
(** ** history.ts: snapshot store *)
(* ===================================================================== *)

Module History.

(** [vscode.FileType] *)
Definition FileType_Unknown : Z := 0.
Definition FileType_File : Z := 1.
Definition FileType_Directory : Z := 2.
Definition FileType_SymbolicLink : Z := 64.

(** One entry of the retention directory.  [emtime] is what [fs.stat]
    reports ([None] when it throws); [edeletable] tells whether [fs.delete]
    succeeds on it. *)
Record Entry := {
  ename : string;
  etype : Z;
  emtime : option Z;
  edeletable : bool;
  econtent : string
}.

(** [type === vscode.FileType.File && name.endsWith(".txt")] *)
Definition isSnapshot (e : Entry) : bool :=
  (Z.eqb (etype e) FileType_File && Utils.endsWith (ename e) ".txt")%bool.

(** [fs.stat(joinPath(historyDirUri, name)).mtime], with the fallback 0 of
    the [catch] branch. *)
Definition mtimeOf (entries : list Entry) (name : string) : Z :=
  match find (fun e => String.eqb (ename e) name) entries with
  | Some e => match emtime e with Some t => t | None => 0 end
  | None => 0
  end.

(** [withMtimes.sort((a, b) => a.mtime - b.mtime)]: ascending, stable. *)
Fixpoint insertByMtime (x : string * Z) (sorted : list (string * Z))
  : list (string * Z) :=
  match sorted with
  | [] => [x]
  | y :: rest =>
      if snd x <=? snd y then x :: y :: rest
      else y :: insertByMtime x rest
  end.

Definition sortByMtime (l : list (string * Z)) : list (string * Z) :=
  fold_right insertByMtime [] l.

(** [array.slice(0, end)] *)
Definition slice0 {A} (end_ : Z) (l : list A) : list A :=
  let len := Z.of_nat (List.length l) in
  let k := if end_ <? 0 then Z.max (len + end_) 0 else Z.min end_ len in
  firstn (Z.to_nat k) l.

(** [fs.delete(joinPath(historyDirUri, name))] inside [try/catch]. *)
Definition deleteFile (name : string) (entries : list Entry) : list Entry :=
  filter (fun e => negb (String.eqb (ename e) name && edeletable e)) entries.

Definition snapshotNamesOf (entries : list Entry) : list string :=
  map ename (filter isSnapshot entries).

Definition toDeleteOf (entries : list Entry) (maxSnapshots : Z)
  : list (string * Z) :=
  let snapshotNames := snapshotNamesOf entries in
  let withMtimes := map (fun name => (name, mtimeOf entries name))
                        snapshotNames in
  let sorted := sortByMtime withMtimes in
  let targetCount := maxSnapshots - 1 in
  slice0 (Z.of_nat (List.length sorted) - targetCount) sorted.

(** [pruneSnapshots] on an existing retention directory. *)
Definition pruneEntries (entries : list Entry) (maxSnapshots : Z)
  : list Entry :=
  let snapshotNames := snapshotNamesOf entries in
  if Z.of_nat (List.length snapshotNames) <=? maxSnapshots then entries
  else fold_left (fun dir name => deleteFile name dir)
                 (map fst (toDeleteOf entries maxSnapshots)) entries.

(** [pruneSnapshots(workspaceRoot, maxSnapshots)]; the directory is [None]
    when it does not exist ([readDirectory] throws, nothing to prune). *)
Definition pruneSnapshots (dir : option (list Entry)) (maxSnapshots : Z)
  : option (list Entry) :=
  match dir with
  | None => None
  | Some entries => Some (pruneEntries entries maxSnapshots)
  end.

(** [s.replace(/:/g, "-")] *)
Fixpoint replaceColons (s : string) : string :=
  match s with
  | EmptyString => EmptyString
  | String c rest =>
      String (if Ascii.eqb c ":"%char then "-"%char else c)
             (replaceColons rest)
  end.

(** [fs.writeFile]: overwrite the entry of that name or add one. *)
Fixpoint writeFile (e : Entry) (entries : list Entry) : list Entry :=
  match entries with
  | [] => [e]
  | x :: rest =>
      if String.eqb (ename x) (ename e) then e :: rest
      else x :: writeFile e rest
  end.

(** [saveSnapshot(workspaceRoot, currentContent)] at a moment when
    [new Date().toISOString()] is [iso] and the file system clock reads
    [mtime]. *)
Definition saveSnapshot (dir : option (list Entry)) (iso : string)
  (mtime : Z) (currentContent : string) : option (list Entry) :=
  let entries := match dir with Some l => l | None => [] end in
  let timestamp := replaceColons iso in
  let fileName := "architecture_" ++ timestamp ++ ".txt" in
  Some (writeFile {| ename := fileName; etype := FileType_File;
                     emtime := Some mtime; edeletable := true;
                     econtent := currentContent |} entries).

(** What extension.ts does after each generation: save, then prune. *)
Definition saveAndPrune (maxSnapshots : Z) (dir : option (list Entry))
  (shot : string * Z * string) : option (list Entry) :=
  let '(iso, mtime, content) := shot in
  pruneSnapshots (saveSnapshot dir iso mtime content) maxSnapshots.

Definition snapshotCount (dir : option (list Entry)) : nat :=
  match dir with
  | Some entries => List.length (snapshotNamesOf entries)
  | None => 0%nat
  end.

End History.

(* ===================================================================== *)
(** ** lm-client.ts: the request arbiter *)
(* ===================================================================== *)

Module LmClient.

Definition QUOTA_COOLDOWN_MS : Z := 60000.
Definition RETRY_DELAY_MS : Z := 3000.

Record LanguageModelChat := {
  name : string;
  vendor : string
}.

(** What a [catch] clause can receive. *)
Inductive Thrown :=
| LanguageModelError (message code : string)
| PlainError (message : string).

Definition cooldownMessage : string :=
  "ASCII Agent: LM quota cooldown active. Skipping request.".

Definition noModelMessage : string :=
  "ASCII Agent: No Copilot LM model available.".

(** [s.toLowerCase()], on ASCII letters. *)
Definition lowerChar (c : ascii) : ascii :=
  let n := nat_of_ascii c in
  if (Nat.leb 65 n && Nat.leb n 90)%bool then ascii_of_nat (n + 32) else c.

Fixpoint toLowerCase (s : string) : string :=
  match s with
  | EmptyString => EmptyString
  | String c rest => String (lowerChar c) (toLowerCase rest)
  end.

(** [s.includes(sub)] *)
Fixpoint includes (s sub : string) : bool :=
  if String.prefix sub s then true
  else match s with
       | EmptyString => false
       | String _ rest => includes rest sub
       end.

(** The first test of [handleLanguageModelError]. *)
Definition isQuotaError (message code : string) : bool :=
  let msg := toLowerCase message in
  (includes msg "quota" || includes msg "rate limit"
   || String.eqb code "quota-exceeded")%bool.

(** Its second test. *)
Definition isConsentError (message code : string) : bool :=
  let msg := toLowerCase message in
  (includes msg "consent" || includes msg "not authorized"
   || String.eqb code "no-permissions")%bool.

(** Where a [sendPrompt] call is suspended, or how it settled. *)
Inductive CallState :=
| NotCalled
| AwaitingSelection (sel : nat) (token : bool)
| AwaitingResponse (attempt : nat)
| Streaming (attempt : nat) (fullText : string)
| Sleeping
| Returned (text : string)
| Threw (err : Thrown).

(** A [selectModel()] call suspended at [await selectChatModels(...)],
    with the [sendPrompt] call that awaits it, if any. *)
Inductive Selection :=
| NoSelection
| SelectionPending (waiter : option nat)
| SelectionDone.

(** What a pending [setTimeout] runs. *)
Inductive TimerAction :=
| ClearCooldown
| WakeSleep (call : nat).

Record Timer := {
  tid : nat;
  due : Z;
  action : TimerAction
}.

(** Calls into the VS Code API, in the order they are made.  The
    cancellation token source of a call is named by the call. *)
Inductive Effect :=
| SelectChatModels (sel : nat)
| SendRequest (call attempt : nat)
| CancelCts (call : nat)
| DisposeCts (call : nat)
| ShowInformationMessage.

(** The closure variables of [createLmClient] and the event loop state
    they live in. *)
Record Client := {
  now : Z;
  cachedModel : option LanguageModelChat;
  quotaCooldown : bool;
  cooldownTimer : option nat;
  currentRequestCts : option nat;
  listening : bool;
  timers : list Timer;
  nextTimer : nat;
  selections : nat -> Selection;
  nextSelection : nat;
  calls : nat -> CallState;
  tokenListener : nat -> bool;
  cancelled : nat -> bool;
  effects : list Effect
}.

Definition set_now (v : Z) (s : Client) : Client :=
  {| now := v; cachedModel := cachedModel s;
     quotaCooldown := quotaCooldown s; cooldownTimer := cooldownTimer s;
     currentRequestCts := currentRequestCts s; listening := listening s;
     timers := timers s; nextTimer := nextTimer s;
     selections := selections s; nextSelection := nextSelection s;
     calls := calls s; tokenListener := tokenListener s;
     cancelled := cancelled s; effects := effects s |}.

Definition set_cachedModel (v : option LanguageModelChat) (s : Client) : Client :=
  {| now := now s; cachedModel := v; quotaCooldown := quotaCooldown s;
     cooldownTimer := cooldownTimer s;
     currentRequestCts := currentRequestCts s; listening := listening s;
     timers := timers s; nextTimer := nextTimer s;
     selections := selections s; nextSelection := nextSelection s;
     calls := calls s; tokenListener := tokenListener s;
     cancelled := cancelled s; effects := effects s |}.

Definition set_quotaCooldown (v : bool) (s : Client) : Client :=
  {| now := now s; cachedModel := cachedModel s; quotaCooldown := v;
     cooldownTimer := cooldownTimer s;
     currentRequestCts := currentRequestCts s; listening := listening s;
     timers := timers s; nextTimer := nextTimer s;
     selections := selections s; nextSelection := nextSelection s;
     calls := calls s; tokenListener := tokenListener s;
     cancelled := cancelled s; effects := effects s |}.

Definition set_cooldownTimer (v : option nat) (s : Client) : Client :=
  {| now := now s; cachedModel := cachedModel s;
     quotaCooldown := quotaCooldown s; cooldownTimer := v;
     currentRequestCts := currentRequestCts s; listening := listening s;
     timers := timers s; nextTimer := nextTimer s;
     selections := selections s; nextSelection := nextSelection s;
     calls := calls s; tokenListener := tokenListener s;
     cancelled := cancelled s; effects := effects s |}.

Definition set_currentRequestCts (v : option nat) (s : Client) : Client :=
  {| now := now s; cachedModel := cachedModel s;
     quotaCooldown := quotaCooldown s; cooldownTimer := cooldownTimer s;
     currentRequestCts := v; listening := listening s; timers := timers s;
     nextTimer := nextTimer s; selections := selections s;
     nextSelection := nextSelection s; calls := calls s;
     tokenListener := tokenListener s; cancelled := cancelled s;
     effects := effects s |}.

Definition set_listening (v : bool) (s : Client) : Client :=
  {| now := now s; cachedModel := cachedModel s;
     quotaCooldown := quotaCooldown s; cooldownTimer := cooldownTimer s;
     currentRequestCts := currentRequestCts s; listening := v;
     timers := timers s; nextTimer := nextTimer s;
     selections := selections s; nextSelection := nextSelection s;
     calls := calls s; tokenListener := tokenListener s;
     cancelled := cancelled s; effects := effects s |}.

Definition set_timers (v : list Timer) (s : Client) : Client :=
  {| now := now s; cachedModel := cachedModel s;
     quotaCooldown := quotaCooldown s; cooldownTimer := cooldownTimer s;
     currentRequestCts := currentRequestCts s; listening := listening s;
     timers := v; nextTimer := nextTimer s; selections := selections s;
     nextSelection := nextSelection s; calls := calls s;
     tokenListener := tokenListener s; cancelled := cancelled s;
     effects := effects s |}.

Definition set_nextTimer (v : nat) (s : Client) : Client :=
  {| now := now s; cachedModel := cachedModel s;
     quotaCooldown := quotaCooldown s; cooldownTimer := cooldownTimer s;
     currentRequestCts := currentRequestCts s; listening := listening s;
     timers := timers s; nextTimer := v; selections := selections s;
     nextSelection := nextSelection s; calls := calls s;
     tokenListener := tokenListener s; cancelled := cancelled s;
     effects := effects s |}.

Definition set_selections (v : nat -> Selection) (s : Client) : Client :=
  {| now := now s; cachedModel := cachedModel s;
     quotaCooldown := quotaCooldown s; cooldownTimer := cooldownTimer s;
     currentRequestCts := currentRequestCts s; listening := listening s;
     timers := timers s; nextTimer := nextTimer s; selections := v;
     nextSelection := nextSelection s; calls := calls s;
     tokenListener := tokenListener s; cancelled := cancelled s;
     effects := effects s |}.

Definition set_nextSelection (v : nat) (s : Client) : Client :=
  {| now := now s; cachedModel := cachedModel s;
     quotaCooldown := quotaCooldown s; cooldownTimer := cooldownTimer s;
     currentRequestCts := currentRequestCts s; listening := listening s;
     timers := timers s; nextTimer := nextTimer s;
     selections := selections s; nextSelection := v; calls := calls s;
     tokenListener := tokenListener s; cancelled := cancelled s;
     effects := effects s |}.

Definition set_calls (v : nat -> CallState) (s : Client) : Client :=
  {| now := now s; cachedModel := cachedModel s;
     quotaCooldown := quotaCooldown s; cooldownTimer := cooldownTimer s;
     currentRequestCts := currentRequestCts s; listening := listening s;
     timers := timers s; nextTimer := nextTimer s;
     selections := selections s; nextSelection := nextSelection s;
     calls := v; tokenListener := tokenListener s;
     cancelled := cancelled s; effects := effects s |}.

Definition set_tokenListener (v : nat -> bool) (s : Client) : Client :=
  {| now := now s; cachedModel := cachedModel s;
     quotaCooldown := quotaCooldown s; cooldownTimer := cooldownTimer s;
     currentRequestCts := currentRequestCts s; listening := listening s;
     timers := timers s; nextTimer := nextTimer s;
     selections := selections s; nextSelection := nextSelection s;
     calls := calls s; tokenListener := v; cancelled := cancelled s;
     effects := effects s |}.

Definition set_cancelled (v : nat -> bool) (s : Client) : Client :=
  {| now := now s; cachedModel := cachedModel s;
     quotaCooldown := quotaCooldown s; cooldownTimer := cooldownTimer s;
     currentRequestCts := currentRequestCts s; listening := listening s;
     timers := timers s; nextTimer := nextTimer s;
     selections := selections s; nextSelection := nextSelection s;
     calls := calls s; tokenListener := tokenListener s; cancelled := v;
     effects := effects s |}.

Definition set_effects (v : list Effect) (s : Client) : Client :=
  {| now := now s; cachedModel := cachedModel s;
     quotaCooldown := quotaCooldown s; cooldownTimer := cooldownTimer s;
     currentRequestCts := currentRequestCts s; listening := listening s;
     timers := timers s; nextTimer := nextTimer s;
     selections := selections s; nextSelection := nextSelection s;
     calls := calls s; tokenListener := tokenListener s;
     cancelled := cancelled s; effects := v |}.

Definition upd {A} (f : nat -> A) (k : nat) (v : A) : nat -> A :=
  fun i => if Nat.eqb i k then v else f i.

Definition emit (e : Effect) (s : Client) : Client :=
  set_effects (effects s ++ [e])%list s.

Definition setCall (c : nat) (st : CallState) (s : Client) : Client :=
  set_calls (upd (calls s) c st) s.

(** [selectModel()] up to its [await]. *)
Definition startSelection (waiter : option nat) (s : Client) : Client :=
  let k := nextSelection s in
  emit (SelectChatModels k)
    (set_nextSelection (S k)
       (set_selections (upd (selections s) k (SelectionPending waiter)) s)).

(** [createLmClient()] at time [t0]: everything unset, the eager
    [selectModel()] under way, the model-change listener installed. *)
Definition createLmClient (t0 : Z) : Client :=
  startSelection None
    {| now := t0; cachedModel := None; quotaCooldown := false;
       cooldownTimer := None; currentRequestCts := None; listening := true;
       timers := []; nextTimer := 0; selections := fun _ => NoSelection;
       nextSelection := 0; calls := fun _ => NotCalled;
       tokenListener := fun _ => false; cancelled := fun _ => false;
       effects := [] |}.

(** [cts.cancel()] *)
Definition cancelCts (c : nat) (s : Client) : Client :=
  emit (CancelCts c) (set_cancelled (upd (cancelled s) c true) s).

(** [cts.dispose()] *)
Definition disposeCts (c : nat) (s : Client) : Client :=
  emit (DisposeCts c) s.

(** [if (currentRequestCts) { cancel(); dispose(); = undefined }] *)
Definition cancelCurrent (s : Client) : Client :=
  match currentRequestCts s with
  | Some k => set_currentRequestCts None (disposeCts k (cancelCts k s))
  | None => s
  end.

(** [model.sendRequest(messages, {}, token)], up to its [await]. *)
Definition sendRequest (c attempt : nat) (s : Client) : Client :=
  setCall c (AwaitingResponse attempt) (emit (SendRequest c attempt) s).

(** [sendPrompt] from "last-write-wins" to the first [await] of
    [executeRequest]: the slot is vacated, a fresh token source (not
    cancelled) takes it, the external token is wired, the request is sent. *)
Definition beginRequest (c : nat) (token : bool) (s : Client) : Client :=
  let s1 := cancelCurrent s in
  let s2 := set_currentRequestCts (Some c)
              (set_cancelled (upd (cancelled s1) c false) s1) in
  let s3 := set_tokenListener (upd (tokenListener s2) c token) s2 in
  sendRequest c 0 s3.

(** The [finally] block of [sendPrompt]; the call settles with [outcome]. *)
Definition settle (c : nat) (outcome : CallState) (s : Client) : Client :=
  let s1 := set_tokenListener (upd (tokenListener s) c false) s in
  let s2 := match currentRequestCts s1 with
            | Some k => if Nat.eqb k c then set_currentRequestCts None s1
                        else s1
            | None => s1
            end in
  setCall c outcome (disposeCts c s2).

(** [setTimeout(callback, delay)].  The client arms timers with
    [QUOTA_COOLDOWN_MS] and [RETRY_DELAY_MS] only, which the runtime takes
    as they are. *)
Definition setTimeout (a : TimerAction) (delay : Z) (s : Client) : Client :=
  set_nextTimer (S (nextTimer s))
    (set_timers (timers s ++ [{| tid := nextTimer s; due := now s + delay;
                                 action := a |}])%list s).

(** [clearTimeout(id)] *)
Definition clearTimeout (id : nat) (s : Client) : Client :=
  set_timers (filter (fun tm => negb (Nat.eqb (tid tm) id)) (timers s)) s.

(** [handleLanguageModelError(err, attempt)]: the state it leaves; it
    always throws [err]. *)
Definition handleLanguageModelError (message code : string) (attempt : nat)
  (s : Client) : Client :=
  if isQuotaError message code then
    set_cooldownTimer (Some (nextTimer s))
      (setTimeout ClearCooldown QUOTA_COOLDOWN_MS (set_quotaCooldown true s))
  else if isConsentError message code then emit ShowInformationMessage s
  else s.

(** [sendPrompt(messages, token)] up to its first [await] (or throw). *)
Definition sendPrompt (c : nat) (token : bool) (s : Client) : Client :=
  match calls s c with
  | NotCalled =>
      if quotaCooldown s then setCall c (Threw (PlainError cooldownMessage)) s
      else match cachedModel s with
           | Some _ => beginRequest c token s
           | None =>
               setCall c (AwaitingSelection (nextSelection s) token)
                 (startSelection (Some c) s)
           end
  | _ => s
  end.

(** [selectChatModels] settles ([None]: it rejected): the rest of
    [selectModel], then of the [sendPrompt] call awaiting it. *)
Definition selectionResolved (k : nat)
  (models : option (list LanguageModelChat)) (s : Client) : Client :=
  match selections s k with
  | SelectionPending waiter =>
      let chosen := match models with
                    | Some (m :: _) => Some m
                    | _ => None
                    end in
      let s1 := set_cachedModel chosen
                  (set_selections (upd (selections s) k SelectionDone) s) in
      match waiter with
      | Some c =>
          match calls s1 c with
          | AwaitingSelection _ token =>
              match chosen with
              | Some _ => beginRequest c token s1
              | None => setCall c (Threw (PlainError noModelMessage)) s1
              end
          | _ => s1
          end
      | None => s1
      end
  | _ => s
  end.

(** [onDidChangeChatModels] fires. *)
Definition modelsChanged (s : Client) : Client :=
  if listening s then startSelection None s else s.

(** [model.sendRequest] resolves: the stream loop starts. *)
Definition responseArrived (c : nat) (s : Client) : Client :=
  match calls s c with
  | AwaitingResponse attempt => setCall c (Streaming attempt "") s
  | _ => s
  end.

(** The stream yields a chunk. *)
Definition chunkArrived (c : nat) (chunk : string) (s : Client) : Client :=
  match calls s c with
  | Streaming attempt fullText =>
      if cancelled s c then settle c (Returned fullText) s
      else setCall c (Streaming attempt (fullText ++ chunk)) s
  | _ => s
  end.

(** The stream ends. *)
Definition streamEnded (c : nat) (s : Client) : Client :=
  match calls s c with
  | Streaming _ fullText => settle c (Returned fullText) s
  | _ => s
  end.

(** [model.sendRequest] or the stream rejects with [err]: the [catch]
    clause of [executeRequest]. *)
Definition requestFailed (c : nat) (err : Thrown) (s : Client) : Client :=
  let handle attempt :=
    match err with
    | LanguageModelError message code =>
        settle c (Threw err) (handleLanguageModelError message code attempt s)
    | PlainError _ =>
        if Nat.eqb attempt 0
        then setCall c Sleeping (setTimeout (WakeSleep c) RETRY_DELAY_MS s)
        else settle c (Threw err) s
    end in
  match calls s c with
  | AwaitingResponse attempt => handle attempt
  | Streaming attempt _ => handle attempt
  | _ => s
  end.

(** The external token of a call is cancelled. *)
Definition externalCancel (c : nat) (s : Client) : Client :=
  if tokenListener s c then cancelCts c s else s.

Definition cancelAll (s : Client) : Client := cancelCurrent s.

Definition dispose (s : Client) : Client :=
  let s1 := set_listening false (cancelAll s) in
  match cooldownTimer s1 with
  | Some id => clearTimeout id s1
  | None => s1
  end.

(** [isAvailable()] *)
Definition isAvailable (s : Client) : bool :=
  match cachedModel s with
  | Some _ => negb (quotaCooldown s)
  | None => false
  end.

(** A timer callback. *)
Definition fire (tm : Timer) (s : Client) : Client :=
  match action tm with
  | ClearCooldown => set_quotaCooldown false s
  | WakeSleep c =>
      match calls s c with
      | Sleeping => sendRequest c 1 s
      | _ => s
      end
  end.

Fixpoint earliest (l : list Timer) : option Timer :=
  match l with
  | [] => None
  | tm :: rest =>
      match earliest rest with
      | Some tm' => if due tm <=? due tm' then Some tm else Some tm'
      | None => Some tm
      end
  end.

Fixpoint fireDue (fuel : nat) (T : Z) (s : Client) : Client :=
  match fuel with
  | O => s
  | S fuel' =>
      match earliest (timers s) with
      | Some tm =>
          if due tm <=? T
          then fireDue fuel' T
                 (fire tm (set_now (Z.max (now s) (due tm))
                                   (clearTimeout (tid tm) s)))
          else s
      | None => s
      end
  end.

(** Let the clock run to [T]. *)
Definition advance (T : Z) (s : Client) : Client :=
  let s' := fireDue (List.length (timers s)) T s in
  set_now (Z.max (now s') T) s'.

(** One turn of the event loop. *)
Inductive Event :=
| SendPrompt (call : nat) (token : bool)
| SelectionResolved (sel : nat) (models : option (list LanguageModelChat))
| ModelsChanged
| ResponseArrived (call : nat)
| Chunk (call : nat) (text : string)
| StreamEnd (call : nat)
| RequestFailed (call : nat) (err : Thrown)
| ExternalCancel (call : nat)
| CancelAll
| Dispose
| Advance (t : Z).

Definition step (ev : Event) (s : Client) : Client :=
  match ev with
  | SendPrompt c token => sendPrompt c token s
  | SelectionResolved k models => selectionResolved k models s
  | ModelsChanged => modelsChanged s
  | ResponseArrived c => responseArrived c s
  | Chunk c text => chunkArrived c text s
  | StreamEnd c => streamEnded c s
  | RequestFailed c err => requestFailed c err s
  | ExternalCancel c => externalCancel c s
  | CancelAll => cancelAll s
  | Dispose => dispose s
  | Advance t => advance t s
  end.

Definition run (evs : list Event) (s : Client) : Client :=
  fold_left (fun st ev => step ev st) evs s.

End LmClient.

(* ===================================================================== *)
(** ** out/extension.js: [isAvailable] of the bundled lm-client *)
(* ===================================================================== *)

Module LmBundle.

(** The bundle keeps the promise of the latest eager [selectModel()] in
    [initialSelectionPromise]; [isAvailable] is [async] and awaits it
    while no model is cached.  Selections are named by number;
    [settled k] tells whether the promise of selection [k] has settled;
    [waiting] lists the [isAvailable] calls suspended on a promise. *)
Record Client := {
  cachedModel : option LmClient.LanguageModelChat;
  quotaCooldown : bool;
  initialSelectionPromise : nat;
  nextSelection : nat;
  settled : nat -> bool;
  waiting : list (nat * nat);
  answers : nat -> option bool
}.

Definition createLmClient : Client :=
  {| cachedModel := None; quotaCooldown := false;
     initialSelectionPromise := 0; nextSelection := 1;
     settled := fun _ => false; waiting := [];
     answers := fun _ => None |}.

(** [return cachedModel !== undefined && !quotaCooldown] *)
Definition answerNow (s : Client) : bool :=
  match cachedModel s with
  | Some _ => negb (quotaCooldown s)
  | None => false
  end.

Definition answer (q : nat) (s : Client) : Client :=
  {| cachedModel := cachedModel s; quotaCooldown := quotaCooldown s;
     initialSelectionPromise := initialSelectionPromise s;
     nextSelection := nextSelection s; settled := settled s;
     waiting := waiting s;
     answers := LmClient.upd (answers s) q (Some (answerNow s)) |}.

(** A call [isAvailable()], named [q]. *)
Definition isAvailable (q : nat) (s : Client) : Client :=
  match cachedModel s with
  | Some _ => answer q s
  | None =>
      if settled s (initialSelectionPromise s) then answer q s
      else
        {| cachedModel := cachedModel s; quotaCooldown := quotaCooldown s;
           initialSelectionPromise := initialSelectionPromise s;
           nextSelection := nextSelection s; settled := settled s;
           waiting := (waiting s ++ [(q, initialSelectionPromise s)])%list;
           answers := answers s |}
  end.

(** [onDidChangeChatModels]: [initialSelectionPromise = selectModel()]. *)
Definition modelsChanged (s : Client) : Client :=
  {| cachedModel := cachedModel s; quotaCooldown := quotaCooldown s;
     initialSelectionPromise := nextSelection s;
     nextSelection := S (nextSelection s); settled := settled s;
     waiting := waiting s; answers := answers s |}.

(** Selection [k] settles: [cachedModel] is set, then the [isAvailable]
    calls awaiting that promise resume. *)
Definition selectionResolved (k : nat)
  (models : option (list LmClient.LanguageModelChat)) (s : Client) : Client :=
  let chosen := match models with
                | Some (m :: _) => Some m
                | _ => None
                end in
  let s1 :=
    {| cachedModel := chosen; quotaCooldown := quotaCooldown s;
       initialSelectionPromise := initialSelectionPromise s;
       nextSelection := nextSelection s;
       settled := LmClient.upd (settled s) k true;
       waiting := filter (fun w => negb (Nat.eqb (snd w) k)) (waiting s);
       answers := answers s |} in
  fold_left (fun st w => if Nat.eqb (snd w) k then answer (fst w) st else st)
            (waiting s) s1.

End LmBundle.

(* ===================================================================== *)
(** ** JavaScript string methods the modules below rely on *)
(* ===================================================================== *)

Module Js.

(** [s.split(sep)] for a one-character separator: the pieces between the
    separators; never empty. *)
Fixpoint split (sep : ascii) (s : string) : list string :=
  match s with
  | EmptyString => [EmptyString]
  | String c rest =>
      if Ascii.eqb c sep then EmptyString :: split sep rest
      else match split sep rest with
           | piece :: pieces => String c piece :: pieces
           | [] => [String c EmptyString]
           end
  end.

(** [parts.join(sep)] *)
Fixpoint join (sep : string) (parts : list string) : string :=
  match parts with
  | [] => EmptyString
  | [piece] => piece
  | piece :: rest => piece ++ sep ++ join sep rest
  end.

(** [array.sort()] on strings: ascending by code unit. *)
Fixpoint insertSorted (x : string) (l : list string) : list string :=
  match l with
  | [] => [x]
  | y :: rest =>
      if String.leb y x then y :: insertSorted x rest else x :: l
  end.

Definition sort (l : list string) : list string :=
  fold_left (fun acc x => insertSorted x acc) l [].

End Js.

(* ===================================================================== *)
(** ** utils.ts: brace expansion *)
(* ===================================================================== *)

Module Glob.

(** The regular expression of [expandBraces] matches an opening brace, any
    run of characters that are not braces, and a closing brace.  This is
    the rest of such a match after its opening brace: the text up to the
    closing brace when no brace comes before it, and what follows. *)
Fixpoint untilClose (s : string) : option (string * string) :=
  match s with
  | EmptyString => None
  | String c rest =>
      if Ascii.eqb c "}"%char then Some (EmptyString, rest)
      else if Ascii.eqb c "{"%char then None
      else match untilClose rest with
           | Some (inner, after) => Some (String c inner, after)
           | None => None
           end
  end.

(** [exec(pattern)] of that expression: the leftmost match, as the text
    before it, its group [match[1]], and the text after it. *)
Fixpoint exec (pattern : string) : option (string * string * string) :=
  match pattern with
  | EmptyString => None
  | String c rest =>
      match (if Ascii.eqb c "{"%char then untilClose rest else None) with
      | Some (inner, after) => Some (EmptyString, inner, after)
      | None =>
          match exec rest with
          | Some (before, inner, after) => Some (String c before, inner, after)
          | None => None
          end
      end
  end.

Fixpoint countOpen (s : string) : nat :=
  match s with
  | EmptyString => 0%nat
  | String c rest =>
      ((if Ascii.eqb c "{"%char then 1 else 0) + countOpen rest)%nat
  end.

(** [expandBraces(pattern)], with the depth of the recursion bounded by
    [fuel]. *)
Fixpoint expandBracesWithin (fuel : nat) (pattern : string) : list string :=
  match exec pattern with
  | None => [pattern]
  | Some (before, inner, after) =>
      match fuel with
      | O => []
      | S fuel' =>
          flat_map (fun alt => expandBracesWithin fuel' (before ++ alt ++ after))
                   (Js.split ","%char inner)
      end
  end.

(** Every expansion removes one opening brace, so their number bounds the
    depth. *)
Definition expandBraces (pattern : string) : list string :=
  expandBracesWithin (countOpen pattern) pattern.

Section Minimatch.
(** [matchGlob(path, pattern)] compiles a brace-free pattern to a regular
    expression; it is taken as a capability. *)
Variable matchGlob : string -> string -> bool.

(** [minimatch(path, pattern)] *)
Definition minimatch (path pattern : string) : bool :=
  let normalizedPath := Utils.normalizeSeparators path in
  let patterns := expandBraces pattern in
  existsb (fun p => matchGlob normalizedPath p) patterns.
End Minimatch.

End Glob.

(* ===================================================================== *)
(** ** extension.ts: writing an output file *)
(* ===================================================================== *)

Module Extension.

(** Calls into [vscode.workspace.fs], each on [Uri.joinPath(root, rel)]. *)
Inductive FsCall :=
| CreateDirectory (root rel : string)
| WriteFile (root rel content : string).

(** [relPath.split("/").slice(0, -1).join("/")] *)
Definition parentRel (relPath : string) : string :=
  Js.join "/" (removelast (Js.split "/"%char relPath)).

(** [writeOutputFile(workspaceRoot, relPath, content)] *)
Definition writeOutputFile (workspaceRoot relPath content : string)
  : list FsCall :=
  let parent := parentRel relPath in
  ((if String.eqb parent "" then []
    else [CreateDirectory workspaceRoot parent])
   ++ [WriteFile workspaceRoot relPath content])%list.

End Extension.

(* ===================================================================== *)
(** ** token-tracker.ts *)
(* ===================================================================== *)

Module TokenTracker.

(** Token estimates and request counts are whole numbers far below 2^53,
    where JavaScript addition is exact. *)
Record TokenUsageTotals := {
  inputTokensEstimate : Z;
  outputTokensEstimate : Z;
  requestCount : Z
}.

Definition LIFETIME_KEY : string := "asciiAgent.tokenUsage.lifetime".
Definition SESSION_KEY : string := "asciiAgent.tokenUsage.session".

(** [context.globalState] *)
Definition Memento := string -> option TokenUsageTotals.

(** [globalState.update(key, value)] *)
Definition update (key : string) (value : TokenUsageTotals) (m : Memento)
  : Memento :=
  fun k => if String.eqb k key then Some value else m k.

Definition emptyTotals : TokenUsageTotals :=
  {| inputTokensEstimate := 0; outputTokensEstimate := 0; requestCount := 0 |}.

Definition getSessionTokenUsage (m : Memento) : TokenUsageTotals :=
  match m SESSION_KEY with
  | Some totals => totals
  | None => emptyTotals
  end.

Definition getLifetimeTokenUsage (m : Memento) : TokenUsageTotals :=
  match m LIFETIME_KEY with
  | Some totals => totals
  | None => emptyTotals
  end.

Definition recordTokenUsage (input output : Z) (m : Memento) : Memento :=
  let session := getSessionTokenUsage m in
  let newSession :=
    {| inputTokensEstimate := inputTokensEstimate session + input;
       outputTokensEstimate := outputTokensEstimate session + output;
       requestCount := requestCount session + 1 |} in
  let m1 := update SESSION_KEY newSession m in
  let lifetime := getLifetimeTokenUsage m1 in
  let newLifetime :=
    {| inputTokensEstimate := inputTokensEstimate lifetime + input;
       outputTokensEstimate := outputTokensEstimate lifetime + output;
       requestCount := requestCount lifetime + 1 |} in
  update LIFETIME_KEY newLifetime m1.

Definition resetSessionTokens (m : Memento) : Memento :=
  update SESSION_KEY emptyTotals m.

End TokenTracker.

(* ===================================================================== *)
(** ** config.ts *)
(* ===================================================================== *)

Module Config.

(** [AsciiAgentConfig] with the two fields the scheduling code does not
    read. *)
Record FullConfig := {
  core : AsciiAgentConfig;
  autoWatchEnabled : bool;
  tags : option (list (string * string))
}.

(** [Partial<AsciiAgentConfig>] as [JSON.parse] returns it from a file
    whose fields have their declared types; an absent key is [None]. *)
Record PartialOutputPaths := {
  given_fileTree : option string;
  given_architecture : option string
}.

Record PartialConfig := {
  given_ignore : option (list string);
  given_architectureWatchPatterns : option (list string);
  given_outputPaths : option PartialOutputPaths;
  given_debounceMs : option Z;
  given_maxHistorySnapshots : option Z;
  given_autoWatchEnabled : option bool;
  given_contextFiles : option (list string);
  given_filePriority : option (list string);
  given_tags : option (list (string * string))
}.

Definition getDefaultConfig : FullConfig :=
  {| core :=
       {| ignore := ["node_modules"; ".git"; "dist"; "out"; ".ascii_history";
                     "*.log"; ".DS_Store"; "yarn.lock"; "package-lock.json"];
          architectureWatchPatterns :=
            ["src/**/*.{ts,tsx,js,jsx}"; "lib/**/*.{ts,tsx,js,jsx}";
             "api/**/*.ts"];
          outputPaths_fileTree := "docs/file_tree.txt";
          outputPaths_architecture := "docs/architecture.txt";
          debounceMs := 2000;
          maxHistorySnapshots := 50;
          contextFiles := [];
          filePriority := [] |};
     autoWatchEnabled := true;
     tags := None |}.

(** [x !== undefined ? x : y] *)
Definition orElse {A} (x : option A) (y : A) : A :=
  match x with
  | Some v => v
  | None => y
  end.

Definition deepMergeConfig (base : FullConfig) (overrides : PartialConfig)
  : FullConfig :=
  {| core :=
       {| ignore := orElse (given_ignore overrides) (ignore (core base));
          architectureWatchPatterns :=
            orElse (given_architectureWatchPatterns overrides)
                   (architectureWatchPatterns (core base));
          outputPaths_fileTree :=
            match given_outputPaths overrides with
            | Some paths =>
                orElse (given_fileTree paths) (outputPaths_fileTree (core base))
            | None => outputPaths_fileTree (core base)
            end;
          outputPaths_architecture :=
            match given_outputPaths overrides with
            | Some paths =>
                orElse (given_architecture paths)
                       (outputPaths_architecture (core base))
            | None => outputPaths_architecture (core base)
            end;
          debounceMs :=
            orElse (given_debounceMs overrides) (debounceMs (core base));
          maxHistorySnapshots :=
            orElse (given_maxHistorySnapshots overrides)
                   (maxHistorySnapshots (core base));
          contextFiles :=
            orElse (given_contextFiles overrides) (contextFiles (core base));
          filePriority :=
            orElse (given_filePriority overrides) (filePriority (core base)) |};
     autoWatchEnabled :=
       orElse (given_autoWatchEnabled overrides) (autoWatchEnabled base);
     tags := match given_tags overrides with
             | Some t => Some t
             | None => tags base
             end |}.

(** [vscode.window.showWarningMessage] calls. *)
Inductive Warning :=
| Malformed
| DebounceReset
| MaxSnapshotsReset.

Definition setDebounceMs (v : Z) (cfg : FullConfig) : FullConfig :=
  {| core :=
       {| ignore := ignore (core cfg);
          architectureWatchPatterns := architectureWatchPatterns (core cfg);
          outputPaths_fileTree := outputPaths_fileTree (core cfg);
          outputPaths_architecture := outputPaths_architecture (core cfg);
          debounceMs := v;
          maxHistorySnapshots := maxHistorySnapshots (core cfg);
          contextFiles := contextFiles (core cfg);
          filePriority := filePriority (core cfg) |};
     autoWatchEnabled := autoWatchEnabled cfg;
     tags := tags cfg |}.

Definition setMaxHistorySnapshots (v : Z) (cfg : FullConfig) : FullConfig :=
  {| core :=
       {| ignore := ignore (core cfg);
          architectureWatchPatterns := architectureWatchPatterns (core cfg);
          outputPaths_fileTree := outputPaths_fileTree (core cfg);
          outputPaths_architecture := outputPaths_architecture (core cfg);
          debounceMs := debounceMs (core cfg);
          maxHistorySnapshots := v;
          contextFiles := contextFiles (core cfg);
          filePriority := filePriority (core cfg) |};
     autoWatchEnabled := autoWatchEnabled cfg;
     tags := tags cfg |}.

(** [validateConfig(cfg)]: the corrected config and the warnings shown. *)
Definition validateConfig (cfg : FullConfig) : FullConfig * list Warning :=
  let '(cfg1, w1) :=
    if debounceMs (core cfg) <? 500
    then (setDebounceMs 500 cfg, [DebounceReset])
    else (cfg, []) in
  let '(cfg2, w2) :=
    if maxHistorySnapshots (core cfg1) <? 1
    then (setMaxHistorySnapshots 1 cfg1, [MaxSnapshotsReset])
    else (cfg1, []) in
  (cfg2, (w1 ++ w2)%list).

(** [text.replace(re, empty)] where the global expression [re] matches two
    slashes and everything up to the end of the line: [inComment] holds
    from a [//] up to the end of its line. *)
Fixpoint stripFrom (inComment : bool) (text : string) : string :=
  match text with
  | EmptyString => EmptyString
  | String c rest =>
      if inComment then
        if Ascii.eqb c "010"%char then String c (stripFrom false rest)
        else stripFrom true rest
      else
        match rest with
        | String c2 _ =>
            if (Ascii.eqb c "/"%char && Ascii.eqb c2 "/"%char)%bool
            then stripFrom true rest
            else String c (stripFrom false rest)
        | EmptyString => String c EmptyString
        end
  end.

Definition stripJsoncComments (text : string) : string := stripFrom false text.

End Config.

(* ---------------------------------------------------------------------- *)
(** ** config.ts on the values [JSON.parse] returns *)

(** [loadConfig] casts what [JSON.parse] returns to
    [Partial<AsciiAgentConfig>] without checking it, so the merge and the
    validation run on values of any shape.  This module follows them on
    untyped JSON values; [Config] above is the same code on values that
    have their declared types. *)
Module ConfigJs.

(** A number as [JSON.parse] builds it: the double [num / den], or an
    infinity for a literal beyond the range of doubles.  It builds no
    NaN. *)
Inductive Number :=
| Finite (num : Z) (den : positive)
| PlusInfinity
| MinusInfinity.

(** [x < bound] for a whole [bound]. *)
Definition numberBelow (x : Number) (bound : Z) : bool :=
  match x with
  | Finite num den => num <? bound * Z.pos den
  | PlusInfinity => false
  | MinusInfinity => true
  end.

#[local] Unset Elimination Schemes.
(** A value [JSON.parse] returns.  The fields of an object are its own
    properties (their keys are distinct); the order of the fields is not
    observed by the code. *)
Inductive Json :=
| JNull
| JBool (b : bool)
| JNumber (x : Number)
| JString (s : string)
| JArray (items : list Json)
| JObject (fields : list (string * Json)).
#[local] Set Elimination Schemes.

Fixpoint lookup (key : string) (fields : list (string * Json))
  : option Json :=
  match fields with
  | [] => None
  | (k, v) :: rest => if String.eqb k key then Some v else lookup key rest
  end.

(** [value.key] for a value other than [null] and a key of the
    configuration; [None] is [undefined].  None of these keys is a
    property that a string, an array, a number, a boolean or
    [Object.prototype] has. *)
Definition get (value : Json) (key : string) : option Json :=
  match value with
  | JObject fields => lookup key fields
  | _ => None
  end.

(** The key of an array index. *)
Definition indexKey (i : nat) : string :=
  NilZero.string_of_uint (Nat.to_uint i).

Fixpoint indexed (i : nat) (items : list Json) : list (string * Json) :=
  match items with
  | [] => []
  | x :: rest => (indexKey i, x) :: indexed (S i) rest
  end.

Fixpoint codeUnits (s : string) : list Json :=
  match s with
  | EmptyString => []
  | String c rest => JString (String c EmptyString) :: codeUnits rest
  end.

(** The own enumerable properties an object spread copies from a value:
    the fields of an object, the elements of an array and the characters
    of a string under their indices, nothing from [null], a number or a
    boolean. *)
Definition ownProperties (value : Json) : list (string * Json) :=
  match value with
  | JObject fields => fields
  | JArray items => indexed 0 items
  | JString s => indexed 0 (codeUnits s)
  | JNull | JBool _ | JNumber _ => []
  end.

Fixpoint setProperty (key : string) (v : Json) (fields : list (string * Json))
  : list (string * Json) :=
  match fields with
  | [] => [(key, v)]
  | (k, old) :: rest =>
      if String.eqb k key then (k, v) :: rest
      else (k, old) :: setProperty key v rest
  end.

Definition copyProperties (target source : list (string * Json))
  : list (string * Json) :=
  fold_left (fun acc kv => setProperty (fst kv) (snd kv) acc) source target.

(** [{ ...a, ...b }] *)
Definition spread (a b : Json) : Json :=
  JObject (copyProperties (copyProperties [] (ownProperties a))
             (ownProperties b)).

(** The object [deepMergeConfig] builds: one value for each key; only
    [tags] can be [undefined]. *)
Record ConfigObject := {
  ignore : Json;
  architectureWatchPatterns : Json;
  outputPaths : Json;
  debounceMs : Json;
  maxHistorySnapshots : Json;
  autoWatchEnabled : Json;
  contextFiles : Json;
  filePriority : Json;
  tags : option Json
}.

Definition whole (n : Z) : Json := JNumber (Finite n 1).

Definition strings (l : list string) : Json := JArray (map JString l).

Definition getDefaultConfig : ConfigObject :=
  {| ignore := strings ["node_modules"; ".git"; "dist"; "out";
                        ".ascii_history"; "*.log"; ".DS_Store"; "yarn.lock";
                        "package-lock.json"];
     architectureWatchPatterns :=
       strings ["src/**/*.{ts,tsx,js,jsx}"; "lib/**/*.{ts,tsx,js,jsx}";
                "api/**/*.ts"];
     outputPaths :=
       JObject [("fileTree", JString "docs/file_tree.txt");
                ("architecture", JString "docs/architecture.txt")];
     debounceMs := whole 2000;
     maxHistorySnapshots := whole 50;
     autoWatchEnabled := JBool true;
     contextFiles := strings [];
     filePriority := strings [];
     tags := None |}.

(** [deepMergeConfig(base, overrides)]; [None] when it throws: reading a
    property of [null] is a TypeError. *)
Definition deepMergeConfig (base : ConfigObject) (overrides : Json)
  : option ConfigObject :=
  match overrides with
  | JNull => None
  | _ =>
      Some
        {| ignore := Config.orElse (get overrides "ignore") (ignore base);
           architectureWatchPatterns :=
             Config.orElse (get overrides "architectureWatchPatterns")
                           (architectureWatchPatterns base);
           outputPaths :=
             match get overrides "outputPaths" with
             | Some paths => spread (outputPaths base) paths
             | None => outputPaths base
             end;
           debounceMs :=
             Config.orElse (get overrides "debounceMs") (debounceMs base);
           maxHistorySnapshots :=
             Config.orElse (get overrides "maxHistorySnapshots")
                           (maxHistorySnapshots base);
           autoWatchEnabled :=
             Config.orElse (get overrides "autoWatchEnabled")
                           (autoWatchEnabled base);
           contextFiles :=
             Config.orElse (get overrides "contextFiles") (contextFiles base);
           filePriority :=
             Config.orElse (get overrides "filePriority") (filePriority base);
           tags := match get overrides "tags" with
                   | Some t => Some t
                   | None => tags base
                   end |}
  end.

Definition setDebounceMs (v : Json) (cfg : ConfigObject) : ConfigObject :=
  {| ignore := ignore cfg;
     architectureWatchPatterns := architectureWatchPatterns cfg;
     outputPaths := outputPaths cfg;
     debounceMs := v;
     maxHistorySnapshots := maxHistorySnapshots cfg;
     autoWatchEnabled := autoWatchEnabled cfg;
     contextFiles := contextFiles cfg;
     filePriority := filePriority cfg;
     tags := tags cfg |}.

Definition setMaxHistorySnapshots (v : Json) (cfg : ConfigObject)
  : ConfigObject :=
  {| ignore := ignore cfg;
     architectureWatchPatterns := architectureWatchPatterns cfg;
     outputPaths := outputPaths cfg;
     debounceMs := debounceMs cfg;
     maxHistorySnapshots := v;
     autoWatchEnabled := autoWatchEnabled cfg;
     contextFiles := contextFiles cfg;
     filePriority := filePriority cfg;
     tags := tags cfg |}.

(** How the promise [loadConfig] returns settles, with the warnings shown
    until then. *)
Inductive Outcome :=
| Resolved (cfg : ConfigObject) (warnings : list Config.Warning)
| Rejected (warnings : list Config.Warning).

Section Loading.
(** [JSON.parse(text)]; [None] when it throws. *)
Variable JSON_parse : string -> option Json.
(** The number a string converts to; [None] is NaN. *)
Variable StringToNumber : string -> option Number.
(** The string an array or an object converts to in a comparison
    ([toString], as their [valueOf] returns no primitive); [None] when
    the conversion throws a TypeError, as it does for an object with an
    own property [toString]. *)
Variable ToPrimitive : Json -> option string.

Definition stringBelow (s : string) (bound : Z) : bool :=
  match StringToNumber s with
  | Some x => numberBelow x bound
  | None => false
  end.

(** [value < bound] for a number literal [bound]; [None] when the
    comparison throws.  [null] counts as 0, [false] and [true] as 0 and
    1, a string as the number it converts to; a comparison with NaN is
    false. *)
Definition lessThan (value : Json) (bound : Z) : option bool :=
  match value with
  | JNumber x => Some (numberBelow x bound)
  | JNull => Some (0 <? bound)
  | JBool b => Some ((if b then 1 else 0) <? bound)
  | JString s => Some (stringBelow s bound)
  | JArray _ | JObject _ =>
      match ToPrimitive value with
      | Some s => Some (stringBelow s bound)
      | None => None
      end
  end.

(** [validateConfig(cfg)] *)
Definition validateConfig (cfg : ConfigObject) : Outcome :=
  match lessThan (debounceMs cfg) 500 with
  | None => Rejected []
  | Some low =>
      let cfg1 := if low then setDebounceMs (whole 500) cfg else cfg in
      let w1 := if low then [Config.DebounceReset] else [] in
      match lessThan (maxHistorySnapshots cfg1) 1 with
      | None => Rejected w1
      | Some few =>
          Resolved
            (if few then setMaxHistorySnapshots (whole 1) cfg1 else cfg1)
            (w1 ++ (if few then [Config.MaxSnapshotsReset] else []))%list
      end
  end.

(** [loadConfig(workspaceRoot)], where [file] is what reading
    [.asciirc.json] gives ([None]: the read rejects).  The merge and the
    validation run outside the [try] around [JSON.parse]: what they throw
    rejects the promise. *)
Definition loadConfig (file : option string) : Outcome :=
  let defaults := getDefaultConfig in
  match file with
  | None => Resolved defaults []
  | Some rawText =>
      match JSON_parse (Config.stripJsoncComments rawText) with
      | None => Resolved defaults [Config.Malformed]
      | Some parsed =>
          match deepMergeConfig defaults parsed with
          | Some merged => validateConfig merged
          | None => Rejected []
          end
      end
  end.
End Loading.

End ConfigJs.

(* ===================================================================== *)
(** ** architecture-agent.ts: candidate files and their order *)
(* ===================================================================== *)

Module Agent.

(** What [readDirectory] shows of the workspace.  The listing of a
    directory is [None] when reading it rejects. *)
#[local] Unset Elimination Schemes.
Inductive FsNode :=
| FsFile (name : string)
| FsDirectory (name : string) (listing : option (list FsNode))
| FsOther (name : string).
#[local] Set Elimination Schemes.

Definition nameOf (n : FsNode) : string :=
  match n with
  | FsFile name | FsDirectory name _ | FsOther name => name
  end.

(** [relBase ? `${relBase}/${name}` : name] *)
Definition childPath (relBase name : string) : string :=
  match relBase with
  | EmptyString => name
  | _ => relBase ++ "/" ++ name
  end.

Section Candidates.
Variable minimatch : string -> string -> bool.
Variable config : AsciiAgentConfig.

Definition ignored (relPath name : string) : bool :=
  (Utils.matchesAnyPattern minimatch relPath (ignore config)
   || Utils.matchesAnyPattern minimatch name (ignore config))%bool.

(** The body of the [for] loop of [walk] for one entry: the paths it
    pushes to [candidates]. *)
Fixpoint visit (relBase : string) (n : FsNode) : list string :=
  let relPath := childPath relBase (nameOf n) in
  if ignored relPath (nameOf n) then []
  else match n with
       | FsDirectory _ (Some entries) => flat_map (visit relPath) entries
       | FsDirectory _ None => []
       | FsFile _ =>
           if Utils.matchesAnyPattern minimatch relPath
                (architectureWatchPatterns config)
           then [relPath] else []
       | FsOther _ => []
       end.

(** [walk(dirUri, relBase)] *)
Definition walk (listing : option (list FsNode)) (relBase : string)
  : list string :=
  match listing with
  | Some entries => flat_map (visit relBase) entries
  | None => []
  end.

(** [collectCandidateFiles(config, workspaceRoot)] *)
Definition collectCandidateFiles (root : option (list FsNode)) : list string :=
  Js.sort (walk root "").

(** [getPriorityScore(path, filePriority)], with the loop index [i]. *)
Fixpoint getPriorityScoreFrom (i : nat) (path : string)
  (filePriority : list string) : nat :=
  match filePriority with
  | [] => i
  | pattern :: rest =>
      if Utils.matchesAnyPattern minimatch path [pattern] then i
      else getPriorityScoreFrom (S i) path rest
  end.

Definition getPriorityScore (path : string) (filePriority : list string)
  : nat :=
  getPriorityScoreFrom 0 path filePriority.

(** [heuristicScore(path, contextSet)] *)
Definition heuristicScore (path : string) (contextSet : list string) : nat :=
  if Watcher.has contextSet path then 0%nat
  else
    let parts := Js.split "/"%char path in
    let first := nth 0 parts EmptyString in
    let inRoot := ((String.eqb first "src" || String.eqb first "lib")
                   && Nat.eqb (List.length parts) 2)%bool in
    if inRoot then 1%nat
    else if (String.eqb first "src" || String.eqb first "lib")%bool then 2%nat
    else 3%nat.

(** [a.localeCompare(b)] depends on the locale; it is taken as given. *)
Variable localeCompare : string -> string -> Z.

(** The comparator both branches of [prioritizeFiles] pass to [sort]. *)
Definition compareBy (score : string -> nat) (a b : string) : Z :=
  if negb (Nat.eqb (score a) (score b))
  then Z.of_nat (score a) - Z.of_nat (score b)
  else localeCompare a b.

(** [array.sort(compare)] is stable: an element goes after everything
    that does not compare greater. *)
Fixpoint insertBy (compare : string -> string -> Z) (x : string)
  (l : list string) : list string :=
  match l with
  | [] => [x]
  | y :: rest =>
      if compare y x <=? 0 then y :: insertBy compare x rest else x :: l
  end.

Definition sortBy (compare : string -> string -> Z) (l : list string)
  : list string :=
  fold_left (fun acc x => insertBy compare x acc) l [].

Definition prioritizeFiles (candidates : list string) : list string :=
  match filePriority config with
  | _ :: _ =>
      sortBy (compareBy (fun p => getPriorityScore p (filePriority config)))
             candidates
  | [] =>
      sortBy (compareBy (fun p => heuristicScore p (contextFiles config)))
             candidates
  end.
End Candidates.

End Agent.

(* ===================================================================== *)
(** ** tree-generator.ts *)
(* ===================================================================== *)

Module TreeGenerator.
Import Agent.

Definition MAX_ENTRIES : Z := 5000.

(** The default tag map, in insertion order (the order [Object.entries]
    yields). *)
Definition DEFAULT_TAGS : list (string * string) :=
  [("*.config.*", "[config]"); ("*.json", "[config]");
   ("src/components/**", "[ui]"); ("src/**", "[source]");
   ("lib/**", "[source]"); ("api/**", "[backend]"); ("docs/**", "[docs]");
   ("test/**", "[test]"); ("scripts/**", "[script]")].

(** The box-drawing pieces, as the UTF-8 bytes written to disk:
    a tee, a corner and a bar, the first two followed by two dashes. *)
Definition dash : string :=
  String "226" (String "148" (String "128" EmptyString)).
Definition tee : string :=
  String "226" (String "148" (String "156" EmptyString)).
Definition corner : string :=
  String "226" (String "148" (String "148" EmptyString)).
Definition bar : string :=
  String "226" (String "148" (String "130" EmptyString)).

Definition midConnector : string := tee ++ dash ++ dash ++ " ".
Definition lastConnector : string := corner ++ dash ++ dash ++ " ".
Definition midPrefix : string := bar ++ "   ".
Definition lastPrefix : string := "    ".

(** The closure variables [entryCount] and [truncated]. *)
Record Progress := {
  entryCount : Z;
  truncated : bool
}.

(** A number in a template literal. *)
Definition showNumber (n : nat) : string :=
  NilZero.string_of_uint (Nat.to_uint n).

Definition isDirectory (n : FsNode) : bool :=
  match n with
  | FsDirectory _ _ => true
  | _ => false
  end.

Section Generate.
Variable minimatch : string -> string -> bool.
Variable config : Config.FullConfig.
(** [a.localeCompare(b)] depends on the locale; it is taken as given. *)
Variable localeCompare : string -> string -> Z.

(** [config.tags ?? DEFAULT_TAGS] *)
Definition tagMap : list (string * string) :=
  match Config.tags config with
  | Some t => t
  | None => DEFAULT_TAGS
  end.

(** [resolveTag(relPath, tagMap)] *)
Fixpoint resolveTag (relPath : string) (map : list (string * string))
  : option string :=
  match map with
  | [] => None
  | (pattern, tag) :: rest =>
      if Utils.matchesAnyPattern minimatch relPath [pattern] then Some tag
      else resolveTag relPath rest
  end.

(** The comparator of [filtered.sort]: directories first, then by name. *)
Definition compareEntries (a b : FsNode) : Z :=
  if negb (Bool.eqb (isDirectory a) (isDirectory b))
  then (if isDirectory a then -1 else 1)
  else localeCompare (nameOf a) (nameOf b).

Fixpoint insertEntry (x : FsNode) (l : list FsNode) : list FsNode :=
  match l with
  | [] => [x]
  | y :: rest =>
      if compareEntries y x <=? 0 then y :: insertEntry x rest else x :: l
  end.

Definition sortEntries (l : list FsNode) : list FsNode :=
  fold_left (fun acc x => insertEntry x acc) l [].

(** The entries of a directory that are not ignored. *)
Definition shown (relPath : string) (entries : list FsNode) : list FsNode :=
  filter (fun n => negb (ignored minimatch (Config.core config)
                           (childPath relPath (nameOf n)) (nameOf n)))
         entries.

(** [tag ? `  ${tag}` : ""] *)
Definition tagSuffixOf (tag : option string) : string :=
  match tag with
  | Some EmptyString | None => EmptyString
  | Some t => "  " ++ t
  end.

(** The [for] loop of [buildLines] over the sorted entries that are left;
    [recur] is the recursive call of [buildLines]. *)
Definition entryLoop
  (recur : option (list FsNode) -> string -> string -> Progress
           -> list string * Progress)
  (relPath prefix : string)
  : list FsNode -> Progress -> list string * Progress :=
  fix loop (items : list FsNode) (st : Progress) {struct items}
    : list string * Progress :=
    match items with
    | [] => ([], st)
    | n :: rest =>
        if truncated st then ([], st)
        else
          let isLast := match rest with
                        | [] => true
                        | _ => false
                        end in
          let entryRelPath := childPath relPath (nameOf n) in
          let connector := if isLast then lastConnector else midConnector in
          let childPrefix := if isLast then lastPrefix else midPrefix in
          let st1 := {| entryCount := entryCount st + 1;
                        truncated := truncated st |} in
          if entryCount st1 >? MAX_ENTRIES then
            ([prefix ++ "... (truncated: " ++ showNumber (List.length items)
                ++ " more entries not shown)"],
             {| entryCount := entryCount st1; truncated := true |})
          else
            match n with
            | FsDirectory name sub =>
                let '(childLines, st2) :=
                  recur sub entryRelPath (prefix ++ childPrefix) st1 in
                let '(restLines, st3) := loop rest st2 in
                ((prefix ++ connector ++ name ++ "/")
                   :: (childLines ++ restLines)%list, st3)
            | _ =>
                let tagSuffix :=
                  tagSuffixOf (resolveTag entryRelPath tagMap) in
                let '(restLines, st3) := loop rest st1 in
                ((prefix ++ connector ++ nameOf n ++ tagSuffix)
                   :: restLines, st3)
            end
    end.

(** [buildLines(dirUri, relPath, prefix)]; [listing] is what
    [readDirectory(dirUri)] gives, and [fuel] bounds the depth of the
    recursion. *)
Fixpoint buildLines (fuel : nat) (listing : option (list FsNode))
  (relPath prefix : string) (st : Progress) : list string * Progress :=
  match fuel with
  | O => ([], st)
  | S fuel' =>
      if truncated st then ([], st)
      else
        match listing with
        | None => ([], st)
        | Some entries =>
            entryLoop (buildLines fuel') relPath prefix
              (sortEntries (shown relPath entries)) st
        end
  end.

(** The depth of recursion a directory needs. *)
Fixpoint depthOf (n : FsNode) : nat :=
  match n with
  | FsDirectory _ (Some entries) =>
      S (fold_right (fun child d => Nat.max (depthOf child) d) 0%nat entries)
  | FsDirectory _ None => 1%nat
  | _ => 0%nat
  end.

Definition depthOfListing (listing : option (list FsNode)) : nat :=
  match listing with
  | Some entries =>
      S (fold_right (fun child d => Nat.max (depthOf child) d) 0%nat entries)
  | None => 1%nat
  end.

(** [generateFileTree(workspaceRoot, config)]; [rootPath] is
    [workspaceRoot.path].  [split("/").pop()] is never undefined, so the
    two fallbacks of [rootName] are never taken. *)
Definition generateFileTree (rootPath : string)
  (root : option (list FsNode)) : string :=
  let rootName := last (Js.split "/"%char rootPath) EmptyString in
  let bodyLines :=
    fst (buildLines (depthOfListing root) root EmptyString EmptyString
           {| entryCount := 0; truncated := false |}) in
  Js.join Assembler.newline ((rootName ++ "/") :: bodyLines)
  ++ Assembler.newline.
End Generate.

End TreeGenerator.

(* ===================================================================== *)
(** * Theorems *)
(* ===================================================================== *)

Local Open Scope list_scope.

(* ---------------------------------------------------------------------- *)
(** ** Event classification *)

Section ClassifierFacts.
Variable minimatch : string -> string -> bool.
Variable config : AsciiAgentConfig.
Variable workspaceRoot : string.

Definition selfWritten (relPath : string) : Prop :=
  relPath = outputPaths_fileTree config
  \/ relPath = outputPaths_architecture config
  \/ relPath = ".ascii_history"
  \/ Utils.startsWith relPath ".ascii_history/" = true.

Lemma classify_self_written (uri : string) :
  selfWritten (Utils.workspaceRelativePath uri workspaceRoot) ->
  Watcher.classifyEvent minimatch config workspaceRoot uri = Watcher.Ignore.
Proof.
  unfold selfWritten, Watcher.classifyEvent, Watcher.has,
    Watcher.outputFilePaths.
  set (rel := Utils.workspaceRelativePath uri workspaceRoot).
  intros [H | [H | [H | H]]]; simpl.
  - rewrite <- H, String.eqb_refl. reflexivity.
  - rewrite <- H, String.eqb_refl, orb_true_r. reflexivity.
  - rewrite H. destruct (_ || _)%bool; reflexivity.
  - rewrite H. destruct (_ || _)%bool; reflexivity.
Qed.
End ClassifierFacts.

(** C1: a change whose workspace-relative path is one of the two output
    artifact paths, is [.ascii_history], or lies under [.ascii_history/] is
    classified [Ignore] and [handleEvent] leaves the whole scheduler state
    (both timer handles and the pending timers) untouched; this holds for
    every pattern matcher and every ignore-pattern list. *)
Theorem C1_self_writes_never_schedule :
  forall (minimatch : string -> string -> bool) (config : AsciiAgentConfig)
         (workspaceRoot uri : string) (sid : nat) (s : Watcher.Loop),
    selfWritten config (Utils.workspaceRelativePath uri workspaceRoot) ->
    Watcher.classifyEvent minimatch config workspaceRoot uri = Watcher.Ignore
    /\ Watcher.handleEvent minimatch config workspaceRoot sid uri s = s.
Proof.
  intros mm cfg root uri sid s H.
  pose proof (classify_self_written mm cfg root uri H) as Hc.
  split; [exact Hc|].
  unfold Watcher.handleEvent. rewrite Hc. reflexivity.
Qed.

(* ---------------------------------------------------------------------- *)
(** ** Debounce timers: well-formed scheduler states *)

Module WatcherFacts.
Import Watcher.
Local Open Scope list_scope.

Definition timersOf (c : Concern) (s : Loop) : list Timer :=
  filter (fun tm => Concern_eqb (concern tm) c) (pending s).

(** Every pending timer is the one its module variable points to, every
    module variable that is set points to a pending timer of its concern,
    and handles are fresh and pairwise distinct. *)
Record wf (s : Loop) : Prop := {
  wf_fresh : forall tm, In tm (pending s) -> (tid tm < nextId s)%nat;
  wf_nodup : NoDup (map tid (pending s));
  wf_owned : forall tm, In tm (pending s) -> slot (concern tm) s = Some (tid tm);
  wf_live : forall c id, slot c s = Some id ->
            exists tm, In tm (pending s) /\ tid tm = id /\ concern tm = c
}.

(** The delay a timer is armed with is at least one millisecond, and it
    is the requested delay exactly when that lies within the range the
    runtime honours. *)
Lemma timerDelay_pos delay : 1 <= timerDelay delay.
Proof.
  unfold timerDelay, TIMEOUT_MAX.
  destruct (delay <? 1) eqn:E1; [simpl; lia|].
  destruct (2147483647 <? delay); simpl; [lia|].
  apply Z.ltb_ge in E1. exact E1.
Qed.

Lemma timerDelay_within delay :
  1 <= delay <= TIMEOUT_MAX -> timerDelay delay = delay.
Proof.
  unfold timerDelay, TIMEOUT_MAX. intros [Hlo Hhi].
  destruct (delay <? 1) eqn:E1; [apply Z.ltb_lt in E1; lia|].
  destruct (2147483647 <? delay) eqn:E2; [apply Z.ltb_lt in E2; lia|].
  reflexivity.
Qed.

Lemma timerDelay_beyond delay :
  delay < 1 \/ TIMEOUT_MAX < delay -> timerDelay delay = 1.
Proof.
  unfold timerDelay, TIMEOUT_MAX. intros H.
  destruct (delay <? 1) eqn:E1; [reflexivity|].
  destruct (2147483647 <? delay) eqn:E2; [reflexivity|].
  apply Z.ltb_ge in E1, E2. lia.
Qed.

Lemma Concern_eqb_eq a b : Concern_eqb a b = true <-> a = b.
Proof. destruct a, b; simpl; split; congruence. Qed.

Lemma Concern_eqb_refl a : Concern_eqb a a = true.
Proof. destruct a; reflexivity. Qed.

Lemma Concern_eqb_neq a b : a <> b -> Concern_eqb a b = false.
Proof. destruct a, b; simpl; congruence. Qed.

Lemma wf_init t0 : wf (init t0).
Proof.
  constructor; simpl; try contradiction.
  - constructor.
  - intros [] id H; discriminate.
Qed.

Lemma slot_setSlot_same c v s : slot c (setSlot c v s) = v.
Proof. destruct c; reflexivity. Qed.

Lemma slot_setSlot_other c c' v s :
  c <> c' -> slot c' (setSlot c v s) = slot c' s.
Proof. destruct c, c'; simpl; congruence. Qed.

Lemma pending_setSlot c v s : pending (setSlot c v s) = pending s.
Proof. destruct c; reflexivity. Qed.

Lemma nextId_setSlot c v s : nextId (setSlot c v s) = nextId s.
Proof. destruct c; reflexivity. Qed.

Lemma now_setSlot c v s : now (setSlot c v s) = now s.
Proof. destruct c; reflexivity. Qed.

Lemma signals_setSlot c v s : signals (setSlot c v s) = signals s.
Proof. destruct c; reflexivity. Qed.

Lemma subscribed_setSlot c v s : subscribed (setSlot c v s) = subscribed s.
Proof. destruct c; reflexivity. Qed.

Lemma slot_clearTimeout c id s : slot c (clearTimeout id s) = slot c s.
Proof. destruct c; reflexivity. Qed.

Lemma in_clearTimeout tm id s :
  In tm (pending (clearTimeout id s)) <-> In tm (pending s) /\ tid tm <> id.
Proof.
  unfold clearTimeout; simpl. rewrite filter_In.
  rewrite negb_true_iff, Nat.eqb_neq. tauto.
Qed.

(** Handles stay pairwise distinct when timers are removed. *)
Lemma handles_distinct_filter (keep : Timer -> bool) (timers : list Timer) :
  NoDup (map tid timers) -> NoDup (map tid (filter keep timers)).
Proof.
  intros ND. induction timers as [|tm rest IH]; simpl; [constructor|].
  simpl in ND. apply NoDup_cons_iff in ND as [Hnew ND].
  destruct (keep tm); simpl; [|exact (IH ND)].
  apply NoDup_cons; [|exact (IH ND)].
  rewrite in_map_iff. intros (x & Hx & Hin).
  apply filter_In in Hin as [Hin _].
  apply Hnew. rewrite <- Hx. apply in_map. exact Hin.
Qed.

(** A handle names at most one pending timer. *)
Lemma handle_names_one (timers : list Timer) (a b : Timer) :
  NoDup (map tid timers) -> In a timers -> In b timers ->
  tid a = tid b -> a = b.
Proof.
  intros ND. induction timers as [|tm rest IH]; simpl; [contradiction|].
  simpl in ND. apply NoDup_cons_iff in ND as [Hnew ND].
  intros [Ha | Ha] [Hb | Hb] Heq; subst; auto.
  - exfalso. apply Hnew. rewrite Heq. apply in_map. exact Hb.
  - exfalso. apply Hnew. rewrite <- Heq. apply in_map. exact Ha.
Qed.

(** States that agree on the timer table and on both module variables. *)
Definition sameTimers (s s' : Loop) : Prop :=
  pending s' = pending s /\ nextId s' = nextId s
  /\ forall c, slot c s' = slot c s.

Lemma wf_sameTimers s s' : sameTimers s s' -> wf s -> wf s'.
Proof.
  intros (Hp & Hn & Hs) [F ND OW LV]. constructor.
  - rewrite Hp, Hn. exact F.
  - rewrite Hp. exact ND.
  - intros tm. rewrite Hp, Hs. apply OW.
  - intros c id. rewrite Hp, Hs. apply LV.
Qed.

Lemma timersOf_sameTimers c s s' :
  sameTimers s s' -> timersOf c s' = timersOf c s.
Proof. intros (Hp & _). unfold timersOf. rewrite Hp. reflexivity. Qed.

(** A pending timer whose handle a module variable holds belongs to that
    variable's concern. *)
Lemma wf_slot_concern s c tm :
  wf s -> In tm (pending s) -> slot c s = Some (tid tm) -> concern tm = c.
Proof.
  intros W Hin Hs.
  destruct (wf_live s W c _ Hs) as (tm' & Hin' & Ht & Hc).
  assert (tm' = tm) by (eapply handle_names_one; eauto using wf_nodup).
  congruence.
Qed.

Lemma timersOf_none_of_slot c s :
  wf s -> slot c s = None -> timersOf c s = [].
Proof.
  intros W Hs. unfold timersOf.
  destruct (filter _ (pending s)) as [|tm l] eqn:E; auto.
  assert (Hin : In tm (tm :: l)) by (left; reflexivity).
  rewrite <- E in Hin. apply filter_In in Hin as [Hin Hc].
  apply Concern_eqb_eq in Hc. subst c.
  pose proof (wf_owned s W tm Hin). congruence.
Qed.

Lemma timersOf_in c s tm :
  In tm (timersOf c s) <-> In tm (pending s) /\ concern tm = c.
Proof. unfold timersOf. rewrite filter_In, Concern_eqb_eq. tauto. Qed.

(** At most one timer per concern is ever pending. *)
Lemma timersOf_at_most_one c s :
  wf s -> timersOf c s = [] \/ exists tm, timersOf c s = [tm].
Proof.
  intros W. destruct (timersOf c s) as [|a [|b l]] eqn:E; eauto.
  exfalso.
  assert (Ha : In a (timersOf c s)) by (rewrite E; simpl; auto).
  assert (Hb : In b (timersOf c s)) by (rewrite E; simpl; auto).
  apply timersOf_in in Ha as [Ha Hca], Hb as [Hb Hcb].
  pose proof (wf_owned s W a Ha) as Oa. pose proof (wf_owned s W b Hb) as Ob.
  rewrite Hca in Oa. rewrite Hcb in Ob.
  assert (Hab : tid a = tid b) by congruence.
  pose proof (wf_nodup s W) as ND.
  assert (NDc : NoDup (map tid (timersOf c s)))
    by (apply handles_distinct_filter; exact ND).
  rewrite E in NDc. simpl in NDc. inversion NDc as [|? ? Hn _]; subst.
  apply Hn. left. symmetry. exact Hab.
Qed.

(** What [dispose], [cancelPendingTimers] and every re-schedule do to one
    module variable: clear the timer it points to and reset it. *)
Definition cleared (c : Concern) (s : Loop) : Loop :=
  match slot c s with
  | Some id => setSlot c None (clearTimeout id s)
  | None => s
  end.

Lemma cancelPendingTimers_eq s :
  cancelPendingTimers s = cleared Arch (cleared Tree s).
Proof. reflexivity. Qed.

Lemma schedule_eq c d sid s :
  schedule c d sid s =
  setSlot c (Some (nextId (cleared c s))) (setTimeout sid c d (cleared c s)).
Proof.
  unfold schedule, cleared. destruct (slot c s); destruct c; reflexivity.
Qed.

Lemma cleared_frame c s :
  now (cleared c s) = now s /\ nextId (cleared c s) = nextId s
  /\ signals (cleared c s) = signals s
  /\ subscribed (cleared c s) = subscribed s.
Proof.
  unfold cleared. destruct (slot c s); [|tauto].
  rewrite now_setSlot, nextId_setSlot, signals_setSlot, subscribed_setSlot.
  simpl. tauto.
Qed.

Lemma slot_cleared_same c s : slot c (cleared c s) = None.
Proof.
  unfold cleared. destruct (slot c s) eqn:E; [apply slot_setSlot_same | exact E].
Qed.

Lemma slot_cleared_other c c' s : c <> c' -> slot c' (cleared c s) = slot c' s.
Proof.
  intros H. unfold cleared. destruct (slot c s); [|reflexivity].
  rewrite slot_setSlot_other, slot_clearTimeout by assumption. reflexivity.
Qed.

Lemma in_cleared c s tm :
  wf s -> In tm (pending (cleared c s)) <-> In tm (pending s) /\ concern tm <> c.
Proof.
  intros W. unfold cleared. destruct (slot c s) as [id|] eqn:Hs.
  - rewrite pending_setSlot, in_clearTimeout. split; intros [Hin H]; split; auto.
    + intros Hc. apply H. pose proof (wf_owned s W tm Hin). congruence.
    + intros Ht. apply H. apply (wf_slot_concern s c tm W Hin). congruence.
  - split; [|tauto]. intros Hin. split; auto.
    intros Hc. pose proof (wf_owned s W tm Hin). congruence.
Qed.

Lemma wf_cleared c s : wf s -> wf (cleared c s).
Proof.
  intros W. constructor.
  - intros tm Hin. apply in_cleared in Hin as [Hin _]; auto.
    destruct (cleared_frame c s) as (_ & -> & _). exact (wf_fresh s W tm Hin).
  - unfold cleared. destruct (slot c s); [|exact (wf_nodup s W)].
    rewrite pending_setSlot. apply handles_distinct_filter. exact (wf_nodup s W).
  - intros tm Hin. apply in_cleared in Hin as [Hin Hc]; auto.
    rewrite slot_cleared_other by congruence. exact (wf_owned s W tm Hin).
  - intros c' id Hs.
    destruct (Concern_eqb c c') eqn:E.
    + apply Concern_eqb_eq in E; subst. rewrite slot_cleared_same in Hs.
      discriminate.
    + assert (Hne : c <> c')
        by (intros ->; rewrite Concern_eqb_refl in E; discriminate).
      rewrite slot_cleared_other in Hs by assumption.
      destruct (wf_live s W c' id Hs) as (tm & Hin & Ht & Hc).
      exists tm. repeat split; auto. apply in_cleared; auto. split; congruence.
Qed.

Lemma timersOf_cleared_same c s : wf s -> timersOf c (cleared c s) = [].
Proof.
  intros W. apply timersOf_none_of_slot;
    [apply wf_cleared; exact W | apply slot_cleared_same].
Qed.

Lemma filter_filter_absorb {A} (p q : A -> bool) (l : list A) :
  (forall x, In x l -> p x = true -> q x = true) ->
  filter p (filter q l) = filter p l.
Proof.
  induction l as [|a l IH]; simpl; intros H; auto.
  destruct (q a) eqn:Eq; simpl.
  - destruct (p a); [f_equal|]; apply IH; auto.
  - destruct (p a) eqn:Ep.
    + rewrite (H a (or_introl eq_refl) Ep) in Eq. discriminate.
    + apply IH; auto.
Qed.

Lemma timersOf_cleared_other c c' s :
  wf s -> c <> c' -> timersOf c' (cleared c s) = timersOf c' s.
Proof.
  intros W Hne. unfold cleared. destruct (slot c s) as [id|] eqn:Hs; auto.
  unfold timersOf. rewrite pending_setSlot. unfold clearTimeout; simpl.
  apply filter_filter_absorb. intros x Hx Hc.
  apply Concern_eqb_eq in Hc. apply negb_true_iff, Nat.eqb_neq.
  intros Ht. apply Hne. rewrite <- Hc. symmetry.
  apply (wf_slot_concern s c x W Hx). congruence.
Qed.

(** Arming a module variable that is clear. *)
Definition armed (c : Concern) (d : Z) (sid : nat) (s : Loop) : Loop :=
  setSlot c (Some (nextId s)) (setTimeout sid c d s).

Definition newTimer (c : Concern) (d : Z) (sid : nat) (s : Loop) : Timer :=
  {| tid := nextId s; due := now s + timerDelay d; owner := sid;
     concern := c |}.

Lemma armed_frame c d sid s :
  now (armed c d sid s) = now s /\ signals (armed c d sid s) = signals s
  /\ subscribed (armed c d sid s) = subscribed s
  /\ pending (armed c d sid s) = pending s ++ [newTimer c d sid s].
Proof.
  unfold armed.
  rewrite now_setSlot, signals_setSlot, subscribed_setSlot, pending_setSlot.
  simpl. tauto.
Qed.

Lemma slot_armed_other c c' d sid s :
  c <> c' -> slot c' (armed c d sid s) = slot c' s.
Proof.
  intros H. unfold armed. rewrite slot_setSlot_other by assumption.
  destruct c'; reflexivity.
Qed.

Lemma wf_armed c d sid s : wf s -> slot c s = None -> wf (armed c d sid s).
Proof.
  intros W Hs.
  destruct (armed_frame c d sid s) as (_ & _ & _ & Hp).
  assert (Hn : nextId (armed c d sid s) = S (nextId s))
    by (unfold armed; rewrite nextId_setSlot; reflexivity).
  constructor.
  - intros tm. rewrite Hp, Hn, in_app_iff.
    intros [Hin | [<- | []]]; simpl; [|lia].
    pose proof (wf_fresh s W tm Hin). lia.
  - rewrite Hp, map_app. simpl. apply NoDup_app.
    + exact (wf_nodup s W).
    + constructor; [simpl; tauto | constructor].
    + intros x Hx [<- | []]. apply in_map_iff in Hx as [tm [Ht Hin]].
      pose proof (wf_fresh s W tm Hin). lia.
  - intros tm. rewrite Hp, in_app_iff. intros [Hin | [<- | []]].
    + pose proof (wf_owned s W tm Hin) as Ho.
      assert (c <> concern tm) by congruence.
      rewrite slot_armed_other by assumption. exact Ho.
    + simpl. unfold armed. apply slot_setSlot_same.
  - intros c' id Hs'. rewrite Hp.
    destruct (Concern_eqb c c') eqn:E.
    + apply Concern_eqb_eq in E; subst. unfold armed in Hs'.
      rewrite slot_setSlot_same in Hs'. injection Hs' as <-.
      exists (newTimer c' d sid s). rewrite in_app_iff. simpl. auto.
    + assert (Hne : c <> c')
        by (intros ->; rewrite Concern_eqb_refl in E; discriminate).
      rewrite slot_armed_other in Hs' by assumption.
      destruct (wf_live s W c' id Hs') as (tm & Hin & Ht & Hc).
      exists tm. rewrite in_app_iff. auto.
Qed.

Lemma timersOf_armed_same c d sid s :
  wf s -> slot c s = None -> timersOf c (armed c d sid s) = [newTimer c d sid s].
Proof.
  intros W Hs. unfold timersOf.
  destruct (armed_frame c d sid s) as (_ & _ & _ & ->).
  rewrite filter_app. fold (timersOf c s).
  rewrite (timersOf_none_of_slot c s W Hs). simpl.
  rewrite Concern_eqb_refl. reflexivity.
Qed.

Lemma timersOf_armed_other c c' d sid s :
  c <> c' -> timersOf c' (armed c d sid s) = timersOf c' s.
Proof.
  intros Hne. unfold timersOf.
  destruct (armed_frame c d sid s) as (_ & _ & _ & ->).
  rewrite filter_app. simpl. rewrite Concern_eqb_neq by assumption.
  apply app_nil_r.
Qed.

Lemma signalsOf_app c s l :
  filter (fun g => Concern_eqb (sigConcern g) c) (signals s ++ l) =
  signalsOf c s ++ filter (fun g => Concern_eqb (sigConcern g) c) l.
Proof. unfold signalsOf. apply filter_app. Qed.

(** One timer expiry, as [fireDue] performs it. *)
Definition stepTimer (tm : Timer) (s : Loop) : Loop :=
  fire tm (setNow (Z.max (now s) (due tm)) (clearTimeout (tid tm) s)).

Lemma fireDue_S fuel T s :
  fireDue (S fuel) T s =
  match earliest (pending s) with
  | Some tm => if due tm <=? T then fireDue fuel T (stepTimer tm s) else s
  | None => s
  end.
Proof. reflexivity. Qed.

Lemma stepTimer_sameTimers tm s :
  wf s -> In tm (pending s) ->
  sameTimers (cleared (concern tm) s) (stepTimer tm s).
Proof.
  intros W Hin. pose proof (wf_owned s W tm Hin) as Ho.
  unfold sameTimers, stepTimer, cleared, fire. rewrite Ho.
  destruct (concern tm); simpl;
    (split; [|split]; [reflexivity | reflexivity | intros []; reflexivity]).
Qed.

Lemma stepTimer_frame tm s :
  now (stepTimer tm s) = Z.max (now s) (due tm)
  /\ subscribed (stepTimer tm s) = subscribed s
  /\ signals (stepTimer tm s) =
     signals s ++ [{| sigTime := Z.max (now s) (due tm);
                      sigSession := owner tm; sigConcern := concern tm |}].
Proof. unfold stepTimer, fire. destruct (concern tm); simpl; tauto. Qed.

Lemma wf_stepTimer tm s : wf s -> In tm (pending s) -> wf (stepTimer tm s).
Proof.
  intros W Hin. eapply wf_sameTimers.
  - apply stepTimer_sameTimers; assumption.
  - apply wf_cleared; assumption.
Qed.

Lemma earliest_spec l e :
  earliest l = Some e -> In e l /\ forall x, In x l -> due e <= due x.
Proof.
  revert e. induction l as [|a l IH]; simpl; intros e H; [discriminate|].
  destruct (earliest l) as [m|] eqn:E.
  - destruct (IH m eq_refl) as [Hm Hle].
    destruct (due a <=? due m) eqn:C; injection H as <-.
    + apply Z.leb_le in C. split; auto.
      intros x [<- | Hx]; [lia | specialize (Hle x Hx); lia].
    + apply Z.leb_gt in C. split; auto.
      intros x [<- | Hx]; [lia | auto].
  - injection H as <-. split; auto.
    destruct l; [|simpl in E; destruct (earliest l); try destruct (_ <=? _);
                  discriminate].
    intros x [<- | []]; lia.
Qed.

Lemma earliest_none l : earliest l = None -> l = [].
Proof.
  destruct l as [|a l]; simpl; auto.
  destruct (earliest l); [destruct (_ <=? _)|]; discriminate.
Qed.

Lemma filter_length_lt {A} (p : A -> bool) (l : list A) a :
  In a l -> p a = false -> (List.length (filter p l) < List.length l)%nat.
Proof.
  induction l as [|x l IH]; simpl; intros Hin Hp; [contradiction|].
  pose proof (filter_length_le p l) as Hle.
  destruct Hin as [-> | Hin].
  - rewrite Hp. lia.
  - specialize (IH Hin Hp). destruct (p x); simpl; lia.
Qed.

Lemma stepTimer_length tm s :
  In tm (pending s) ->
  (List.length (pending (stepTimer tm s)) < List.length (pending s))%nat.
Proof.
  intros Hin.
  assert (E : pending (stepTimer tm s) =
              filter (fun x => negb (Nat.eqb (tid x) (tid tm))) (pending s))
    by (unfold stepTimer, fire; destruct (concern tm); reflexivity).
  rewrite E. apply filter_length_lt with (a := tm); auto.
  rewrite Nat.eqb_refl. reflexivity.
Qed.

Ltac conj_split := repeat match goal with |- _ /\ _ => split end.

Section OneConcern.
Variable c : Concern.
Variable T : Z.

(** While the timer of concern [c] (if any) is not yet due, letting the
    clock run does not touch that concern. *)
Lemma fireDue_keeps fuel : forall s,
  wf s -> (forall tm, In tm (timersOf c s) -> T < due tm) ->
  let s' := fireDue fuel T s in
  wf s' /\ timersOf c s' = timersOf c s /\ slot c s' = slot c s
  /\ signalsOf c s' = signalsOf c s /\ subscribed s' = subscribed s
  /\ now s <= now s' <= Z.max (now s) T.
Proof.
  induction fuel as [|fuel IH]; intros s W Hlate; simpl.
  { conj_split; auto; lia. }
  destruct (earliest (pending s)) as [e|] eqn:E;
    [|conj_split; auto; lia].
  destruct (due e <=? T) eqn:C; [|conj_split; auto; lia].
  apply Z.leb_le in C.
  destruct (earliest_spec _ _ E) as [Hin _].
  assert (Hne : concern e <> c).
  { intros Hc. assert (In e (timersOf c s)) by (apply timersOf_in; auto).
    specialize (Hlate e H). lia. }
  fold (stepTimer e s).
  pose proof (wf_stepTimer e s W Hin) as W1.
  pose proof (stepTimer_sameTimers e s W Hin) as ST.
  destruct (stepTimer_frame e s) as (Hnow & Hsub & Hsig).
  assert (Ht : timersOf c (stepTimer e s) = timersOf c s).
  { rewrite (timersOf_sameTimers c _ _ ST).
    apply timersOf_cleared_other; assumption. }
  assert (Hs : slot c (stepTimer e s) = slot c s).
  { destruct ST as (_ & _ & Hsl). rewrite Hsl.
    apply slot_cleared_other; assumption. }
  assert (Hg : signalsOf c (stepTimer e s) = signalsOf c s).
  { unfold signalsOf at 1. rewrite Hsig, signalsOf_app. simpl.
    rewrite Concern_eqb_neq by assumption. apply app_nil_r. }
  destruct (IH (stepTimer e s) W1) as (W' & Ht' & Hs' & Hg' & Hsub' & Hn').
  { intros tm. rewrite Ht. apply Hlate. }
  conj_split; try congruence; try lia.
Qed.

(** Once the timer of concern [c] is due, it runs exactly once, at its
    due time. *)
Lemma fireDue_fires fuel : forall s tm,
  wf s -> timersOf c s = [tm] -> due tm <= T -> now s <= due tm ->
  (List.length (pending s) <= fuel)%nat ->
  let s' := fireDue fuel T s in
  wf s' /\ timersOf c s' = [] /\ slot c s' = None
  /\ signalsOf c s' =
     signalsOf c s ++ [{| sigTime := due tm; sigSession := owner tm;
                          sigConcern := c |}]
  /\ subscribed s' = subscribed s
  /\ now s <= now s' <= Z.max (now s) T.
Proof.
  induction fuel as [|fuel IH]; intros s tm W Ht Hd Hn Hlen.
  { exfalso. assert (Hin : In tm (timersOf c s)) by (rewrite Ht; simpl; auto).
    apply timersOf_in in Hin as [Hin _].
    destruct (pending s); simpl in *; [contradiction | lia]. }
  assert (Hin : In tm (pending s) /\ concern tm = c).
  { apply timersOf_in. rewrite Ht. simpl. auto. }
  destruct Hin as [Hin Hc].
  cbv zeta. rewrite fireDue_S.
  destruct (earliest (pending s)) as [e|] eqn:E.
  2:{ apply earliest_none in E. rewrite E in Hin. contradiction. }
  destruct (earliest_spec _ _ E) as [Hine Hmin].
  pose proof (Hmin tm Hin) as Hle.
  assert (C : (due e <=? T) = true) by (apply Z.leb_le; lia).
  rewrite C.
  pose proof (wf_stepTimer e s W Hine) as W1.
  pose proof (stepTimer_sameTimers e s W Hine) as ST.
  destruct (stepTimer_frame e s) as (Hnow & Hsub & Hsig).
  pose proof (stepTimer_length e s Hine) as Hlt.
  destruct (Concern_eqb (concern e) c) eqn:Ec.
  - apply Concern_eqb_eq in Ec.
    assert (e = tm).
    { assert (In e (timersOf c s)) by (apply timersOf_in; auto).
      rewrite Ht in H. simpl in H. destruct H as [H | []]; congruence. }
    subst e.
    assert (Ht1 : timersOf c (stepTimer tm s) = []).
    { rewrite (timersOf_sameTimers c _ _ ST), Hc.
      apply timersOf_cleared_same; assumption. }
    assert (Hs1 : slot c (stepTimer tm s) = None).
    { destruct ST as (_ & _ & Hsl). rewrite Hsl, Hc.
      apply slot_cleared_same. }
    destruct (fireDue_keeps fuel (stepTimer tm s) W1)
      as (W' & Ht' & Hs' & Hg' & Hsub' & Hn').
    { intros x. rewrite Ht1. simpl. contradiction. }
    conj_split; try congruence; try lia.
    rewrite Hg'. unfold signalsOf at 1. rewrite Hsig, signalsOf_app. simpl.
    rewrite Hc, Concern_eqb_refl.
    replace (Z.max (now s) (due tm)) with (due tm) by lia. reflexivity.
  - assert (Hne : concern e <> c)
      by (intros Hx; apply Concern_eqb_eq in Hx; congruence).
    assert (Ht1 : timersOf c (stepTimer e s) = [tm]).
    { rewrite (timersOf_sameTimers c _ _ ST), <- Ht.
      apply timersOf_cleared_other; assumption. }
    assert (Hg : signalsOf c (stepTimer e s) = signalsOf c s).
    { unfold signalsOf at 1. rewrite Hsig, signalsOf_app. simpl.
      rewrite Concern_eqb_neq by assumption. apply app_nil_r. }
    destruct (IH (stepTimer e s) tm W1 Ht1 Hd)
      as (W' & Ht' & Hs' & Hg' & Hsub' & Hn'); try lia.
    conj_split; try congruence; try lia.
Qed.

Lemma now_advance s :
  now (advance T s) =
  Z.max (now (fireDue (List.length (pending s)) T s)) T.
Proof. reflexivity. Qed.

Lemma advance_sameTimers s :
  sameTimers (fireDue (List.length (pending s)) T s) (advance T s).
Proof.
  unfold sameTimers, advance. conj_split; auto; intros []; reflexivity.
Qed.

Lemma advance_keeps s :
  wf s -> (forall tm, In tm (timersOf c s) -> T < due tm) ->
  let s' := advance T s in
  wf s' /\ timersOf c s' = timersOf c s /\ slot c s' = slot c s
  /\ signalsOf c s' = signalsOf c s /\ subscribed s' = subscribed s
  /\ now s' = Z.max (now s) T.
Proof.
  intros W Hlate.
  destruct (fireDue_keeps (List.length (pending s)) s W Hlate)
    as (W' & Ht' & Hs' & Hg' & Hsub' & Hn').
  pose proof (advance_sameTimers s) as ST.
  cbv zeta. conj_split.
  - eapply wf_sameTimers; eauto.
  - rewrite (timersOf_sameTimers c _ _ ST). exact Ht'.
  - destruct ST as (_ & _ & Hsl). rewrite Hsl. exact Hs'.
  - exact Hg'.
  - exact Hsub'.
  - rewrite now_advance. lia.
Qed.

Lemma advance_fires s tm :
  wf s -> timersOf c s = [tm] -> due tm <= T -> now s <= due tm ->
  let s' := advance T s in
  wf s' /\ timersOf c s' = [] /\ slot c s' = None
  /\ signalsOf c s' =
     signalsOf c s ++ [{| sigTime := due tm; sigSession := owner tm;
                          sigConcern := c |}]
  /\ subscribed s' = subscribed s
  /\ now s' = Z.max (now s) T.
Proof.
  intros W Ht Hd Hn.
  destruct (fireDue_fires (List.length (pending s)) s tm W Ht Hd Hn (le_n _))
    as (W' & Ht' & Hs' & Hg' & Hsub' & Hn').
  pose proof (advance_sameTimers s) as ST.
  cbv zeta. conj_split.
  - eapply wf_sameTimers; eauto.
  - rewrite (timersOf_sameTimers c _ _ ST). exact Ht'.
  - destruct ST as (_ & _ & Hsl). rewrite Hsl. exact Hs'.
  - exact Hg'.
  - exact Hsub'.
  - rewrite now_advance. lia.
Qed.
End OneConcern.

Lemma schedule_same c d sid s :
  wf s ->
  let s' := schedule c d sid s in
  wf s'
  /\ timersOf c s' =
     [{| tid := nextId s; due := now s + timerDelay d; owner := sid;
         concern := c |}]
  /\ now s' = now s /\ signals s' = signals s
  /\ subscribed s' = subscribed s.
Proof.
  intros W. cbv zeta. rewrite schedule_eq. fold (armed c d sid (cleared c s)).
  pose proof (wf_cleared c s W) as Wc.
  pose proof (slot_cleared_same c s) as Hs.
  destruct (cleared_frame c s) as (Hn & Hid & Hg & Hsub).
  destruct (armed_frame c d sid (cleared c s)) as (Hn' & Hg' & Hsub' & _).
  conj_split; try congruence.
  - apply wf_armed; assumption.
  - rewrite timersOf_armed_same by assumption.
    unfold newTimer. rewrite Hn, Hid. reflexivity.
Qed.

Lemma schedule_other c c' d sid s :
  wf s -> c <> c' ->
  timersOf c' (schedule c d sid s) = timersOf c' s
  /\ slot c' (schedule c d sid s) = slot c' s.
Proof.
  intros W Hne. rewrite schedule_eq. fold (armed c d sid (cleared c s)).
  rewrite timersOf_armed_other, slot_armed_other by assumption.
  rewrite timersOf_cleared_other, slot_cleared_other by assumption.
  split; reflexivity.
Qed.

Lemma wf_startWatching folders s : wf s -> wf (snd (startWatching folders s)).
Proof.
  destruct folders as [|root rest]; [auto|].
  apply wf_sameTimers. unfold sameTimers; simpl.
  conj_split; auto; intros []; reflexivity.
Qed.

Lemma wf_cancelPendingTimers s : wf s -> wf (cancelPendingTimers s).
Proof.
  intros W. rewrite cancelPendingTimers_eq. auto using wf_cleared.
Qed.

Lemma pending_cancelPendingTimers s :
  wf s -> pending (cancelPendingTimers s) = [].
Proof.
  intros W. rewrite cancelPendingTimers_eq.
  destruct (pending (cleared Arch (cleared Tree s))) as [|tm l] eqn:E; auto.
  assert (Hin : In tm (pending (cleared Arch (cleared Tree s))))
    by (rewrite E; left; reflexivity).
  apply in_cleared in Hin as [Hin Ha]; [|apply wf_cleared; exact W].
  apply in_cleared in Hin as [Hin Ht]; [|exact W].
  destruct (concern tm); congruence.
Qed.

Lemma wf_dispose sid s : wf s -> wf (dispose sid s).
Proof.
  intros W. eapply wf_sameTimers; [|apply wf_cancelPendingTimers; exact W].
  unfold sameTimers, dispose; simpl. conj_split; auto; intros []; reflexivity.
Qed.

Lemma wf_fireDue fuel T : forall s, wf s -> wf (fireDue fuel T s).
Proof.
  induction fuel as [|fuel IH]; intros s W; simpl; [exact W|].
  destruct (earliest (pending s)) as [e|] eqn:E; [|exact W].
  destruct (due e <=? T); [|exact W].
  destruct (earliest_spec _ _ E) as [Hin _].
  apply IH. exact (wf_stepTimer e s W Hin).
Qed.

(** Every state the scheduler can reach is well formed. *)
Lemma wf_advance T s : wf s -> wf (advance T s).
Proof.
  intros W. eapply wf_sameTimers; [apply advance_sameTimers|].
  apply wf_fireDue, W.
Qed.

Section SessionFacts.
Variable minimatch : string -> string -> bool.
Variable config : AsciiAgentConfig.
Variable workspaceRoot : string.

Local Abbreviation classify := (classifyEvent minimatch config workspaceRoot).
Local Abbreviation handle := (handleEvent minimatch config workspaceRoot).
Local Abbreviation d := (debounceMs config).

Lemma wf_handleEvent sid uri s : wf s -> wf (handle sid uri s).
Proof.
  intros W. unfold handleEvent.
  destruct (classify uri); auto;
    unfold scheduleArchRegen, scheduleTreeRegen;
    repeat apply schedule_same; auto.
Qed.

Lemma wf_deliver sid t uri s :
  wf s -> wf (deliver minimatch config workspaceRoot sid t uri s).
Proof.
  intros W. unfold deliver. pose proof (wf_advance t s W) as W1.
  destruct (existsb _ _); [apply wf_handleEvent|]; exact W1.
Qed.

(** A qualifying event leaves exactly one tree timer pending, due one
    quiet period from now. *)
Lemma handleEvent_tree sid uri s :
  wf s -> classify uri <> Ignore ->
  let s' := handle sid uri s in
  wf s'
  /\ (exists tm, timersOf Tree s' = [tm] /\ due tm = now s + timerDelay d
                 /\ owner tm = sid)
  /\ now s' = now s /\ signals s' = signals s
  /\ subscribed s' = subscribed s.
Proof.
  intros W Hq. cbv zeta. unfold handleEvent.
  destruct (schedule_same Tree d sid s W) as (W1 & Ht1 & Hn1 & Hg1 & Hsub1).
  destruct (classify uri); [congruence | |];
    unfold scheduleArchRegen, scheduleTreeRegen.
  - conj_split; auto. eexists; conj_split; [exact Ht1 | |]; reflexivity.
  - destruct (schedule_same Arch d sid _ W1) as (W2 & _ & Hn2 & Hg2 & Hsub2).
    destruct (schedule_other Arch Tree d sid _ W1) as [Ht2 _];
      [discriminate|].
    conj_split; try congruence.
    eexists; conj_split; [rewrite Ht2; exact Ht1 | |]; reflexivity.
Qed.
End SessionFacts.

End WatcherFacts.

(* ---------------------------------------------------------------------- *)
(** ** Bursts of qualifying events *)

(** Each event of the burst arrives strictly less than [d] after the one
    before it ([t] is the time of the previous event). *)
Fixpoint withinQuiet (d : Z) (t : Z) (times : list Z) : Prop :=
  match times with
  | [] => True
  | t' :: rest => t <= t' < t + d /\ withinQuiet d t' rest
  end.

Lemma last_cons_default {A} (l : list A) (x a : A) :
  last (x :: l) a = last l x.
Proof.
  revert x a. induction l as [|y l IH]; intros x a; [reflexivity|].
  change (last (x :: y :: l) a) with (last (y :: l) a).
  rewrite IH. symmetry. apply IH.
Qed.

Section BurstFacts.
Import Watcher WatcherFacts.
Variable minimatch : string -> string -> bool.
Variable config : AsciiAgentConfig.
Variable workspaceRoot : string.
Variable sid : nat.
Variable base : list Signal.

Local Abbreviation d := (timerDelay (debounceMs config)).
Local Abbreviation qualifying :=
  (fun e : Z * string =>
     classifyEvent minimatch config workspaceRoot (snd e) <> Ignore).

(** The scheduler right after a qualifying event at time [t]. *)
Definition armedAt (t : Z) (s : Loop) : Prop :=
  wf s /\ now s = t
  /\ (exists tm, timersOf Tree s = [tm] /\ due tm = t + d /\ owner tm = sid)
  /\ signalsOf Tree s = base
  /\ In sid (subscribed s).

Lemma subscribed_existsb s :
  In sid (subscribed s) -> existsb (Nat.eqb sid) (subscribed s) = true.
Proof.
  intros H. apply existsb_exists. exists sid. split; auto.
  apply Nat.eqb_refl.
Qed.

Lemma deliver_first t uri s :
  wf s -> slot Tree s = None -> signalsOf Tree s = base ->
  In sid (subscribed s) -> now s <= t -> qualifying (t, uri) ->
  armedAt t (deliver minimatch config workspaceRoot sid t uri s).
Proof.
  intros W Hs Hb Hsub Hn Hq. unfold deliver.
  destruct (advance_keeps Tree t s W) as (W1 & Ht1 & Hs1 & Hg1 & Hsub1 & Hn1).
  { rewrite (timersOf_none_of_slot Tree s W Hs). simpl. contradiction. }
  rewrite subscribed_existsb by congruence.
  destruct (handleEvent_tree minimatch config workspaceRoot sid uri _ W1 Hq)
    as (W2 & (tm & Ht2 & Hd2 & Ho2) & Hn2 & Hg2 & Hsub2).
  unfold armedAt. conj_split; auto.
  - lia.
  - exists tm. conj_split; auto. lia.
  - unfold signalsOf in *. congruence.
  - congruence.
Qed.

Lemma deliver_next t t' uri s :
  armedAt t s -> t <= t' < t + d -> qualifying (t', uri) ->
  armedAt t' (deliver minimatch config workspaceRoot sid t' uri s).
Proof.
  intros (W & Hn & (tm & Ht & Hd & Ho) & Hb & Hsub) Hgap Hq. unfold deliver.
  destruct (advance_keeps Tree t' s W) as (W1 & Ht1 & Hs1 & Hg1 & Hsub1 & Hn1).
  { rewrite Ht. intros x [<- | []]. lia. }
  rewrite subscribed_existsb by congruence.
  destruct (handleEvent_tree minimatch config workspaceRoot sid uri _ W1 Hq)
    as (W2 & (tm2 & Ht2 & Hd2 & Ho2) & Hn2 & Hg2 & Hsub2).
  unfold armedAt. conj_split; auto.
  - lia.
  - exists tm2. conj_split; auto. lia.
  - unfold signalsOf in *. congruence.
  - congruence.
Qed.

Lemma deliverAll_burst evs : forall t s,
  armedAt t s -> withinQuiet d t (map fst evs) -> Forall qualifying evs ->
  armedAt (last (map fst evs) t)
          (deliverAll minimatch config workspaceRoot sid evs s).
Proof.
  induction evs as [|[t' uri] evs IH]; intros t s HA HW HQ; [exact HA|].
  simpl in HW. destruct HW as [Hgap HW].
  inversion HQ as [|? ? Hq HQ']; subst.
  pose proof (deliver_next t t' uri s HA Hgap Hq) as HA'.
  specialize (IH t' _ HA' HW HQ').
  change (map fst ((t', uri) :: evs)) with (t' :: map fst evs).
  rewrite last_cons_default. exact IH.
Qed.

(** From the armed state the tree signal is raised exactly once, when the
    clock reaches [t + d], not before. *)
Lemma armedAt_fires t s T :
  armedAt t s ->
  signalsOf Tree (advance T s) =
  base ++ (if t + d <=? T
           then [{| sigTime := t + d; sigSession := sid;
                    sigConcern := Tree |}]
           else []).
Proof.
  intros (W & Hn & (tm & Ht & Hd & Ho) & Hb & Hsub).
  pose proof (timerDelay_pos (debounceMs config)) as Hd0.
  destruct (t + d <=? T) eqn:C.
  - apply Z.leb_le in C.
    destruct (advance_fires Tree T s tm W Ht) as (_ & _ & _ & Hg & _);
      try lia.
    rewrite Hg, Hb, Hd, Ho. reflexivity.
  - apply Z.leb_gt in C.
    destruct (advance_keeps Tree T s W) as (_ & _ & _ & Hg & _).
    { rewrite Ht. intros x [<- | []]. lia. }
    rewrite Hg, Hb. symmetry. apply app_nil_r.
Qed.
End BurstFacts.

(** C2: a burst of N >= 1 qualifying change events, each arriving strictly
    less than the quiet period after the previous one, raises the tree
    signal exactly once, one quiet period after the last event of the
    burst: the log of tree signals seen by time [T] grows by that single
    entry when [T] has reached that instant, and by nothing before.  The
    quiet period is the delay the debounce timer is armed with: it is
    [debounceMs] when that lies between 1 and 2147483647 ms, and 1 ms for
    a larger [debounceMs], which nothing in the configuration loader
    excludes. *)
Theorem C2_burst_fires_tree_once :
  forall (minimatch : string -> string -> bool) (config : AsciiAgentConfig)
         (workspaceRoot : string) (sid : nat) (s0 : Watcher.Loop)
         (t1 : Z) (uri1 : string) (evs : list (Z * string)) (T : Z),
    WatcherFacts.wf s0 ->
    Watcher.treeDebounceTimer s0 = None ->
    In sid (Watcher.subscribed s0) ->
    Watcher.now s0 <= t1 ->
    Forall (fun e => Watcher.classifyEvent minimatch config workspaceRoot
                       (snd e) <> Watcher.Ignore) ((t1, uri1) :: evs) ->
    let quiet := Watcher.timerDelay (debounceMs config) in
    withinQuiet quiet t1 (map fst evs) ->
    let tlast := last (map fst evs) t1 in
    let s := Watcher.deliverAll minimatch config workspaceRoot sid
               ((t1, uri1) :: evs) s0 in
    Watcher.signalsOf Watcher.Tree (Watcher.advance T s) =
    (Watcher.signalsOf Watcher.Tree s0 ++
     (if tlast + quiet <=? T
      then [{| Watcher.sigTime := tlast + quiet;
               Watcher.sigSession := sid;
               Watcher.sigConcern := Watcher.Tree |}]
      else []))%list
    /\ (1 <= debounceMs config <= Watcher.TIMEOUT_MAX ->
        quiet = debounceMs config)
    /\ (Watcher.TIMEOUT_MAX < debounceMs config -> quiet = 1).
Proof.
  intros mm cfg root sid s0 t1 uri1 evs T W Hs Hsub Hn HQ quiet HW tlast s.
  split; [|split].
  - inversion HQ as [|? ? Hq HQ']; subst.
    assert (HA : armedAt cfg sid (Watcher.signalsOf Watcher.Tree s0) t1
                   (Watcher.deliver mm cfg root sid t1 uri1 s0))
      by (apply deliver_first; auto).
    pose proof (deliverAll_burst mm cfg root sid _ evs t1 _ HA HW HQ') as HA'.
    apply (armedAt_fires cfg sid _ _ _ T HA').
  - apply WatcherFacts.timerDelay_within.
  - intros H. apply WatcherFacts.timerDelay_beyond. right. exact H.
Qed.

(* ---------------------------------------------------------------------- *)
(** ** Concrete scheduler runs *)

Module WatcherExamples.
Import Watcher.

Definition noMatch (path pattern : string) : bool := false.

Definition config500 : AsciiAgentConfig :=
  {| ignore := ["node_modules"%string];
     architectureWatchPatterns := [];
     outputPaths_fileTree := "docs/file_tree.txt";
     outputPaths_architecture := "docs/architecture.txt";
     debounceMs := 500;
     maxHistorySnapshots := 3;
     contextFiles := [];
     filePriority := [] |}.

Definition root : string := "/ws".

(** Two watcher sessions started one after the other. *)
Definition twoSessions : Loop :=
  snd (startWatching [root] (snd (startWatching [root] (init 0)))).

Example two_sessions_watch :
  fst (startWatching [root] (init 0)) = Watching 0
  /\ fst (startWatching [root] (snd (startWatching [root] (init 0))))
     = Watching 1
  /\ subscribed twoSessions = [0; 1]%nat.
Proof. repeat split. Qed.

(** Session 0 sees a change of [src/app.ts] at time 0. *)
Definition session0Armed : Loop :=
  deliver noMatch config500 root 0%nat 0 "/ws/src/app.ts" twoSessions.

Example relative_path :
  Utils.workspaceRelativePath "/ws/docs/architecture.txt" "/ws/"
  = "docs/architecture.txt"%string.
Proof. reflexivity. Qed.

Example classify_source :
  classifyEvent noMatch config500 root "/ws/src/app.ts" = TreeOnly.
Proof. reflexivity. Qed.

Example classify_history :
  classifyEvent noMatch config500 root
    "/ws/.ascii_history/architecture_2026.txt" = Ignore.
Proof. reflexivity. Qed.

(** Quiet period 500 ms, events at 0, 100 and 200 ms: one signal, at
    700 ms. *)
Example burst_of_three :
  signalsOf Tree
    (advance 1000
       (deliverAll noMatch config500 root 0%nat
          [(0, "/ws/src/app.ts"%string); (100, "/ws/src/app.ts"%string);
           (200, "/ws/README.md"%string)] twoSessions))
  = [{| sigTime := 700; sigSession := 0%nat; sigConcern := Tree |}].
Proof. reflexivity. Qed.

(** A quiet period of 3000000000 ms, as [.asciirc.json] may give it. *)
Definition configLong : AsciiAgentConfig :=
  {| ignore := ["node_modules"%string];
     architectureWatchPatterns := [];
     outputPaths_fileTree := "docs/file_tree.txt";
     outputPaths_architecture := "docs/architecture.txt";
     debounceMs := 3000000000;
     maxHistorySnapshots := 3;
     contextFiles := [];
     filePriority := [] |}.

(** With that quiet period, changes at 0 and 100 ms raise the tree signal
    twice, 1 ms after each change. *)
Example long_quiet_period_fires_per_event :
  signalsOf Tree
    (advance 1000
       (deliverAll noMatch configLong root 0%nat
          [(0, "/ws/src/app.ts"%string); (100, "/ws/src/app.ts"%string)]
          twoSessions))
  = [{| sigTime := 1; sigSession := 0%nat; sigConcern := Tree |};
     {| sigTime := 101; sigSession := 0%nat; sigConcern := Tree |}].
Proof. reflexivity. Qed.

End WatcherExamples.

Lemma C1_witness :
  Watcher.classifyEvent (fun _ _ => true) WatcherExamples.config500 "/ws"
    "/ws/docs/architecture.txt" = Watcher.Ignore
  /\ Watcher.handleEvent (fun _ _ => true) WatcherExamples.config500 "/ws"
       0%nat "/ws/docs/architecture.txt" WatcherExamples.session0Armed
     = WatcherExamples.session0Armed.
Proof.
  apply (C1_self_writes_never_schedule (fun _ _ => true)
           WatcherExamples.config500 "/ws" "/ws/docs/architecture.txt" 0%nat
           WatcherExamples.session0Armed).
  right. left. reflexivity.
Defined.

(** A quiet period of 3000000000 ms and one change at time 0: the tree
    signal is raised at 1 ms. *)
Lemma C2_witness :
  Watcher.signalsOf Watcher.Tree
    (Watcher.advance 1000
       (Watcher.deliverAll WatcherExamples.noMatch WatcherExamples.configLong
          "/ws" 0%nat [(0, "/ws/src/app.ts"%string)]
          WatcherExamples.twoSessions))
  = [{| Watcher.sigTime := 1; Watcher.sigSession := 0%nat;
        Watcher.sigConcern := Watcher.Tree |}].
Proof.
  apply (C2_burst_fires_tree_once WatcherExamples.noMatch
           WatcherExamples.configLong "/ws" 0%nat WatcherExamples.twoSessions
           0 "/ws/src/app.ts" [] 1000).
  - apply WatcherFacts.wf_startWatching, WatcherFacts.wf_startWatching,
      WatcherFacts.wf_init.
  - reflexivity.
  - simpl. auto.
  - simpl. lia.
  - repeat constructor; simpl; discriminate.
  - exact I.
Defined.

(* ---------------------------------------------------------------------- *)
(** ** Who owns the timers *)

(** C9 (as stated) fails: session 0 has a tree timer pending, due at 500;
    disposing session 1 clears it, and the signal session 0 was waiting for
    is never raised. *)
Lemma C9_dispose_other_session_clears :
  Watcher.pending WatcherExamples.session0Armed
    = [{| Watcher.tid := 0; Watcher.due := 500; Watcher.owner := 0;
          Watcher.concern := Watcher.Tree |}]
  /\ Watcher.signals (Watcher.advance 1000 WatcherExamples.session0Armed)
     = [{| Watcher.sigTime := 500; Watcher.sigSession := 0%nat;
           Watcher.sigConcern := Watcher.Tree |}]
  /\ Watcher.pending (Watcher.dispose 1 WatcherExamples.session0Armed) = []
  /\ Watcher.signals
       (Watcher.advance 1000
          (Watcher.dispose 1 WatcherExamples.session0Armed)) = [].
Proof. repeat split; reflexivity. Qed.

(** C9 (amended): the two timer handles are module-level variables shared
    by every watcher session.  Disposing any session, or calling
    [cancelPendingTimers], resets both variables and clears every pending
    debounce timer, whichever session scheduled it; none of them fires
    afterwards. *)
Theorem C9_timers_are_module_level :
  forall (s : Watcher.Loop) (sid : nat) (T : Z),
    WatcherFacts.wf s ->
    (Watcher.pending (Watcher.dispose sid s) = []
     /\ Watcher.treeDebounceTimer (Watcher.dispose sid s) = None
     /\ Watcher.archDebounceTimer (Watcher.dispose sid s) = None
     /\ Watcher.signals (Watcher.advance T (Watcher.dispose sid s))
        = Watcher.signals s)
    /\ (Watcher.pending (Watcher.cancelPendingTimers s) = []
        /\ Watcher.treeDebounceTimer (Watcher.cancelPendingTimers s) = None
        /\ Watcher.archDebounceTimer (Watcher.cancelPendingTimers s) = None
        /\ Watcher.signals (Watcher.advance T (Watcher.cancelPendingTimers s))
           = Watcher.signals s).
Proof.
  intros s sid T W.
  pose proof (WatcherFacts.pending_cancelPendingTimers s W) as Hp.
  assert (Ht : Watcher.treeDebounceTimer (Watcher.cancelPendingTimers s) = None).
  { rewrite WatcherFacts.cancelPendingTimers_eq.
    change (Watcher.slot Watcher.Tree
              (WatcherFacts.cleared Watcher.Arch
                 (WatcherFacts.cleared Watcher.Tree s)) = None).
    rewrite WatcherFacts.slot_cleared_other by discriminate.
    apply WatcherFacts.slot_cleared_same. }
  assert (Ha : Watcher.archDebounceTimer (Watcher.cancelPendingTimers s) = None).
  { rewrite WatcherFacts.cancelPendingTimers_eq.
    apply (WatcherFacts.slot_cleared_same Watcher.Arch). }
  assert (Hg : Watcher.signals (Watcher.cancelPendingTimers s)
               = Watcher.signals s).
  { rewrite WatcherFacts.cancelPendingTimers_eq.
    destruct (WatcherFacts.cleared_frame Watcher.Arch
                (WatcherFacts.cleared Watcher.Tree s)) as (_ & _ & -> & _).
    destruct (WatcherFacts.cleared_frame Watcher.Tree s) as (_ & _ & -> & _).
    reflexivity. }
  split; repeat split; auto.
  - unfold Watcher.advance, Watcher.dispose. simpl. rewrite Hp. simpl.
    exact Hg.
  - unfold Watcher.advance. rewrite Hp. simpl. exact Hg.
Qed.

Lemma C9_witness :
  Watcher.pending (Watcher.dispose 1 WatcherExamples.session0Armed) = []
  /\ Watcher.pending
       (Watcher.cancelPendingTimers WatcherExamples.session0Armed) = [].
Proof.
  destruct (C9_timers_are_module_level WatcherExamples.session0Armed 1%nat 1000)
    as [(H1 & _) (H2 & _)].
  - unfold WatcherExamples.session0Armed, Watcher.deliver.
    change (WatcherFacts.wf
              (Watcher.handleEvent WatcherExamples.noMatch
                 WatcherExamples.config500 WatcherExamples.root 0%nat
                 "/ws/src/app.ts"
                 (Watcher.advance 0 WatcherExamples.twoSessions))).
    apply WatcherFacts.wf_handleEvent.
    apply (WatcherFacts.advance_keeps Watcher.Tree 0).
    + apply WatcherFacts.wf_startWatching, WatcherFacts.wf_startWatching,
        WatcherFacts.wf_init.
    + simpl. contradiction.
  - split; assumption.
Defined.


(* ---------------------------------------------------------------------- *)
(** ** Token-budgeted context gathering *)

Module AssemblerFacts.
Import Assembler.

Lemma length_append_string (a b : string) :
  String.length (a ++ b)%string = (String.length a + String.length b)%nat.
Proof. induction a as [|ch a IH]; simpl; [reflexivity | rewrite IH; reflexivity]. Qed.

(** The character estimate of a file section is never zero: the section
    always holds its header line. *)
Lemma charEstimate_section_pos relPath content :
  (0 < charEstimate (fileSectionOf relPath content))%nat.
Proof.
  unfold charEstimate, fileSectionOf.
  rewrite length_append_string. simpl String.length at 1.
  apply Nat.div_str_pos. lia.
Qed.

(** A token counter that never reports size zero. *)
Definition positiveCounter (model : option LanguageModelChat) : Prop :=
  forall m text n, model = Some m -> countTokens m text = Some n -> (0 < n)%nat.

Section GatherFacts.
Variable readFile : string -> option string.
Variable model : option LanguageModelChat.
Variable tokenBudget : nat.

Local Abbreviation loop := (gatherLoop readFile model tokenBudget).
Local Abbreviation size := (measuredSize model).
Local Abbreviation count := (tokenCountOf model).

Lemma measuredSize_app l1 l2 : size (l1 ++ l2) = (size l1 + size l2)%nat.
Proof.
  induction l1 as [|x l1 IH]; simpl; [reflexivity|].
  unfold measuredSize in *. simpl. rewrite IH. lia.
Qed.

(** A selection that measures nothing holds only sections that measure
    nothing. *)
Lemma measuredSize_nothing l :
  size l = 0%nat -> forall sec, In sec l -> count sec = 0%nat.
Proof.
  induction l as [|x l IH]; intros Hz sec Hin; [contradiction|].
  unfold measuredSize in Hz. simpl in Hz. fold (size l) in Hz.
  destruct Hin as [<- | Hin]; [lia | apply IH; [lia | exact Hin]].
Qed.

(** Loop invariant: [usedTokens] is the measured size of [sections] and
    stays within the budget. *)
Lemma gatherLoop_within prioritized : forall sections usedTokens,
  usedTokens = size sections -> (usedTokens <= tokenBudget)%nat ->
  snd (loop prioritized sections usedTokens)
    = size (fst (loop prioritized sections usedTokens))
  /\ (snd (loop prioritized sections usedTokens) <= tokenBudget)%nat.
Proof.
  induction prioritized as [|relPath rest IH]; intros sections used Hu Hb;
    simpl; [auto|].
  destruct (readFile relPath) as [content|]; [|apply IH; assumption].
  destruct (tokenBudget <? used + _)%nat eqn:C; simpl; [auto|].
  apply Nat.ltb_ge in C. apply IH; [|exact C].
  rewrite measuredSize_app, <- Hu. unfold measuredSize. simpl. lia.
Qed.

(** Sections are only ever appended. *)
Lemma gatherLoop_extends prioritized : forall sections usedTokens,
  exists added, fst (loop prioritized sections usedTokens) = sections ++ added.
Proof.
  induction prioritized as [|relPath rest IH]; intros sections used; simpl.
  { exists []. symmetry. apply app_nil_r. }
  destruct (readFile relPath) as [content|]; [|apply IH].
  destruct (tokenBudget <? used + _)%nat; simpl.
  { exists []. symmetry. apply app_nil_r. }
  destruct (IH (sections ++ [fileSectionOf relPath content])
               (used + count (fileSectionOf relPath content))%nat)
    as [added Ha].
  exists (fileSectionOf relPath content :: added).
  rewrite Ha, <- app_assoc. reflexivity.
Qed.

(** With nothing left of the budget and no zero-sized section, the loop
    adds nothing. *)
Lemma gatherLoop_exhausted prioritized : forall sections,
  positiveCounter model ->
  loop prioritized sections tokenBudget = (sections, tokenBudget).
Proof.
  intros sections Hpos.
  induction prioritized as [|relPath rest IH]; simpl; [reflexivity|].
  destruct (readFile relPath) as [content|]; [|exact IH].
  assert (0 < count (fileSectionOf relPath content))%nat as Hc.
  { unfold tokenCountOf. destruct model as [m|].
    - unfold safeCountTokens.
      destruct (countTokens m _) as [n|] eqn:E;
        [eapply Hpos; eauto | apply charEstimate_section_pos].
    - apply charEstimate_section_pos. }
  assert ((tokenBudget <? tokenBudget + count (fileSectionOf relPath content))%nat
          = true) as -> by (apply Nat.ltb_lt; lia).
  reflexivity.
Qed.

(** Every selected section is the whole section of a readable candidate. *)
Lemma gatherLoop_whole prioritized : forall sections usedTokens sec,
  In sec (fst (loop prioritized sections usedTokens)) ->
  In sec sections
  \/ exists relPath content,
       In relPath prioritized /\ readFile relPath = Some content
       /\ sec = fileSectionOf relPath content.
Proof.
  induction prioritized as [|relPath rest IH]; intros sections used sec;
    simpl; [auto|].
  destruct (readFile relPath) as [content|] eqn:R.
  - destruct (tokenBudget <? used + _)%nat; simpl; [auto|].
    intros H. apply IH in H as [H | (p & c & Hp & Hr & Hs)].
    + apply in_app_iff in H as [H | [<- | []]]; [auto|].
      right. exists relPath, content. auto.
    + right. exists p, c. auto.
  - intros H. apply IH in H as [H | (p & c & Hp & Hr & Hs)]; [auto|].
    right. exists p, c. auto.
Qed.

(** The loop ends at the first readable candidate that does not fit:
    whatever follows it, the outcome is that of the candidates before it. *)
Lemma gatherLoop_stops before : forall sections usedTokens relPath content after,
  readFile relPath = Some content ->
  (tokenBudget < snd (loop before sections usedTokens)
                 + count (fileSectionOf relPath content))%nat ->
  loop (before ++ relPath :: after) sections usedTokens
  = loop before sections usedTokens.
Proof.
  induction before as [|p before IH];
    intros sections used relPath content after R Hover; simpl in *.
  - rewrite R. apply Nat.ltb_lt in Hover. rewrite Hover. reflexivity.
  - destruct (readFile p) as [c|]; [|eapply IH; eauto].
    destruct (tokenBudget <? used + _)%nat; [reflexivity|].
    eapply IH; eauto.
Qed.
End GatherFacts.

End AssemblerFacts.

(** C4: the context assembled by [gatherSourceContext] never has cumulative
    measured size above the budget; with budget 0 the selection holds
    only sections whose measured size is 0, so that it is empty whenever
    no section measures 0, as is always the case without a model, where
    the size is the character estimate; and a single candidate measuring
    more than the budget leaves the selection empty. *)
Theorem C4_selection_within_budget :
  forall (readFile : string -> option string)
         (model : option Assembler.LanguageModelChat)
         (tokenBudget : nat) (prioritized : list string),
    (Assembler.measuredSize model
       (Assembler.selectedSections readFile model tokenBudget prioritized)
     <= tokenBudget)%nat
    /\ (tokenBudget = 0%nat ->
        (forall section,
           In section
              (Assembler.selectedSections readFile model tokenBudget
                 prioritized) ->
           Assembler.tokenCountOf model section = 0%nat)
        /\ (AssemblerFacts.positiveCounter model ->
            Assembler.selectedSections readFile model tokenBudget prioritized
            = [])
        /\ (model = None ->
            Assembler.selectedSections readFile model tokenBudget prioritized
            = []))
    /\ (forall relPath content,
          prioritized = [relPath] -> readFile relPath = Some content ->
          (tokenBudget
           < Assembler.tokenCountOf model
               (Assembler.fileSectionOf relPath content))%nat ->
          Assembler.selectedSections readFile model tokenBudget prioritized
          = []).
Proof.
  intros readFile model budget prioritized.
  assert (Hwithin :
    (Assembler.measuredSize model
       (Assembler.selectedSections readFile model budget prioritized)
     <= budget)%nat).
  { unfold Assembler.selectedSections.
    destruct (AssemblerFacts.gatherLoop_within readFile model budget
                prioritized [] 0%nat) as [Hs Hb]; [reflexivity | lia |].
    rewrite <- Hs. exact Hb. }
  assert (Hempty : budget = 0%nat -> AssemblerFacts.positiveCounter model ->
                   Assembler.selectedSections readFile model budget prioritized
                   = []).
  { intros -> Hpos. unfold Assembler.selectedSections.
    rewrite (AssemblerFacts.gatherLoop_exhausted readFile model 0%nat
               prioritized [] Hpos).
    reflexivity. }
  split; [exact Hwithin|]. split.
  - intros Hz. split; [|split].
    + apply AssemblerFacts.measuredSize_nothing. lia.
    + apply Hempty, Hz.
    + intros ->. apply (Hempty Hz). intros m text n H. discriminate.
  - intros relPath content -> R Hbig. unfold Assembler.selectedSections.
    simpl. rewrite R. simpl.
    apply Nat.ltb_lt in Hbig. rewrite Hbig. reflexivity.
Qed.

Module AssemblerExamples.
Import Assembler.

(** Forty characters of content. *)
Definition bigContent : string :=
  "export const a = 1; export const b = 2;;"%string.

Definition files (relPath : string) : option string :=
  if String.eqb relPath "src/a.ts" then Some bigContent
  else if String.eqb relPath "src/b.ts" then Some "x"%string
  else None.

Example size_of_big :
  tokenCountOf None (fileSectionOf "src/a.ts" bigContent) = 15%nat.
Proof. reflexivity. Qed.

Example size_of_small :
  tokenCountOf None (fileSectionOf "src/b.ts" "x") = 5%nat.
Proof. reflexivity. Qed.

Example small_alone_is_selected :
  selectedSections files None 10 ["src/b.ts"%string]
  = [fileSectionOf "src/b.ts" "x"].
Proof. reflexivity. Qed.

(** A model whose [countTokens] resolves to 0 for every text. *)
Definition silent : LanguageModelChat :=
  {| modelName := "silent"; countTokens := fun _ => Some 0%nat |}.

End AssemblerExamples.

(** C4 (as stated) fails: with budget 0 and a model whose counter reports
    0 tokens, the one readable candidate is selected ([0 + 0 > 0] is
    false), so the selection is not empty; its measured size, 0, is
    within the budget. *)
Lemma C4_zero_budget_takes_unmeasured_section :
  Assembler.selectedSections AssemblerExamples.files
    (Some AssemblerExamples.silent) 0 ["src/b.ts"%string]
  = [Assembler.fileSectionOf "src/b.ts" "x"]
  /\ Assembler.selectedSections AssemblerExamples.files
       (Some AssemblerExamples.silent) 0 ["src/b.ts"%string] <> []
  /\ Assembler.measuredSize (Some AssemblerExamples.silent)
       (Assembler.selectedSections AssemblerExamples.files
          (Some AssemblerExamples.silent) 0 ["src/b.ts"%string]) = 0%nat.
Proof.
  split; [reflexivity|]. split; [discriminate | reflexivity].
Qed.

Lemma C4_witness :
  Assembler.selectedSections AssemblerExamples.files None 0
    ["src/a.ts"%string; "src/b.ts"%string] = []
  /\ Assembler.selectedSections AssemblerExamples.files None 10
       ["src/a.ts"%string] = [].
Proof.
  destruct (C4_selection_within_budget AssemblerExamples.files None 0%nat
              ["src/a.ts"%string; "src/b.ts"%string]) as (_ & Hzero & _).
  destruct (C4_selection_within_budget AssemblerExamples.files None 10%nat
              ["src/a.ts"%string]) as (_ & _ & Hone).
  split.
  - apply Hzero; reflexivity.
  - apply (Hone "src/a.ts"%string AssemblerExamples.bigContent);
      [reflexivity | reflexivity | vm_compute; lia].
Defined.

(** C6 (as stated) fails: with budget 10, the first candidate (15 tokens)
    does not fit, the next one (5 tokens) would fit in the remaining
    budget of 10, and yet nothing is selected. *)
Lemma C6_next_candidate_not_considered :
  (10 < Assembler.tokenCountOf None
          (Assembler.fileSectionOf "src/a.ts" AssemblerExamples.bigContent))%nat
  /\ (Assembler.tokenCountOf None (Assembler.fileSectionOf "src/b.ts" "x")
      <= 10)%nat
  /\ Assembler.selectedSections AssemblerExamples.files None 10
       ["src/a.ts"%string; "src/b.ts"%string] = []
  /\ ~ In (Assembler.fileSectionOf "src/b.ts" "x")
          (Assembler.selectedSections AssemblerExamples.files None 10
             ["src/a.ts"%string; "src/b.ts"%string]).
Proof.
  split; [vm_compute; lia|].
  split; [vm_compute; lia|].
  split; [reflexivity|].
  vm_compute. tauto.
Qed.

(** C6 (amended): a candidate whose measured size exceeds the remaining
    budget is not split, and assembly stops there: the outcome is that of
    the candidates before it, so neither it nor any lower-priority
    candidate is included; every section that is selected is the whole
    section of a readable candidate. *)
Theorem C6_assembly_stops_at_first_overflow :
  forall (readFile : string -> option string)
         (model : option Assembler.LanguageModelChat)
         (tokenBudget : nat),
    (forall before relPath content after,
       readFile relPath = Some content ->
       (tokenBudget
        < snd (Assembler.gatherLoop readFile model tokenBudget before [] 0%nat)
          + Assembler.tokenCountOf model
              (Assembler.fileSectionOf relPath content))%nat ->
       Assembler.selectedSections readFile model tokenBudget
         (before ++ relPath :: after)
       = Assembler.selectedSections readFile model tokenBudget before)
    /\ (forall prioritized sec,
          In sec (Assembler.selectedSections readFile model tokenBudget
                    prioritized) ->
          exists relPath content,
            In relPath prioritized /\ readFile relPath = Some content
            /\ sec = Assembler.fileSectionOf relPath content).
Proof.
  intros readFile model budget. split.
  - intros before relPath content after R Hover.
    unfold Assembler.selectedSections.
    rewrite (AssemblerFacts.gatherLoop_stops readFile model budget before
               [] 0%nat relPath content after R Hover).
    reflexivity.
  - intros prioritized sec H.
    apply AssemblerFacts.gatherLoop_whole in H as [[] | H]. exact H.
Qed.

Lemma C6_witness :
  Assembler.selectedSections AssemblerExamples.files None 10
    (["src/b.ts"%string] ++ "src/a.ts"%string :: ["README.md"%string])
  = Assembler.selectedSections AssemblerExamples.files None 10
      ["src/b.ts"%string].
Proof.
  destruct (C6_assembly_stops_at_first_overflow AssemblerExamples.files None
              10%nat) as [Hstop _].
  apply (Hstop ["src/b.ts"%string] "src/a.ts"%string
           AssemblerExamples.bigContent ["README.md"%string]).
  - reflexivity.
  - vm_compute. lia.
Defined.

(* ---------------------------------------------------------------------- *)
(** ** Snapshot retention *)

Module HistoryFacts.
Import History.

(** A directory listing never holds two entries of the same name. *)
Definition wellFormedDir (entries : list Entry) : Prop :=
  NoDup (map ename entries).

Definition olderOrEqual (a b : string * Z) : Prop := snd a <= snd b.

Definition deletedBy (names : list string) (e : Entry) : bool :=
  (existsb (String.eqb (ename e)) names && edeletable e)%bool.

Lemma filter_twice {A} (p q : A -> bool) (l : list A) :
  filter p (filter q l) = filter (fun x => (q x && p x)%bool) l.
Proof.
  induction l as [|x l IH]; simpl; [reflexivity|].
  destruct (q x); simpl; [destruct (p x); simpl; congruence | exact IH].
Qed.

Lemma deleteAll_filter names : forall entries,
  fold_left (fun dir name => deleteFile name dir) names entries
  = filter (fun e => negb (deletedBy names e)) entries.
Proof.
  induction names as [|n names IH]; intros entries; simpl.
  - symmetry. apply forallb_filter_id. apply forallb_forall.
    intros e _. reflexivity.
  - rewrite IH. unfold deleteFile. rewrite filter_twice.
    apply filter_ext. intros e. unfold deletedBy. simpl.
    destruct (String.eqb (ename e) n), (existsb _ names), (edeletable e);
      reflexivity.
Qed.

Lemma in_insertByMtime x y l :
  In y (insertByMtime x l) <-> y = x \/ In y l.
Proof.
  induction l as [|z l IH]; simpl.
  - intuition congruence.
  - destruct (snd x <=? snd z); simpl; [intuition congruence|].
    rewrite IH. intuition congruence.
Qed.

Lemma sortByMtime_perm l : Permutation (sortByMtime l) l.
Proof.
  induction l as [|x l IH]; simpl; [constructor|].
  transitivity (x :: sortByMtime l); [|constructor; exact IH].
  generalize (sortByMtime l). clear. intros s.
  induction s as [|y s IHs]; simpl; [reflexivity|].
  destruct (snd x <=? snd y); [reflexivity|].
  transitivity (y :: x :: s); [constructor; exact IHs | constructor].
Qed.

Lemma sortByMtime_sorted l : StronglySorted olderOrEqual (sortByMtime l).
Proof.
  induction l as [|x l IH]; simpl; [constructor|].
  revert IH. generalize (sortByMtime l). clear. intros s Hs.
  induction Hs as [|y s Hs IHs Hall]; simpl; [repeat constructor|].
  destruct (snd x <=? snd y) eqn:C.
  - apply Z.leb_le in C. constructor; [constructor; assumption|].
    constructor; [exact C|].
    rewrite Forall_forall in *. intros z Hz. specialize (Hall z Hz).
    unfold olderOrEqual in *. lia.
  - apply Z.leb_gt in C. constructor; [exact IHs|].
    rewrite Forall_forall in *. intros z Hz.
    apply in_insertByMtime in Hz as [-> | Hz]; [|auto].
    unfold olderOrEqual. lia.
Qed.

Lemma sorted_prefix_older l1 : forall l2 a b,
  StronglySorted olderOrEqual (l1 ++ l2) -> In a l1 -> In b l2 ->
  olderOrEqual a b.
Proof.
  induction l1 as [|x l1 IH]; intros l2 a b Hs Ha Hb; [contradiction|].
  simpl in Hs. inversion Hs as [|? ? Hs' Hall]; subst.
  destruct Ha as [<- | Ha]; [|eauto].
  rewrite Forall_forall in Hall. apply Hall. apply in_or_app. auto.
Qed.

Lemma slice0_incl {A} (k : Z) (l : list A) x : In x (slice0 k l) -> In x l.
Proof.
  unfold slice0. intros H.
  set (n := Z.to_nat _) in H.
  rewrite <- (firstn_skipn n l). apply in_or_app. left. exact H.
Qed.

(** Whatever is scheduled for deletion is the name of a snapshot file. *)
Lemma toDelete_names entries maxSnapshots name :
  In name (map fst (toDeleteOf entries maxSnapshots)) ->
  In name (snapshotNamesOf entries).
Proof.
  intros H. apply in_map_iff in H as ([n t] & <- & Hin). simpl.
  apply slice0_incl in Hin.
  apply (Permutation_in _ (sortByMtime_perm _)) in Hin.
  apply in_map_iff in Hin as (n' & Heq & Hin). congruence.
Qed.

Lemma same_name_same_entry entries a b :
  wellFormedDir entries -> In a entries -> In b entries ->
  ename a = ename b -> a = b.
Proof.
  unfold wellFormedDir. intros ND.
  induction entries as [|e rest IH]; simpl; [contradiction|].
  simpl in ND. apply NoDup_cons_iff in ND as [Hnew ND].
  intros [Ha | Ha] [Hb | Hb] Heq; subst; auto.
  - exfalso. apply Hnew. rewrite Heq. apply in_map. exact Hb.
  - exfalso. apply Hnew. rewrite <- Heq. apply in_map. exact Ha.
Qed.

Lemma existsb_name_in name names :
  existsb (String.eqb name) names = true <-> In name names.
Proof.
  rewrite existsb_exists. split.
  - intros (x & Hin & Heq). apply String.eqb_eq in Heq. congruence.
  - intros H. exists name. split; [exact H | apply String.eqb_refl].
Qed.

(** Entries that are not snapshot files survive every prune. *)
Lemma prune_keeps_others entries maxSnapshots e :
  wellFormedDir entries -> In e entries -> isSnapshot e = false ->
  In e (pruneEntries entries maxSnapshots).
Proof.
  intros WF Hin Hns. unfold pruneEntries.
  destruct (_ <=? maxSnapshots); [exact Hin|].
  rewrite deleteAll_filter. apply filter_In. split; [exact Hin|].
  unfold deletedBy.
  destruct (existsb _ _) eqn:E; [|reflexivity]. exfalso.
  apply existsb_name_in, toDelete_names in E.
  unfold snapshotNamesOf in E. apply in_map_iff in E as (e' & Heq & Hin').
  apply filter_In in Hin' as [Hin' Hs].
  assert (e' = e) by (eapply same_name_same_entry; eauto).
  congruence.
Qed.

Lemma find_by_name entries e :
  wellFormedDir entries -> In e entries ->
  find (fun x => String.eqb (ename x) (ename e)) entries = Some e.
Proof.
  intros WF Hin.
  destruct (find _ entries) as [x|] eqn:F.
  - apply find_some in F as [Hx Heq]. apply String.eqb_eq in Heq.
    f_equal. eapply same_name_same_entry; eauto.
  - exfalso. apply (find_none _ _ F) in Hin.
    rewrite String.eqb_refl in Hin. discriminate.
Qed.

Lemma wellFormedDir_filter p entries :
  wellFormedDir entries -> wellFormedDir (filter p entries).
Proof.
  unfold wellFormedDir. intros ND.
  induction entries as [|e rest IH]; simpl; [constructor|].
  simpl in ND. apply NoDup_cons_iff in ND as [Hnew ND].
  destruct (p e); simpl; [|exact (IH ND)].
  apply NoDup_cons; [|exact (IH ND)].
  rewrite in_map_iff. intros (x & Hx & Hin).
  apply filter_In in Hin as [Hin _].
  apply Hnew. rewrite <- Hx. apply in_map. exact Hin.
Qed.

Lemma snapshotNamesOf_snapshots entries :
  snapshotNamesOf (filter isSnapshot entries) = snapshotNamesOf entries.
Proof.
  unfold snapshotNamesOf. f_equal.
  induction entries as [|e rest IH]; simpl; [reflexivity|].
  destruct (isSnapshot e) eqn:E; simpl; [rewrite E; f_equal|]; exact IH.
Qed.

(** The modification time found for a snapshot name does not depend on the
    other entries of the directory. *)
Lemma mtimeOf_snapshots entries name :
  wellFormedDir entries -> In name (snapshotNamesOf entries) ->
  mtimeOf (filter isSnapshot entries) name = mtimeOf entries name.
Proof.
  intros WF Hin. unfold snapshotNamesOf in Hin.
  apply in_map_iff in Hin as (e & <- & Hin).
  pose proof Hin as Hin'. apply filter_In in Hin' as [Hin' _].
  unfold mtimeOf.
  rewrite (find_by_name entries e WF Hin').
  rewrite (find_by_name _ e (wellFormedDir_filter _ _ WF) Hin).
  reflexivity.
Qed.

Lemma toDeleteOf_snapshots entries maxSnapshots :
  wellFormedDir entries ->
  toDeleteOf (filter isSnapshot entries) maxSnapshots
  = toDeleteOf entries maxSnapshots.
Proof.
  intros WF. unfold toDeleteOf. rewrite snapshotNamesOf_snapshots.
  assert (E : map (fun name => (name, mtimeOf (filter isSnapshot entries) name))
                (snapshotNamesOf entries)
              = map (fun name => (name, mtimeOf entries name))
                  (snapshotNamesOf entries)).
  { apply map_ext_in. intros name Hin.
    rewrite mtimeOf_snapshots by assumption. reflexivity. }
  rewrite E. reflexivity.
Qed.

Lemma filter_swap {A} (p q : A -> bool) l :
  filter p (filter q l) = filter q (filter p l).
Proof.
  induction l as [|x l IH]; simpl; [reflexivity|].
  destruct (p x) eqn:P, (q x) eqn:Q; simpl; rewrite ?P, ?Q, IH; reflexivity.
Qed.

(** Pruning looks at the snapshot files only. *)
Lemma prune_ignores_others entries maxSnapshots :
  wellFormedDir entries ->
  filter isSnapshot (pruneEntries entries maxSnapshots)
  = pruneEntries (filter isSnapshot entries) maxSnapshots.
Proof.
  intros WF. unfold pruneEntries.
  rewrite snapshotNamesOf_snapshots, toDeleteOf_snapshots by assumption.
  destruct (_ <=? maxSnapshots); [reflexivity|].
  rewrite !deleteAll_filter. apply filter_swap.
Qed.

End HistoryFacts.

(** C10: [pruneSnapshots] considers only regular files whose name ends in
    [.txt]: in every (well-formed) directory and for every maximum, an
    entry that is a subdirectory, a link or a file of another extension is
    still there after the prune, and the snapshot files that remain are
    those that remain when the prune runs on the snapshot files alone, so
    other entries never count toward the maximum. *)
Theorem C10_prune_touches_only_snapshot_files :
  forall (entries : list History.Entry) (maxSnapshots : Z),
    HistoryFacts.wellFormedDir entries ->
    (forall e, In e entries -> History.isSnapshot e = false ->
               In e (History.pruneEntries entries maxSnapshots))
    /\ filter History.isSnapshot (History.pruneEntries entries maxSnapshots)
       = History.pruneEntries (filter History.isSnapshot entries) maxSnapshots
    /\ History.pruneSnapshots (Some entries) maxSnapshots
       = Some (History.pruneEntries entries maxSnapshots).
Proof.
  intros entries maxSnapshots WF. repeat split.
  - intros e Hin Hns. apply HistoryFacts.prune_keeps_others; assumption.
  - apply HistoryFacts.prune_ignores_others; assumption.
Qed.

Module HistoryExamples.
Import History.

Definition shot (n : Z) (iso : string) : string * Z * string :=
  (iso, n, "diagram").

(** Five generations, one second apart. *)
Definition fiveShots : list (string * Z * string) :=
  [shot 1000 "2026-02-19T14:30:01.000Z"; shot 2000 "2026-02-19T14:30:02.000Z";
   shot 3000 "2026-02-19T14:30:03.000Z"; shot 4000 "2026-02-19T14:30:04.000Z";
   shot 5000 "2026-02-19T14:30:05.000Z"].

Definition afterShots (maxSnapshots : Z) (shots : list (string * Z * string))
  : option (list Entry) :=
  fold_left (saveAndPrune maxSnapshots) shots None.

Definition namesIn (dir : option (list Entry)) : list string :=
  match dir with Some entries => snapshotNamesOf entries | None => [] end.

(** A retention directory that also holds a note and a subdirectory. *)
Definition snapshotFile (name : string) (mtime : Z) : Entry :=
  {| ename := name; etype := FileType_File; emtime := Some mtime;
     edeletable := true; econtent := "diagram" |}.

Definition notes : Entry :=
  {| ename := "notes.md"; etype := FileType_File; emtime := Some 10;
     edeletable := true; econtent := "keep" |}.

Definition archive : Entry :=
  {| ename := "archive.txt"; etype := FileType_Directory; emtime := Some 5;
     edeletable := true; econtent := "" |}.

Definition mixedDir : list Entry :=
  [snapshotFile "architecture_2026-02-19T14-30-01.000Z.txt" 1000;
   notes; archive;
   snapshotFile "architecture_2026-02-19T14-30-02.000Z.txt" 2000].

(** Three snapshot files, nothing else. *)
Definition threeSnapshots : list Entry :=
  [snapshotFile "architecture_2026-02-19T14-30-01.000Z.txt" 1000;
   snapshotFile "architecture_2026-02-19T14-30-02.000Z.txt" 2000;
   snapshotFile "architecture_2026-02-19T14-30-03.000Z.txt" 3000].

Example file_name_of_first_shot :
  namesIn (afterShots 3 (firstn 1 fiveShots))
  = ["architecture_2026-02-19T14-30-01.000Z.txt"%string].
Proof. reflexivity. Qed.

Example prune_mixed :
  map ename (pruneEntries mixedDir 1) = ["notes.md"%string; "archive.txt"%string].
Proof. reflexivity. Qed.

End HistoryExamples.

Lemma C10_witness :
  In HistoryExamples.archive (History.pruneEntries HistoryExamples.mixedDir 1)
  /\ In HistoryExamples.notes (History.pruneEntries HistoryExamples.mixedDir 1).
Proof.
  destruct (C10_prune_touches_only_snapshot_files HistoryExamples.mixedDir 1)
    as (Hkeep & _).
  - unfold HistoryFacts.wellFormedDir. simpl.
    repeat (constructor; [simpl; intuition discriminate|]). constructor.
  - split; apply Hkeep; simpl; auto.
Defined.

(* ---------------------------------------------------------------------- *)
(** ** How many snapshots a prune leaves *)

Module RetentionFacts.
Import History HistoryFacts.

(** Every snapshot file can be deleted: the prune is successful. *)
Definition allDeletable (entries : list Entry) : Prop :=
  forall e, In e entries -> isSnapshot e = true -> edeletable e = true.

Definition listed (names : list string) (name : string) : bool :=
  existsb (String.eqb name) names.

Lemma prune_noop entries maxSnapshots :
  Z.of_nat (List.length (snapshotNamesOf entries)) <= maxSnapshots ->
  pruneEntries entries maxSnapshots = entries.
Proof.
  intros H. unfold pruneEntries. apply Z.leb_le in H. rewrite H. reflexivity.
Qed.

Lemma filter_length_perm (keep : string -> bool) l l' :
  Permutation l l' ->
  List.length (filter keep l) = List.length (filter keep l').
Proof.
  induction 1 as [| x l l' _ IH | x y l | l l' l'' _ IH1 _ IH2]; simpl.
  - reflexivity.
  - destruct (keep x); simpl; congruence.
  - destruct (keep x), (keep y); reflexivity.
  - congruence.
Qed.

Lemma filter_drop_prefix (l1 : list string) : forall l2,
  NoDup (l1 ++ l2) ->
  filter (fun name => negb (listed l1 name)) (l1 ++ l2) = l2.
Proof.
  intros l2 ND.
  rewrite filter_app.
  assert (E1 : filter (fun name => negb (listed l1 name)) l1 = []).
  { assert (G : forall l, incl l l1 ->
                filter (fun name => negb (listed l1 name)) l = []).
    { induction l as [|x l IH]; simpl; intros Hi; [reflexivity|].
      assert (Hx : listed l1 x = true)
        by (apply existsb_name_in, Hi; left; reflexivity).
      rewrite Hx. simpl. apply IH. intros y Hy. apply Hi. right. exact Hy. }
    apply G, incl_refl. }
  assert (E2 : filter (fun name => negb (listed l1 name)) l2 = l2).
  { apply forallb_filter_id, forallb_forall. intros x Hx.
    apply negb_true_iff. destruct (listed l1 x) eqn:E; [|reflexivity].
    exfalso. apply existsb_name_in in E.
    revert ND Hx E. clear. induction l1 as [|a l1 IH]; simpl; [tauto|].
    intros ND Hx [-> | E].
    - apply NoDup_cons_iff in ND as [Hn _]. apply Hn, in_or_app. auto.
    - apply NoDup_cons_iff in ND as [_ ND]. eauto. }
  rewrite E1, E2. reflexivity.
Qed.

(** The names in modification-time order. *)
Definition sortedNames (entries : list Entry) : list string :=
  map fst (sortByMtime (map (fun name => (name, mtimeOf entries name))
                            (snapshotNamesOf entries))).

Lemma sortedNames_perm entries :
  Permutation (sortedNames entries) (snapshotNamesOf entries).
Proof.
  unfold sortedNames.
  transitivity (map fst (map (fun name => (name, mtimeOf entries name))
                             (snapshotNamesOf entries))).
  - apply Permutation_map, sortByMtime_perm.
  - rewrite map_map. simpl. rewrite map_id. reflexivity.
Qed.

Lemma snapshotNames_nodup entries :
  wellFormedDir entries -> NoDup (snapshotNamesOf entries).
Proof. intros WF. apply (wellFormedDir_filter isSnapshot entries WF). Qed.

(** Above the maximum, [slice(0, length - targetCount)] takes all but
    [maxSnapshots - 1] names. *)
Lemma toDelete_names_firstn entries maxSnapshots :
  1 <= maxSnapshots ->
  maxSnapshots < Z.of_nat (List.length (snapshotNamesOf entries)) ->
  map fst (toDeleteOf entries maxSnapshots)
  = firstn (List.length (snapshotNamesOf entries)
            - Z.to_nat (maxSnapshots - 1))
           (sortedNames entries).
Proof.
  intros Hmax Hn. unfold toDeleteOf, sortedNames, slice0.
  set (sorted := sortByMtime _).
  assert (Hlen : List.length sorted = List.length (snapshotNamesOf entries)).
  { unfold sorted. rewrite (Permutation_length (sortByMtime_perm _)).
    apply length_map. }
  rewrite Hlen.
  set (n := List.length (snapshotNamesOf entries)) in *.
  assert ((Z.of_nat n - (maxSnapshots - 1) <? 0) = false) as ->
    by (apply Z.ltb_ge; lia).
  rewrite firstn_map. f_equal. f_equal. lia.
Qed.

Lemma remaining_names entries names :
  allDeletable entries ->
  snapshotNamesOf (filter (fun e => negb (deletedBy names e)) entries)
  = filter (fun name => negb (listed names name)) (snapshotNamesOf entries).
Proof.
  intros Hdel. unfold snapshotNamesOf.
  induction entries as [|e rest IH]; simpl; [reflexivity|].
  assert (Hrest : allDeletable rest)
    by (intros x Hx; apply Hdel; right; exact Hx).
  specialize (IH Hrest).
  destruct (isSnapshot e) eqn:S; simpl.
  - unfold deletedBy at 1. rewrite (Hdel e (or_introl eq_refl) S).
    rewrite andb_true_r. fold (listed names (ename e)).
    destruct (listed names (ename e)); simpl; [|rewrite S; simpl; f_equal];
      exact IH.
  - destruct (negb (deletedBy names e)); simpl; [rewrite S|]; exact IH.
Qed.

(** Above the maximum, a successful prune leaves [maxSnapshots - 1]. *)
Lemma prune_count entries maxSnapshots :
  wellFormedDir entries -> allDeletable entries -> 1 <= maxSnapshots ->
  maxSnapshots < Z.of_nat (List.length (snapshotNamesOf entries)) ->
  List.length (snapshotNamesOf (pruneEntries entries maxSnapshots))
  = Z.to_nat (maxSnapshots - 1).
Proof.
  intros WF Hdel Hmax Hn. unfold pruneEntries.
  assert ((Z.of_nat (List.length (snapshotNamesOf entries)) <=? maxSnapshots)
          = false) as -> by (apply Z.leb_gt; lia).
  rewrite deleteAll_filter, remaining_names by assumption.
  rewrite toDelete_names_firstn by assumption.
  set (n := List.length (snapshotNamesOf entries)) in *.
  set (k := (n - Z.to_nat (maxSnapshots - 1))%nat).
  rewrite <- (filter_length_perm _ _ _ (sortedNames_perm entries)).
  assert (ND : NoDup (sortedNames entries)).
  { apply (Permutation_NoDup (Permutation_sym (sortedNames_perm entries))).
    apply snapshotNames_nodup. exact WF. }
  rewrite <- (firstn_skipn k (sortedNames entries)) in ND.
  set (pre := firstn k (sortedNames entries)) in *.
  rewrite <- (firstn_skipn k (sortedNames entries)). fold pre.
  rewrite filter_drop_prefix by exact ND.
  rewrite length_skipn, (Permutation_length (sortedNames_perm entries)).
  fold n. unfold k. lia.
Qed.

(** What a prune deletes is never newer than what it keeps. *)
Lemma prune_deletes_oldest entries maxSnapshots x y :
  allDeletable entries ->
  In x entries -> isSnapshot x = true ->
  ~ In x (pruneEntries entries maxSnapshots) ->
  In y (pruneEntries entries maxSnapshots) -> isSnapshot y = true ->
  mtimeOf entries (ename x) <= mtimeOf entries (ename y).
Proof.
  intros Hdel Hx Sx Hgone Hy Sy. unfold pruneEntries in *.
  destruct (_ <=? maxSnapshots); [contradiction|].
  rewrite deleteAll_filter in *.
  apply filter_In in Hy as [Hy Hky].
  assert (Hdx : deletedBy (map fst (toDeleteOf entries maxSnapshots)) x = true).
  { destruct (deletedBy _ x) eqn:E; [reflexivity|]. exfalso. apply Hgone.
    apply filter_In. rewrite E. auto. }
  unfold deletedBy in Hdx, Hky.
  rewrite (Hdel y Hy Sy), andb_true_r in Hky. apply negb_true_iff in Hky.
  apply andb_true_iff in Hdx as [Hdx _]. apply existsb_name_in in Hdx.
  unfold toDeleteOf, slice0 in Hdx, Hky.
  set (withMtimes := map (fun name => (name, mtimeOf entries name))
                         (snapshotNamesOf entries)) in *.
  set (sorted := sortByMtime withMtimes) in *.
  set (k := Z.to_nat _) in *.
  assert (Hmem : forall p, In p sorted -> snd p = mtimeOf entries (fst p)).
  { intros p Hp. apply (Permutation_in _ (sortByMtime_perm _)) in Hp.
    apply in_map_iff in Hp as (nm & <- & _). reflexivity. }
  apply in_map_iff in Hdx as (px & Hpx & Hinx).
  assert (Hiny : In (ename y, mtimeOf entries (ename y)) (skipn k sorted)).
  { assert (Hs : In (ename y, mtimeOf entries (ename y)) sorted).
    { apply (Permutation_in _ (Permutation_sym (sortByMtime_perm _))).
      apply in_map_iff. exists (ename y). split; [reflexivity|].
      unfold snapshotNamesOf. apply in_map, filter_In. auto. }
    rewrite <- (firstn_skipn k sorted) in Hs.
    apply in_app_or in Hs as [Hs | Hs]; [|exact Hs]. exfalso.
    assert (existsb (String.eqb (ename y)) (map fst (firstn k sorted)) = true).
    { apply existsb_name_in, in_map_iff. eexists; split; [|exact Hs].
      reflexivity. }
    congruence. }
  pose proof (sortByMtime_sorted withMtimes) as Hsorted. fold sorted in Hsorted.
  rewrite <- (firstn_skipn k sorted) in Hsorted.
  pose proof (sorted_prefix_older _ _ _ _ Hsorted Hinx Hiny) as Hle.
  unfold olderOrEqual in Hle. simpl in Hle.
  rewrite (Hmem px) in Hle.
  - rewrite Hpx in Hle. exact Hle.
  - rewrite <- (firstn_skipn k sorted). apply in_or_app. auto.
Qed.

End RetentionFacts.

(** C5 (as stated) fails: with three snapshots present a prune with
    maximum 3 deletes nothing, so three remain (more than 3 - 1); and
    saving five snapshots with a prune after each leaves three files. *)
Lemma C5_prune_keeps_up_to_maximum :
  History.snapshotCount
    (History.pruneSnapshots (Some HistoryExamples.threeSnapshots) 3) = 3%nat
  /\ HistoryExamples.namesIn
       (HistoryExamples.afterShots 3 HistoryExamples.fiveShots)
     = ["architecture_2026-02-19T14-30-03.000Z.txt"%string;
        "architecture_2026-02-19T14-30-04.000Z.txt"%string;
        "architecture_2026-02-19T14-30-05.000Z.txt"%string].
Proof. split; reflexivity. Qed.

(** C5 (amended): after a successful [pruneSnapshots(maxCount)] with
    [maxCount >= 1] at most [maxCount] snapshots are retained: when more
    than [maxCount] are present, the oldest by modification time are
    deleted until [maxCount - 1] remain, otherwise nothing is deleted.
    With maximum 3, saving five snapshots with a prune after each save
    leaves the three most recent. *)
Theorem C5_prune_bounds_retained_snapshots :
  forall (entries : list History.Entry) (maxSnapshots : Z),
    HistoryFacts.wellFormedDir entries ->
    RetentionFacts.allDeletable entries ->
    1 <= maxSnapshots ->
    let before := List.length (History.snapshotNamesOf entries) in
    let after := History.snapshotCount
                   (History.pruneSnapshots (Some entries) maxSnapshots) in
    (Z.of_nat after <= maxSnapshots)
    /\ (Z.of_nat before <= maxSnapshots ->
        History.pruneSnapshots (Some entries) maxSnapshots = Some entries)
    /\ (maxSnapshots < Z.of_nat before -> Z.of_nat after = maxSnapshots - 1)
    /\ (forall x y,
          In x entries -> History.isSnapshot x = true ->
          ~ In x (History.pruneEntries entries maxSnapshots) ->
          In y (History.pruneEntries entries maxSnapshots) ->
          History.isSnapshot y = true ->
          History.mtimeOf entries (History.ename x)
          <= History.mtimeOf entries (History.ename y))
    /\ HistoryExamples.namesIn
         (HistoryExamples.afterShots 3 HistoryExamples.fiveShots)
       = ["architecture_2026-02-19T14-30-03.000Z.txt"%string;
          "architecture_2026-02-19T14-30-04.000Z.txt"%string;
          "architecture_2026-02-19T14-30-05.000Z.txt"%string].
Proof.
  intros entries maxSnapshots WF Hdel Hmax before after.
  assert (Hnoop : Z.of_nat before <= maxSnapshots ->
                  History.pruneEntries entries maxSnapshots = entries)
    by apply RetentionFacts.prune_noop.
  assert (Hcount : maxSnapshots < Z.of_nat before ->
                   Z.of_nat after = maxSnapshots - 1).
  { intros Hn. unfold after. simpl.
    rewrite RetentionFacts.prune_count by assumption. lia. }
  repeat split.
  - destruct (Z_le_gt_dec (Z.of_nat before) maxSnapshots) as [Hle | Hgt].
    + unfold after. simpl. rewrite (Hnoop Hle). exact Hle.
    + rewrite Hcount by lia. lia.
  - intros Hle. simpl. rewrite (Hnoop Hle). reflexivity.
  - exact Hcount.
  - intros x y. apply RetentionFacts.prune_deletes_oldest. exact Hdel.
Qed.

Lemma C5_witness :
  Z.of_nat (History.snapshotCount
              (History.pruneSnapshots (Some HistoryExamples.mixedDir) 1))
  = 1 - 1.
Proof.
  destruct (C5_prune_bounds_retained_snapshots HistoryExamples.mixedDir 1)
    as (_ & _ & Hcount & _).
  - unfold HistoryFacts.wellFormedDir. simpl.
    repeat (constructor; [simpl; intuition discriminate|]). constructor.
  - intros e He _. simpl in He. intuition (subst; reflexivity).
  - lia.
  - apply Hcount. vm_compute. reflexivity.
Defined.


(* ---------------------------------------------------------------------- *)
(** ** Availability while a selection is pending *)

Module AvailabilityExamples.

Definition copilot : LmClient.LanguageModelChat :=
  {| LmClient.name := "gpt"; LmClient.vendor := "copilot" |}.

(** The bundled client: an [isAvailable()] issued while the first
    selection is pending is answered when the selection settles, with
    [true] when a model was found. *)
Example bundle_waits_for_selection :
  LmBundle.answers (LmBundle.isAvailable 7 LmBundle.createLmClient) 7 = None
  /\ LmBundle.answers
       (LmBundle.selectionResolved 0 (Some [copilot])
          (LmBundle.isAvailable 7 LmBundle.createLmClient)) 7 = Some true.
Proof. split; reflexivity. Qed.

End AvailabilityExamples.

(** In the bundled client an [isAvailable()] issued while no model is
    cached and the latest eager selection is unsettled is not answered
    until that selection settles, and is answered [true] when it settles
    with a model outside a cooldown. *)
Lemma bundle_isAvailable_awaits (s : LmBundle.Client) (q : nat)
  (m : LmClient.LanguageModelChat) (rest : list LmClient.LanguageModelChat) :
  LmBundle.cachedModel s = None ->
  LmBundle.settled s (LmBundle.initialSelectionPromise s) = false ->
  LmBundle.quotaCooldown s = false ->
  LmBundle.waiting s = [] ->
  LmBundle.answers s q = None ->
  LmBundle.answers (LmBundle.isAvailable q s) q = None
  /\ LmBundle.answers
       (LmBundle.selectionResolved (LmBundle.initialSelectionPromise s)
          (Some (m :: rest)) (LmBundle.isAvailable q s)) q = Some true.
Proof.
  intros Hc Hs Hq Hw Ha. unfold LmBundle.isAvailable.
  rewrite Hc, Hs. simpl. split; [exact Ha|].
  unfold LmBundle.selectionResolved. simpl. rewrite Hw. simpl.
  rewrite Nat.eqb_refl. simpl. unfold LmClient.upd, LmBundle.answerNow. simpl.
  rewrite Nat.eqb_refl, Hq. reflexivity.
Qed.

(** C8 (lm-client.ts): [isAvailable()] is synchronous.  Called right after
    [createLmClient()], while the eager selection is still pending, it
    answers [false], although that selection then settles with a model
    and [isAvailable()] answers [true] from then on. *)
Theorem C8_isAvailable_does_not_wait :
  forall (t0 : Z) (m : LmClient.LanguageModelChat)
         (rest : list LmClient.LanguageModelChat),
    LmClient.selections (LmClient.createLmClient t0) 0
      = LmClient.SelectionPending None
    /\ LmClient.isAvailable (LmClient.createLmClient t0) = false
    /\ LmClient.isAvailable
         (LmClient.step (LmClient.SelectionResolved 0 (Some (m :: rest)))
            (LmClient.createLmClient t0)) = true.
Proof. intros t0 m rest. repeat split. Qed.

(* ---------------------------------------------------------------------- *)
(** ** The request arbiter: single flight *)

Module LmFacts.
Import LmClient.

(** A request is with the service and has not settled. *)
Definition requestInFlight (st : CallState) : bool :=
  match st with
  | AwaitingResponse _ | Streaming _ _ => true
  | _ => false
  end.

(** The call is inside the [try] of [sendPrompt]. *)
Definition active (st : CallState) : bool :=
  match st with
  | AwaitingResponse _ | Streaming _ _ | Sleeping => true
  | _ => false
  end.

Definition textSoFar (st : CallState) : string :=
  match st with
  | Streaming _ fullText => fullText
  | _ => ""%string
  end.

(** An active call whose token is not cancelled. *)
Definition live (s : Client) (c : nat) : Prop :=
  active (calls s c) = true /\ cancelled s c = false.

(** The one slot: every live call is the one [currentRequestCts] names. *)
Definition singleFlight (s : Client) : Prop :=
  forall c, live s c -> currentRequestCts s = Some c.

Lemma at_most_one_live s c1 c2 :
  singleFlight s -> live s c1 -> live s c2 -> c1 = c2.
Proof. intros SF H1 H2. apply SF in H1, H2. congruence. Qed.

Lemma upd_same {A} (f : nat -> A) k v : upd f k v k = v.
Proof. unfold upd. rewrite Nat.eqb_refl. reflexivity. Qed.

Lemma upd_other {A} (f : nat -> A) k v i : i <> k -> upd f k v i = f i.
Proof. unfold upd. intros H. apply Nat.eqb_neq in H. rewrite H. reflexivity. Qed.

(** [singleFlight] reads three closure variables only. *)
Lemma singleFlight_frame s s' :
  calls s' = calls s -> cancelled s' = cancelled s ->
  currentRequestCts s' = currentRequestCts s ->
  singleFlight s -> singleFlight s'.
Proof.
  unfold singleFlight, live. intros -> -> ->. auto.
Qed.

Lemma singleFlight_create t0 : singleFlight (createLmClient t0).
Proof. intros c [H _]. discriminate. Qed.

Lemma no_live_after_cancelCurrent s c :
  singleFlight s -> ~ live (cancelCurrent s) c.
Proof.
  unfold cancelCurrent, live. intros SF [Ha Hc].
  destruct (currentRequestCts s) as [k|] eqn:E; cbn in Ha, Hc.
  - destruct (Nat.eq_dec c k) as [-> | Hne].
    + rewrite upd_same in Hc. discriminate.
    + rewrite upd_other in Hc by assumption.
      assert (currentRequestCts s = Some c) by (apply SF; split; assumption).
      congruence.
  - assert (currentRequestCts s = Some c) by (apply SF; split; assumption).
    congruence.
Qed.

Lemma singleFlight_cancelCurrent s :
  singleFlight s -> singleFlight (cancelCurrent s).
Proof.
  intros SF c H. exfalso. exact (no_live_after_cancelCurrent s c SF H).
Qed.

Lemma singleFlight_beginRequest c token s :
  singleFlight s -> singleFlight (beginRequest c token s).
Proof.
  intros SF c0 [Ha Hc]. unfold beginRequest, sendRequest, setCall in *.
  cbn in Ha, Hc |- *.
  destruct (Nat.eq_dec c0 c) as [-> | Hne]; [reflexivity|].
  rewrite upd_other in Ha by assumption.
  rewrite upd_other in Hc by assumption. exfalso.
  apply (no_live_after_cancelCurrent s c0 SF). split; assumption.
Qed.

Lemma singleFlight_settle c outcome s :
  active outcome = false -> singleFlight s -> singleFlight (settle c outcome s).
Proof.
  intros Ho SF c0 [Ha Hc]. unfold settle, setCall, disposeCts, emit in *.
  destruct (currentRequestCts s) as [k|] eqn:E; cbn in *; rewrite ?E in *.
  - destruct (Nat.eq_dec c0 c) as [-> | Hne].
    + rewrite upd_same in Ha. congruence.
    + assert (H : currentRequestCts s = Some c0).
      { apply SF. split; [|destruct (Nat.eqb k c); exact Hc].
        destruct (Nat.eqb k c); cbn in Ha; rewrite upd_other in Ha;
          assumption. }
      rewrite E in H. injection H as ->.
      apply Nat.eqb_neq in Hne. rewrite Hne. cbn. exact E.
  - destruct (Nat.eq_dec c0 c) as [-> | Hne].
    + rewrite upd_same in Ha. congruence.
    + rewrite upd_other in Ha by assumption.
      assert (H : currentRequestCts s = Some c0) by (apply SF; split; auto).
      congruence.
Qed.

Lemma singleFlight_setCall_active c st s :
  active (calls s c) = true -> singleFlight s -> singleFlight (setCall c st s).
Proof.
  intros Hc SF c0 [Ha Hn]. unfold setCall in *. cbn in *.
  apply SF. split; [|exact Hn].
  destruct (Nat.eq_dec c0 c) as [-> | Hne]; [exact Hc|].
  rewrite upd_other in Ha; assumption.
Qed.

Lemma singleFlight_setCall_inactive c st s :
  active st = false -> singleFlight s -> singleFlight (setCall c st s).
Proof.
  intros Hst SF c0 [Ha Hn]. unfold setCall in *. cbn in *.
  destruct (Nat.eq_dec c0 c) as [-> | Hne].
  - rewrite upd_same in Ha. congruence.
  - rewrite upd_other in Ha by assumption. apply SF. split; assumption.
Qed.

Lemma singleFlight_cancelCts c s : singleFlight s -> singleFlight (cancelCts c s).
Proof.
  intros SF c0 [Ha Hn]. unfold cancelCts, emit in *. cbn in *.
  apply SF. split; [exact Ha|].
  destruct (Nat.eq_dec c0 c) as [-> | Hne].
  - rewrite upd_same in Hn. discriminate.
  - rewrite upd_other in Hn; assumption.
Qed.

Lemma singleFlight_fire tm t s :
  singleFlight s ->
  singleFlight (fire tm (set_now t (clearTimeout (tid tm) s))).
Proof.
  intros SF. unfold fire. destruct (action tm) as [|c].
  - revert SF. apply singleFlight_frame; reflexivity.
  - cbn. destruct (calls s c) eqn:E;
      try (revert SF; apply singleFlight_frame; reflexivity).
    unfold sendRequest. apply singleFlight_setCall_active.
    + cbn. rewrite E. reflexivity.
    + revert SF. apply singleFlight_frame; reflexivity.
Qed.

Lemma singleFlight_fireDue fuel T : forall s,
  singleFlight s -> singleFlight (fireDue fuel T s).
Proof.
  induction fuel as [|fuel IH]; intros s SF; simpl; [exact SF|].
  destruct (earliest (timers s)) as [tm|]; [|exact SF].
  destruct (due tm <=? T); [|exact SF].
  apply IH, singleFlight_fire, SF.
Qed.

Lemma singleFlight_handleError message code attempt s :
  singleFlight s -> singleFlight (handleLanguageModelError message code attempt s).
Proof.
  unfold handleLanguageModelError.
  destruct (isQuotaError message code); [|destruct (isConsentError message code)];
    apply singleFlight_frame; reflexivity.
Qed.

(** Every turn of the event loop keeps the slot discipline. *)
Lemma singleFlight_step ev s : singleFlight s -> singleFlight (step ev s).
Proof.
  intros SF. destruct ev as [c token | k models | | c | c text | c | c err
                            | c | | | t]; simpl.
  - unfold sendPrompt. destruct (calls s c) eqn:E; try exact SF.
    destruct (quotaCooldown s).
    + apply singleFlight_setCall_inactive; [reflexivity | exact SF].
    + destruct (cachedModel s).
      * apply singleFlight_beginRequest, SF.
      * apply singleFlight_setCall_inactive; [reflexivity|].
        revert SF. apply singleFlight_frame; reflexivity.
  - unfold selectionResolved. destruct (selections s k) as [|waiter|];
      try exact SF.
    set (s1 := set_cachedModel _ _).
    assert (SF1 : singleFlight s1)
      by (revert SF; apply singleFlight_frame; reflexivity).
    destruct waiter as [c|]; [|exact SF1].
    destruct (calls s1 c); try exact SF1.
    destruct (match models with Some (m :: _) => Some m | _ => None end).
    + apply singleFlight_beginRequest, SF1.
    + apply singleFlight_setCall_inactive; [reflexivity | exact SF1].
  - unfold modelsChanged. destruct (listening s); [|exact SF].
    revert SF. apply singleFlight_frame; reflexivity.
  - unfold responseArrived. destruct (calls s c) eqn:E; try exact SF.
    apply singleFlight_setCall_active; [rewrite E; reflexivity | exact SF].
  - unfold chunkArrived. destruct (calls s c) eqn:E; try exact SF.
    destruct (cancelled s c).
    + apply singleFlight_settle; [reflexivity | exact SF].
    + apply singleFlight_setCall_active; [rewrite E; reflexivity | exact SF].
  - unfold streamEnded. destruct (calls s c) eqn:E; try exact SF.
    apply singleFlight_settle; [reflexivity | exact SF].
  - unfold requestFailed.
    assert (G : forall attempt, active (calls s c) = true ->
      singleFlight
        match err with
        | LanguageModelError message code =>
            settle c (Threw err)
              (handleLanguageModelError message code attempt s)
        | PlainError _ =>
            if Nat.eqb attempt 0
            then setCall c Sleeping (setTimeout (WakeSleep c) RETRY_DELAY_MS s)
            else settle c (Threw err) s
        end).
    { intros attempt Hact. destruct err as [message code | message].
      - apply singleFlight_settle; [reflexivity|].
        apply singleFlight_handleError, SF.
      - destruct (Nat.eqb attempt 0).
        + apply singleFlight_setCall_active; [exact Hact|].
          revert SF. apply singleFlight_frame; reflexivity.
        + apply singleFlight_settle; [reflexivity | exact SF]. }
    destruct (calls s c) eqn:E; try exact SF; apply G; rewrite ?E; reflexivity.
  - unfold externalCancel. destruct (tokenListener s c); [|exact SF].
    apply singleFlight_cancelCts, SF.
  - apply singleFlight_cancelCurrent, SF.
  - unfold dispose, cancelAll.
    pose proof (singleFlight_cancelCurrent s SF) as SF1.
    destruct (cooldownTimer (set_listening false (cancelCurrent s)));
      revert SF1; apply singleFlight_frame; reflexivity.
  - unfold advance. generalize (singleFlight_fireDue (List.length (timers s)) t s SF).
    apply singleFlight_frame; reflexivity.
Qed.

Lemma singleFlight_run evs : forall s,
  singleFlight s -> singleFlight (run evs s).
Proof.
  induction evs as [|ev evs IH]; intros s SF; simpl; [exact SF|].
  apply IH, singleFlight_step, SF.
Qed.

(** *** What each operation does to the call table and to the tokens *)

Lemma calls_cancelCurrent s : calls (cancelCurrent s) = calls s.
Proof. unfold cancelCurrent. destruct (currentRequestCts s); reflexivity. Qed.

Lemma calls_beginRequest c token s :
  calls (beginRequest c token s) = upd (calls s) c (AwaitingResponse 0).
Proof.
  unfold beginRequest, sendRequest, setCall. cbn.
  rewrite calls_cancelCurrent. reflexivity.
Qed.

Lemma cancelled_beginRequest c token s :
  cancelled (beginRequest c token s)
  = upd (cancelled (cancelCurrent s)) c false.
Proof. reflexivity. Qed.

Lemma calls_settle c outcome s :
  calls (settle c outcome s) = upd (calls s) c outcome.
Proof.
  unfold settle, setCall, disposeCts, emit. cbn.
  destruct (currentRequestCts s) as [k|]; [destruct (Nat.eqb k c)|];
    reflexivity.
Qed.

Lemma cancelled_settle c outcome s :
  cancelled (settle c outcome s) = cancelled s.
Proof.
  unfold settle, setCall, disposeCts, emit. cbn.
  destruct (currentRequestCts s) as [k|]; [destruct (Nat.eqb k c)|];
    reflexivity.
Qed.

Lemma calls_handleError message code attempt s :
  calls (handleLanguageModelError message code attempt s) = calls s
  /\ cancelled (handleLanguageModelError message code attempt s) = cancelled s.
Proof.
  unfold handleLanguageModelError.
  destruct (isQuotaError message code); [|destruct (isConsentError message code)];
    split; reflexivity.
Qed.

(** The events of the stream of call [c]. *)
Definition aboutCall (c : nat) (ev : Event) : bool :=
  match ev with
  | ResponseArrived k | Chunk k _ | StreamEnd k | RequestFailed k _ =>
      Nat.eqb k c
  | _ => false
  end.

Definition isFailureOf (c : nat) (ev : Event) : bool :=
  match ev with
  | RequestFailed k _ => Nat.eqb k c
  | _ => false
  end.

(** The call has a request with the service, or has returned. *)
Definition steady (st : CallState) : bool :=
  match st with
  | AwaitingResponse _ | Streaming _ _ | Returned _ => true
  | _ => false
  end.

(** Once its token is cancelled, a call returns what it has at the next
    thing its stream delivers. *)
Definition cancelledReplay (st : CallState) (ev : Event) : CallState :=
  match ev, st with
  | ResponseArrived _, AwaitingResponse attempt => Streaming attempt ""
  | Chunk _ _, Streaming _ fullText => Returned fullText
  | StreamEnd _, Streaming _ fullText => Returned fullText
  | _, _ => st
  end.

(** With its token intact, a call accumulates chunks up to the end of the
    stream. *)
Definition liveReplay (st : CallState) (ev : Event) : CallState :=
  match ev, st with
  | ResponseArrived _, AwaitingResponse attempt => Streaming attempt ""
  | Chunk _ chunk, Streaming attempt fullText =>
      Streaming attempt (fullText ++ chunk)
  | StreamEnd _, Streaming _ fullText => Returned fullText
  | _, _ => st
  end.

(** Events that cannot cancel the token of call [c] or fail its request. *)
Definition benign (c : nat) (ev : Event) : bool :=
  match ev with
  | SendPrompt _ _ | SelectionResolved _ _ | CancelAll | Dispose => false
  | ExternalCancel k | RequestFailed k _ => negb (Nat.eqb k c)
  | _ => true
  end.

Lemma calls_fire_other tm t s c :
  steady (calls s c) = true ->
  calls (fire tm (set_now t (clearTimeout (tid tm) s))) c = calls s c.
Proof.
  intros Hst. unfold fire. destruct (action tm) as [|k]; [reflexivity|].
  cbn. destruct (calls s k) eqn:E; try reflexivity.
  unfold sendRequest, setCall. cbn. apply upd_other.
  intros ->. rewrite E in Hst. discriminate.
Qed.

Lemma calls_fireDue_other fuel T c : forall s,
  steady (calls s c) = true -> calls (fireDue fuel T s) c = calls s c.
Proof.
  induction fuel as [|fuel IH]; intros s Hst; simpl; [reflexivity|].
  destruct (earliest (timers s)) as [tm|]; [|reflexivity].
  destruct (due tm <=? T); [|reflexivity].
  pose proof (calls_fire_other tm (Z.max (now s) (due tm)) s c Hst) as E.
  rewrite IH; [exact E | rewrite E; exact Hst].
Qed.

Lemma cancelled_fireDue fuel T : forall s,
  cancelled (fireDue fuel T s) = cancelled s.
Proof.
  induction fuel as [|fuel IH]; intros s; simpl; [reflexivity|].
  destruct (earliest (timers s)) as [tm|]; [|reflexivity].
  destruct (due tm <=? T); [|reflexivity].
  rewrite IH. unfold fire. destruct (action tm) as [|k]; [reflexivity|].
  cbn. destruct (calls s k); reflexivity.
Qed.

(** Events of other calls leave a steady call where it is. *)
Lemma step_other_call ev s c :
  aboutCall c ev = false -> steady (calls s c) = true ->
  calls (step ev s) c = calls s c.
Proof.
  intros Hab Hst.
  destruct ev as [k token | k models | | k | k text | k | k err
                 | k | | | t]; simpl in *.
  - unfold sendPrompt. destruct (calls s k) eqn:E; try reflexivity.
    assert (Hne : c <> k) by (intros ->; rewrite E in Hst; discriminate).
    destruct (quotaCooldown s); [apply upd_other; exact Hne|].
    destruct (cachedModel s).
    + rewrite calls_beginRequest. apply upd_other; exact Hne.
    + cbn. apply upd_other; exact Hne.
  - unfold selectionResolved. destruct (selections s k) as [|waiter|];
      try reflexivity.
    destruct waiter as [w|]; [|reflexivity]. cbn.
    destruct (calls s w) eqn:E; try reflexivity.
    assert (Hne : c <> w) by (intros ->; rewrite E in Hst; discriminate).
    destruct (match models with Some (m :: _) => Some m | _ => None end).
    + rewrite calls_beginRequest. apply upd_other; exact Hne.
    + cbn. apply upd_other; exact Hne.
  - unfold modelsChanged. destruct (listening s); reflexivity.
  - apply Nat.eqb_neq in Hab. unfold responseArrived.
    destruct (calls s k); try reflexivity. cbn. apply upd_other. congruence.
  - apply Nat.eqb_neq in Hab. unfold chunkArrived.
    destruct (calls s k); try reflexivity.
    destruct (cancelled s k); [rewrite calls_settle|cbn]; apply upd_other;
      congruence.
  - apply Nat.eqb_neq in Hab. unfold streamEnded.
    destruct (calls s k); try reflexivity.
    rewrite calls_settle. apply upd_other. congruence.
  - apply Nat.eqb_neq in Hab. unfold requestFailed.
    assert (G : forall attempt,
      calls match err with
            | LanguageModelError message code =>
                settle k (Threw err)
                  (handleLanguageModelError message code attempt s)
            | PlainError _ =>
                if Nat.eqb attempt 0
                then setCall k Sleeping
                       (setTimeout (WakeSleep k) RETRY_DELAY_MS s)
                else settle k (Threw err) s
            end c = calls s c).
    { intros attempt. destruct err as [message code | message].
      - rewrite calls_settle, upd_other by congruence.
        destruct (calls_handleError message code attempt s) as [-> _].
        reflexivity.
      - destruct (Nat.eqb attempt 0); [cbn | rewrite calls_settle];
          apply upd_other; congruence. }
    destruct (calls s k); try reflexivity; apply G.
  - unfold externalCancel. destruct (tokenListener s k); reflexivity.
  - unfold cancelAll. rewrite calls_cancelCurrent. reflexivity.
  - unfold dispose, cancelAll.
    destruct (cooldownTimer (set_listening false (cancelCurrent s))); cbn;
      rewrite calls_cancelCurrent; reflexivity.
  - unfold advance. cbn. apply calls_fireDue_other. exact Hst.
Qed.

(** A cancelled token stays cancelled. *)
Lemma cancelled_cancelCurrent s c :
  cancelled s c = true -> cancelled (cancelCurrent s) c = true.
Proof.
  intros H. unfold cancelCurrent. destruct (currentRequestCts s) as [k|];
    [|exact H].
  cbn. unfold upd. destruct (Nat.eqb c k); [reflexivity | exact H].
Qed.

Lemma step_keeps_cancelled ev s c :
  steady (calls s c) = true ->
  cancelled s c = true -> cancelled (step ev s) c = true.
Proof.
  intros Hst H.
  destruct ev as [k token | k models | | k | k text | k | k err
                 | k | | | t]; simpl.
  - unfold sendPrompt. destruct (calls s k) eqn:E; try exact H.
    assert (Hne : c <> k) by (intros ->; rewrite E in Hst; discriminate).
    destruct (quotaCooldown s); [exact H|].
    destruct (cachedModel s); [|exact H].
    rewrite cancelled_beginRequest, upd_other by exact Hne.
    apply cancelled_cancelCurrent, H.
  - unfold selectionResolved. destruct (selections s k) as [|waiter|];
      try exact H.
    destruct waiter as [w|]; [|exact H]. cbn.
    destruct (calls s w) eqn:E; try exact H.
    assert (Hne : c <> w) by (intros ->; rewrite E in Hst; discriminate).
    destruct (match models with Some (m :: _) => Some m | _ => None end);
      [|exact H].
    rewrite cancelled_beginRequest, upd_other by exact Hne.
    apply cancelled_cancelCurrent. exact H.
  - unfold modelsChanged. destruct (listening s); exact H.
  - unfold responseArrived. destruct (calls s k); exact H.
  - unfold chunkArrived. destruct (calls s k); try exact H.
    destruct (cancelled s k); [rewrite cancelled_settle|]; exact H.
  - unfold streamEnded. destruct (calls s k); try exact H.
    rewrite cancelled_settle. exact H.
  - unfold requestFailed.
    assert (G : forall attempt,
      cancelled match err with
                | LanguageModelError message code =>
                    settle k (Threw err)
                      (handleLanguageModelError message code attempt s)
                | PlainError _ =>
                    if Nat.eqb attempt 0
                    then setCall k Sleeping
                           (setTimeout (WakeSleep k) RETRY_DELAY_MS s)
                    else settle k (Threw err) s
                end c = true).
    { intros attempt. destruct err as [message code | message].
      - rewrite cancelled_settle.
        destruct (calls_handleError message code attempt s) as [_ ->].
        exact H.
      - destruct (Nat.eqb attempt 0); [|rewrite cancelled_settle]; exact H. }
    destruct (calls s k); try exact H; apply G.
  - unfold externalCancel. destruct (tokenListener s k); [|exact H].
    cbn. unfold upd. destruct (Nat.eqb c k); [reflexivity | exact H].
  - apply cancelled_cancelCurrent, H.
  - unfold dispose, cancelAll.
    destruct (cooldownTimer (set_listening false (cancelCurrent s))); cbn;
      apply cancelled_cancelCurrent, H.
  - unfold advance. cbn. rewrite cancelled_fireDue. exact H.
Qed.

(** Benign events leave an intact token intact. *)
Lemma step_keeps_token ev s c :
  benign c ev = true -> cancelled s c = false ->
  cancelled (step ev s) c = false.
Proof.
  intros Hb H.
  destruct ev as [k token | k models | | k | k text | k | k err
                 | k | | | t]; simpl in *; try discriminate.
  - unfold modelsChanged. destruct (listening s); exact H.
  - unfold responseArrived. destruct (calls s k); exact H.
  - unfold chunkArrived. destruct (calls s k); try exact H.
    destruct (cancelled s k); [rewrite cancelled_settle|]; exact H.
  - unfold streamEnded. destruct (calls s k); try exact H.
    rewrite cancelled_settle. exact H.
  - unfold requestFailed.
    assert (G : forall attempt,
      cancelled match err with
                | LanguageModelError message code =>
                    settle k (Threw err)
                      (handleLanguageModelError message code attempt s)
                | PlainError _ =>
                    if Nat.eqb attempt 0
                    then setCall k Sleeping
                           (setTimeout (WakeSleep k) RETRY_DELAY_MS s)
                    else settle k (Threw err) s
                end c = false).
    { intros attempt. destruct err as [message code | message].
      - rewrite cancelled_settle.
        destruct (calls_handleError message code attempt s) as [_ ->].
        exact H.
      - destruct (Nat.eqb attempt 0); [|rewrite cancelled_settle]; exact H. }
    destruct (calls s k); try exact H; apply G.
  - unfold externalCancel. destruct (tokenListener s k); [|exact H].
    cbn. apply negb_true_iff, Nat.eqb_neq in Hb.
    rewrite upd_other by congruence. exact H.
  - unfold advance. cbn. rewrite cancelled_fireDue. exact H.
Qed.

(** The stream events of a cancelled call. *)
Lemma step_own_cancelled ev s c :
  cancelled s c = true -> aboutCall c ev = true -> isFailureOf c ev = false ->
  calls (step ev s) c = cancelledReplay (calls s c) ev.
Proof.
  intros Hc Hab Hnf.
  destruct ev as [k token | k models | | k | k text | k | k err
                 | k | | | t]; simpl in *; try discriminate;
    try (apply Nat.eqb_eq in Hab; subst k).
  - unfold responseArrived. destruct (calls s c) eqn:E; try exact E.
    cbn. apply upd_same.
  - unfold chunkArrived. destruct (calls s c) eqn:E; try exact E.
    rewrite Hc, calls_settle. apply upd_same.
  - unfold streamEnded. destruct (calls s c) eqn:E; try exact E.
    rewrite calls_settle. apply upd_same.
  - rewrite Nat.eqb_refl in Hnf. discriminate.
Qed.

(** The stream events of a call whose token is intact. *)
Lemma step_own_live ev s c :
  cancelled s c = false -> aboutCall c ev = true -> isFailureOf c ev = false ->
  calls (step ev s) c = liveReplay (calls s c) ev.
Proof.
  intros Hc Hab Hnf.
  destruct ev as [k token | k models | | k | k text | k | k err
                 | k | | | t]; simpl in *; try discriminate;
    try (apply Nat.eqb_eq in Hab; subst k).
  - unfold responseArrived. destruct (calls s c) eqn:E; try exact E.
    cbn. apply upd_same.
  - unfold chunkArrived. destruct (calls s c) eqn:E; try exact E.
    rewrite Hc. cbn. apply upd_same.
  - unfold streamEnded. destruct (calls s c) eqn:E; try exact E.
    rewrite calls_settle. apply upd_same.
  - rewrite Nat.eqb_refl in Hnf. discriminate.
Qed.

Lemma steady_cancelledReplay st ev :
  steady st = true -> steady (cancelledReplay st ev) = true.
Proof. destruct ev, st; simpl; congruence. Qed.

Lemma steady_liveReplay st ev :
  steady st = true -> steady (liveReplay st ev) = true.
Proof. destruct ev, st; simpl; congruence. Qed.

(** A cancelled call moves only by what its own stream delivers. *)
Lemma run_cancelled c evs : forall s,
  cancelled s c = true -> steady (calls s c) = true ->
  forallb (fun ev => negb (isFailureOf c ev)) evs = true ->
  calls (run evs s) c
  = fold_left cancelledReplay (filter (aboutCall c) evs) (calls s c).
Proof.
  induction evs as [|ev evs IH]; intros s Hc Hst Hnf; simpl in *;
    [reflexivity|].
  apply andb_true_iff in Hnf as [Hnf1 Hnf].
  apply negb_true_iff in Hnf1.
  pose proof (step_keeps_cancelled ev s c Hst Hc) as Hc'.
  destruct (aboutCall c ev) eqn:Hab; simpl.
  - pose proof (step_own_cancelled ev s c Hc Hab Hnf1) as E.
    rewrite IH; [rewrite E; reflexivity | exact Hc' | | exact Hnf].
    rewrite E. apply steady_cancelledReplay, Hst.
  - pose proof (step_other_call ev s c Hab Hst) as E.
    rewrite IH; [rewrite E; reflexivity | exact Hc' | | exact Hnf].
    rewrite E. exact Hst.
Qed.

(** A call that nothing cancels moves only by what its own stream
    delivers, and accumulates it. *)
Lemma run_live c evs : forall s,
  cancelled s c = false -> steady (calls s c) = true ->
  forallb (benign c) evs = true ->
  calls (run evs s) c
  = fold_left liveReplay (filter (aboutCall c) evs) (calls s c).
Proof.
  induction evs as [|ev evs IH]; intros s Hc Hst Hb; simpl in *;
    [reflexivity|].
  apply andb_true_iff in Hb as [Hb1 Hb].
  pose proof (step_keeps_token ev s c Hb1 Hc) as Hc'.
  assert (Hnf : isFailureOf c ev = false).
  { destruct ev; simpl in *; try reflexivity.
    apply negb_true_iff in Hb1. exact Hb1. }
  destruct (aboutCall c ev) eqn:Hab; simpl.
  - pose proof (step_own_live ev s c Hc Hab Hnf) as E.
    rewrite IH; [rewrite E; reflexivity | exact Hc' | | exact Hb].
    rewrite E. apply steady_liveReplay, Hst.
  - pose proof (step_other_call ev s c Hab Hst) as E.
    rewrite IH; [rewrite E; reflexivity | exact Hc' | | exact Hb].
    rewrite E. exact Hst.
Qed.

(** What the service streams for call [c] when all goes well. *)
Definition streamScript (c : nat) (chunks : list string) : list Event :=
  ResponseArrived c :: map (Chunk c) chunks ++ [StreamEnd c].

(** [fullText += chunk], from the empty string. *)
Definition accumulate (chunks : list string) : string :=
  fold_left String.append chunks ""%string.

(** The next thing a stream delivers: a chunk, or its end. *)
Definition delivery (c : nat) (ev : Event) : Prop :=
  ev = StreamEnd c \/ exists chunk, ev = Chunk c chunk.

(** What is left of the stream of an in-flight call up to its next
    delivery. *)
Definition remainingStream (c : nat) (st : CallState) (next : Event)
  : list Event :=
  match st with
  | AwaitingResponse _ => [ResponseArrived c; next]
  | _ => [next]
  end.

Lemma liveReplay_chunks c chunks : forall attempt fullText rest,
  fold_left liveReplay (map (Chunk c) chunks ++ rest)
    (Streaming attempt fullText)
  = fold_left liveReplay rest
      (Streaming attempt (fold_left String.append chunks fullText)).
Proof.
  induction chunks as [|x chunks IH]; intros attempt fullText rest; simpl;
    [reflexivity | apply IH].
Qed.

Lemma liveReplay_script c chunks attempt :
  fold_left liveReplay (streamScript c chunks) (AwaitingResponse attempt)
  = Returned (accumulate chunks).
Proof.
  unfold streamScript, accumulate. simpl. rewrite liveReplay_chunks.
  reflexivity.
Qed.

(** Wherever its stream takes a cancelled call, it has not thrown, and
    what it returns is the text it had. *)
Lemma cancelledReplay_outcome evs : forall st0 st,
  requestInFlight st0 = true ->
  (st = st0 \/ (exists a, st0 = AwaitingResponse a /\ st = Streaming a "")
   \/ st = Returned (textSoFar st0)) ->
  let st' := fold_left cancelledReplay evs st in
  (forall err, st' <> Threw err)
  /\ (forall t, st' = Returned t -> t = textSoFar st0).
Proof.
  induction evs as [|ev evs IH]; intros st0 st Hin Hst; simpl.
  - destruct Hst as [-> | [(a & -> & ->) | ->]]; split; intros;
      try congruence; destruct st0; simpl in *; congruence.
  - apply IH; [exact Hin|].
    destruct Hst as [-> | [(a & -> & ->) | ->]].
    + destruct st0; simpl in Hin; try discriminate; destruct ev; simpl; eauto.
    + destruct ev; simpl; eauto.
    + destruct ev; simpl; eauto.
Qed.

End LmFacts.

Module LmExamples.
Import LmClient.

Definition copilot : LanguageModelChat :=
  {| name := "gpt"; vendor := "copilot" |}.

(** A client with a model cached and call 1 streaming, "ab" received. *)
Definition streamingOne : Client :=
  run [SelectionResolved 0 (Some [copilot]); SendPrompt 1 false;
       ResponseArrived 1; Chunk 1 "ab"] (createLmClient 0).

Definition quotaError : Thrown :=
  LanguageModelError "Rate limit exceeded" "quota-exceeded".

Example streamingOne_state :
  calls streamingOne 1 = Streaming 0 "ab"
  /\ currentRequestCts streamingOne = Some 1%nat
  /\ effects streamingOne = [SelectChatModels 0; SendRequest 1 0].
Proof. repeat split. Qed.

Example generic_model_error_is_not_retried :
  calls (step (RequestFailed 1 (LanguageModelError "boom" "unknown"))
           streamingOne) 1
  = Threw (LanguageModelError "boom" "unknown").
Proof. reflexivity. Qed.

Example network_error_is_retried_once :
  effects (run [RequestFailed 1 (PlainError "net"); Advance 3000;
                RequestFailed 1 (PlainError "net")] streamingOne)
  = [SelectChatModels 0; SendRequest 1 0; SendRequest 1 1; DisposeCts 1].
Proof. reflexivity. Qed.

End LmExamples.

(* ---------------------------------------------------------------------- *)
(** ** The request arbiter: quota cooldown *)

Module CooldownFacts.
Import LmClient LmFacts.

(** A cooldown that cannot end before [D]: the flag is set, the clock has
    passed the failure that set it, and no expiry is due before [D]. *)
Definition coolingUntil (D : Z) (s : Client) : Prop :=
  quotaCooldown s = true
  /\ D - QUOTA_COOLDOWN_MS <= now s
  /\ forall tm, In tm (timers s) -> action tm = ClearCooldown -> D <= due tm.

(** No cooldown expiry is pending. *)
Definition noExpiryPending (s : Client) : Prop :=
  forall tm, In tm (timers s) -> action tm <> ClearCooldown.

(** Timer handles in use are below the next handle. *)
Definition freshTimers (s : Client) : Prop :=
  forall tm, In tm (timers s) -> (tid tm < nextTimer s)%nat.

Lemma cooling_onward D s s' :
  coolingUntil D s -> quotaCooldown s' = true -> now s <= now s' ->
  (forall tm, In tm (timers s') ->
     In tm (timers s) \/ action tm <> ClearCooldown \/ D <= due tm) ->
  coolingUntil D s'.
Proof.
  intros (Hq & Hn & Ht) Hq' Hn' Ht'. split; [exact Hq'|]. split; [lia|].
  intros tm Hin Ha. destruct (Ht' tm Hin) as [H | [H | H]]; auto.
  contradiction.
Qed.

(** Operations that touch neither the flag, nor the timers, nor the
    clock. *)
Definition quiet (s s' : Client) : Prop :=
  quotaCooldown s' = quotaCooldown s /\ timers s' = timers s
  /\ now s' = now s /\ nextTimer s' = nextTimer s.

Lemma cooling_quiet D s s' : quiet s s' -> coolingUntil D s -> coolingUntil D s'.
Proof.
  intros (Hq & Ht & Hn & _) C. apply (cooling_onward D s s' C).
  - destruct C as [C _]. congruence.
  - lia.
  - intros tm. rewrite Ht. auto.
Qed.

Lemma quiet_refl s : quiet s s.
Proof. repeat split. Qed.

Lemma quiet_cancelCurrent s : quiet s (cancelCurrent s).
Proof. unfold cancelCurrent. destruct (currentRequestCts s); repeat split. Qed.

Lemma quiet_beginRequest c token s : quiet s (beginRequest c token s).
Proof.
  unfold beginRequest, sendRequest, setCall, emit, quiet. cbn.
  destruct (quiet_cancelCurrent s) as (-> & -> & -> & ->). repeat split.
Qed.

Lemma quiet_settle c outcome s : quiet s (settle c outcome s).
Proof.
  unfold settle, setCall, disposeCts, emit, quiet. cbn.
  destruct (currentRequestCts s) as [k|]; [destruct (Nat.eqb k c)|];
    repeat split.
Qed.

Lemma cooling_fireDue D T fuel : forall s,
  T < D -> coolingUntil D s -> coolingUntil D (fireDue fuel T s).
Proof.
  induction fuel as [|fuel IH]; intros s HT C; simpl; [exact C|].
  destruct (earliest (timers s)) as [tm|] eqn:E; [|exact C].
  destruct (due tm <=? T) eqn:Hd; [|exact C].
  apply Z.leb_le in Hd. apply IH; [exact HT|].
  assert (Hin : In tm (timers s)).
  { clear - E. revert tm E. induction (timers s) as [|a l IHl]; simpl;
      intros tm E; [discriminate|].
    destruct (earliest l) as [m|].
    - destruct (due a <=? due m); injection E as <-; auto.
    - injection E as <-. auto. }
  destruct C as (Hq & Hn & Ht).
  assert (Ha : action tm <> ClearCooldown).
  { intros Ha. specialize (Ht tm Hin Ha). lia. }
  apply (cooling_onward D s); [repeat split; assumption | | |].
  - unfold fire. destruct (action tm) as [|k]; [congruence|].
    cbn. destruct (calls s k); exact Hq.
  - unfold fire. destruct (action tm) as [|k]; [congruence|].
    cbn. destruct (calls s k); cbn; lia.
  - intros x Hx. left.
    assert (Hx' : In x (filter (fun y => negb (Nat.eqb (tid y) (tid tm)))
                               (timers s))).
    { revert Hx. unfold fire. destruct (action tm) as [|k]; [congruence|].
      cbn. destruct (calls s k); cbn; auto. }
    apply filter_In in Hx'. tauto.
Qed.

(** Before [D], nothing the event loop can do ends the cooldown. *)
Lemma cooling_step D ev s :
  (forall t, ev = Advance t -> t < D) ->
  coolingUntil D s -> coolingUntil D (step ev s).
Proof.
  intros Hadv C.
  destruct ev as [k token | k models | | k | k text | k | k err
                 | k | | | t]; simpl.
  - unfold sendPrompt. destruct (calls s k); try exact C.
    destruct C as (Hq & Hn & Ht). rewrite Hq.
    repeat split; assumption.
  - unfold selectionResolved. destruct (selections s k) as [|waiter|];
      try exact C.
    set (s1 := set_cachedModel _ _).
    assert (C1 : coolingUntil D s1) by exact C.
    destruct waiter as [w|]; [|exact C1].
    destruct (calls s1 w); try exact C1.
    destruct (match models with Some (m :: _) => Some m | _ => None end).
    + apply (cooling_quiet D s1); [apply quiet_beginRequest | exact C1].
    + exact C1.
  - unfold modelsChanged. destruct (listening s); exact C.
  - unfold responseArrived. destruct (calls s k); exact C.
  - unfold chunkArrived. destruct (calls s k); try exact C.
    destruct (cancelled s k); [|exact C].
    apply (cooling_quiet D s); [apply quiet_settle | exact C].
  - unfold streamEnded. destruct (calls s k); try exact C.
    apply (cooling_quiet D s); [apply quiet_settle | exact C].
  - unfold requestFailed.
    assert (G : forall attempt,
      coolingUntil D
        match err with
        | LanguageModelError message code =>
            settle k (Threw err)
              (handleLanguageModelError message code attempt s)
        | PlainError _ =>
            if Nat.eqb attempt 0
            then setCall k Sleeping
                   (setTimeout (WakeSleep k) RETRY_DELAY_MS s)
            else settle k (Threw err) s
        end).
    { intros attempt. destruct err as [message code | message].
      - apply (cooling_quiet D _ _ (quiet_settle _ _ _)).
        unfold handleLanguageModelError.
        destruct (isQuotaError message code);
          [|destruct (isConsentError message code); exact C].
        apply (cooling_onward D s); [exact C | reflexivity | cbn; lia |].
        cbn. intros tm Hin. apply in_app_or in Hin as [Hin | [<- | []]];
          [auto|].
        right. right. cbn. destruct C as (_ & Hn & _).
        unfold QUOTA_COOLDOWN_MS in *. lia.
      - destruct (Nat.eqb attempt 0).
        + apply (cooling_onward D s); [exact C | apply C | cbn; lia |].
          cbn. intros tm Hin. apply in_app_or in Hin as [Hin | [<- | []]];
            [auto|].
          right. left. discriminate.
        + apply (cooling_quiet D s); [apply quiet_settle | exact C]. }
    destruct (calls s k); try exact C; apply G.
  - unfold externalCancel. destruct (tokenListener s k); exact C.
  - apply (cooling_quiet D s); [apply quiet_cancelCurrent | exact C].
  - unfold dispose, cancelAll.
    assert (C1 : coolingUntil D (set_listening false (cancelCurrent s)))
      by (apply (cooling_quiet D s); [apply quiet_cancelCurrent | exact C]).
    destruct (cooldownTimer (set_listening false (cancelCurrent s)));
      [|exact C1].
    apply (cooling_onward D _ _ C1); [apply C1 | cbn; lia |].
    cbn. intros tm Hin. apply filter_In in Hin. tauto.
  - unfold advance.
    pose proof (cooling_fireDue D t (List.length (timers s)) s
                  (Hadv t eq_refl) C) as C1.
    apply (cooling_onward D _ _ C1); [apply C1 | cbn; lia | cbn; auto].
Qed.

Lemma cooling_run D evs : forall s,
  (forall t, In (Advance t) evs -> t < D) ->
  coolingUntil D s -> coolingUntil D (run evs s).
Proof.
  induction evs as [|ev evs IH]; intros s Hadv C; simpl; [exact C|].
  apply IH; [intros t Ht; apply Hadv; right; exact Ht|].
  apply cooling_step; [|exact C].
  intros t ->. apply Hadv. left. reflexivity.
Qed.

(** *** Timer handles are never reused *)

Lemma fresh_onward s s' :
  freshTimers s -> (nextTimer s <= nextTimer s')%nat ->
  (forall tm, In tm (timers s') ->
     In tm (timers s) \/ (tid tm < nextTimer s')%nat) ->
  freshTimers s'.
Proof.
  intros F Hn Ht tm Hin. destruct (Ht tm Hin) as [H | H]; [|exact H].
  specialize (F tm H). lia.
Qed.

Lemma fresh_quiet s s' : quiet s s' -> freshTimers s -> freshTimers s'.
Proof.
  intros (_ & Ht & _ & Hn) F. apply (fresh_onward s s' F); [lia|].
  intros tm. rewrite Ht. auto.
Qed.

Lemma fresh_setTimeout a delay s :
  freshTimers s -> freshTimers (setTimeout a delay s).
Proof.
  intros F. apply (fresh_onward s _ F); cbn; [lia|].
  intros tm Hin. apply in_app_or in Hin as [Hin | [<- | []]]; [auto|].
  right. cbn. lia.
Qed.

Lemma fresh_clearTimeout id s : freshTimers s -> freshTimers (clearTimeout id s).
Proof.
  intros F. apply (fresh_onward s _ F); cbn; [lia|].
  intros tm Hin. apply filter_In in Hin. tauto.
Qed.

Lemma fresh_fireDue T fuel : forall s,
  freshTimers s -> freshTimers (fireDue fuel T s).
Proof.
  induction fuel as [|fuel IH]; intros s F; simpl; [exact F|].
  destruct (earliest (timers s)) as [tm|]; [|exact F].
  destruct (due tm <=? T); [|exact F].
  apply IH. pose proof (fresh_clearTimeout (tid tm) s F) as F1.
  unfold fire. destruct (action tm) as [|k]; [exact F1|].
  cbn. destruct (calls s k); exact F1.
Qed.

Lemma fresh_create t0 : freshTimers (createLmClient t0).
Proof. intros tm Hin. simpl in Hin. contradiction. Qed.

Lemma fresh_step ev s : freshTimers s -> freshTimers (step ev s).
Proof.
  intros F.
  destruct ev as [k token | k models | | k | k text | k | k err
                 | k | | | t]; simpl.
  - unfold sendPrompt. destruct (calls s k); try exact F.
    destruct (quotaCooldown s); [exact F|].
    destruct (cachedModel s); [|exact F].
    apply (fresh_quiet s); [apply quiet_beginRequest | exact F].
  - unfold selectionResolved. destruct (selections s k) as [|waiter|];
      try exact F.
    set (s1 := set_cachedModel _ _).
    assert (F1 : freshTimers s1) by exact F.
    destruct waiter as [w|]; [|exact F1].
    destruct (calls s1 w); try exact F1.
    destruct (match models with Some (m :: _) => Some m | _ => None end);
      [|exact F1].
    apply (fresh_quiet s1); [apply quiet_beginRequest | exact F1].
  - unfold modelsChanged. destruct (listening s); exact F.
  - unfold responseArrived. destruct (calls s k); exact F.
  - unfold chunkArrived. destruct (calls s k); try exact F.
    destruct (cancelled s k); [|exact F].
    apply (fresh_quiet s); [apply quiet_settle | exact F].
  - unfold streamEnded. destruct (calls s k); try exact F.
    apply (fresh_quiet s); [apply quiet_settle | exact F].
  - unfold requestFailed.
    assert (G : forall attempt,
      freshTimers
        match err with
        | LanguageModelError message code =>
            settle k (Threw err)
              (handleLanguageModelError message code attempt s)
        | PlainError _ =>
            if Nat.eqb attempt 0
            then setCall k Sleeping
                   (setTimeout (WakeSleep k) RETRY_DELAY_MS s)
            else settle k (Threw err) s
        end).
    { intros attempt. destruct err as [message code | message].
      - apply (fresh_quiet _ _ (quiet_settle _ _ _)).
        unfold handleLanguageModelError.
        destruct (isQuotaError message code);
          [|destruct (isConsentError message code); exact F].
        exact (fresh_setTimeout ClearCooldown QUOTA_COOLDOWN_MS
                 (set_quotaCooldown true s) F).
      - destruct (Nat.eqb attempt 0).
        + exact (fresh_setTimeout (WakeSleep k) RETRY_DELAY_MS s F).
        + apply (fresh_quiet s); [apply quiet_settle | exact F]. }
    destruct (calls s k); try exact F; apply G.
  - unfold externalCancel. destruct (tokenListener s k); exact F.
  - apply (fresh_quiet s); [apply quiet_cancelCurrent | exact F].
  - unfold dispose, cancelAll.
    assert (F1 : freshTimers (set_listening false (cancelCurrent s)))
      by (apply (fresh_quiet s); [apply quiet_cancelCurrent | exact F]).
    destruct (cooldownTimer (set_listening false (cancelCurrent s)));
      [|exact F1].
    apply fresh_clearTimeout, F1.
  - unfold advance.
    exact (fresh_fireDue t (List.length (timers s)) s F).
Qed.

(** Every state the client can reach has fresh timer handles. *)
Lemma fresh_run evs : forall s, freshTimers s -> freshTimers (run evs s).
Proof.
  induction evs as [|ev evs IH]; intros s F; simpl; [exact F|].
  apply IH, fresh_step, F.
Qed.

End CooldownFacts.

Module ExpiryFacts.
Import LmClient LmFacts CooldownFacts.

Definition stepTimer (tm : Timer) (s : Client) : Client :=
  fire tm (set_now (Z.max (now s) (due tm)) (clearTimeout (tid tm) s)).

Lemma Timer_eq_dec (a b : Timer) : {a = b} + {a <> b}.
Proof.
  decide equality;
    [decide equality; apply Nat.eq_dec | apply Z.eq_dec | apply Nat.eq_dec].
Defined.

Lemma timers_stepTimer tm s :
  timers (stepTimer tm s)
  = filter (fun x => negb (Nat.eqb (tid x) (tid tm))) (timers s).
Proof.
  unfold stepTimer, fire. destruct (action tm) as [|k]; [reflexivity|].
  cbn. destruct (calls s k); reflexivity.
Qed.

Lemma cachedModel_stepTimer tm s : cachedModel (stepTimer tm s) = cachedModel s.
Proof.
  unfold stepTimer, fire. destruct (action tm) as [|k]; [reflexivity|].
  cbn. destruct (calls s k); reflexivity.
Qed.

Lemma cooldown_stepTimer tm s :
  quotaCooldown (stepTimer tm s)
  = match action tm with
    | ClearCooldown => false
    | WakeSleep _ => quotaCooldown s
    end.
Proof.
  unfold stepTimer, fire. destruct (action tm) as [|k]; [reflexivity|].
  cbn. destruct (calls s k); reflexivity.
Qed.

Lemma earliest_first l e :
  earliest l = Some e -> In e l /\ forall x, In x l -> due e <= due x.
Proof.
  revert e. induction l as [|a l IH]; simpl; intros e H; [discriminate|].
  destruct (earliest l) as [m|] eqn:E.
  - destruct (IH m eq_refl) as [Hm Hle].
    destruct (due a <=? due m) eqn:C; injection H as <-.
    + apply Z.leb_le in C. split; [auto|].
      intros x [<- | Hx]; [lia | specialize (Hle x Hx); lia].
    + apply Z.leb_gt in C. split; [auto|].
      intros x [<- | Hx]; [lia | auto].
  - injection H as <-. split; [auto|].
    destruct l as [|b l]; [intros x [<- | []]; lia|].
    simpl in E. destruct (earliest l); [destruct (_ <=? _)|]; discriminate.
Qed.

Lemma cachedModel_fireDue fuel T : forall s,
  cachedModel (fireDue fuel T s) = cachedModel s.
Proof.
  induction fuel as [|fuel IH]; intros s; simpl; [reflexivity|].
  destruct (earliest (timers s)) as [tm|]; [|reflexivity].
  destruct (due tm <=? T); [|reflexivity].
  fold (stepTimer tm s). rewrite IH. apply cachedModel_stepTimer.
Qed.

(** Timer callbacks never set the cooldown flag. *)
Lemma fireDue_stays_clear fuel T : forall s,
  quotaCooldown s = false -> quotaCooldown (fireDue fuel T s) = false.
Proof.
  induction fuel as [|fuel IH]; intros s H; simpl; [exact H|].
  destruct (earliest (timers s)) as [tm|]; [|exact H].
  destruct (due tm <=? T); [|exact H].
  fold (stepTimer tm s). apply IH. rewrite cooldown_stepTimer.
  destruct (action tm); [reflexivity | exact H].
Qed.

(** A pending expiry that is due by [T] has cleared the flag once the
    clock has run to [T]. *)
Lemma fireDue_expires T expiry fuel : forall s,
  In expiry (timers s) -> action expiry = ClearCooldown -> due expiry <= T ->
  (forall tm, In tm (timers s) -> tm <> expiry -> tid tm <> tid expiry) ->
  (List.length (timers s) <= fuel)%nat ->
  quotaCooldown (fireDue fuel T s) = false.
Proof.
  induction fuel as [|fuel IH]; intros s Hin Ha Hd Huniq Hlen.
  { destruct (timers s); simpl in *; [contradiction | lia]. }
  simpl. destruct (earliest (timers s)) as [e|] eqn:E.
  2:{ destruct (timers s) as [|a l]; [contradiction|]. simpl in E.
      destruct (earliest l); [destruct (_ <=? _)|]; discriminate. }
  destruct (earliest_first _ _ E) as [Hine Hmin].
  assert ((due e <=? T) = true) as ->
    by (apply Z.leb_le; specialize (Hmin expiry Hin); lia).
  fold (stepTimer e s).
  assert (Hshort : (List.length (timers (stepTimer e s)) <= fuel)%nat).
  { rewrite timers_stepTimer.
    assert (List.length (filter (fun x => negb (Nat.eqb (tid x) (tid e)))
                                (timers s)) < List.length (timers s))%nat;
      [|lia].
    clear - Hine. induction (timers s) as [|a l IHl]; simpl in *;
      [contradiction|].
    pose proof (filter_length_le (fun x => negb (Nat.eqb (tid x) (tid e))) l).
    destruct Hine as [-> | Hine].
    - rewrite Nat.eqb_refl. simpl. lia.
    - specialize (IHl Hine).
      destruct (negb (Nat.eqb (tid a) (tid e))); simpl; lia. }
  destruct (Timer_eq_dec e expiry) as [-> | Hne].
  - apply fireDue_stays_clear. rewrite cooldown_stepTimer, Ha. reflexivity.
  - apply IH; auto.
    + rewrite timers_stepTimer. apply filter_In. split; [exact Hin|].
      apply negb_true_iff, Nat.eqb_neq. intros Heq.
      apply (Huniq e Hine Hne). symmetry. exact Heq.
    + intros tm. rewrite timers_stepTimer. intros Htm.
      apply filter_In in Htm as [Htm _]. auto.
Qed.

(** The pending timers that end a cooldown, and the time the first of
    them is due. *)
Definition isExpiry (tm : Timer) : bool :=
  match action tm with
  | ClearCooldown => true
  | WakeSleep _ => false
  end.

Definition nextExpiry (s : Client) : option Z :=
  option_map due (earliest (filter isExpiry (timers s))).

(** No two pending timers share a handle. *)
Definition distinctHandles (s : Client) : Prop :=
  forall a b, In a (timers s) -> In b (timers s) -> tid a = tid b -> a = b.

Lemma isExpiry_true tm : isExpiry tm = true <-> action tm = ClearCooldown.
Proof. unfold isExpiry. destruct (action tm); split; congruence. Qed.

Lemma earliest_of_pending l x : In x l -> exists e, earliest l = Some e.
Proof.
  destruct l as [|a l]; [contradiction|]. intros _. simpl.
  destruct (earliest l) as [m|]; [destruct (due a <=? due m)|]; eauto.
Qed.

Lemma nextExpiry_first s E :
  nextExpiry s = Some E ->
  exists expiry,
    In expiry (timers s) /\ action expiry = ClearCooldown
    /\ due expiry = E
    /\ forall tm, In tm (timers s) -> action tm = ClearCooldown ->
                  E <= due tm.
Proof.
  unfold nextExpiry. intros H.
  destruct (earliest (filter isExpiry (timers s))) as [e|] eqn:Ee;
    [|discriminate].
  injection H as <-. destruct (earliest_first _ _ Ee) as [Hin Hmin].
  apply filter_In in Hin as [Hin Ha]. apply isExpiry_true in Ha.
  exists e. repeat split; auto.
  intros tm Htm Hact. apply Hmin, filter_In. split; [exact Htm|].
  apply isExpiry_true, Hact.
Qed.

Lemma nextExpiry_pending s expiry :
  In expiry (timers s) -> action expiry = ClearCooldown ->
  exists E, nextExpiry s = Some E.
Proof.
  intros Hin Ha. unfold nextExpiry.
  destruct (earliest_of_pending (filter isExpiry (timers s)) expiry)
    as [e ->]; [|simpl; eauto].
  apply filter_In. split; [exact Hin | apply isExpiry_true, Ha].
Qed.

(** Timer handles are fresh and pairwise distinct. *)
Definition tidy (s : Client) : Prop := freshTimers s /\ distinctHandles s.

Lemma tidy_subset s s' :
  tidy s -> (nextTimer s <= nextTimer s')%nat ->
  (forall tm, In tm (timers s') -> In tm (timers s)) -> tidy s'.
Proof.
  intros [F Hd] Hn Ht. split.
  - apply (fresh_onward s s' F Hn). auto.
  - intros a b Ha Hb. apply Hd; auto.
Qed.

Lemma tidy_quiet s s' : quiet s s' -> tidy s -> tidy s'.
Proof.
  intros (_ & Ht & _ & Hn) H. apply (tidy_subset s s' H); [lia|].
  intros tm. rewrite Ht. auto.
Qed.

Lemma tidy_setTimeout a delay s : tidy s -> tidy (setTimeout a delay s).
Proof.
  intros [F Hd]. split; [apply fresh_setTimeout, F|].
  intros x y Hx Hy. cbn in Hx, Hy.
  apply in_app_or in Hx as [Hx | [<- | []]];
    apply in_app_or in Hy as [Hy | [<- | []]]; cbn.
  - apply Hd; assumption.
  - intros E. specialize (F x Hx). lia.
  - intros E. specialize (F y Hy). lia.
  - reflexivity.
Qed.

Lemma tidy_clearTimeout id s : tidy s -> tidy (clearTimeout id s).
Proof.
  intros H. apply (tidy_subset s _ H); cbn; [lia|].
  intros tm Hin. apply filter_In in Hin. tauto.
Qed.

Lemma tidy_fireDue T fuel : forall s, tidy s -> tidy (fireDue fuel T s).
Proof.
  induction fuel as [|fuel IH]; intros s H; simpl; [exact H|].
  destruct (earliest (timers s)) as [tm|]; [|exact H].
  destruct (due tm <=? T); [|exact H].
  apply IH. pose proof (tidy_clearTimeout (tid tm) s H) as H1.
  unfold fire. destruct (action tm) as [|k]; [exact H1|].
  cbn. destruct (calls s k); exact H1.
Qed.

Lemma tidy_create t0 : tidy (createLmClient t0).
Proof.
  split; [apply fresh_create|]. intros a b Ha. simpl in Ha. contradiction.
Qed.

Lemma tidy_step ev s : tidy s -> tidy (step ev s).
Proof.
  intros F.
  destruct ev as [k token | k models | | k | k text | k | k err
                 | k | | | t]; simpl.
  - unfold sendPrompt. destruct (calls s k); try exact F.
    destruct (quotaCooldown s); [exact F|].
    destruct (cachedModel s); [|exact F].
    apply (tidy_quiet s); [apply quiet_beginRequest | exact F].
  - unfold selectionResolved. destruct (selections s k) as [|waiter|];
      try exact F.
    set (s1 := set_cachedModel _ _).
    assert (F1 : tidy s1) by exact F.
    destruct waiter as [w|]; [|exact F1].
    destruct (calls s1 w); try exact F1.
    destruct (match models with Some (m :: _) => Some m | _ => None end);
      [|exact F1].
    apply (tidy_quiet s1); [apply quiet_beginRequest | exact F1].
  - unfold modelsChanged. destruct (listening s); exact F.
  - unfold responseArrived. destruct (calls s k); exact F.
  - unfold chunkArrived. destruct (calls s k); try exact F.
    destruct (cancelled s k); [|exact F].
    apply (tidy_quiet s); [apply quiet_settle | exact F].
  - unfold streamEnded. destruct (calls s k); try exact F.
    apply (tidy_quiet s); [apply quiet_settle | exact F].
  - unfold requestFailed.
    assert (G : forall attempt,
      tidy
        match err with
        | LanguageModelError message code =>
            settle k (Threw err)
              (handleLanguageModelError message code attempt s)
        | PlainError _ =>
            if Nat.eqb attempt 0
            then setCall k Sleeping
                   (setTimeout (WakeSleep k) RETRY_DELAY_MS s)
            else settle k (Threw err) s
        end).
    { intros attempt. destruct err as [message code | message].
      - apply (tidy_quiet _ _ (quiet_settle _ _ _)).
        unfold handleLanguageModelError.
        destruct (isQuotaError message code);
          [|destruct (isConsentError message code); exact F].
        exact (tidy_setTimeout ClearCooldown QUOTA_COOLDOWN_MS
                 (set_quotaCooldown true s) F).
      - destruct (Nat.eqb attempt 0).
        + exact (tidy_setTimeout (WakeSleep k) RETRY_DELAY_MS s F).
        + apply (tidy_quiet s); [apply quiet_settle | exact F]. }
    destruct (calls s k); try exact F; apply G.
  - unfold externalCancel. destruct (tokenListener s k); exact F.
  - apply (tidy_quiet s); [apply quiet_cancelCurrent | exact F].
  - unfold dispose, cancelAll.
    assert (F1 : tidy (set_listening false (cancelCurrent s)))
      by (apply (tidy_quiet s); [apply quiet_cancelCurrent | exact F]).
    destruct (cooldownTimer (set_listening false (cancelCurrent s)));
      [|exact F1].
    apply tidy_clearTimeout, F1.
  - unfold advance.
    exact (tidy_fireDue t (List.length (timers s)) s F).
Qed.

(** Every state the client can reach has fresh, distinct timer handles. *)
Lemma tidy_run evs : forall s, tidy s -> tidy (run evs s).
Proof.
  induction evs as [|ev evs IH]; intros s F; simpl; [exact F|].
  apply IH, tidy_step, F.
Qed.

End ExpiryFacts.

(* ---------------------------------------------------------------------- *)
(** ** The request arbiter: the retry after a network error *)

Module RetryFacts.
Import LmClient LmFacts ExpiryFacts.

(** The [model.sendRequest] calls made for call [c]. *)
Definition requestsOf (c : nat) (l : list Effect) : list Effect :=
  filter (fun e => match e with
                   | SendRequest k _ => Nat.eqb k c
                   | _ => false
                   end) l.

(** The attempt a call is in, while its request is with the service. *)
Definition attemptOf (st : CallState) : option nat :=
  match st with
  | AwaitingResponse attempt | Streaming attempt _ => Some attempt
  | _ => None
  end.

(** No [sleep] of call [c] is pending. *)
Definition noWake (c : nat) (s : Client) : Prop :=
  forall tm, In tm (timers s) -> action tm <> WakeSleep c.

Definition freshHandles (s : Client) : Prop :=
  forall tm, In tm (timers s) -> (tid tm < nextTimer s)%nat.

(** Call [c] sleeps, and [wake] is the one timer that ends its sleep. *)
Definition wakePending (c : nat) (wake : Timer) (s : Client) : Prop :=
  In wake (timers s) /\ action wake = WakeSleep c
  /\ (forall tm, In tm (timers s) -> tm <> wake ->
                 tid tm <> tid wake /\ action tm <> WakeSleep c)
  /\ calls s c = Sleeping.

(** The sleep is over: the second attempt is with the service. *)
Definition wakeDone (c : nat) (s : Client) : Prop :=
  noWake c s /\ calls s c = AwaitingResponse 1.

Lemma effects_stepTimer tm s :
  effects (stepTimer tm s)
  = match action tm with
    | WakeSleep k =>
        match calls s k with
        | Sleeping => effects s ++ [SendRequest k 1]
        | _ => effects s
        end
    | ClearCooldown => effects s
    end.
Proof.
  unfold stepTimer, fire. destruct (action tm) as [|k]; [reflexivity|].
  cbn [calls set_now clearTimeout set_timers].
  destruct (calls s k); reflexivity.
Qed.

Lemma calls_stepTimer tm s c :
  calls (stepTimer tm s) c
  = match action tm with
    | WakeSleep k =>
        match calls s k with
        | Sleeping => if Nat.eqb c k then AwaitingResponse 1 else calls s c
        | _ => calls s c
        end
    | ClearCooldown => calls s c
    end.
Proof.
  unfold stepTimer, fire. destruct (action tm) as [|k]; [reflexivity|].
  cbn [calls set_now clearTimeout set_timers].
  destruct (calls s k); reflexivity.
Qed.

Lemma requestsOf_app c l l' :
  requestsOf c (l ++ l') = requestsOf c l ++ requestsOf c l'.
Proof. apply filter_app. Qed.

(** Another timer runs: the sleep of [c] goes on. *)
Lemma stepTimer_other c wake e s :
  wakePending c wake s -> In e (timers s) -> e <> wake ->
  wakePending c wake (stepTimer e s)
  /\ requestsOf c (effects (stepTimer e s)) = requestsOf c (effects s).
Proof.
  intros (Hin & Ha & Huniq & Hc) He Hne.
  destruct (Huniq e He Hne) as [Htid Hact].
  split; [unfold wakePending; rewrite timers_stepTimer; repeat split|].
  - apply filter_In. split; [exact Hin|].
    apply negb_true_iff, Nat.eqb_neq. congruence.
  - exact Ha.
  - apply filter_In in H as [H _]. apply (Huniq tm H H0).
  - apply filter_In in H as [H _]. apply (Huniq tm H H0).
  - rewrite calls_stepTimer. destruct (action e) as [|k]; [exact Hc|].
    destruct (calls s k); try exact Hc.
    destruct (Nat.eqb c k) eqn:E; [|exact Hc].
    apply Nat.eqb_eq in E. subst. congruence.
  - rewrite effects_stepTimer. destruct (action e) as [|k]; [reflexivity|].
    destruct (calls s k); try reflexivity.
    rewrite requestsOf_app. simpl.
    destruct (Nat.eqb k c) eqn:E; [|apply app_nil_r].
    apply Nat.eqb_eq in E. subst. congruence.
Qed.

(** The wake-up runs: the request is sent a second time. *)
Lemma stepTimer_wake c wake s :
  wakePending c wake s ->
  wakeDone c (stepTimer wake s)
  /\ requestsOf c (effects (stepTimer wake s))
     = requestsOf c (effects s) ++ [SendRequest c 1].
Proof.
  intros (Hin & Ha & Huniq & Hc). split; [split|].
  - intros tm. rewrite timers_stepTimer. intros Htm.
    apply filter_In in Htm as [Htm Hid].
    apply negb_true_iff, Nat.eqb_neq in Hid.
    apply (Huniq tm Htm). congruence.
  - rewrite calls_stepTimer, Ha, Hc, Nat.eqb_refl. reflexivity.
  - rewrite effects_stepTimer, Ha, Hc, requestsOf_app. simpl.
    rewrite Nat.eqb_refl. reflexivity.
Qed.

Lemma stepTimer_done c e s :
  wakeDone c s -> In e (timers s) ->
  wakeDone c (stepTimer e s)
  /\ requestsOf c (effects (stepTimer e s)) = requestsOf c (effects s).
Proof.
  intros [Hno Hc] He. pose proof (Hno e He) as Hact.
  split; [split|].
  - intros tm. rewrite timers_stepTimer. intros Htm.
    apply filter_In in Htm as [Htm _]. auto.
  - rewrite calls_stepTimer. destruct (action e) as [|k]; [exact Hc|].
    destruct (calls s k); try exact Hc.
    destruct (Nat.eqb c k) eqn:E; [reflexivity | exact Hc].
  - rewrite effects_stepTimer. destruct (action e) as [|k]; [reflexivity|].
    destruct (calls s k); try reflexivity.
    rewrite requestsOf_app. simpl.
    destruct (Nat.eqb k c) eqn:E; [|apply app_nil_r].
    apply Nat.eqb_eq in E. subst. congruence.
Qed.

Lemma fireDue_done c fuel T : forall s,
  wakeDone c s ->
  wakeDone c (fireDue fuel T s)
  /\ requestsOf c (effects (fireDue fuel T s)) = requestsOf c (effects s).
Proof.
  induction fuel as [|fuel IH]; intros s H; simpl; [auto|].
  destruct (earliest (timers s)) as [e|] eqn:E; [|auto].
  destruct (due e <=? T); [|auto].
  fold (stepTimer e s).
  destruct (earliest_first _ _ E) as [He _].
  destruct (stepTimer_done c e s H He) as [H1 Hr1].
  destruct (IH _ H1) as [H2 Hr2]. split; [exact H2 | congruence].
Qed.

(** Before the wake-up is due, the call sleeps on and nothing is sent for
    it. *)
Lemma fireDue_before c wake fuel T : forall s,
  wakePending c wake s -> T < due wake ->
  wakePending c wake (fireDue fuel T s)
  /\ requestsOf c (effects (fireDue fuel T s)) = requestsOf c (effects s).
Proof.
  induction fuel as [|fuel IH]; intros s H HT; simpl; [auto|].
  destruct (earliest (timers s)) as [e|] eqn:E; [|auto].
  destruct (due e <=? T) eqn:C; [|auto].
  apply Z.leb_le in C. fold (stepTimer e s).
  destruct (earliest_first _ _ E) as [He _].
  assert (Hne : e <> wake) by (intros ->; lia).
  destruct (stepTimer_other c wake e s H He Hne) as [H1 Hr1].
  destruct (IH _ H1 HT) as [H2 Hr2]. split; [exact H2 | congruence].
Qed.

Lemma stepTimer_shorter e s :
  In e (timers s) ->
  (List.length (timers (stepTimer e s)) < List.length (timers s))%nat.
Proof.
  intros Hine. rewrite timers_stepTimer.
  induction (timers s) as [|a l IHl]; simpl in *; [contradiction|].
  pose proof (filter_length_le (fun x => negb (Nat.eqb (tid x) (tid e))) l).
  destruct Hine as [-> | Hine].
  - rewrite Nat.eqb_refl. simpl. lia.
  - specialize (IHl Hine).
    destruct (negb (Nat.eqb (tid a) (tid e))); simpl; lia.
Qed.

(** Once the wake-up is due, the second attempt has been sent, once. *)
Lemma fireDue_wakes c wake T fuel : forall s,
  wakePending c wake s -> due wake <= T ->
  (List.length (timers s) <= fuel)%nat ->
  wakeDone c (fireDue fuel T s)
  /\ requestsOf c (effects (fireDue fuel T s))
     = requestsOf c (effects s) ++ [SendRequest c 1].
Proof.
  induction fuel as [|fuel IH]; intros s H HT Hlen.
  { destruct H as (Hin & _). destruct (timers s); simpl in *;
      [contradiction | lia]. }
  pose proof H as (Hin & _).
  simpl. destruct (earliest (timers s)) as [e|] eqn:E.
  2:{ destruct (timers s) as [|a l]; [contradiction|]. simpl in E.
      destruct (earliest l); [destruct (_ <=? _)|]; discriminate. }
  destruct (earliest_first _ _ E) as [He Hmin].
  assert ((due e <=? T) = true) as ->
    by (apply Z.leb_le; specialize (Hmin wake Hin); lia).
  fold (stepTimer e s).
  pose proof (stepTimer_shorter e s He) as Hshort.
  destruct (Timer_eq_dec e wake) as [-> | Hne].
  - destruct (stepTimer_wake c wake s H) as [H1 Hr1].
    destruct (fireDue_done c fuel T _ H1) as [H2 Hr2].
    split; [exact H2 | congruence].
  - destruct (stepTimer_other c wake e s H He Hne) as [H1 Hr1].
    destruct (IH _ H1 HT ltac:(lia)) as [H2 Hr2].
    split; [exact H2 | congruence].
Qed.

(** The [catch] clause on a plain error of the first attempt. *)
Lemma requestFailed_first c message s :
  attemptOf (calls s c) = Some 0%nat ->
  requestFailed c (PlainError message) s
  = setCall c Sleeping (setTimeout (WakeSleep c) RETRY_DELAY_MS s).
Proof.
  unfold requestFailed, attemptOf. intros H.
  destruct (calls s c); try discriminate; injection H as ->; reflexivity.
Qed.

Lemma wakePending_after_failure c message s :
  attemptOf (calls s c) = Some 0%nat -> noWake c s -> freshHandles s ->
  wakePending c {| tid := nextTimer s; due := now s + RETRY_DELAY_MS;
                   action := WakeSleep c |}
    (requestFailed c (PlainError message) s).
Proof.
  intros Ha Hno Hfresh. rewrite requestFailed_first by exact Ha.
  unfold wakePending. cbn. repeat split.
  - apply in_or_app. right. left. reflexivity.
  - apply in_app_or in H as [H | [<- | []]]; [|congruence].
    cbn. specialize (Hfresh tm H). lia.
  - apply in_app_or in H as [H | [<- | []]]; [|congruence].
    apply Hno, H.
  - apply upd_same.
Qed.

End RetryFacts.

(** C3: the code departs from the claim when the request of the superseded
    call is rejected.  A call A whose first request is in flight is
    superseded by call B: A's token source is cancelled and disposed
    before B's request is sent.  When the service then rejects A's request
    with a network error, A does not return: it sleeps, and 3000 ms later
    it sends its request a second time while B's request is outstanding,
    so that two requests are in flight; and when the second request is
    rejected too, A throws. *)
Theorem C3_superseded_call_is_sent_again :
  forall (s : LmClient.Client) (A B : nat) (token : bool)
         (m : LmClient.LanguageModelChat) (message message2 : string),
    LmFacts.singleFlight s ->
    LmClient.cachedModel s = Some m ->
    LmClient.quotaCooldown s = false ->
    RetryFacts.attemptOf (LmClient.calls s A) = Some 0%nat ->
    LmClient.cancelled s A = false ->
    LmClient.calls s B = LmClient.NotCalled ->
    RetryFacts.noWake A s ->
    RetryFacts.freshHandles s ->
    let s1 := LmClient.step (LmClient.SendPrompt B token) s in
    let s2 := LmClient.step
                (LmClient.RequestFailed A (LmClient.PlainError message)) s1 in
    let s3 := LmClient.step
                (LmClient.Advance (LmClient.now s + LmClient.RETRY_DELAY_MS))
                s2 in
    let s4 := LmClient.step
                (LmClient.RequestFailed A (LmClient.PlainError message2)) s3 in
    (LmClient.effects s1
       = LmClient.effects s ++
         [LmClient.CancelCts A; LmClient.DisposeCts A; LmClient.SendRequest B 0]
     /\ LmClient.cancelled s1 A = true
     /\ LmClient.currentRequestCts s1 = Some B)
    /\ (LmClient.calls s2 A = LmClient.Sleeping
        /\ LmClient.effects s2 = LmClient.effects s1)
    /\ (LmClient.calls s3 A = LmClient.AwaitingResponse 1
        /\ LmClient.cancelled s3 A = true
        /\ LmClient.calls s3 B = LmClient.AwaitingResponse 0
        /\ LmClient.cancelled s3 B = false
        /\ RetryFacts.requestsOf A (LmClient.effects s3)
           = RetryFacts.requestsOf A (LmClient.effects s)
             ++ [LmClient.SendRequest A 1])
    /\ LmClient.calls s4 A = LmClient.Threw (LmClient.PlainError message2).
Proof.
  intros s A B token m message message2 SF Hm Hq Ha HcA HB Hno Hfresh
         s1 s2 s3 s4.
  assert (HA : LmFacts.requestInFlight (LmClient.calls s A) = true).
  { destruct (LmClient.calls s A); simpl in *; congruence. }
  assert (Hslot : LmClient.currentRequestCts s = Some A).
  { apply SF. split; [|exact HcA].
    destruct (LmClient.calls s A); simpl in *; congruence. }
  assert (Hne : A <> B).
  { intros ->. rewrite HB in HA. discriminate. }
  assert (Es1 : s1 = LmClient.beginRequest B token s).
  { unfold s1. simpl. unfold LmClient.sendPrompt. rewrite HB, Hq, Hm.
    reflexivity. }
  assert (HcA1 : LmClient.cancelled s1 A = true).
  { rewrite Es1, LmFacts.cancelled_beginRequest.
    rewrite LmFacts.upd_other by exact Hne.
    unfold LmClient.cancelCurrent. rewrite Hslot. cbn.
    apply LmFacts.upd_same. }
  assert (HA1 : LmClient.calls s1 A = LmClient.calls s A).
  { rewrite Es1, LmFacts.calls_beginRequest. apply LmFacts.upd_other, Hne. }
  assert (HB1 : LmClient.calls s1 B = LmClient.AwaitingResponse 0).
  { rewrite Es1, LmFacts.calls_beginRequest. apply LmFacts.upd_same. }
  assert (HcB1 : LmClient.cancelled s1 B = false).
  { rewrite Es1, LmFacts.cancelled_beginRequest. apply LmFacts.upd_same. }
  destruct (CooldownFacts.quiet_beginRequest B token s)
    as (_ & Ht1 & Hn1 & Hid1).
  rewrite <- Es1 in Ht1, Hn1, Hid1.
  assert (He1 : LmClient.effects s1
                = LmClient.effects s ++
                  [LmClient.CancelCts A; LmClient.DisposeCts A;
                   LmClient.SendRequest B 0]).
  { rewrite Es1. unfold LmClient.beginRequest, LmClient.sendRequest,
      LmClient.setCall, LmClient.emit, LmClient.cancelCurrent.
    rewrite Hslot. cbn. rewrite <- !app_assoc. reflexivity. }
  assert (Ha1 : RetryFacts.attemptOf (LmClient.calls s1 A) = Some 0%nat)
    by (rewrite HA1; exact Ha).
  assert (Hno1 : RetryFacts.noWake A s1).
  { intros tm. rewrite Ht1. apply Hno. }
  assert (Hfresh1 : RetryFacts.freshHandles s1).
  { intros tm. rewrite Ht1, Hid1. apply Hfresh. }
  pose proof (RetryFacts.wakePending_after_failure A message s1 Ha1 Hno1
                Hfresh1) as HW.
  assert (Es2 : s2 = LmClient.requestFailed A (LmClient.PlainError message) s1)
    by reflexivity.
  rewrite <- Es2 in HW.
  assert (Hs2 : s2 = LmClient.setCall A LmClient.Sleeping
                       (LmClient.setTimeout (LmClient.WakeSleep A)
                          LmClient.RETRY_DELAY_MS s1)).
  { rewrite Es2. apply RetryFacts.requestFailed_first, Ha1. }
  assert (HB2 : LmClient.calls s2 B = LmClient.AwaitingResponse 0).
  { rewrite Hs2. cbn. rewrite LmFacts.upd_other by congruence. exact HB1. }
  assert (Hc2 : LmClient.cancelled s2 = LmClient.cancelled s1)
    by (rewrite Hs2; reflexivity).
  assert (He2 : LmClient.effects s2 = LmClient.effects s1)
    by (rewrite Hs2; reflexivity).
  destruct (RetryFacts.fireDue_wakes A _
              (LmClient.now s + LmClient.RETRY_DELAY_MS)
              (List.length (LmClient.timers s2)) s2 HW)
    as [[_ HA3] Hr3]; [cbn [LmClient.due]; lia | apply le_n |].
  assert (Es3 : s3 = LmClient.advance
                       (LmClient.now s + LmClient.RETRY_DELAY_MS) s2)
    by reflexivity.
  assert (HA3' : LmClient.calls s3 A = LmClient.AwaitingResponse 1).
  { rewrite Es3. unfold LmClient.advance. cbv zeta.
    cbn [LmClient.calls LmClient.set_now]. exact HA3. }
  split; [|split; [|split]].
  - split; [exact He1|]. split; [exact HcA1|]. rewrite Es1. reflexivity.
  - split; [apply HW | exact He2].
  - split; [exact HA3'|]. rewrite Es3. unfold LmClient.advance. cbv zeta.
    cbn [LmClient.calls LmClient.cancelled LmClient.effects LmClient.set_now].
    rewrite LmFacts.cancelled_fireDue, Hc2.
    split; [exact HcA1|]. split; [|split; [exact HcB1|]].
    + rewrite LmFacts.calls_fireDue_other; [exact HB2|].
      rewrite HB2. reflexivity.
    + rewrite Hr3, He2, He1, RetryFacts.requestsOf_app. simpl.
      assert (Nat.eqb B A = false) as ->
        by (apply Nat.eqb_neq; congruence).
      rewrite app_nil_r. reflexivity.
  - unfold s4. simpl. unfold LmClient.requestFailed. rewrite HA3'.
    simpl Nat.eqb. cbv iota.
    rewrite LmFacts.calls_settle. apply LmFacts.upd_same.
Qed.

(** Call 1 is streaming at time 0 and call 2 supersedes it; the stream of
    call 1 breaks with a network error.  At 3000 ms call 1 sends its
    request again, while the request of call 2 is outstanding, and a
    second network error makes call 1 throw. *)
Lemma C3_witness :
  LmClient.effects
    (LmClient.run [LmClient.SendPrompt 2 false;
                   LmClient.RequestFailed 1 (LmClient.PlainError "net");
                   LmClient.Advance 3000] LmExamples.streamingOne)
  = [LmClient.SelectChatModels 0; LmClient.SendRequest 1 0;
     LmClient.CancelCts 1; LmClient.DisposeCts 1; LmClient.SendRequest 2 0;
     LmClient.SendRequest 1 1]
  /\ LmClient.calls
       (LmClient.run [LmClient.SendPrompt 2 false;
                      LmClient.RequestFailed 1 (LmClient.PlainError "net");
                      LmClient.Advance 3000] LmExamples.streamingOne) 2
     = LmClient.AwaitingResponse 0
  /\ LmClient.calls
       (LmClient.run [LmClient.SendPrompt 2 false;
                      LmClient.RequestFailed 1 (LmClient.PlainError "net");
                      LmClient.Advance 3000;
                      LmClient.RequestFailed 1 (LmClient.PlainError "gone")]
          LmExamples.streamingOne) 1
     = LmClient.Threw (LmClient.PlainError "gone").
Proof.
  destruct (C3_superseded_call_is_sent_again LmExamples.streamingOne 1 2 false
              LmExamples.copilot "net" "gone")
    as (_ & _ & (_ & _ & HB & _) & Hthrow).
  - apply LmFacts.singleFlight_run, LmFacts.singleFlight_create.
  - reflexivity.
  - reflexivity.
  - reflexivity.
  - reflexivity.
  - reflexivity.
  - intros tm Hin. simpl in Hin. contradiction.
  - intros tm Hin. simpl in Hin. contradiction.
  - split; [reflexivity|]. split; [exact HB | exact Hthrow].
Defined.

(** C7: when the service fails a request with a quota-exceeded error, the
    call fails with that error without another request being sent, and
    the client is in cooldown: [isAvailable()] is [false] at once and
    stays [false] under every course of events until the first pending
    expiry timer is due; every [sendPrompt] in that period throws the
    cooldown error at once without any call to the service; and when the
    clock reaches that time, [isAvailable()] is [true] again for a cached
    model.  That time is 60 seconds after the failure when no earlier
    expiry is pending.  When the expiry timer of an earlier quota failure
    is still pending (the handler arms a new timer without clearing the
    old one), the cooldown ends when the old timer is due, less than 60
    seconds after this failure. *)
Theorem C7_quota_cooldown :
  forall (s : LmClient.Client) (c : nat) (message code : string),
    LmClient.isQuotaError message code = true ->
    LmFacts.requestInFlight (LmClient.calls s c) = true ->
    CooldownFacts.freshTimers s ->
    ExpiryFacts.distinctHandles s ->
    let err := LmClient.LanguageModelError message code in
    let s1 := LmClient.step (LmClient.RequestFailed c err) s in
    let D := LmClient.now s + LmClient.QUOTA_COOLDOWN_MS in
    exists E,
      ExpiryFacts.nextExpiry s1 = Some E
      /\ E <= D
      /\ (CooldownFacts.noExpiryPending s -> E = D)
      /\ (forall old,
            In old (LmClient.timers s) ->
            LmClient.action old = LmClient.ClearCooldown ->
            E <= LmClient.due old)
      /\ (LmClient.calls s1 c = LmClient.Threw err
          /\ LmClient.effects s1 = LmClient.effects s ++ [LmClient.DisposeCts c])
      /\ LmClient.isAvailable s1 = false
      /\ (forall evs,
            (forall t, In (LmClient.Advance t) evs -> t < E) ->
            let s2 := LmClient.run evs s1 in
            LmClient.isAvailable s2 = false
            /\ forall c' token,
                 LmClient.calls s2 c' = LmClient.NotCalled ->
                 LmClient.calls
                   (LmClient.step (LmClient.SendPrompt c' token) s2) c'
                   = LmClient.Threw (LmClient.PlainError LmClient.cooldownMessage)
                 /\ LmClient.effects
                      (LmClient.step (LmClient.SendPrompt c' token) s2)
                    = LmClient.effects s2)
      /\ (forall T m,
            E <= T -> LmClient.cachedModel s = Some m ->
            LmClient.isAvailable (LmClient.step (LmClient.Advance T) s1) = true).
Proof.
  intros s c message code Hquota Hfl Hfresh Hdist err s1 D.
  set (h := LmClient.handleLanguageModelError message code).
  assert (Es1 : exists attempt, s1 = LmClient.settle c (LmClient.Threw err)
                                       (h attempt s)).
  { unfold s1. simpl. unfold LmClient.requestFailed.
    destruct (LmClient.calls s c) as [| | a | a t | | |]; simpl in Hfl;
      try discriminate; exists a; reflexivity. }
  destruct Es1 as [attempt Es1]. clearbody s1.
  assert (Eh : h attempt s
               = LmClient.set_cooldownTimer (Some (LmClient.nextTimer s))
                   (LmClient.setTimeout LmClient.ClearCooldown
                      LmClient.QUOTA_COOLDOWN_MS
                      (LmClient.set_quotaCooldown true s))).
  { unfold h, LmClient.handleLanguageModelError. rewrite Hquota. reflexivity. }
  pose proof (CooldownFacts.quiet_settle c (LmClient.Threw err) (h attempt s))
    as (Hq1 & Ht1 & Hn1 & _).
  rewrite <- Es1 in Hq1, Ht1, Hn1. rewrite Eh in Hq1, Ht1, Hn1.
  cbn in Hq1, Ht1, Hn1.
  set (fresh := {| LmClient.tid := LmClient.nextTimer s;
                   LmClient.due := LmClient.now s + LmClient.QUOTA_COOLDOWN_MS;
                   LmClient.action := LmClient.ClearCooldown |}) in *.
  assert (Hfirst : In fresh (LmClient.timers s1)).
  { rewrite Ht1. apply in_or_app. right. left. reflexivity. }
  destruct (ExpiryFacts.nextExpiry_pending s1 fresh Hfirst eq_refl)
    as [E HE].
  destruct (ExpiryFacts.nextExpiry_first s1 E HE)
    as (expiry & Hin & Hact & Hdue & Hmin).
  assert (HED : E <= D) by exact (Hmin fresh Hfirst eq_refl).
  assert (C1 : CooldownFacts.coolingUntil E s1).
  { unfold CooldownFacts.coolingUntil. rewrite Hq1, Hn1.
    split; [reflexivity|]. split; [unfold D in HED; lia | exact Hmin]. }
  assert (Hunavailable : forall st, CooldownFacts.coolingUntil E st ->
                                    LmClient.isAvailable st = false).
  { intros st (Hq & _). unfold LmClient.isAvailable. rewrite Hq.
    destruct (LmClient.cachedModel st); reflexivity. }
  exists E. split; [exact HE|]. split; [exact HED|].
  split; [|split; [|split; [split|split; [|split]]]].
  - intros Hnone. rewrite Ht1 in Hin.
    apply in_app_or in Hin as [Hin | [<- | []]]; [|symmetry; exact Hdue].
    exfalso. exact (Hnone expiry Hin Hact).
  - intros old Hold Ha. apply Hmin; [|exact Ha].
    rewrite Ht1. apply in_or_app. left. exact Hold.
  - rewrite Es1, LmFacts.calls_settle. apply LmFacts.upd_same.
  - rewrite Es1, Eh. unfold LmClient.settle, LmClient.setCall,
      LmClient.disposeCts, LmClient.emit. cbn.
    destruct (LmClient.currentRequestCts s) as [k|]; [destruct (Nat.eqb k c)|];
      reflexivity.
  - apply Hunavailable, C1.
  - intros evs Hadv s2.
    pose proof (CooldownFacts.cooling_run E evs s1 Hadv C1) as C2.
    split; [apply Hunavailable, C2|].
    intros c' token Hc'. simpl. unfold LmClient.sendPrompt.
    destruct C2 as (Hq2 & _). fold s2 in Hq2. rewrite Hc', Hq2.
    split; [apply LmFacts.upd_same | reflexivity].
  - intros T m HT Hm. simpl. unfold LmClient.advance, LmClient.isAvailable.
    cbn. rewrite ExpiryFacts.cachedModel_fireDue.
    assert (Hcm : LmClient.cachedModel s1 = Some m).
    { rewrite Es1, Eh. unfold LmClient.settle, LmClient.setCall,
        LmClient.disposeCts, LmClient.emit. cbn.
      destruct (LmClient.currentRequestCts s) as [k|];
        [destruct (Nat.eqb k c)|]; exact Hm. }
    rewrite Hcm.
    rewrite (ExpiryFacts.fireDue_expires T expiry); [reflexivity | | | | |].
    + exact Hin.
    + exact Hact.
    + lia.
    + intros tm Htm Hne Heq. apply Hne. revert Htm Hin Heq.
      rewrite Ht1. intros Htm Hin Heq.
      apply in_app_or in Htm as [Htm | [<- | []]];
        apply in_app_or in Hin as [Hin | [<- | []]].
      * apply Hdist; assumption.
      * specialize (Hfresh tm Htm). cbn in Heq. lia.
      * specialize (Hfresh expiry Hin). cbn in Heq. lia.
      * reflexivity.
    + apply le_n.
Qed.

Module CooldownExamples.
Import LmClient.

(** Call 2 has superseded call 1; the request of call 1 fails on quota at
    time 0, and the clock has run to 30 s with the request of call 2
    outstanding. *)
Definition halfWay : Client :=
  run [SendPrompt 2 false; RequestFailed 1 LmExamples.quotaError;
       Advance 30000] LmExamples.streamingOne.

Example halfWay_state :
  calls halfWay 2 = AwaitingResponse 0
  /\ quotaCooldown halfWay = true
  /\ cooldownTimer halfWay = Some 0%nat
  /\ timers halfWay
     = [{| tid := 0; due := 60000; action := ClearCooldown |}].
Proof. repeat split. Qed.

(** The request of call 2 fails on quota at 30 s: the handler arms a
    second expiry, due at 90 s, and leaves the first one pending. *)
Example second_failure_keeps_first_expiry :
  timers (step (RequestFailed 2 LmExamples.quotaError) halfWay)
  = [{| tid := 0; due := 60000; action := ClearCooldown |};
     {| tid := 1; due := 90000; action := ClearCooldown |}]
  /\ cooldownTimer (step (RequestFailed 2 LmExamples.quotaError) halfWay)
     = Some 1%nat.
Proof. split; reflexivity. Qed.

End CooldownExamples.

(** Quota failures at 0 s (call 1) and at 30 s (call 2): at 60 s, 30
    seconds after the second failure, the client is available again. *)
Lemma C7_witness :
  LmClient.isAvailable
    (LmClient.step (LmClient.RequestFailed 2 LmExamples.quotaError)
       CooldownExamples.halfWay) = false
  /\ LmClient.isAvailable
       (LmClient.step (LmClient.Advance 60000)
          (LmClient.step (LmClient.RequestFailed 2 LmExamples.quotaError)
             CooldownExamples.halfWay)) = true.
Proof.
  destruct (C7_quota_cooldown CooldownExamples.halfWay 2
              "Rate limit exceeded" "quota-exceeded")
    as (E & HE & _ & _ & _ & _ & Hnow & _ & Hafter).
  - reflexivity.
  - reflexivity.
  - exact (proj1 (ExpiryFacts.tidy_run _ _
                    (ExpiryFacts.tidy_run _ _ (ExpiryFacts.tidy_create 0)))).
  - exact (proj2 (ExpiryFacts.tidy_run _ _
                    (ExpiryFacts.tidy_run _ _ (ExpiryFacts.tidy_create 0)))).
  - assert (HE60 : E = 60000) by (vm_compute in HE; congruence).
    split; [exact Hnow|].
    apply (Hafter 60000 LmExamples.copilot); [lia | reflexivity].
Defined.

(* ---------------------------------------------------------------------- *)
(** ** Further concrete runs *)

Module MoreExamples.

(** A snapshot whose [stat] fails counts as oldest and goes first. *)
Example unreadable_metadata_is_deleted_first :
  map History.ename
    (History.pruneEntries
       [HistoryExamples.snapshotFile "a.txt" 100;
        {| History.ename := "b.txt"; History.etype := History.FileType_File;
           History.emtime := None; History.edeletable := true;
           History.econtent := "" |};
        HistoryExamples.snapshotFile "c.txt" 50] 2)
  = ["a.txt"%string].
Proof. reflexivity. Qed.

(** A snapshot that cannot be deleted stays; pruning goes on. *)
Example failed_delete_is_skipped :
  map History.ename
    (History.pruneEntries
       [{| History.ename := "a.txt"; History.etype := History.FileType_File;
           History.emtime := Some 1; History.edeletable := false;
           History.econtent := "" |};
        HistoryExamples.snapshotFile "b.txt" 2;
        HistoryExamples.snapshotFile "c.txt" 3] 1)
  = ["a.txt"%string].
Proof. reflexivity. Qed.

(** Budget 1000, three candidates of 400 tokens each: the first two. *)
Definition fourHundred : Assembler.LanguageModelChat :=
  {| Assembler.modelName := "m";
     Assembler.countTokens := fun _ => Some 400%nat |}.

Example two_of_three_fit :
  List.length
    (Assembler.selectedSections (fun _ => Some "x"%string) (Some fourHundred)
       1000 ["a"%string; "b"%string; "c"%string]) = 2%nat.
Proof. reflexivity. Qed.

(** An architecture-relevant change arms both timers; a later tree-only
    change re-arms the tree timer alone. *)
Example both_timers_independent :
  map (fun g => (Watcher.sigTime g, Watcher.sigConcern g))
    (Watcher.signals
       (Watcher.advance 2000
          (Watcher.deliverAll
             (fun path pattern => String.eqb path pattern)
             {| ignore := []; architectureWatchPatterns := ["src/app.ts"%string];
                outputPaths_fileTree := "docs/file_tree.txt";
                outputPaths_architecture := "docs/architecture.txt";
                debounceMs := 500; maxHistorySnapshots := 3;
                contextFiles := []; filePriority := [] |}
             "/ws" 0%nat
             [(0, "/ws/src/app.ts"%string); (300, "/ws/README.md"%string)]
             WatcherExamples.twoSessions)))
  = [(500, Watcher.Arch); (800, Watcher.Tree)].
Proof. reflexivity. Qed.

End MoreExamples.

(* ====================================================================== *)
(** * Further properties of the code *)
(* ====================================================================== *)

(* ---------------------------------------------------------------------- *)
(** ** history.ts: saving *)

Module SaveFacts.
Import History HistoryFacts RetentionFacts.

Lemma in_writeFile e entries x :
  In x (writeFile e entries) -> x = e \/ In x entries.
Proof.
  induction entries as [|y rest IH]; simpl.
  - intros [<- | []]. auto.
  - destruct (String.eqb (ename y) (ename e)).
    + intros [<- | H]; auto.
    + intros [<- | H]; [auto|]. destruct (IH H); auto.
Qed.

Lemma writeFile_has e entries : In e (writeFile e entries).
Proof.
  induction entries as [|y rest IH]; simpl; [auto|].
  destruct (String.eqb (ename y) (ename e)); simpl; auto.
Qed.

Lemma writeFile_keeps e entries x :
  In x entries -> ename x <> ename e -> In x (writeFile e entries).
Proof.
  induction entries as [|y rest IH]; simpl; [contradiction|].
  intros [-> | H] Hne.
  - apply String.eqb_neq in Hne. rewrite Hne. left. reflexivity.
  - destruct (String.eqb (ename y) (ename e)); simpl; auto.
Qed.

Lemma writeFile_name_in e entries n :
  In n (map ename (writeFile e entries)) ->
  n = ename e \/ In n (map ename entries).
Proof.
  intros H. apply in_map_iff in H as (x & <- & Hx).
  apply in_writeFile in Hx as [-> | Hx]; [auto|].
  right. apply in_map. exact Hx.
Qed.

(** Writing a file never gives the directory two entries of one name. *)
Lemma wellFormedDir_writeFile e entries :
  wellFormedDir entries -> wellFormedDir (writeFile e entries).
Proof.
  unfold wellFormedDir. induction entries as [|y rest IH]; simpl; intros ND.
  - constructor; [simpl; tauto | constructor].
  - apply NoDup_cons_iff in ND as [Hnew ND].
    destruct (String.eqb (ename y) (ename e)) eqn:E; simpl.
    + apply String.eqb_eq in E. apply NoDup_cons; [|exact ND].
      rewrite <- E. exact Hnew.
    + apply String.eqb_neq in E. apply NoDup_cons; [|exact (IH ND)].
      intros Hin. apply writeFile_name_in in Hin as [Hin | Hin]; auto.
Qed.

Lemma allDeletable_writeFile e entries :
  edeletable e = true -> allDeletable entries ->
  allDeletable (writeFile e entries).
Proof.
  intros He Hall x Hx Hs. apply in_writeFile in Hx as [-> | Hx]; auto.
Qed.

Lemma prune_subset entries maxSnapshots x :
  In x (pruneEntries entries maxSnapshots) -> In x entries.
Proof.
  unfold pruneEntries. destruct (_ <=? maxSnapshots); [auto|].
  rewrite deleteAll_filter. intros H. apply filter_In in H. tauto.
Qed.

Lemma wellFormedDir_prune entries maxSnapshots :
  wellFormedDir entries -> wellFormedDir (pruneEntries entries maxSnapshots).
Proof.
  intros WF. unfold pruneEntries. destruct (_ <=? maxSnapshots); [exact WF|].
  rewrite deleteAll_filter. apply wellFormedDir_filter, WF.
Qed.

Lemma allDeletable_prune entries maxSnapshots :
  allDeletable entries -> allDeletable (pruneEntries entries maxSnapshots).
Proof.
  intros Hall x Hx. apply Hall. eapply prune_subset, Hx.
Qed.

(** With a maximum of at least one, a successful prune leaves at most the
    maximum. *)
Lemma prune_at_most entries maxSnapshots :
  wellFormedDir entries -> allDeletable entries -> 1 <= maxSnapshots ->
  Z.of_nat (List.length (snapshotNamesOf (pruneEntries entries maxSnapshots)))
  <= maxSnapshots.
Proof.
  intros WF Hall Hmax.
  destruct (Z_le_gt_dec
              (Z.of_nat (List.length (snapshotNamesOf entries))) maxSnapshots)
    as [Hle | Hgt].
  - rewrite prune_noop by exact Hle. exact Hle.
  - rewrite prune_count by (assumption || lia). lia.
Qed.

(** A directory [saveSnapshot] and [pruneSnapshots] can work on: names are
    unique and every snapshot file can be deleted. *)
Definition healthy (dir : option (list Entry)) : Prop :=
  match dir with
  | Some entries => wellFormedDir entries /\ allDeletable entries
  | None => True
  end.

Lemma healthy_saveAndPrune maxSnapshots dir shot :
  1 <= maxSnapshots -> healthy dir ->
  healthy (saveAndPrune maxSnapshots dir shot)
  /\ Z.of_nat (snapshotCount (saveAndPrune maxSnapshots dir shot))
     <= maxSnapshots.
Proof.
  intros Hmax H. destruct shot as [[iso mtime] content].
  unfold saveAndPrune, saveSnapshot, pruneSnapshots.
  set (e := {| ename := _; etype := _; emtime := _; edeletable := _;
               econtent := _ |}).
  set (entries := match dir with Some l => l | None => [] end).
  assert (Hent : wellFormedDir entries /\ allDeletable entries).
  { unfold entries. destruct dir as [l|]; [exact H|].
    split; [constructor | intros x []]. }
  destruct Hent as [WF Hall].
  assert (WF1 : wellFormedDir (writeFile e entries))
    by (apply wellFormedDir_writeFile, WF).
  assert (Hall1 : allDeletable (writeFile e entries))
    by (apply allDeletable_writeFile; [reflexivity | exact Hall]).
  simpl. split; [split|].
  - apply wellFormedDir_prune, WF1.
  - apply allDeletable_prune, Hall1.
  - apply prune_at_most; assumption.
Qed.

Lemma substring_after_prefix a b :
  String.substring (String.length a) (String.length b) (a ++ b)%string = b.
Proof.
  induction a as [|ch a IH]; simpl; [|exact IH].
  induction b as [|ch b IHb]; simpl; [reflexivity|].
  f_equal. exact IHb.
Qed.

Lemma length_of_append (a b : string) :
  String.length (a ++ b)%string = (String.length a + String.length b)%nat.
Proof.
  induction a as [|ch a IH]; simpl; [reflexivity | rewrite IH; reflexivity].
Qed.

(** A name built by appending an extension ends with it. *)
Lemma endsWith_appended a b : Utils.endsWith (a ++ b)%string b = true.
Proof.
  unfold Utils.endsWith. rewrite length_of_append.
  replace (String.length a + String.length b - String.length b)%nat
    with (String.length a) by lia.
  rewrite substring_after_prefix, String.eqb_refl.
  assert (Nat.leb (String.length b) (String.length a + String.length b) = true)
    as -> by (apply Nat.leb_le; lia).
  reflexivity.
Qed.

Lemma append_assoc_string (a b c : string) :
  (a ++ b ++ c)%string = ((a ++ b) ++ c)%string.
Proof.
  induction a as [|x a IH]; simpl; [reflexivity | rewrite IH; reflexivity].
Qed.

Fixpoint hasChar (c : ascii) (s : string) : bool :=
  match s with
  | EmptyString => false
  | String x rest => (Ascii.eqb x c || hasChar c rest)%bool
  end.

Lemma hasChar_append c a b :
  hasChar c (a ++ b)%string = (hasChar c a || hasChar c b)%bool.
Proof.
  induction a as [|x a IH]; simpl; [reflexivity|].
  rewrite IH, orb_assoc. reflexivity.
Qed.

Lemma replaceColons_clean s : hasChar ":"%char (replaceColons s) = false.
Proof.
  induction s as [|x s IH]; simpl; [reflexivity|].
  rewrite IH, orb_false_r.
  destruct (Ascii.eqb x ":"%char) eqn:E; [reflexivity | exact E].
Qed.

End SaveFacts.

(** X1: whatever the sequence of generations, saving a snapshot and then
    pruning (as extension.ts does) keeps the directory healthy and never
    leaves more than [maxHistorySnapshots] snapshot files, provided the
    maximum is at least 1 (which [validateConfig] enforces). *)
Theorem X1_save_then_prune_never_exceeds_maximum :
  forall (maxSnapshots : Z) (shots : list (string * Z * string))
         (dir : option (list History.Entry)),
    1 <= maxSnapshots ->
    SaveFacts.healthy dir ->
    shots <> [] ->
    SaveFacts.healthy (fold_left (History.saveAndPrune maxSnapshots) shots dir)
    /\ Z.of_nat (History.snapshotCount
                   (fold_left (History.saveAndPrune maxSnapshots) shots dir))
       <= maxSnapshots.
Proof.
  intros maxSnapshots shots. induction shots as [|shot rest IH];
    intros dir Hmax H Hne; [congruence|].
  simpl.
  destruct (SaveFacts.healthy_saveAndPrune maxSnapshots dir shot Hmax H)
    as [H1 Hc1].
  destruct rest as [|shot2 rest2]; [split; assumption|].
  apply IH; [exact Hmax | exact H1 | discriminate].
Qed.

Lemma X1_witness :
  Z.of_nat (History.snapshotCount
              (fold_left (History.saveAndPrune 3) HistoryExamples.fiveShots
                 (Some HistoryExamples.mixedDir))) <= 3.
Proof.
  apply (X1_save_then_prune_never_exceeds_maximum 3 HistoryExamples.fiveShots
           (Some HistoryExamples.mixedDir)).
  - lia.
  - split.
    + unfold HistoryFacts.wellFormedDir. simpl.
      repeat (constructor; [simpl; intuition discriminate|]). constructor.
    + intros e He _. simpl in He. intuition (subst; reflexivity).
  - discriminate.
Defined.

(** X2: [saveSnapshot] creates the directory when it is missing and writes
    one regular file [architecture_<timestamp>.txt] holding the content;
    the name has no colon and counts as a snapshot; entries of other names
    are kept, and a second save under the same timestamp overwrites the
    file instead of adding one. *)
Theorem X2_saveSnapshot_writes_one_snapshot_file :
  forall (dir : option (list History.Entry)) (iso : string) (mtime : Z)
         (content : string),
    exists entries saved,
      History.saveSnapshot dir iso mtime content = Some entries
      /\ In saved entries
      /\ History.ename saved
         = ("architecture_" ++ History.replaceColons iso ++ ".txt")%string
      /\ History.econtent saved = content
      /\ History.isSnapshot saved = true
      /\ SaveFacts.hasChar ":"%char (History.ename saved) = false
      /\ (forall x, In x (match dir with Some l => l | None => [] end) ->
                    History.ename x <> History.ename saved -> In x entries)
      /\ (forall content2 mtime2,
            map History.ename
              (match History.saveSnapshot (Some entries) iso mtime2 content2
               with Some l => l | None => [] end)
            = map History.ename entries).
Proof.
  intros dir iso mtime content. unfold History.saveSnapshot.
  set (saved := {| History.ename := _; History.etype := _;
                   History.emtime := _; History.edeletable := _;
                   History.econtent := content |}).
  set (old := match dir with Some l => l | None => [] end).
  exists (History.writeFile saved old), saved.
  split; [reflexivity|]. split; [apply SaveFacts.writeFile_has|].
  split; [reflexivity|]. split; [reflexivity|].
  split.
  { unfold History.isSnapshot, saved.
    cbv beta iota delta [History.etype History.ename].
    rewrite SaveFacts.append_assoc_string, SaveFacts.endsWith_appended.
    reflexivity. }
  split.
  { unfold saved. cbv beta iota delta [History.ename].
    rewrite !SaveFacts.hasChar_append, SaveFacts.replaceColons_clean.
    reflexivity. }
  split.
  { intros x Hx Hne. apply SaveFacts.writeFile_keeps; assumption. }
  intros content2 mtime2. simpl.
  set (again := {| History.ename := _; History.etype := _;
                   History.emtime := Some mtime2; History.edeletable := _;
                   History.econtent := content2 |}).
  assert (Hn : History.ename again = History.ename saved) by reflexivity.
  clearbody again saved. clear - Hn.
  induction old as [|y rest IH]; simpl.
  - rewrite <- Hn, String.eqb_refl. simpl. congruence.
  - destruct (String.eqb (History.ename y) (History.ename saved)) eqn:E; simpl.
    + rewrite <- Hn, String.eqb_refl. simpl. congruence.
    + rewrite Hn, E. simpl. f_equal. exact IH.
Qed.

(** X3: pruning is idempotent: after a successful prune with a maximum of
    at least 1, a second prune deletes nothing. *)
Theorem X3_prune_is_idempotent :
  forall (entries : list History.Entry) (maxSnapshots : Z),
    HistoryFacts.wellFormedDir entries ->
    RetentionFacts.allDeletable entries ->
    1 <= maxSnapshots ->
    History.pruneEntries (History.pruneEntries entries maxSnapshots)
      maxSnapshots
    = History.pruneEntries entries maxSnapshots.
Proof.
  intros entries maxSnapshots WF Hall Hmax.
  apply RetentionFacts.prune_noop.
  apply SaveFacts.prune_at_most; assumption.
Qed.

Lemma X3_witness :
  History.pruneEntries (History.pruneEntries HistoryExamples.threeSnapshots 2) 2
  = History.pruneEntries HistoryExamples.threeSnapshots 2.
Proof.
  apply (X3_prune_is_idempotent HistoryExamples.threeSnapshots 2).
  - unfold HistoryFacts.wellFormedDir. simpl.
    repeat (constructor; [simpl; intuition discriminate|]). constructor.
  - intros e He _. simpl in He. intuition (subst; reflexivity).
  - lia.
Defined.

(* ---------------------------------------------------------------------- *)
(** ** watcher.ts: the architecture debounce and cancellation *)

Lemma fireDue_clock fuel T : forall s,
  Watcher.subscribed (Watcher.fireDue fuel T s) = Watcher.subscribed s
  /\ Watcher.now s <= Watcher.now (Watcher.fireDue fuel T s)
     <= Z.max (Watcher.now s) T.
Proof.
  induction fuel as [|fuel IH]; intros s; simpl; [split; [reflexivity | lia]|].
  destruct (Watcher.earliest (Watcher.pending s)) as [tm|];
    [|split; [reflexivity | lia]].
  destruct (Watcher.due tm <=? T) eqn:E; [|split; [reflexivity | lia]].
  apply Z.leb_le in E.
  match goal with |- context [Watcher.fireDue fuel T ?x] =>
    destruct (IH x) as [Hs Hn]; rewrite Hs;
    assert (Hx : Watcher.subscribed x = Watcher.subscribed s
                 /\ Watcher.now x = Z.max (Watcher.now s) (Watcher.due tm))
  end.
  { unfold Watcher.fire. destruct (Watcher.concern tm); split; reflexivity. }
  destruct Hx as [Hxs Hxn]. rewrite Hxn in Hn. split; [exact Hxs | lia].
Qed.

(** Letting the clock run never unsubscribes a session, and moves the
    clock to the later of the two times. *)
Lemma advance_clock T s :
  Watcher.subscribed (Watcher.advance T s) = Watcher.subscribed s
  /\ Watcher.now (Watcher.advance T s) = Z.max (Watcher.now s) T.
Proof.
  destruct (fireDue_clock (List.length (Watcher.pending s)) T s) as [Hs Hn].
  unfold Watcher.advance. cbv zeta. simpl. split; [exact Hs | lia].
Qed.

Section ArchFacts.
Import Watcher WatcherFacts.
Variable minimatch : string -> string -> bool.
Variable config : AsciiAgentConfig.
Variable workspaceRoot : string.
Variable sid : nat.
Variable base : list Signal.

Local Abbreviation d := (debounceMs config).
Local Abbreviation classify := (classifyEvent minimatch config workspaceRoot).
Local Abbreviation handle := (handleEvent minimatch config workspaceRoot).

(** An event that is not architecture relevant leaves the architecture
    timer, its module variable and the architecture signals as they are. *)
Lemma handleEvent_spares_arch uri s :
  wf s -> classify uri <> TreeAndArch ->
  let s' := handle sid uri s in
  wf s' /\ timersOf Arch s' = timersOf Arch s
  /\ slot Arch s' = slot Arch s
  /\ signalsOf Arch s' = signalsOf Arch s
  /\ subscribed s' = subscribed s /\ now s' = now s.
Proof.
  intros W Hc. unfold handleEvent. destruct (classify uri).
  - simpl. conj_split; auto.
  - unfold scheduleTreeRegen.
    destruct (schedule_same Tree d sid s W) as (W1 & _ & Hn & Hg & Hsub).
    destruct (schedule_other Tree Arch d sid s W) as [Ht Hs]; [discriminate|].
    cbv zeta. conj_split; auto. unfold signalsOf. rewrite Hg. reflexivity.
  - congruence.
Qed.

(** An architecture-relevant event leaves exactly one architecture timer,
    due one quiet period from now. *)
Lemma handleEvent_arms_arch uri s :
  wf s -> classify uri = TreeAndArch ->
  let s' := handle sid uri s in
  wf s'
  /\ (exists tm, timersOf Arch s' = [tm] /\ due tm = now s + timerDelay d
                 /\ owner tm = sid)
  /\ signalsOf Arch s' = signalsOf Arch s
  /\ subscribed s' = subscribed s /\ now s' = now s.
Proof.
  intros W Hc. unfold handleEvent. rewrite Hc.
  unfold scheduleTreeRegen, scheduleArchRegen.
  destruct (schedule_same Tree d sid s W) as (W1 & _ & Hn & Hg & Hsub).
  destruct (schedule_same Arch d sid _ W1) as (W2 & Ht2 & Hn2 & Hg2 & Hsub2).
  cbv zeta. conj_split; auto.
  - eexists. split; [exact Ht2|].
    split; [cbn [due]; rewrite Hn; reflexivity | reflexivity].
  - unfold signalsOf. rewrite Hg2, Hg. reflexivity.
  - congruence.
  - congruence.
Qed.

(** The architecture timer set at [due - d] is either still pending or has
    run, once. *)
Definition archSettles (dueAt : Z) (s : Loop) : Prop :=
  wf s /\ In sid (subscribed s)
  /\ ((exists tm, timersOf Arch s = [tm] /\ due tm = dueAt /\ owner tm = sid
                  /\ now s <= dueAt)
      /\ signalsOf Arch s = base
      \/ timersOf Arch s = []
         /\ signalsOf Arch s =
            base ++ [{| sigTime := dueAt; sigSession := sid;
                        sigConcern := Arch |}]).

Lemma archSettles_advance dueAt T s :
  archSettles dueAt s ->
  let s' := advance T s in
  wf s' /\ In sid (subscribed s') /\ now s' = Z.max (now s) T
  /\ ((exists tm, timersOf Arch s' = [tm] /\ due tm = dueAt /\ owner tm = sid
                  /\ now s' <= dueAt)
      /\ signalsOf Arch s' = base /\ T < dueAt
      \/ timersOf Arch s' = []
         /\ signalsOf Arch s' =
            base ++ [{| sigTime := dueAt; sigSession := sid;
                        sigConcern := Arch |}]).
Proof.
  intros (W & Hsub & [[(tm & Ht & Hd & Ho & Hn) Hb] | [Ht Hb]]).
  - destruct (Z_lt_le_dec T dueAt) as [Hlt | Hge].
    + destruct (advance_keeps Arch T s W) as (W1 & Ht1 & _ & Hg1 & Hs1 & Hn1).
      { rewrite Ht. intros x [<- | []]. lia. }
      cbv zeta. conj_split; try congruence. left. conj_split; try congruence.
      exists tm. conj_split; try congruence. lia.
    + destruct (advance_fires Arch T s tm W Ht) as (W1 & Ht1 & _ & Hg1 & Hs1 & Hn1);
        try lia.
      cbv zeta. conj_split; try congruence. right. split; [exact Ht1|].
      rewrite Hg1, Hb, Hd, Ho. reflexivity.
  - destruct (advance_keeps Arch T s W) as (W1 & Ht1 & _ & Hg1 & Hs1 & Hn1).
    { rewrite Ht. intros x []. }
    cbv zeta. conj_split; try congruence. right. split; congruence.
Qed.

Lemma archSettles_deliver dueAt t uri s :
  archSettles dueAt s -> classify uri <> TreeAndArch ->
  archSettles dueAt (deliver minimatch config workspaceRoot sid t uri s).
Proof.
  intros HA Hc. unfold deliver.
  destruct (archSettles_advance dueAt t s HA) as (W1 & Hsub1 & Hn1 & Hph).
  rewrite (subscribed_existsb sid _ Hsub1).
  destruct (handleEvent_spares_arch uri _ W1 Hc)
    as (W2 & Ht2 & _ & Hg2 & Hsub2 & Hn2).
  unfold archSettles. conj_split; [exact W2 | congruence |].
  rewrite Ht2, Hg2, Hn2.
  destruct Hph as [[Htm [Hb _]] | Hfired]; [left | right]; auto.
Qed.

Lemma archSettles_deliverAll dueAt evs : forall s,
  archSettles dueAt s ->
  Forall (fun e : Z * string => classify (snd e) <> TreeAndArch) evs ->
  archSettles dueAt (deliverAll minimatch config workspaceRoot sid evs s).
Proof.
  induction evs as [|[t uri] evs IH]; intros s HA HQ; [exact HA|].
  inversion HQ as [|? ? Hq HQ']; subst. simpl.
  apply IH; [|exact HQ']. apply archSettles_deliver; assumption.
Qed.
End ArchFacts.

(** X4: the architecture debounce is not extended by changes that are not
    architecture relevant.  After one architecture-relevant event, any
    number of later events that are ignored or tree-only (at any times)
    leave the architecture timer alone: the architecture signal is raised
    exactly once, one quiet period after the architecture-relevant event
    (the quiet period being the delay the timer is armed with). *)
Theorem X4_arch_timer_unaffected_by_other_events :
  forall (minimatch : string -> string -> bool) (config : AsciiAgentConfig)
         (workspaceRoot : string) (sid : nat) (s0 : Watcher.Loop)
         (t0 : Z) (uri0 : string) (evs : list (Z * string)) (T : Z),
    WatcherFacts.wf s0 ->
    In sid (Watcher.subscribed s0) ->
    Watcher.classifyEvent minimatch config workspaceRoot uri0
      = Watcher.TreeAndArch ->
    Forall (fun e => Watcher.classifyEvent minimatch config workspaceRoot
                       (snd e) <> Watcher.TreeAndArch) evs ->
    let fireAt :=
      Z.max (Watcher.now s0) t0 + Watcher.timerDelay (debounceMs config) in
    fireAt <= T ->
    Watcher.signalsOf Watcher.Arch
      (Watcher.advance T
         (Watcher.deliverAll minimatch config workspaceRoot sid
            ((t0, uri0) :: evs) s0))
    = Watcher.signalsOf Watcher.Arch (Watcher.advance t0 s0)
      ++ [{| Watcher.sigTime := fireAt; Watcher.sigSession := sid;
             Watcher.sigConcern := Watcher.Arch |}].
Proof.
  intros mm cfg root sid s0 t0 uri0 evs T W Hsub Hc HQ fireAt HT.
  pose proof (WatcherFacts.timerDelay_pos (debounceMs cfg)) as Hd.
  simpl Watcher.deliverAll.
  set (base := Watcher.signalsOf Watcher.Arch (Watcher.advance t0 s0)).
  assert (HA : archSettles sid base fireAt
                 (Watcher.deliver mm cfg root sid t0 uri0 s0)).
  { unfold Watcher.deliver.
    pose proof (WatcherFacts.wf_advance t0 s0 W) as W1.
    destruct (advance_clock t0 s0) as [Hsub1 Hn1].
    rewrite (subscribed_existsb sid _ ltac:(rewrite Hsub1; exact Hsub)).
    destruct (handleEvent_arms_arch mm cfg root sid uri0 _ W1 Hc)
      as (W2 & (tm & Ht & Hdue & Ho) & Hg & Hs2 & Hn2).
    unfold archSettles. split; [exact W2|]. split; [congruence|].
    left. split; [|exact Hg].
    exists tm. rewrite Hn2. repeat split; auto; unfold fireAt; lia. }
  pose proof (archSettles_deliverAll mm cfg root sid base fireAt evs _ HA HQ)
    as HA'.
  destruct (archSettles_advance sid base fireAt T _ HA')
    as (_ & _ & _ & [[_ [_ Hlt]] | [_ Hg]]); [lia | exact Hg].
Qed.

Module ArchExamples.
Import Watcher.

(** A matcher that knows one pattern: everything under [src/]. *)
Definition srcOnly (path pattern : string) : bool :=
  (String.eqb pattern "src/**" && Utils.startsWith path "src/")%bool.

Definition configSrc : AsciiAgentConfig :=
  {| ignore := ["node_modules"%string];
     architectureWatchPatterns := ["src/**"%string];
     outputPaths_fileTree := "docs/file_tree.txt";
     outputPaths_architecture := "docs/architecture.txt";
     debounceMs := 500;
     maxHistorySnapshots := 3;
     contextFiles := [];
     filePriority := [] |}.

Example classify_arch :
  classifyEvent srcOnly configSrc "/ws" "/ws/src/app.ts" = TreeAndArch
  /\ classifyEvent srcOnly configSrc "/ws" "/ws/README.md" = TreeOnly.
Proof. split; reflexivity. Qed.

End ArchExamples.

(** A source change at 0, then unrelated changes at 100, 400 and 700 ms:
    the architecture signal is raised once, at 500 ms. *)
Lemma X4_witness :
  Watcher.signalsOf Watcher.Arch
    (Watcher.advance 2000
       (Watcher.deliverAll ArchExamples.srcOnly ArchExamples.configSrc "/ws"
          0%nat
          [(0, "/ws/src/app.ts"%string); (100, "/ws/README.md"%string);
           (400, "/ws/notes.txt"%string); (700, "/ws/README.md"%string)]
          WatcherExamples.twoSessions))
  = [{| Watcher.sigTime := 500; Watcher.sigSession := 0%nat;
        Watcher.sigConcern := Watcher.Arch |}].
Proof.
  apply (X4_arch_timer_unaffected_by_other_events ArchExamples.srcOnly
           ArchExamples.configSrc "/ws" 0%nat WatcherExamples.twoSessions
           0 "/ws/src/app.ts"
           [(100, "/ws/README.md"%string); (400, "/ws/notes.txt"%string);
            (700, "/ws/README.md"%string)] 2000).
  - apply WatcherFacts.wf_startWatching, WatcherFacts.wf_startWatching,
      WatcherFacts.wf_init.
  - simpl. auto.
  - reflexivity.
  - repeat constructor; simpl; discriminate.
  - vm_compute. discriminate.
Defined.

Section StopFacts.
Import Watcher WatcherFacts.
Variable minimatch : string -> string -> bool.
Variable config : AsciiAgentConfig.
Variable workspaceRoot : string.
Variable sid : nat.

(** Nothing is pending and the session [sid] is no longer subscribed. *)
Definition stopped (s : Loop) : Prop :=
  pending s = [] /\ existsb (Nat.eqb sid) (subscribed s) = false.

Lemma advance_idle T s :
  pending s = [] ->
  pending (advance T s) = [] /\ signals (advance T s) = signals s
  /\ subscribed (advance T s) = subscribed s.
Proof.
  intros Hp. unfold advance. rewrite Hp. simpl. auto.
Qed.

Lemma stopped_deliver t uri s :
  stopped s ->
  stopped (deliver minimatch config workspaceRoot sid t uri s)
  /\ signals (deliver minimatch config workspaceRoot sid t uri s) = signals s.
Proof.
  intros [Hp Hs]. unfold deliver.
  destruct (advance_idle t s Hp) as (Hp1 & Hg1 & Hs1).
  rewrite Hs1, Hs. split; [split; congruence | exact Hg1].
Qed.

Lemma stopped_deliverAll evs : forall s,
  stopped s ->
  stopped (deliverAll minimatch config workspaceRoot sid evs s)
  /\ signals (deliverAll minimatch config workspaceRoot sid evs s) = signals s.
Proof.
  induction evs as [|[t uri] evs IH]; intros s H; [split; auto|].
  simpl. destruct (stopped_deliver t uri s H) as [H1 Hg1].
  destruct (IH _ H1) as [H2 Hg2]. split; [exact H2 | congruence].
Qed.

Lemma unsubscribed_after_filter (l : list nat) :
  existsb (Nat.eqb sid) (filter (fun x => negb (Nat.eqb x sid)) l) = false.
Proof.
  induction l as [|x l IH]; simpl; [reflexivity|].
  destruct (Nat.eqb x sid) eqn:E; simpl; [exact IH|].
  rewrite Nat.eqb_sym, E. exact IH.
Qed.

Lemma signals_cancelPendingTimers s :
  signals (cancelPendingTimers s) = signals s.
Proof.
  unfold cancelPendingTimers.
  destruct (treeDebounceTimer s); simpl;
    destruct (archDebounceTimer s); reflexivity.
Qed.
End StopFacts.

(** X5: cancellation is complete.  After [cancelPendingTimers] (used by the
    "generate now" command) no debounced regeneration is left to run, and
    after [stopWatching] of a watching session no regeneration runs either,
    whatever events are still addressed to that session: the signal log
    never grows. *)
Theorem X5_cancel_and_stop_leave_nothing_to_fire :
  forall (minimatch : string -> string -> bool) (config : AsciiAgentConfig)
         (workspaceRoot : string) (sid : nat) (s : Watcher.Loop)
         (evs : list (Z * string)) (T : Z),
    WatcherFacts.wf s ->
    Watcher.signals (Watcher.advance T (Watcher.cancelPendingTimers s))
      = Watcher.signals s
    /\ Watcher.signals
         (Watcher.advance T
            (Watcher.deliverAll minimatch config workspaceRoot sid evs
               (Watcher.stopWatching (Watcher.Watching sid) s)))
       = Watcher.signals s
    /\ Watcher.pending
         (Watcher.deliverAll minimatch config workspaceRoot sid evs
            (Watcher.stopWatching (Watcher.Watching sid) s)) = [].
Proof.
  intros mm cfg root sid s evs T W.
  pose proof (WatcherFacts.pending_cancelPendingTimers s W) as Hp.
  split.
  { destruct (advance_idle T _ Hp) as (_ & Hg & _).
    rewrite Hg. apply signals_cancelPendingTimers. }
  assert (Hst : stopped sid (Watcher.stopWatching (Watcher.Watching sid) s)).
  { split; [exact Hp|]. apply unsubscribed_after_filter. }
  destruct (stopped_deliverAll mm cfg root sid evs _ Hst) as [[Hp2 _] Hg2].
  destruct (advance_idle T _ Hp2) as (_ & Hg3 & _).
  split; [|exact Hp2].
  rewrite Hg3, Hg2. apply signals_cancelPendingTimers.
Qed.

Lemma X5_witness :
  Watcher.signals
    (Watcher.advance 1000
       (Watcher.cancelPendingTimers WatcherExamples.session0Armed)) = []
  /\ Watcher.signals
       (Watcher.advance 1000
          (Watcher.deliverAll WatcherExamples.noMatch
             WatcherExamples.config500 "/ws" 0%nat
             [(100, "/ws/src/app.ts"%string)]
             (Watcher.stopWatching (Watcher.Watching 0)
                WatcherExamples.session0Armed))) = []
  /\ Watcher.pending
       (Watcher.deliverAll WatcherExamples.noMatch
          WatcherExamples.config500 "/ws" 0%nat
          [(100, "/ws/src/app.ts"%string)]
          (Watcher.stopWatching (Watcher.Watching 0)
             WatcherExamples.session0Armed)) = [].
Proof.
  apply (X5_cancel_and_stop_leave_nothing_to_fire WatcherExamples.noMatch
           WatcherExamples.config500 "/ws" 0%nat
           WatcherExamples.session0Armed [(100, "/ws/src/app.ts"%string)]
           1000).
  apply WatcherFacts.wf_deliver.
  apply WatcherFacts.wf_startWatching, WatcherFacts.wf_startWatching,
    WatcherFacts.wf_init.
Defined.

(* ---------------------------------------------------------------------- *)
(** ** lm-client.ts: settled calls, retries, errors, cancellation *)

Module SettledFacts.
Import LmClient LmFacts.

(** The promise [sendPrompt] returned has resolved or rejected. *)
Definition settled (st : CallState) : bool :=
  match st with
  | Returned _ | Threw _ => true
  | _ => false
  end.

Lemma other_call s c k st :
  settled (calls s c) = true -> calls s k = st -> settled st = false ->
  k <> c.
Proof. intros H E Hst ->. rewrite E, Hst in H. discriminate. Qed.

Ltac other_call_tac :=
  match goal with
  | H : settled (calls ?s ?c) = true, E : calls ?s ?k = _ |- _ =>
      let Hne := fresh "Hne" in
      assert (Hne : c <> k)
        by (intros Hne; apply eq_sym in Hne; revert Hne;
            eapply other_call; [exact H | exact E | reflexivity]);
      repeat first [rewrite calls_settle | rewrite calls_beginRequest
                   | rewrite (proj1 (calls_handleError _ _ _ _))];
      cbn [calls setCall set_calls setTimeout set_nextTimer set_timers
           startSelection emit set_effects set_nextSelection set_selections
           set_cachedModel];
      rewrite ?upd_other by exact Hne; try reflexivity
  end.

Lemma calls_fire_awake tm t s c :
  calls s c <> Sleeping ->
  calls (fire tm (set_now t (clearTimeout (tid tm) s))) c = calls s c.
Proof.
  intros H. unfold fire. destruct (action tm) as [|k]; [reflexivity|].
  cbn [calls set_now clearTimeout set_timers].
  destruct (calls s k) eqn:E; try reflexivity.
  cbn. unfold upd. destruct (Nat.eqb c k) eqn:Ek; [|reflexivity].
  apply Nat.eqb_eq in Ek. subst. contradiction.
Qed.

(** Timer callbacks only ever move a sleeping call. *)
Lemma calls_fireDue_awake fuel T c : forall s,
  calls s c <> Sleeping -> calls (fireDue fuel T s) c = calls s c.
Proof.
  induction fuel as [|fuel IH]; intros s H; simpl; [reflexivity|].
  destruct (earliest (timers s)) as [tm|]; [|reflexivity].
  destruct (due tm <=? T); [|reflexivity].
  rewrite IH; rewrite calls_fire_awake; auto.
Qed.

Lemma calls_dispose s : calls (dispose s) = calls s.
Proof.
  unfold dispose, cancelAll. cbv zeta.
  destruct (cooldownTimer _); cbn; apply calls_cancelCurrent.
Qed.

Lemma step_settled ev s c :
  settled (calls s c) = true -> calls (step ev s) c = calls s c.
Proof.
  intros H. destruct ev as [k token | k models | | k | k text | k | k err
                           | k | | | t]; simpl.
  - unfold sendPrompt. destruct (calls s k) eqn:E; try reflexivity.
    destruct (quotaCooldown s); [other_call_tac|].
    destruct (cachedModel s); other_call_tac.
  - unfold selectionResolved. destruct (selections s k) as [|waiter|];
      try reflexivity.
    destruct waiter as [w|]; [|reflexivity]. cbv zeta.
    match goal with |- context [calls ?s1 w] =>
      change (calls s1 w) with (calls s w) end.
    destruct (calls s w) eqn:E; try reflexivity.
    destruct models as [[|m rest]|]; other_call_tac.
  - unfold modelsChanged. destruct (listening s); reflexivity.
  - unfold responseArrived. destruct (calls s k) eqn:E; try reflexivity.
    other_call_tac.
  - unfold chunkArrived. destruct (calls s k) eqn:E; try reflexivity.
    destruct (cancelled s k); other_call_tac.
  - unfold streamEnded. destruct (calls s k) eqn:E; try reflexivity.
    other_call_tac.
  - unfold requestFailed. destruct (calls s k) eqn:E; try reflexivity;
      destruct err as [message code | message];
      try destruct (Nat.eqb _ 0); other_call_tac.
  - unfold externalCancel. destruct (tokenListener s k); reflexivity.
  - unfold cancelAll. rewrite calls_cancelCurrent. reflexivity.
  - rewrite calls_dispose. reflexivity.
  - unfold advance. cbn. apply calls_fireDue_awake.
    intros E. rewrite E in H. discriminate.
Qed.

End SettledFacts.

(** X6: a settled call stays settled.  Once [sendPrompt] has returned a
    text or thrown, no later event (a new prompt, late chunks or failures
    of the same request, cancellation, disposal, timers) changes what the
    caller received. *)
Theorem X6_settled_outcome_is_final :
  forall (evs : list LmClient.Event) (s : LmClient.Client) (c : nat),
    SettledFacts.settled (LmClient.calls s c) = true ->
    LmClient.calls (LmClient.run evs s) c = LmClient.calls s c.
Proof.
  induction evs as [|ev evs IH]; intros s c H; [reflexivity|].
  unfold LmClient.run in *. simpl.
  rewrite IH; rewrite SettledFacts.step_settled; auto.
Qed.

(** Call 1 has returned "ab"; a new prompt, a late chunk, a late failure and
    disposal leave that as it is. *)
Lemma X6_witness :
  LmClient.calls
    (LmClient.run
       [LmClient.SendPrompt 2 false; LmClient.Chunk 1 "late";
        LmClient.RequestFailed 1 (LmClient.PlainError "net");
        LmClient.SendPrompt 1 false; LmClient.Dispose; LmClient.Advance 5000]
       (LmClient.step (LmClient.StreamEnd 1) LmExamples.streamingOne)) 1
  = LmClient.Returned "ab".
Proof.
  apply (X6_settled_outcome_is_final
           [LmClient.SendPrompt 2 false; LmClient.Chunk 1 "late";
            LmClient.RequestFailed 1 (LmClient.PlainError "net");
            LmClient.SendPrompt 1 false; LmClient.Dispose;
            LmClient.Advance 5000]
           (LmClient.step (LmClient.StreamEnd 1) LmExamples.streamingOne) 1).
  reflexivity.
Defined.

(** X7: a network error (a thrown value that is not a
    [LanguageModelError]) on the first attempt is retried exactly once,
    [RETRY_DELAY_MS] = 3000 ms later.  The call sleeps without sending
    anything until then; at that time the request is sent a second time;
    a plain error on the second attempt is thrown to the caller with no
    further timer. *)
Theorem X7_plain_error_is_retried_once_after_delay :
  forall (s : LmClient.Client) (c : nat) (message : string),
    RetryFacts.attemptOf (LmClient.calls s c) = Some 0%nat ->
    RetryFacts.noWake c s ->
    RetryFacts.freshHandles s ->
    let s1 := LmClient.step
                (LmClient.RequestFailed c (LmClient.PlainError message)) s in
    let wakeAt := LmClient.now s + LmClient.RETRY_DELAY_MS in
    (LmClient.calls s1 c = LmClient.Sleeping
     /\ LmClient.effects s1 = LmClient.effects s
     /\ LmClient.currentRequestCts s1 = LmClient.currentRequestCts s)
    /\ (forall T, T < wakeAt ->
          LmClient.calls (LmClient.step (LmClient.Advance T) s1) c
            = LmClient.Sleeping
          /\ RetryFacts.requestsOf c
               (LmClient.effects (LmClient.step (LmClient.Advance T) s1))
             = RetryFacts.requestsOf c (LmClient.effects s))
    /\ (forall T, wakeAt <= T ->
          LmClient.calls (LmClient.step (LmClient.Advance T) s1) c
            = LmClient.AwaitingResponse 1
          /\ RetryFacts.requestsOf c
               (LmClient.effects (LmClient.step (LmClient.Advance T) s1))
             = RetryFacts.requestsOf c (LmClient.effects s)
               ++ [LmClient.SendRequest c 1])
    /\ (forall s2 message2,
          RetryFacts.attemptOf (LmClient.calls s2 c) = Some 1%nat ->
          let s3 := LmClient.step
                      (LmClient.RequestFailed c (LmClient.PlainError message2))
                      s2 in
          LmClient.calls s3 c = LmClient.Threw (LmClient.PlainError message2)
          /\ LmClient.timers s3 = LmClient.timers s2
          /\ LmClient.effects s3
             = LmClient.effects s2 ++ [LmClient.DisposeCts c]).
Proof.
  intros s c message Ha Hno Hfresh s1 wakeAt.
  pose proof (RetryFacts.wakePending_after_failure c message s Ha Hno Hfresh)
    as HW.
  fold (LmClient.step (LmClient.RequestFailed c (LmClient.PlainError message)) s)
    in HW.
  fold s1 in HW.
  assert (He1 : LmClient.effects s1 = LmClient.effects s).
  { unfold s1. simpl. rewrite RetryFacts.requestFailed_first by exact Ha.
    reflexivity. }
  split; [|split; [|split]].
  - split; [apply HW|]. split; [exact He1|].
    unfold s1. simpl. rewrite RetryFacts.requestFailed_first by exact Ha.
    reflexivity.
  - intros T HT.
    destruct (RetryFacts.fireDue_before c _
                (List.length (LmClient.timers s1)) T s1 HW HT)
      as [(_ & _ & _ & Hc) Hr].
    change (LmClient.step (LmClient.Advance T) s1) with (LmClient.advance T s1).
    unfold LmClient.advance. cbv zeta.
    cbn [LmClient.calls LmClient.effects LmClient.set_now].
    split; [exact Hc | rewrite Hr, He1; reflexivity].
  - intros T HT.
    destruct (RetryFacts.fireDue_wakes c _ T
                (List.length (LmClient.timers s1)) s1 HW HT (le_n _))
      as [[_ Hc] Hr].
    change (LmClient.step (LmClient.Advance T) s1) with (LmClient.advance T s1).
    unfold LmClient.advance. cbv zeta.
    cbn [LmClient.calls LmClient.effects LmClient.set_now].
    split; [exact Hc | rewrite Hr, He1; reflexivity].
  - intros s2 message2 Ha2 s3. unfold s3. simpl.
    unfold LmClient.requestFailed, RetryFacts.attemptOf in *.
    destruct (LmClient.calls s2 c); try discriminate;
      injection Ha2 as ->; simpl Nat.eqb; cbv iota;
      (split; [rewrite LmFacts.calls_settle; apply LmFacts.upd_same|]);
      unfold LmClient.settle; cbv zeta; cbn;
      destruct (LmClient.currentRequestCts s2) as [k|];
      try destruct (Nat.eqb k c); split; reflexivity.
Qed.

(** Call 1 is streaming its first attempt at time 0: after a network error
    it sleeps until 3000 ms, then sends again. *)
Lemma X7_witness :
  LmClient.calls
    (LmClient.step (LmClient.Advance 2999)
       (LmClient.step (LmClient.RequestFailed 1 (LmClient.PlainError "net"))
          LmExamples.streamingOne)) 1 = LmClient.Sleeping
  /\ LmClient.calls
       (LmClient.step (LmClient.Advance 3000)
          (LmClient.step (LmClient.RequestFailed 1 (LmClient.PlainError "net"))
             LmExamples.streamingOne)) 1 = LmClient.AwaitingResponse 1.
Proof.
  destruct (X7_plain_error_is_retried_once_after_delay
              LmExamples.streamingOne 1 "net")
    as (_ & Hbefore & Hafter & _).
  - reflexivity.
  - intros tm Hin. simpl in Hin. contradiction.
  - intros tm Hin. simpl in Hin. contradiction.
  - split.
    + apply (Hbefore 2999). vm_compute. reflexivity.
    + apply (Hafter 3000). vm_compute. discriminate.
Defined.

Module ErrorFacts.
Import LmClient LmFacts.

(** What [handleLanguageModelError] does before it throws. *)
Definition noticeOf (message code : string) : list Effect :=
  if isQuotaError message code then []
  else if isConsentError message code then [ShowInformationMessage]
  else [].

Definition expiryOf (message code : string) (s : Client) : list Timer :=
  if isQuotaError message code
  then [{| tid := nextTimer s; due := now s + QUOTA_COOLDOWN_MS;
           action := ClearCooldown |}]
  else [].

Lemma effects_settle c outcome s :
  effects (settle c outcome s) = effects s ++ [DisposeCts c].
Proof.
  unfold settle. cbv zeta.
  cbn [currentRequestCts set_tokenListener].
  destruct (currentRequestCts s) as [k|]; [destruct (Nat.eqb k c)|];
    reflexivity.
Qed.

Lemma timers_settle c outcome s : timers (settle c outcome s) = timers s.
Proof.
  unfold settle. cbv zeta.
  cbn [currentRequestCts set_tokenListener].
  destruct (currentRequestCts s) as [k|]; [destruct (Nat.eqb k c)|];
    reflexivity.
Qed.

Lemma quotaCooldown_settle c outcome s :
  quotaCooldown (settle c outcome s) = quotaCooldown s.
Proof.
  unfold settle. cbv zeta.
  cbn [currentRequestCts set_tokenListener].
  destruct (currentRequestCts s) as [k|]; [destruct (Nat.eqb k c)|];
    reflexivity.
Qed.

Lemma slot_settle c outcome s :
  currentRequestCts (settle c outcome s)
  = match currentRequestCts s with
    | Some k => if Nat.eqb k c then None else Some k
    | None => None
    end.
Proof.
  unfold settle. cbv zeta.
  cbn [currentRequestCts set_tokenListener].
  destruct (currentRequestCts s) as [k|] eqn:E; [destruct (Nat.eqb k c)|];
    cbn; rewrite ?E; reflexivity.
Qed.

Lemma requestFailed_model_error c message code s :
  requestInFlight (calls s c) = true ->
  requestFailed c (LanguageModelError message code) s
  = settle c (Threw (LanguageModelError message code))
      (handleLanguageModelError message code
         (match calls s c with
          | AwaitingResponse a | Streaming a _ => a
          | _ => 0%nat
          end) s).
Proof.
  unfold requestFailed. destruct (calls s c); try discriminate; reflexivity.
Qed.

End ErrorFacts.

(** X8: a [LanguageModelError] is never retried, whatever the attempt and
    whatever its kind.  The call throws the error at once; nothing is sent
    again and no retry timer is set.  A quota error (tested first) sets
    the cooldown and its expiry timer and shows nothing; otherwise a
    consent error shows the authorisation message; any other model error
    does neither. *)
Theorem X8_model_errors_are_never_retried :
  forall (s : LmClient.Client) (c : nat) (message code : string),
    LmFacts.requestInFlight (LmClient.calls s c) = true ->
    let err := LmClient.LanguageModelError message code in
    let s1 := LmClient.step (LmClient.RequestFailed c err) s in
    LmClient.calls s1 c = LmClient.Threw err
    /\ LmClient.effects s1
       = LmClient.effects s ++ ErrorFacts.noticeOf message code
         ++ [LmClient.DisposeCts c]
    /\ LmClient.timers s1
       = LmClient.timers s ++ ErrorFacts.expiryOf message code s
    /\ LmClient.quotaCooldown s1
       = (LmClient.isQuotaError message code || LmClient.quotaCooldown s)%bool.
Proof.
  intros s c message code H err s1. unfold s1, err. simpl LmClient.step.
  rewrite ErrorFacts.requestFailed_model_error by exact H.
  rewrite LmFacts.calls_settle, ErrorFacts.effects_settle,
    ErrorFacts.timers_settle, ErrorFacts.quotaCooldown_settle.
  split; [apply LmFacts.upd_same|].
  unfold LmClient.handleLanguageModelError, ErrorFacts.noticeOf,
    ErrorFacts.expiryOf.
  destruct (LmClient.isQuotaError message code);
    [|destruct (LmClient.isConsentError message code)]; cbn;
    rewrite ?app_nil_r, <- ?app_assoc; auto.
Qed.

Lemma X8_witness :
  LmClient.calls
    (LmClient.step
       (LmClient.RequestFailed 1
          (LmClient.LanguageModelError "User has NOT AUTHORIZED this" "x"))
       LmExamples.streamingOne) 1
  = LmClient.Threw
      (LmClient.LanguageModelError "User has NOT AUTHORIZED this" "x")
  /\ LmClient.effects
       (LmClient.step
          (LmClient.RequestFailed 1
             (LmClient.LanguageModelError "User has NOT AUTHORIZED this" "x"))
          LmExamples.streamingOne)
     = [LmClient.SelectChatModels 0; LmClient.SendRequest 1 0;
        LmClient.ShowInformationMessage; LmClient.DisposeCts 1].
Proof.
  destruct (X8_model_errors_are_never_retried LmExamples.streamingOne 1
              "User has NOT AUTHORIZED this" "x")
    as (Hc & He & _).
  - reflexivity.
  - split; [exact Hc | exact He].
Defined.

Module CancelFacts.
Import LmClient LmFacts.

Lemma cancelCurrent_vacant s :
  currentRequestCts s = None -> cancelCurrent s = s.
Proof. unfold cancelCurrent. intros ->. reflexivity. Qed.

Lemma slot_cancelCurrent s : currentRequestCts (cancelCurrent s) = None.
Proof.
  unfold cancelCurrent. destruct (currentRequestCts s) eqn:E; [reflexivity|].
  exact E.
Qed.

Lemma live_dispose s c : live (dispose s) c -> live (cancelAll s) c.
Proof.
  unfold dispose, live. cbv zeta.
  destruct (cooldownTimer _); cbn; auto.
Qed.

End CancelFacts.

(** X9: [cancelAll] cancels and disposes the token source in the slot (in
    that order) and vacates the slot, so that no call is left running
    with an intact token; doing it twice is doing it once.  [dispose]
    does the same, removes the model-change listener (a later model
    change selects nothing) and clears the cooldown timer. *)
Theorem X9_cancelAll_and_dispose_stop_everything :
  forall (s : LmClient.Client),
    LmFacts.singleFlight s ->
    ((forall c, ~ LmFacts.live (LmClient.cancelAll s) c)
     /\ LmClient.currentRequestCts (LmClient.cancelAll s) = None
     /\ LmClient.effects (LmClient.cancelAll s)
        = LmClient.effects s
          ++ match LmClient.currentRequestCts s with
             | Some k => [LmClient.CancelCts k; LmClient.DisposeCts k]
             | None => []
             end
     /\ LmClient.cancelAll (LmClient.cancelAll s) = LmClient.cancelAll s)
    /\ ((forall c, ~ LmFacts.live (LmClient.dispose s) c)
        /\ LmClient.currentRequestCts (LmClient.dispose s) = None
        /\ LmClient.step LmClient.ModelsChanged (LmClient.dispose s)
           = LmClient.dispose s
        /\ (forall id tm,
              LmClient.cooldownTimer s = Some id ->
              In tm (LmClient.timers (LmClient.dispose s)) ->
              LmClient.tid tm <> id)).
Proof.
  intros s SF. split; [split; [|split; [|split]] | split; [|split; [|split]]].
  - intros c. apply LmFacts.no_live_after_cancelCurrent, SF.
  - apply CancelFacts.slot_cancelCurrent.
  - unfold LmClient.cancelAll, LmClient.cancelCurrent.
    destruct (LmClient.currentRequestCts s); cbn;
      rewrite <- ?app_assoc, ?app_nil_r; reflexivity.
  - unfold LmClient.cancelAll. apply CancelFacts.cancelCurrent_vacant.
    apply CancelFacts.slot_cancelCurrent.
  - intros c Hl. apply CancelFacts.live_dispose in Hl.
    revert Hl. apply LmFacts.no_live_after_cancelCurrent, SF.
  - unfold LmClient.dispose. cbv zeta.
    destruct (LmClient.cooldownTimer _); cbn;
      apply CancelFacts.slot_cancelCurrent.
  - simpl. unfold LmClient.modelsChanged, LmClient.dispose. cbv zeta.
    destruct (LmClient.cooldownTimer _); reflexivity.
  - intros id tm Hid. unfold LmClient.dispose, LmClient.cancelAll. cbv zeta.
    assert (E : LmClient.cooldownTimer
                  (LmClient.set_listening false (LmClient.cancelCurrent s))
                = Some id).
    { unfold LmClient.cancelCurrent.
      destruct (LmClient.currentRequestCts s); exact Hid. }
    rewrite E. cbn. intros Hin. apply filter_In in Hin as [_ Hne].
    apply negb_true_iff, Nat.eqb_neq in Hne. exact Hne.
Qed.

Lemma X9_witness :
  LmClient.effects (LmClient.cancelAll LmExamples.streamingOne)
  = [LmClient.SelectChatModels 0; LmClient.SendRequest 1 0;
     LmClient.CancelCts 1; LmClient.DisposeCts 1]
  /\ LmClient.step LmClient.ModelsChanged
       (LmClient.dispose LmExamples.streamingOne)
     = LmClient.dispose LmExamples.streamingOne.
Proof.
  destruct (X9_cancelAll_and_dispose_stop_everything LmExamples.streamingOne)
    as ((_ & _ & He & _) & (_ & _ & Hm & _)).
  - apply LmFacts.singleFlight_run, LmFacts.singleFlight_create.
  - split; [exact He | exact Hm].
Defined.

(** X10: the [finally] block of a superseded call does not touch the slot
    of its successor.  While the slot names call [b], nothing the service
    delivers for another call [a] (response, chunk, end of stream or
    failure) vacates the slot, cancels the token of [b] or moves [b]. *)
Theorem X10_superseded_call_leaves_slot_alone :
  forall (ev : LmClient.Event) (s : LmClient.Client) (a b : nat),
    LmClient.currentRequestCts s = Some b ->
    a <> b ->
    LmFacts.aboutCall a ev = true ->
    LmClient.currentRequestCts (LmClient.step ev s) = Some b
    /\ LmClient.cancelled (LmClient.step ev s) b = LmClient.cancelled s b
    /\ LmClient.calls (LmClient.step ev s) b = LmClient.calls s b.
Proof.
  intros ev s a b Hslot Hne Hev.
  assert (Hba : Nat.eqb b a = false) by (apply Nat.eqb_neq; congruence).
  assert (Hset : forall outcome s0,
             LmClient.currentRequestCts s0 = Some b ->
             LmClient.currentRequestCts (LmClient.settle a outcome s0) = Some b
             /\ LmClient.cancelled (LmClient.settle a outcome s0) b
                = LmClient.cancelled s0 b
             /\ LmClient.calls (LmClient.settle a outcome s0) b
                = LmClient.calls s0 b).
  { intros outcome s0 H0.
    rewrite ErrorFacts.slot_settle, H0, Hba, LmFacts.cancelled_settle,
      LmFacts.calls_settle, LmFacts.upd_other by congruence. auto. }
  destruct ev as [k token | k models | | k | k text | k | k err
                 | k | | | t]; simpl in Hev; try discriminate;
    apply Nat.eqb_eq in Hev; subst k; simpl.
  - unfold LmClient.responseArrived. destruct (LmClient.calls s a); auto.
    cbn. rewrite LmFacts.upd_other by congruence. auto.
  - unfold LmClient.chunkArrived. destruct (LmClient.calls s a); auto.
    destruct (LmClient.cancelled s a); [apply Hset, Hslot|].
    cbn. rewrite LmFacts.upd_other by congruence. auto.
  - unfold LmClient.streamEnded. destruct (LmClient.calls s a); auto.
  - assert (Hh : forall message code attempt,
               LmClient.currentRequestCts
                 (LmClient.handleLanguageModelError message code attempt s)
               = Some b).
    { intros. unfold LmClient.handleLanguageModelError.
      destruct (LmClient.isQuotaError _ _);
        [|destruct (LmClient.isConsentError _ _)]; exact Hslot. }
    unfold LmClient.requestFailed.
    destruct (LmClient.calls s a); auto; destruct err as [message code|message];
      try (destruct (Hset (LmClient.Threw
                             (LmClient.LanguageModelError message code))
                      _ (Hh message code attempt)) as (H1 & H2 & H3);
           rewrite H1, H2, H3;
           destruct (LmFacts.calls_handleError message code attempt s)
             as [-> ->]; auto);
      destruct (Nat.eqb attempt 0); try (apply Hset, Hslot);
      cbn; rewrite LmFacts.upd_other by congruence; auto.
Qed.

Lemma X10_witness :
  LmClient.currentRequestCts
    (LmClient.step (LmClient.StreamEnd 1)
       (LmClient.step (LmClient.SendPrompt 2 false) LmExamples.streamingOne))
  = Some 2%nat.
Proof.
  apply (X10_superseded_call_leaves_slot_alone (LmClient.StreamEnd 1)
           (LmClient.step (LmClient.SendPrompt 2 false) LmExamples.streamingOne)
           1 2).
  - reflexivity.
  - discriminate.
  - reflexivity.
Defined.

(** X11: without a cached model [sendPrompt] selects one first and sends
    nothing yet.  When the selection yields no model (an empty list, or
    [selectChatModels] rejects) the call throws "No Copilot LM model
    available", nothing is sent, and a request already in flight is left
    alone; when it yields models, the first is cached and the request is
    sent with this call in the slot. *)
Theorem X11_prompt_without_model_selects_first :
  forall (s : LmClient.Client) (c : nat) (token : bool),
    LmClient.calls s c = LmClient.NotCalled ->
    LmClient.quotaCooldown s = false ->
    LmClient.cachedModel s = None ->
    let k := LmClient.nextSelection s in
    let s1 := LmClient.step (LmClient.SendPrompt c token) s in
    (LmClient.calls s1 c = LmClient.AwaitingSelection k token
     /\ LmClient.effects s1
        = LmClient.effects s ++ [LmClient.SelectChatModels k]
     /\ LmClient.currentRequestCts s1 = LmClient.currentRequestCts s)
    /\ (forall models,
          models = None \/ models = Some [] ->
          let s2 := LmClient.step (LmClient.SelectionResolved k models) s1 in
          LmClient.calls s2 c
            = LmClient.Threw (LmClient.PlainError LmClient.noModelMessage)
          /\ LmClient.effects s2 = LmClient.effects s1
          /\ LmClient.currentRequestCts s2 = LmClient.currentRequestCts s
          /\ LmClient.cancelled s2 = LmClient.cancelled s
          /\ LmClient.cachedModel s2 = None)
    /\ (forall m rest,
          let s2 := LmClient.step
                      (LmClient.SelectionResolved k (Some (m :: rest))) s1 in
          LmClient.calls s2 c = LmClient.AwaitingResponse 0
          /\ LmClient.cachedModel s2 = Some m
          /\ LmClient.currentRequestCts s2 = Some c
          /\ LmClient.cancelled s2 c = false
          /\ exists before,
               LmClient.effects s2 = before ++ [LmClient.SendRequest c 0]).
Proof.
  intros s c token Hc Hq Hm k s1.
  assert (E1 : s1 = LmClient.setCall c (LmClient.AwaitingSelection k token)
                      (LmClient.startSelection (Some c) s)).
  { unfold s1. simpl. unfold LmClient.sendPrompt. rewrite Hc, Hq, Hm.
    reflexivity. }
  clearbody s1.
  assert (Hsel : LmClient.selections s1 k
                 = LmClient.SelectionPending (Some c)).
  { rewrite E1. cbn. apply LmFacts.upd_same. }
  assert (Hcall : LmClient.calls s1 c = LmClient.AwaitingSelection k token).
  { rewrite E1. cbn. apply LmFacts.upd_same. }
  split; [|split].
  - split; [exact Hcall|]. rewrite E1. split; reflexivity.
  - intros models Hmodels s2.
    assert (E2 : s2 = LmClient.setCall c
                        (LmClient.Threw
                           (LmClient.PlainError LmClient.noModelMessage))
                        (LmClient.set_cachedModel None
                           (LmClient.set_selections
                              (LmClient.upd (LmClient.selections s1) k
                                 LmClient.SelectionDone) s1))).
    { unfold s2. simpl. unfold LmClient.selectionResolved. rewrite Hsel.
      cbv zeta. cbn [LmClient.calls LmClient.set_cachedModel
                     LmClient.set_selections].
      rewrite Hcall. destruct Hmodels as [-> | ->]; reflexivity. }
    clearbody s2. subst s2. cbn. rewrite LmFacts.upd_same, E1. auto.
  - intros m rest s2.
    assert (E2 : s2 = LmClient.beginRequest c token
                        (LmClient.set_cachedModel (Some m)
                           (LmClient.set_selections
                              (LmClient.upd (LmClient.selections s1) k
                                 LmClient.SelectionDone) s1))).
    { unfold s2. simpl. unfold LmClient.selectionResolved. rewrite Hsel.
      cbv zeta. cbn [LmClient.calls LmClient.set_cachedModel
                     LmClient.set_selections].
      rewrite Hcall. reflexivity. }
    clearbody s2. subst s2.
    rewrite LmFacts.calls_beginRequest, LmFacts.cancelled_beginRequest,
      !LmFacts.upd_same.
    unfold LmClient.beginRequest, LmClient.cancelCurrent. cbv zeta.
    destruct (LmClient.currentRequestCts _); cbn;
      repeat split; eexists; reflexivity.
Qed.

(** A fresh client whose eager selection has not answered: the prompt
    starts a selection of its own; an empty answer makes it throw. *)
Lemma X11_witness :
  LmClient.calls
    (LmClient.step (LmClient.SelectionResolved 1 (Some []))
       (LmClient.step (LmClient.SendPrompt 7 false)
          (LmClient.createLmClient 0))) 7
  = LmClient.Threw (LmClient.PlainError LmClient.noModelMessage)
  /\ LmClient.effects
       (LmClient.step (LmClient.SelectionResolved 1 (Some []))
          (LmClient.step (LmClient.SendPrompt 7 false)
             (LmClient.createLmClient 0)))
     = [LmClient.SelectChatModels 0; LmClient.SelectChatModels 1].
Proof.
  destruct (X11_prompt_without_model_selects_first
              (LmClient.createLmClient 0) 7 false)
    as (_ & Hnone & _).
  - reflexivity.
  - reflexivity.
  - reflexivity.
  - destruct (Hnone (Some [])) as (Hc & He & _); [right; reflexivity|].
    split; [exact Hc | exact He].
Defined.

(** X12: [isAvailable] tells what [sendPrompt] will do next.  When it
    answers [true] a new prompt sends its request at once, after
    cancelling and disposing the request in the slot, and takes the slot.
    When it answers [false] a new prompt sends nothing and leaves the
    request in the slot alone: during a cooldown it throws, without a
    cached model it starts a selection. *)
Theorem X12_isAvailable_predicts_sendPrompt :
  forall (s : LmClient.Client) (c : nat) (token : bool),
    LmClient.calls s c = LmClient.NotCalled ->
    let s1 := LmClient.step (LmClient.SendPrompt c token) s in
    (LmClient.isAvailable s = true ->
       LmClient.calls s1 c = LmClient.AwaitingResponse 0
       /\ LmClient.currentRequestCts s1 = Some c
       /\ LmClient.effects s1
          = LmClient.effects s
            ++ match LmClient.currentRequestCts s with
               | Some k => [LmClient.CancelCts k; LmClient.DisposeCts k]
               | None => []
               end
            ++ [LmClient.SendRequest c 0])
    /\ (LmClient.isAvailable s = false ->
          LmClient.currentRequestCts s1 = LmClient.currentRequestCts s
          /\ LmClient.cancelled s1 = LmClient.cancelled s
          /\ LmClient.effects s1
             = LmClient.effects s
               ++ (if LmClient.quotaCooldown s then []
                   else [LmClient.SelectChatModels (LmClient.nextSelection s)])
          /\ LmClient.calls s1 c
             = (if LmClient.quotaCooldown s
                then LmClient.Threw
                       (LmClient.PlainError LmClient.cooldownMessage)
                else LmClient.AwaitingSelection (LmClient.nextSelection s)
                       token)).
Proof.
  intros s c token Hc s1. unfold s1, LmClient.isAvailable. simpl.
  unfold LmClient.sendPrompt. rewrite Hc.
  destruct (LmClient.cachedModel s) as [m|];
    destruct (LmClient.quotaCooldown s); simpl negb; split; intros H;
    try discriminate.
  - cbn. rewrite LmFacts.upd_same, app_nil_r. auto.
  - rewrite LmFacts.calls_beginRequest, LmFacts.upd_same.
    unfold LmClient.beginRequest, LmClient.cancelCurrent. cbv zeta.
    destruct (LmClient.currentRequestCts s); cbn;
      rewrite <- ?app_assoc; auto.
  - cbn. rewrite LmFacts.upd_same, app_nil_r. auto.
  - cbn. rewrite LmFacts.upd_same. auto.
Qed.

Lemma X12_witness :
  LmClient.effects
    (LmClient.step (LmClient.SendPrompt 2 false) LmExamples.streamingOne)
  = [LmClient.SelectChatModels 0; LmClient.SendRequest 1 0;
     LmClient.CancelCts 1; LmClient.DisposeCts 1; LmClient.SendRequest 2 0].
Proof.
  destruct (X12_isAvailable_predicts_sendPrompt LmExamples.streamingOne 2
              false) as [Hyes _].
  - reflexivity.
  - destruct Hyes as (_ & _ & He); [reflexivity | exact He].
Defined.

(* ---------------------------------------------------------------------- *)
(** ** utils.ts and extension.ts: paths *)

Module PathFacts.
Import Utils.

Lemma normalizeSeparators_clean s :
  SaveFacts.hasChar "\"%char (normalizeSeparators s) = false.
Proof.
  induction s as [|c s IH]; simpl; [reflexivity|].
  rewrite IH, orb_false_r.
  destruct (Ascii.eqb c "\"%char) eqn:E; [reflexivity | exact E].
Qed.

Lemma normalizeSeparators_fixed s :
  SaveFacts.hasChar "\"%char s = false -> normalizeSeparators s = s.
Proof.
  induction s as [|c s IH]; simpl; [reflexivity|].
  intros H. apply orb_false_iff in H as [Hc Hs].
  rewrite Hc, IH by exact Hs. reflexivity.
Qed.

Lemma normalizeSeparators_append a b :
  normalizeSeparators (a ++ b) = (normalizeSeparators a ++ normalizeSeparators b)%string.
Proof.
  induction a as [|c a IH]; simpl; [reflexivity | rewrite IH; reflexivity].
Qed.

Lemma stripTrailingSlash_clean ch s :
  SaveFacts.hasChar ch s = false ->
  SaveFacts.hasChar ch (stripTrailingSlash s) = false.
Proof.
  induction s as [|c s IH]; [reflexivity|].
  intros H. simpl in H. apply orb_false_iff in H as [Hc Hs].
  destruct s as [|c2 s2].
  - simpl. destruct (Ascii.eqb c "/"%char); simpl; [reflexivity|].
    rewrite Hc. reflexivity.
  - change (stripTrailingSlash (String c (String c2 s2)))
      with (String c (stripTrailingSlash (String c2 s2))).
    cbn [SaveFacts.hasChar]. rewrite Hc, IH by exact Hs. reflexivity.
Qed.

Lemma prefix_appended a b : String.prefix a (a ++ b) = true.
Proof.
  induction a as [|c a IH]; simpl; [destruct b; reflexivity|].
  destruct (ascii_dec c c) as [_ | Hne]; [exact IH | congruence].
Qed.

Lemma sliceFrom_appended a b : sliceFrom (String.length a) (a ++ b) = b.
Proof.
  unfold sliceFrom. rewrite SaveFacts.length_of_append.
  replace (String.length a + String.length b - String.length a)%nat
    with (String.length b) by lia.
  apply SaveFacts.substring_after_prefix.
Qed.


(** [s.split("/")] and [join("/")] *)

Lemma split_nonempty sep s : Js.split sep s <> [].
Proof.
  destruct s as [|c s]; simpl; [discriminate|].
  destruct (Ascii.eqb c sep); [discriminate|].
  destruct (Js.split sep s); discriminate.
Qed.

Lemma join_cons_piece c piece rest :
  Js.join "/" (String c piece :: rest) = String c (Js.join "/" (piece :: rest)).
Proof. destruct rest; reflexivity. Qed.

Lemma join_split s : Js.join "/" (Js.split "/"%char s) = s.
Proof.
  induction s as [|c s IH]; [reflexivity|]. simpl.
  destruct (Ascii.eqb c "/"%char) eqn:E.
  - apply Ascii.eqb_eq in E. subst c.
    destruct (Js.split "/"%char s) as [|p ps] eqn:Es;
      [exfalso; exact (split_nonempty _ _ Es)|].
    change (Js.join "/" (EmptyString :: p :: ps))
      with (String "/"%char (Js.join "/" (p :: ps))).
    rewrite IH. reflexivity.
  - destruct (Js.split "/"%char s) as [|p ps] eqn:Es;
      [exfalso; exact (split_nonempty _ _ Es)|].
    rewrite join_cons_piece, IH. reflexivity.
Qed.

Lemma split_pieces_clean s :
  Forall (fun piece => SaveFacts.hasChar "/"%char piece = false)
         (Js.split "/"%char s).
Proof.
  induction s as [|c s IH]; simpl; [repeat constructor|].
  destruct (Ascii.eqb c "/"%char) eqn:E; [constructor; [reflexivity | exact IH]|].
  destruct (Js.split "/"%char s) as [|p ps]; [repeat constructor; simpl|].
  - rewrite E. reflexivity.
  - inversion IH as [|? ? Hp Hps]; subst. constructor; [|exact Hps].
    simpl. rewrite E, Hp. reflexivity.
Qed.

Lemma split_one_piece s :
  SaveFacts.hasChar "/"%char s = false -> Js.split "/"%char s = [s].
Proof.
  induction s as [|c s IH]; simpl; [reflexivity|].
  intros H. apply orb_false_iff in H as [Hc Hs].
  rewrite Hc, IH by exact Hs. reflexivity.
Qed.

Lemma split_several s :
  SaveFacts.hasChar "/"%char s = true ->
  (2 <= List.length (Js.split "/"%char s))%nat.
Proof.
  induction s as [|c s IH]; simpl; [discriminate|].
  destruct (Ascii.eqb c "/"%char); simpl.
  - intros _. pose proof (split_nonempty "/"%char s).
    destruct (Js.split "/"%char s); [congruence | simpl; lia].
  - intros H. specialize (IH H).
    destruct (Js.split "/"%char s); simpl in *; lia.
Qed.

Lemma lastSegmentFrom_split s : forall acc,
  lastSegmentFrom acc s
  = match Js.split "/"%char s with
    | [piece] => (acc ++ piece)%string
    | pieces => last pieces EmptyString
    end.
Proof.
  induction s as [|c s IH]; intros acc; simpl.
  - clear. induction acc as [|x acc IH]; simpl; congruence.
  - destruct (Ascii.eqb c "/"%char).
    + rewrite IH. pose proof (split_nonempty "/"%char s).
      destruct (Js.split "/"%char s) as [|p [|q ps]]; [congruence | |];
        reflexivity.
    + rewrite IH. pose proof (split_nonempty "/"%char s).
      destruct (Js.split "/"%char s) as [|p [|q ps]]; [congruence | |].
      * rewrite <- SaveFacts.append_assoc_string. reflexivity.
      * reflexivity.
Qed.

Lemma join_removelast_last pieces :
  (2 <= List.length pieces)%nat ->
  Js.join "/" pieces
  = (Js.join "/" (removelast pieces) ++ "/" ++ last pieces EmptyString)%string.
Proof.
  induction pieces as [|p rest IH]; simpl List.length; [lia|].
  destruct rest as [|q rest2]; [simpl; lia|]. intros _.
  destruct rest2 as [|r rest3]; [reflexivity|].
  change (Js.join "/" (p :: q :: r :: rest3))
    with (p ++ "/" ++ Js.join "/" (q :: r :: rest3))%string.
  rewrite IH by (simpl; lia).
  change (removelast (p :: q :: r :: rest3))
    with (p :: removelast (q :: r :: rest3)).
  change (last (p :: q :: r :: rest3) EmptyString)
    with (last (q :: r :: rest3) EmptyString).
  destruct (removelast (q :: r :: rest3)) as [|x xs] eqn:E;
    [discriminate E|].
  change (Js.join "/" (p :: x :: xs))
    with (p ++ "/" ++ Js.join "/" (x :: xs))%string.
  rewrite <- !SaveFacts.append_assoc_string. reflexivity.
Qed.

(** A file under the root: what is left after the root and one slash. *)
Lemma relative_under_root root rel :
  workspaceRelativePath
    (stripTrailingSlash (normalizeSeparators root) ++ "/" ++ rel) root
  = normalizeSeparators rel.
Proof.
  set (rootPath := stripTrailingSlash (normalizeSeparators root)).
  assert (Hclean : SaveFacts.hasChar "\"%char rootPath = false)
    by apply stripTrailingSlash_clean, normalizeSeparators_clean.
  unfold workspaceRelativePath. fold rootPath.
  rewrite !normalizeSeparators_append.
  rewrite (normalizeSeparators_fixed rootPath Hclean).
  change (normalizeSeparators "/") with "/"%string.
  rewrite SaveFacts.append_assoc_string. unfold startsWith.
  rewrite prefix_appended.
  replace (String.length rootPath + 1)%nat
    with (String.length (rootPath ++ "/")%string)
    by (rewrite SaveFacts.length_of_append; reflexivity).
  apply sliceFrom_appended.
Qed.

End PathFacts.


(** X14: [writeOutputFile] always ends by writing the file itself, once.
    For a path without a slash it creates no directory.  For a path with a
    slash the directory [parentRel] and the last segment recompose the
    path, so the directory ensured is the one that holds the file; it is
    created first unless [parentRel] is empty (a path like [/x]).  The
    last segment is what the watcher tests against the ignore patterns. *)
Theorem X14_writeOutputFile_ensures_the_parent :
  forall (workspaceRoot relPath content : string),
    last (Extension.writeOutputFile workspaceRoot relPath content)
         (Extension.WriteFile workspaceRoot relPath content)
      = Extension.WriteFile workspaceRoot relPath content
    /\ Js.join "/" (Js.split "/"%char relPath) = relPath
    /\ Utils.lastSegment relPath = last (Js.split "/"%char relPath) EmptyString
    /\ (SaveFacts.hasChar "/"%char relPath = false ->
        Extension.writeOutputFile workspaceRoot relPath content
          = [Extension.WriteFile workspaceRoot relPath content])
    /\ (SaveFacts.hasChar "/"%char relPath = true ->
        relPath = (Extension.parentRel relPath ++ "/"
                   ++ Utils.lastSegment relPath)%string
        /\ (Extension.parentRel relPath <> EmptyString ->
            Extension.writeOutputFile workspaceRoot relPath content
              = [Extension.CreateDirectory workspaceRoot
                   (Extension.parentRel relPath);
                 Extension.WriteFile workspaceRoot relPath content])).
Proof.
  intros root relPath content.
  assert (Hlast : Utils.lastSegment relPath
                  = last (Js.split "/"%char relPath) EmptyString).
  { unfold Utils.lastSegment. rewrite PathFacts.lastSegmentFrom_split.
    destruct (Js.split "/"%char relPath) as [|p [|q ps]]; reflexivity. }
  split; [|split; [|split; [|split]]].
  - unfold Extension.writeOutputFile. cbv zeta.
    destruct (String.eqb _ _); reflexivity.
  - apply PathFacts.join_split.
  - exact Hlast.
  - intros H. unfold Extension.writeOutputFile, Extension.parentRel.
    rewrite (PathFacts.split_one_piece relPath H). reflexivity.
  - intros H. split.
    + rewrite Hlast. unfold Extension.parentRel.
      rewrite <- PathFacts.join_removelast_last
        by (apply PathFacts.split_several, H).
      symmetry. apply PathFacts.join_split.
    + intros Hne. unfold Extension.writeOutputFile. cbv zeta.
      apply String.eqb_neq in Hne. rewrite Hne. reflexivity.
Qed.

Lemma X14_witness :
  Extension.writeOutputFile "/ws" "docs/out/file_tree.txt" "tree"
  = [Extension.CreateDirectory "/ws" "docs/out";
     Extension.WriteFile "/ws" "docs/out/file_tree.txt" "tree"]
  /\ "docs/out/file_tree.txt"%string
     = (Extension.parentRel "docs/out/file_tree.txt" ++ "/"
        ++ Utils.lastSegment "docs/out/file_tree.txt")%string.
Proof.
  destruct (X14_writeOutputFile_ensures_the_parent "/ws"
              "docs/out/file_tree.txt" "tree")
    as (_ & _ & _ & _ & Hslash).
  destruct Hslash as [Hre Hcalls]; [reflexivity|].
  split; [apply Hcalls; discriminate | exact Hre].
Defined.


(** Saving into a directory that holds a note and an older snapshot. *)
Lemma X2_witness :
  exists entries saved,
    History.saveSnapshot (Some HistoryExamples.mixedDir)
      "2026-01-02T03:04:05.000Z" 77 "diagram" = Some entries
    /\ In saved entries
    /\ History.ename saved = "architecture_2026-01-02T03-04-05.000Z.txt"%string
    /\ History.econtent saved = "diagram"%string
    /\ (forall x, In x HistoryExamples.mixedDir ->
                  History.ename x <> History.ename saved -> In x entries).
Proof.
  destruct (X2_saveSnapshot_writes_one_snapshot_file
              (Some HistoryExamples.mixedDir) "2026-01-02T03:04:05.000Z" 77
              "diagram")
    as (entries & saved & He & Hin & Hn & Hc & _ & _ & Hkeep & _).
  exists entries, saved. repeat split; assumption.
Defined.

(* ---------------------------------------------------------------------- *)
(** ** token-tracker.ts *)

Module TrackerFacts.
Import TokenTracker.

(** A sequence of completed requests, each with its two estimates. *)
Definition recordAll (requests : list (Z * Z)) (m : Memento) : Memento :=
  fold_left (fun st r => recordTokenUsage (fst r) (snd r) st) requests m.

Definition sumOf (l : list Z) : Z := fold_right Z.add 0 l.

Definition plus (a b : TokenUsageTotals) : TokenUsageTotals :=
  {| inputTokensEstimate := inputTokensEstimate a + inputTokensEstimate b;
     outputTokensEstimate := outputTokensEstimate a + outputTokensEstimate b;
     requestCount := requestCount a + requestCount b |}.

Definition usageOf (requests : list (Z * Z)) : TokenUsageTotals :=
  {| inputTokensEstimate := sumOf (map fst requests);
     outputTokensEstimate := sumOf (map snd requests);
     requestCount := Z.of_nat (List.length requests) |}.

Lemma totals_eq (a b : TokenUsageTotals) :
  inputTokensEstimate a = inputTokensEstimate b ->
  outputTokensEstimate a = outputTokensEstimate b ->
  requestCount a = requestCount b -> a = b.
Proof. destruct a, b; simpl; intros; subst; reflexivity. Qed.

Lemma record_once input output m :
  getSessionTokenUsage (recordTokenUsage input output m)
    = plus (getSessionTokenUsage m) (usageOf [(input, output)])
  /\ getLifetimeTokenUsage (recordTokenUsage input output m)
     = plus (getLifetimeTokenUsage m) (usageOf [(input, output)])
  /\ (forall k, k <> SESSION_KEY -> k <> LIFETIME_KEY ->
                recordTokenUsage input output m k = m k).
Proof.
  unfold recordTokenUsage, getSessionTokenUsage, getLifetimeTokenUsage,
    update, plus, usageOf, sumOf. cbv zeta. simpl.
  repeat split.
  - apply totals_eq; simpl; lia.
  - apply totals_eq; simpl; lia.
  - intros k Hs Hl. apply String.eqb_neq in Hs, Hl. rewrite Hl, Hs.
    reflexivity.
Qed.

Lemma plus_usage t requests input output :
  plus (plus t (usageOf [(input, output)])) (usageOf requests)
  = plus t (usageOf ((input, output) :: requests)).
Proof.
  apply totals_eq; unfold plus, usageOf, sumOf; simpl fold_right;
    cbn [inputTokensEstimate outputTokensEstimate requestCount map fst snd
         List.length]; lia.
Qed.

Lemma recordAll_totals requests : forall m,
  getSessionTokenUsage (recordAll requests m)
    = plus (getSessionTokenUsage m) (usageOf requests)
  /\ getLifetimeTokenUsage (recordAll requests m)
     = plus (getLifetimeTokenUsage m) (usageOf requests)
  /\ (forall k, k <> SESSION_KEY -> k <> LIFETIME_KEY ->
                recordAll requests m k = m k).
Proof.
  induction requests as [|[input output] rest IH]; intros m.
  - repeat split; apply totals_eq; unfold plus, usageOf, sumOf; simpl; lia.
  - destruct (record_once input output m) as (Hs & Hl & Hk).
    destruct (IH (recordTokenUsage input output m)) as (Hs2 & Hl2 & Hk2).
    unfold recordAll in *. simpl fold_left.
    rewrite Hs2, Hl2, Hs, Hl, !plus_usage.
    repeat split. intros k H1 H2. rewrite Hk2, Hk; auto.
Qed.

End TrackerFacts.

(** X15: token accounting.  After [resetSessionTokens] at activation and
    any sequence of recorded requests, the session tally is exactly the
    sums of the recorded input and output estimates and the number of
    requests; the lifetime tally is what it was at activation plus that
    same session tally; [resetSessionTokens] leaves the lifetime tally
    alone; no other key of [globalState] is touched. *)
Theorem X15_session_and_lifetime_tallies_agree :
  forall (m : TokenTracker.Memento) (requests : list (Z * Z)),
    let m' := TrackerFacts.recordAll requests
                (TokenTracker.resetSessionTokens m) in
    TokenTracker.getSessionTokenUsage m' = TrackerFacts.usageOf requests
    /\ TokenTracker.getLifetimeTokenUsage m'
       = TrackerFacts.plus (TokenTracker.getLifetimeTokenUsage m)
           (TokenTracker.getSessionTokenUsage m')
    /\ TokenTracker.getLifetimeTokenUsage (TokenTracker.resetSessionTokens m)
       = TokenTracker.getLifetimeTokenUsage m
    /\ (forall k, k <> TokenTracker.SESSION_KEY ->
                  k <> TokenTracker.LIFETIME_KEY -> m' k = m k).
Proof.
  intros m requests m'.
  destruct (TrackerFacts.recordAll_totals requests
              (TokenTracker.resetSessionTokens m)) as (Hs & Hl & Hk).
  fold m' in Hs, Hl, Hk.
  assert (Hs' : TokenTracker.getSessionTokenUsage m'
                = TrackerFacts.usageOf requests).
  { rewrite Hs. apply TrackerFacts.totals_eq; reflexivity. }
  split; [exact Hs'|]. split; [rewrite Hl, Hs'; reflexivity|].
  split; [reflexivity|].
  intros k H1 H2. rewrite Hk by assumption.
  unfold TokenTracker.resetSessionTokens, TokenTracker.update.
  apply String.eqb_neq in H1. rewrite H1. reflexivity.
Qed.

(* ---------------------------------------------------------------------- *)
(** ** config.ts *)

Module ConfigFacts.
Import Config.

(** The two numeric constraints of the configuration. *)
Definition valid (cfg : FullConfig) : Prop :=
  500 <= debounceMs (core cfg) /\ 1 <= maxHistorySnapshots (core cfg).

Lemma validateConfig_values cfg :
  debounceMs (core (fst (validateConfig cfg)))
    = Z.max 500 (debounceMs (core cfg))
  /\ maxHistorySnapshots (core (fst (validateConfig cfg)))
     = Z.max 1 (maxHistorySnapshots (core cfg)).
Proof.
  unfold validateConfig.
  destruct (debounceMs (core cfg) <? 500) eqn:Ed;
    [apply Z.ltb_lt in Ed | apply Z.ltb_ge in Ed];
    cbn [core setDebounceMs maxHistorySnapshots];
    destruct (maxHistorySnapshots (core cfg) <? 1) eqn:Em;
    [apply Z.ltb_lt in Em | apply Z.ltb_ge in Em
     | apply Z.ltb_lt in Em | apply Z.ltb_ge in Em];
    simpl; lia.
Qed.

Lemma validateConfig_valid cfg :
  valid cfg -> validateConfig cfg = (cfg, []).
Proof.
  intros [Hd Hm]. unfold validateConfig.
  apply Z.ltb_ge in Hd, Hm. rewrite Hd, Hm. reflexivity.
Qed.

Lemma validateConfig_rest cfg :
  let cfg' := fst (validateConfig cfg) in
  ignore (core cfg') = ignore (core cfg)
  /\ architectureWatchPatterns (core cfg')
     = architectureWatchPatterns (core cfg)
  /\ outputPaths_fileTree (core cfg') = outputPaths_fileTree (core cfg)
  /\ outputPaths_architecture (core cfg')
     = outputPaths_architecture (core cfg)
  /\ contextFiles (core cfg') = contextFiles (core cfg)
  /\ filePriority (core cfg') = filePriority (core cfg)
  /\ autoWatchEnabled cfg' = autoWatchEnabled cfg
  /\ tags cfg' = tags cfg.
Proof.
  unfold validateConfig.
  destruct (debounceMs (core cfg) <? 500);
    cbn [core setDebounceMs maxHistorySnapshots];
    destruct (maxHistorySnapshots (core cfg) <? 1); simpl; repeat split.
Qed.

End ConfigFacts.

(** X16: [validateConfig] raises [debounceMs] to at least 500 and
    [maxHistorySnapshots] to at least 1 and changes nothing else; it warns
    once for each value it had to raise, so a config that already meets
    both constraints comes back unchanged and silently; validating twice
    is validating once. *)
Theorem X16_validateConfig_enforces_minimums :
  forall (cfg : Config.FullConfig),
    let cfg' := fst (Config.validateConfig cfg) in
    let warnings := snd (Config.validateConfig cfg) in
    ConfigFacts.valid cfg'
    /\ debounceMs (Config.core cfg') = Z.max 500 (debounceMs (Config.core cfg))
    /\ maxHistorySnapshots (Config.core cfg')
       = Z.max 1 (maxHistorySnapshots (Config.core cfg))
    /\ warnings
       = (if debounceMs (Config.core cfg) <? 500
          then [Config.DebounceReset] else [])
         ++ (if maxHistorySnapshots (Config.core cfg) <? 1
             then [Config.MaxSnapshotsReset] else [])
    /\ (ConfigFacts.valid cfg <-> warnings = [])
    /\ (ConfigFacts.valid cfg -> cfg' = cfg)
    /\ Config.validateConfig cfg' = (cfg', [])
    /\ (ignore (Config.core cfg') = ignore (Config.core cfg)
        /\ architectureWatchPatterns (Config.core cfg')
           = architectureWatchPatterns (Config.core cfg)
        /\ outputPaths_fileTree (Config.core cfg')
           = outputPaths_fileTree (Config.core cfg)
        /\ outputPaths_architecture (Config.core cfg')
           = outputPaths_architecture (Config.core cfg)
        /\ contextFiles (Config.core cfg') = contextFiles (Config.core cfg)
        /\ filePriority (Config.core cfg') = filePriority (Config.core cfg)
        /\ Config.autoWatchEnabled cfg' = Config.autoWatchEnabled cfg
        /\ Config.tags cfg' = Config.tags cfg).
Proof.
  intros cfg cfg' warnings.
  destruct (ConfigFacts.validateConfig_values cfg) as [Hd Hm].
  fold cfg' in Hd, Hm.
  assert (Hv : ConfigFacts.valid cfg') by (split; lia).
  assert (Hw : warnings
               = (if debounceMs (Config.core cfg) <? 500
                  then [Config.DebounceReset] else [])
                 ++ (if maxHistorySnapshots (Config.core cfg) <? 1
                     then [Config.MaxSnapshotsReset] else [])).
  { unfold warnings, Config.validateConfig.
    destruct (debounceMs (Config.core cfg) <? 500);
      cbn [Config.core Config.setDebounceMs maxHistorySnapshots];
      destruct (maxHistorySnapshots (Config.core cfg) <? 1); reflexivity. }
  split; [exact Hv|]. split; [exact Hd|]. split; [exact Hm|].
  split; [exact Hw|]. split; [|split; [|split]].
  - rewrite Hw. unfold ConfigFacts.valid. split.
    + intros [H1 H2]. apply Z.ltb_ge in H1, H2. rewrite H1, H2. reflexivity.
    + destruct (debounceMs (Config.core cfg) <? 500) eqn:E1; [discriminate|].
      destruct (maxHistorySnapshots (Config.core cfg) <? 1) eqn:E2;
        [discriminate|].
      intros _. apply Z.ltb_ge in E1, E2. split; assumption.
  - intros H. unfold cfg'. rewrite ConfigFacts.validateConfig_valid by exact H.
    reflexivity.
  - apply ConfigFacts.validateConfig_valid, Hv.
  - apply ConfigFacts.validateConfig_rest.
Qed.

Lemma X16_witness :
  debounceMs (Config.core
                (fst (Config.validateConfig
                        (Config.setDebounceMs 100 Config.getDefaultConfig))))
  = 500
  /\ snd (Config.validateConfig
            (Config.setDebounceMs 100 Config.getDefaultConfig))
     = [Config.DebounceReset]
  /\ fst (Config.validateConfig Config.getDefaultConfig)
     = Config.getDefaultConfig.
Proof.
  destruct (X16_validateConfig_enforces_minimums
              (Config.setDebounceMs 100 Config.getDefaultConfig))
    as (_ & Hd & _ & Hw & _).
  destruct (X16_validateConfig_enforces_minimums Config.getDefaultConfig)
    as (_ & _ & _ & _ & _ & Hid & _).
  split; [exact Hd | split; [exact Hw|]].
  apply Hid. split; vm_compute; discriminate.
Defined.

Module ConfigJsFacts.
Import Config.

(** *** Files whose keys have their declared types *)

Definition field {A} (key : string) (enc : A -> ConfigJs.Json) (x : option A)
  : list (string * ConfigJs.Json) :=
  match x with
  | Some v => [(key, enc v)]
  | None => []
  end.

Definition encodeTags (l : list (string * string)) : ConfigJs.Json :=
  ConfigJs.JObject (map (fun kv => (fst kv, ConfigJs.JString (snd kv))) l).

Definition encodePaths (paths : PartialOutputPaths) : ConfigJs.Json :=
  ConfigJs.JObject
    (field "fileTree" ConfigJs.JString (given_fileTree paths)
     ++ field "architecture" ConfigJs.JString (given_architecture paths)).

(** The value [JSON.parse] returns for a file that gives the keys of
    [parsed], each with its declared type. *)
Definition encodePartial (parsed : PartialConfig) : ConfigJs.Json :=
  ConfigJs.JObject
    (field "ignore" ConfigJs.strings (given_ignore parsed)
     ++ field "architectureWatchPatterns" ConfigJs.strings
          (given_architectureWatchPatterns parsed)
     ++ field "outputPaths" encodePaths (given_outputPaths parsed)
     ++ field "debounceMs" ConfigJs.whole (given_debounceMs parsed)
     ++ field "maxHistorySnapshots" ConfigJs.whole
          (given_maxHistorySnapshots parsed)
     ++ field "autoWatchEnabled" ConfigJs.JBool (given_autoWatchEnabled parsed)
     ++ field "contextFiles" ConfigJs.strings (given_contextFiles parsed)
     ++ field "filePriority" ConfigJs.strings (given_filePriority parsed)
     ++ field "tags" encodeTags (given_tags parsed)).

(** A typed configuration as the object it is at run time. *)
Definition ofConfig (cfg : FullConfig) : ConfigJs.ConfigObject :=
  {| ConfigJs.ignore := ConfigJs.strings (ignore (core cfg));
     ConfigJs.architectureWatchPatterns :=
       ConfigJs.strings (architectureWatchPatterns (core cfg));
     ConfigJs.outputPaths :=
       ConfigJs.JObject
         [("fileTree", ConfigJs.JString (outputPaths_fileTree (core cfg)));
          ("architecture",
           ConfigJs.JString (outputPaths_architecture (core cfg)))];
     ConfigJs.debounceMs := ConfigJs.whole (debounceMs (core cfg));
     ConfigJs.maxHistorySnapshots :=
       ConfigJs.whole (maxHistorySnapshots (core cfg));
     ConfigJs.autoWatchEnabled := ConfigJs.JBool (autoWatchEnabled cfg);
     ConfigJs.contextFiles := ConfigJs.strings (contextFiles (core cfg));
     ConfigJs.filePriority := ConfigJs.strings (filePriority (core cfg));
     ConfigJs.tags := option_map encodeTags (tags cfg) |}.

Lemma defaults_agree : ConfigJs.getDefaultConfig = ofConfig getDefaultConfig.
Proof. reflexivity. Qed.

Lemma lookup_field_skip {A} key k (enc : A -> ConfigJs.Json) x rest :
  k <> key ->
  ConfigJs.lookup key (field k enc x ++ rest) = ConfigJs.lookup key rest.
Proof.
  intros Hne. destruct x as [v|]; [|reflexivity]. simpl.
  apply String.eqb_neq in Hne. rewrite Hne. reflexivity.
Qed.

Lemma lookup_field_here {A} key (enc : A -> ConfigJs.Json) x rest :
  ConfigJs.lookup key (field key enc x ++ rest)
  = match x with
    | Some v => Some (enc v)
    | None => ConfigJs.lookup key rest
    end.
Proof.
  destruct x as [v|]; [|reflexivity]. simpl. rewrite String.eqb_refl.
  reflexivity.
Qed.

Ltac find_key :=
  unfold ConfigJs.get, encodePartial;
  rewrite <- (app_nil_r (field "tags" _ _));
  repeat (rewrite lookup_field_skip by discriminate);
  rewrite lookup_field_here;
  match goal with
  | |- _ = option_map _ ?x => destruct x
  end;
  [reflexivity|];
  repeat (rewrite lookup_field_skip by discriminate);
  reflexivity.

(** Reading a key of an encoded file gives what the file gave for it. *)
Lemma get_encodePartial parsed :
  ConfigJs.get (encodePartial parsed) "ignore"
    = option_map ConfigJs.strings (given_ignore parsed)
  /\ ConfigJs.get (encodePartial parsed) "architectureWatchPatterns"
     = option_map ConfigJs.strings (given_architectureWatchPatterns parsed)
  /\ ConfigJs.get (encodePartial parsed) "outputPaths"
     = option_map encodePaths (given_outputPaths parsed)
  /\ ConfigJs.get (encodePartial parsed) "debounceMs"
     = option_map ConfigJs.whole (given_debounceMs parsed)
  /\ ConfigJs.get (encodePartial parsed) "maxHistorySnapshots"
     = option_map ConfigJs.whole (given_maxHistorySnapshots parsed)
  /\ ConfigJs.get (encodePartial parsed) "autoWatchEnabled"
     = option_map ConfigJs.JBool (given_autoWatchEnabled parsed)
  /\ ConfigJs.get (encodePartial parsed) "contextFiles"
     = option_map ConfigJs.strings (given_contextFiles parsed)
  /\ ConfigJs.get (encodePartial parsed) "filePriority"
     = option_map ConfigJs.strings (given_filePriority parsed)
  /\ ConfigJs.get (encodePartial parsed) "tags"
     = option_map encodeTags (given_tags parsed).
Proof.
  repeat match goal with |- _ /\ _ => split end; find_key.
Qed.

(** The spread of the default output paths with the paths a typed file
    gives replaces them key by key. *)
Lemma spread_typed fileTree architecture paths :
  ConfigJs.spread
    (ConfigJs.JObject [("fileTree", ConfigJs.JString fileTree);
                       ("architecture", ConfigJs.JString architecture)])
    (encodePaths paths)
  = ConfigJs.JObject
      [("fileTree",
        ConfigJs.JString (orElse (given_fileTree paths) fileTree));
       ("architecture",
        ConfigJs.JString (orElse (given_architecture paths) architecture))].
Proof. destruct paths as [[f|] [a|]]; reflexivity. Qed.

(** On a typed file the merge is the typed merge. *)
Lemma deepMergeConfig_typed parsed :
  ConfigJs.deepMergeConfig ConfigJs.getDefaultConfig (encodePartial parsed)
  = Some (ofConfig (deepMergeConfig getDefaultConfig parsed)).
Proof.
  pose proof (get_encodePartial parsed) as H.
  assert (Ho : exists fields, encodePartial parsed = ConfigJs.JObject fields)
    by (eexists; reflexivity).
  destruct Ho as [fields Ho]. rewrite Ho in *.
  destruct H as (H1 & H2 & H3 & H4 & H5 & H6 & H7 & H8 & H9).
  unfold ConfigJs.deepMergeConfig. rewrite H1, H2, H3, H4, H5, H6, H7, H8, H9.
  apply f_equal. unfold ofConfig, deepMergeConfig.
  cbn [core ignore architectureWatchPatterns outputPaths_fileTree
       outputPaths_architecture debounceMs maxHistorySnapshots contextFiles
       filePriority autoWatchEnabled tags getDefaultConfig
       ConfigJs.ignore ConfigJs.architectureWatchPatterns
       ConfigJs.outputPaths ConfigJs.debounceMs ConfigJs.maxHistorySnapshots
       ConfigJs.autoWatchEnabled ConfigJs.contextFiles ConfigJs.filePriority
       ConfigJs.tags ConfigJs.getDefaultConfig].
  f_equal.
  - destruct (given_ignore parsed); reflexivity.
  - destruct (given_architectureWatchPatterns parsed); reflexivity.
  - destruct (given_outputPaths parsed) as [paths|]; [|reflexivity].
    apply spread_typed.
  - destruct (given_debounceMs parsed); reflexivity.
  - destruct (given_maxHistorySnapshots parsed); reflexivity.
  - destruct (given_autoWatchEnabled parsed); reflexivity.
  - destruct (given_contextFiles parsed); reflexivity.
  - destruct (given_filePriority parsed); reflexivity.
  - destruct (given_tags parsed); reflexivity.
Qed.

Section Validation.
Variable StringToNumber : string -> option ConfigJs.Number.
Variable ToPrimitive : ConfigJs.Json -> option string.

Local Abbreviation lessThan := (ConfigJs.lessThan StringToNumber ToPrimitive).
Local Abbreviation validate :=
  (ConfigJs.validateConfig StringToNumber ToPrimitive).

Lemma lessThan_whole n bound :
  lessThan (ConfigJs.whole n) bound = Some (n <? bound).
Proof.
  unfold ConfigJs.whole. simpl. rewrite Z.mul_1_r. reflexivity.
Qed.

(** On a typed configuration the validation is the typed validation. *)
Lemma validateConfig_typed cfg :
  validate (ofConfig cfg)
  = ConfigJs.Resolved (ofConfig (fst (validateConfig cfg)))
      (snd (validateConfig cfg)).
Proof.
  unfold ConfigJs.validateConfig, validateConfig.
  cbn [ofConfig ConfigJs.debounceMs]. rewrite lessThan_whole.
  destruct (debounceMs (core cfg) <? 500);
    cbn [ConfigJs.setDebounceMs ConfigJs.maxHistorySnapshots ofConfig core
         setDebounceMs maxHistorySnapshots];
    rewrite lessThan_whole;
    destruct (maxHistorySnapshots (core cfg) <? 1); reflexivity.
Qed.

(** What the validation leaves in a field whose value compared as [low]
    with its floor. *)
Definition raised (low : option bool) (floor : Z) (v : ConfigJs.Json)
  : ConfigJs.Json :=
  match low with
  | Some true => ConfigJs.whole floor
  | _ => v
  end.

Lemma validateConfig_resolved cfg cfg' warnings :
  validate cfg = ConfigJs.Resolved cfg' warnings ->
  ConfigJs.debounceMs cfg'
    = raised (lessThan (ConfigJs.debounceMs cfg) 500) 500
        (ConfigJs.debounceMs cfg)
  /\ ConfigJs.maxHistorySnapshots cfg'
     = raised (lessThan (ConfigJs.maxHistorySnapshots cfg) 1) 1
         (ConfigJs.maxHistorySnapshots cfg)
  /\ ConfigJs.ignore cfg' = ConfigJs.ignore cfg
  /\ ConfigJs.architectureWatchPatterns cfg'
     = ConfigJs.architectureWatchPatterns cfg
  /\ ConfigJs.outputPaths cfg' = ConfigJs.outputPaths cfg
  /\ ConfigJs.autoWatchEnabled cfg' = ConfigJs.autoWatchEnabled cfg
  /\ ConfigJs.contextFiles cfg' = ConfigJs.contextFiles cfg
  /\ ConfigJs.filePriority cfg' = ConfigJs.filePriority cfg
  /\ ConfigJs.tags cfg' = ConfigJs.tags cfg.
Proof.
  unfold ConfigJs.validateConfig.
  destruct (lessThan (ConfigJs.debounceMs cfg) 500) as [[|]|];
    [| |discriminate];
    cbn [ConfigJs.setDebounceMs ConfigJs.maxHistorySnapshots];
    destruct (lessThan (ConfigJs.maxHistorySnapshots cfg) 1) as [[|]|];
    try discriminate; intros H; injection H as <- _; repeat split.
Qed.

(** A number that the validation leaves in a field is not below the
    floor of the field. *)
Lemma raised_number floor v x :
  raised (lessThan v floor) floor v = ConfigJs.JNumber x ->
  ConfigJs.numberBelow x floor = false.
Proof.
  assert (Hfloor : forall y, ConfigJs.whole floor = ConfigJs.JNumber y ->
                             ConfigJs.numberBelow y floor = false).
  { intros y H. injection H as <-. simpl. apply Z.ltb_ge. lia. }
  unfold raised.
  destruct v as [| b | y | s | items | fields]; simpl.
  - destruct (0 <? floor); [apply Hfloor | discriminate].
  - destruct (_ <? floor); [apply Hfloor | discriminate].
  - destruct (ConfigJs.numberBelow y floor) eqn:E; [apply Hfloor|].
    intros H. injection H as <-. exact E.
  - destruct (ConfigJs.stringBelow _ s floor); [apply Hfloor | discriminate].
  - destruct (ToPrimitive _) as [s|]; [|discriminate].
    destruct (ConfigJs.stringBelow _ s floor); [apply Hfloor | discriminate].
  - destruct (ToPrimitive _) as [s|]; [|discriminate].
    destruct (ConfigJs.stringBelow _ s floor); [apply Hfloor | discriminate].
Qed.

(** A string that converts to no number is left where it is. *)
Lemma raised_text floor s :
  StringToNumber s = None ->
  raised (lessThan (ConfigJs.JString s) floor) floor (ConfigJs.JString s)
  = ConfigJs.JString s.
Proof.
  intros H. unfold raised. simpl. unfold ConfigJs.stringBelow. rewrite H.
  reflexivity.
Qed.
End Validation.

End ConfigJsFacts.

(** X17: [loadConfig] on what [.asciirc.json] holds.  A missing file gives
    the defaults silently; a file that does not parse gives the defaults
    with one warning; a file that parses to [null] makes [loadConfig]
    reject, as the merge reads a property of [null] outside the [try].
    Any other parsed value is merged without a check of its shape: each
    key it has replaces the default, whatever its type ([outputPaths] by
    a spread over the default paths), and each key it lacks keeps the
    default.  The validation then resets [debounceMs] to 500 and
    [maxHistorySnapshots] to 1 exactly when they compare below that floor
    and changes nothing else: a number that [loadConfig] returns in one
    of the two fields is never below the floor, while a string that
    converts to no number stays in the field without a warning.  On a
    file whose keys have their declared types, the result is that of the
    typed merge and validation. *)
Theorem X17_loadConfig_on_parsed_json :
  forall (JSON_parse : string -> option ConfigJs.Json)
         (StringToNumber : string -> option ConfigJs.Number)
         (ToPrimitive : ConfigJs.Json -> option string),
    let load := ConfigJs.loadConfig JSON_parse StringToNumber ToPrimitive in
    let validate := ConfigJs.validateConfig StringToNumber ToPrimitive in
    let lessThan := ConfigJs.lessThan StringToNumber ToPrimitive in
    let parse := fun rawText =>
                   JSON_parse (Config.stripJsoncComments rawText) in
    let defaults := ConfigJs.getDefaultConfig in
    load None = ConfigJs.Resolved defaults []
    /\ (forall rawText,
          parse rawText = None ->
          load (Some rawText) = ConfigJs.Resolved defaults [Config.Malformed])
    /\ (forall rawText,
          parse rawText = Some ConfigJs.JNull ->
          load (Some rawText) = ConfigJs.Rejected [])
    /\ (forall rawText parsed,
          parse rawText = Some parsed -> parsed <> ConfigJs.JNull ->
          exists merged,
            ConfigJs.deepMergeConfig defaults parsed = Some merged
            /\ load (Some rawText) = validate merged
            /\ ConfigJs.ignore merged
               = Config.orElse (ConfigJs.get parsed "ignore")
                   (ConfigJs.ignore defaults)
            /\ ConfigJs.architectureWatchPatterns merged
               = Config.orElse (ConfigJs.get parsed "architectureWatchPatterns")
                   (ConfigJs.architectureWatchPatterns defaults)
            /\ ConfigJs.outputPaths merged
               = match ConfigJs.get parsed "outputPaths" with
                 | Some paths =>
                     ConfigJs.spread (ConfigJs.outputPaths defaults) paths
                 | None => ConfigJs.outputPaths defaults
                 end
            /\ ConfigJs.debounceMs merged
               = Config.orElse (ConfigJs.get parsed "debounceMs")
                   (ConfigJs.whole 2000)
            /\ ConfigJs.maxHistorySnapshots merged
               = Config.orElse (ConfigJs.get parsed "maxHistorySnapshots")
                   (ConfigJs.whole 50)
            /\ ConfigJs.autoWatchEnabled merged
               = Config.orElse (ConfigJs.get parsed "autoWatchEnabled")
                   (ConfigJs.JBool true)
            /\ ConfigJs.contextFiles merged
               = Config.orElse (ConfigJs.get parsed "contextFiles")
                   (ConfigJs.strings [])
            /\ ConfigJs.filePriority merged
               = Config.orElse (ConfigJs.get parsed "filePriority")
                   (ConfigJs.strings [])
            /\ ConfigJs.tags merged = ConfigJs.get parsed "tags"
            /\ forall cfg warnings,
                 load (Some rawText) = ConfigJs.Resolved cfg warnings ->
                 ConfigJs.debounceMs cfg
                   = ConfigJsFacts.raised
                       (lessThan (ConfigJs.debounceMs merged) 500) 500
                       (ConfigJs.debounceMs merged)
                 /\ ConfigJs.maxHistorySnapshots cfg
                    = ConfigJsFacts.raised
                        (lessThan (ConfigJs.maxHistorySnapshots merged) 1) 1
                        (ConfigJs.maxHistorySnapshots merged)
                 /\ ConfigJs.ignore cfg = ConfigJs.ignore merged
                 /\ ConfigJs.architectureWatchPatterns cfg
                    = ConfigJs.architectureWatchPatterns merged
                 /\ ConfigJs.outputPaths cfg = ConfigJs.outputPaths merged
                 /\ ConfigJs.autoWatchEnabled cfg
                    = ConfigJs.autoWatchEnabled merged
                 /\ ConfigJs.contextFiles cfg = ConfigJs.contextFiles merged
                 /\ ConfigJs.filePriority cfg = ConfigJs.filePriority merged
                 /\ ConfigJs.tags cfg = ConfigJs.tags merged)
    /\ (forall file cfg warnings,
          load file = ConfigJs.Resolved cfg warnings ->
          (forall x, ConfigJs.debounceMs cfg = ConfigJs.JNumber x ->
                     ConfigJs.numberBelow x 500 = false)
          /\ (forall x, ConfigJs.maxHistorySnapshots cfg = ConfigJs.JNumber x ->
                        ConfigJs.numberBelow x 1 = false))
    /\ (forall rawText parsed s cfg warnings,
          parse rawText = Some parsed ->
          ConfigJs.get parsed "debounceMs" = Some (ConfigJs.JString s) ->
          StringToNumber s = None ->
          load (Some rawText) = ConfigJs.Resolved cfg warnings ->
          ConfigJs.debounceMs cfg = ConfigJs.JString s
          /\ ~ In Config.DebounceReset warnings)
    /\ (forall rawText typed,
          parse rawText = Some (ConfigJsFacts.encodePartial typed) ->
          load (Some rawText)
          = ConfigJs.Resolved
              (ConfigJsFacts.ofConfig
                 (fst (Config.validateConfig
                         (Config.deepMergeConfig Config.getDefaultConfig
                            typed))))
              (snd (Config.validateConfig
                      (Config.deepMergeConfig Config.getDefaultConfig typed)))).
Proof.
  intros JSON_parse StringToNumber ToPrimitive load validate lessThan parse
         defaults.
  assert (Hmerge : forall parsed, parsed <> ConfigJs.JNull ->
            exists merged,
              ConfigJs.deepMergeConfig defaults parsed = Some merged).
  { intros parsed Hnn. destruct parsed; [congruence| | | | |]; eexists;
      reflexivity. }
  assert (Hload : forall rawText parsed merged,
            parse rawText = Some parsed ->
            ConfigJs.deepMergeConfig defaults parsed = Some merged ->
            load (Some rawText) = validate merged).
  { intros rawText parsed merged Hp Hm. unfold load, ConfigJs.loadConfig.
    fold (parse rawText). rewrite Hp. fold defaults. rewrite Hm. reflexivity. }
  split; [reflexivity|]. split; [|split; [|split; [|split; [|split]]]].
  - intros rawText Hp. unfold load, ConfigJs.loadConfig.
    fold (parse rawText). rewrite Hp. reflexivity.
  - intros rawText Hp. unfold load, ConfigJs.loadConfig.
    fold (parse rawText). rewrite Hp. reflexivity.
  - intros rawText parsed Hp Hnn. destruct (Hmerge parsed Hnn) as [merged Hm].
    exists merged. split; [exact Hm|].
    pose proof (Hload rawText parsed merged Hp Hm) as Hl.
    split; [exact Hl|].
    assert (Em : merged
                 = {| ConfigJs.ignore :=
                        Config.orElse (ConfigJs.get parsed "ignore")
                          (ConfigJs.ignore defaults);
                      ConfigJs.architectureWatchPatterns :=
                        Config.orElse
                          (ConfigJs.get parsed "architectureWatchPatterns")
                          (ConfigJs.architectureWatchPatterns defaults);
                      ConfigJs.outputPaths :=
                        match ConfigJs.get parsed "outputPaths" with
                        | Some paths =>
                            ConfigJs.spread (ConfigJs.outputPaths defaults)
                              paths
                        | None => ConfigJs.outputPaths defaults
                        end;
                      ConfigJs.debounceMs :=
                        Config.orElse (ConfigJs.get parsed "debounceMs")
                          (ConfigJs.debounceMs defaults);
                      ConfigJs.maxHistorySnapshots :=
                        Config.orElse
                          (ConfigJs.get parsed "maxHistorySnapshots")
                          (ConfigJs.maxHistorySnapshots defaults);
                      ConfigJs.autoWatchEnabled :=
                        Config.orElse (ConfigJs.get parsed "autoWatchEnabled")
                          (ConfigJs.autoWatchEnabled defaults);
                      ConfigJs.contextFiles :=
                        Config.orElse (ConfigJs.get parsed "contextFiles")
                          (ConfigJs.contextFiles defaults);
                      ConfigJs.filePriority :=
                        Config.orElse (ConfigJs.get parsed "filePriority")
                          (ConfigJs.filePriority defaults);
                      ConfigJs.tags :=
                        match ConfigJs.get parsed "tags" with
                        | Some t => Some t
                        | None => ConfigJs.tags defaults
                        end |}).
    { destruct parsed; [congruence| | | | |]; injection Hm as <-;
        reflexivity. }
    rewrite Em at 1 2 3 4 5 6 7 8 9.
    cbn [ConfigJs.ignore ConfigJs.architectureWatchPatterns
         ConfigJs.outputPaths ConfigJs.debounceMs ConfigJs.maxHistorySnapshots
         ConfigJs.autoWatchEnabled ConfigJs.contextFiles ConfigJs.filePriority
         ConfigJs.tags].
    do 8 (split; [reflexivity|]).
    split; [destruct (ConfigJs.get parsed "tags"); reflexivity|].
    intros cfg warnings Hr. rewrite Hl in Hr.
    apply (ConfigJsFacts.validateConfig_resolved _ _ _ _ _ Hr).
  - intros file cfg warnings Hr.
    assert (Hdef : (forall x, ConfigJs.debounceMs defaults = ConfigJs.JNumber x ->
                              ConfigJs.numberBelow x 500 = false)
                   /\ (forall x, ConfigJs.maxHistorySnapshots defaults
                                 = ConfigJs.JNumber x ->
                                 ConfigJs.numberBelow x 1 = false)).
    { split; intros x H; injection H as <-; reflexivity. }
    unfold load, ConfigJs.loadConfig in Hr. fold defaults in Hr.
    destruct file as [rawText|]; [|injection Hr as <- _; exact Hdef].
    destruct (JSON_parse _) as [parsed|]; [|injection Hr as <- _; exact Hdef].
    destruct (ConfigJs.deepMergeConfig defaults parsed) as [merged|];
      [|discriminate].
    destruct (ConfigJsFacts.validateConfig_resolved _ _ _ _ _ Hr)
      as (Hd & Hm & _).
    split; intros x Hx.
    + rewrite Hd in Hx.
      apply (ConfigJsFacts.raised_number StringToNumber ToPrimitive _ _ _ Hx).
    + rewrite Hm in Hx.
      apply (ConfigJsFacts.raised_number StringToNumber ToPrimitive _ _ _ Hx).
  - intros rawText parsed s cfg warnings Hp Hg Hs Hr.
    assert (Hnn : parsed <> ConfigJs.JNull).
    { intros ->. discriminate. }
    destruct (Hmerge parsed Hnn) as [merged Hm].
    rewrite (Hload rawText parsed merged Hp Hm) in Hr.
    assert (Hd : ConfigJs.debounceMs merged = ConfigJs.JString s).
    { destruct parsed; [congruence| | | | |]; injection Hm as <-;
        cbn [ConfigJs.debounceMs]; cbv [ConfigJs.get] in Hg |- *;
        try discriminate Hg; rewrite Hg; reflexivity. }
    destruct (ConfigJsFacts.validateConfig_resolved _ _ _ _ _ Hr)
      as (Hd' & _).
    rewrite Hd, (ConfigJsFacts.raised_text StringToNumber ToPrimitive _ _ Hs)
      in Hd'.
    split; [exact Hd'|].
    unfold validate, ConfigJs.validateConfig in Hr. rewrite Hd in Hr.
    cbn [ConfigJs.lessThan] in Hr. unfold ConfigJs.stringBelow in Hr.
    rewrite Hs in Hr.
    destruct (ConfigJs.lessThan _ _ _ 1) as [[|]|]; [| |discriminate];
      injection Hr as _ <-; simpl; intuition discriminate.
  - intros rawText typed Hp.
    rewrite (Hload rawText _ _ Hp (ConfigJsFacts.deepMergeConfig_typed typed)).
    apply ConfigJsFacts.validateConfig_typed.
Qed.

Module ConfigExamples.

(** A file that sets the quiet period to 100 ms and nothing else. *)
Definition shortDebounce : Config.PartialConfig :=
  {| Config.given_ignore := None;
     Config.given_architectureWatchPatterns := None;
     Config.given_outputPaths := None;
     Config.given_debounceMs := Some 100;
     Config.given_maxHistorySnapshots := None;
     Config.given_autoWatchEnabled := None;
     Config.given_contextFiles := None;
     Config.given_filePriority := None;
     Config.given_tags := None |}.

(** A file that gives the quiet period as the text [abc]. *)
Definition textDebounce : ConfigJs.Json :=
  ConfigJs.JObject [("debounceMs", ConfigJs.JString "abc")].

(** A parser that returns [value] for the text of the file. *)
Definition parsesTo (value : ConfigJs.Json) (text : string)
  : option ConfigJs.Json :=
  Some value.

(** The conversions of the two values that occur: [abc] is not a number,
    and a plain object converts to a fixed text. *)
Definition notNumeric (s : string) : option ConfigJs.Number := None.

Definition plainObjectText (v : ConfigJs.Json) : option string :=
  Some "[object Object]"%string.

Definition fileText : string := "the text of .asciirc.json".

Example text_for_number_is_kept :
  ConfigJs.loadConfig (parsesTo textDebounce) notNumeric plainObjectText
    (Some fileText)
  = ConfigJs.Resolved
      (ConfigJs.setDebounceMs (ConfigJs.JString "abc")
         ConfigJs.getDefaultConfig) [].
Proof. reflexivity. Qed.

Example short_number_is_raised :
  ConfigJs.loadConfig (parsesTo (ConfigJsFacts.encodePartial shortDebounce))
    notNumeric plainObjectText (Some fileText)
  = ConfigJs.Resolved
      (ConfigJs.setDebounceMs (ConfigJs.whole 500) ConfigJs.getDefaultConfig)
      [Config.DebounceReset].
Proof. reflexivity. Qed.

End ConfigExamples.

(** A file holding [null] makes [loadConfig] reject; a file that gives
    [debounceMs] as the text [abc] keeps that text; a file that gives it
    as 100 gets the typed result, 500 and one warning. *)
Lemma X17_witness :
  ConfigJs.loadConfig (ConfigExamples.parsesTo ConfigJs.JNull)
    ConfigExamples.notNumeric ConfigExamples.plainObjectText
    (Some ConfigExamples.fileText)
  = ConfigJs.Rejected []
  /\ ConfigJs.debounceMs
       (ConfigJs.setDebounceMs (ConfigJs.JString "abc")
          ConfigJs.getDefaultConfig)
     = ConfigJs.JString "abc"
  /\ ConfigJs.loadConfig
       (ConfigExamples.parsesTo
          (ConfigJsFacts.encodePartial ConfigExamples.shortDebounce))
       ConfigExamples.notNumeric ConfigExamples.plainObjectText
       (Some ConfigExamples.fileText)
     = ConfigJs.Resolved
         (ConfigJsFacts.ofConfig
            (fst (Config.validateConfig
                    (Config.deepMergeConfig Config.getDefaultConfig
                       ConfigExamples.shortDebounce))))
         (snd (Config.validateConfig
                 (Config.deepMergeConfig Config.getDefaultConfig
                    ConfigExamples.shortDebounce))).
Proof.
  destruct (X17_loadConfig_on_parsed_json
              (ConfigExamples.parsesTo ConfigJs.JNull)
              ConfigExamples.notNumeric ConfigExamples.plainObjectText)
    as (_ & _ & Hnull & _).
  destruct (X17_loadConfig_on_parsed_json
              (ConfigExamples.parsesTo ConfigExamples.textDebounce)
              ConfigExamples.notNumeric ConfigExamples.plainObjectText)
    as (_ & _ & _ & _ & _ & Htext & _).
  destruct (X17_loadConfig_on_parsed_json
              (ConfigExamples.parsesTo
                 (ConfigJsFacts.encodePartial ConfigExamples.shortDebounce))
              ConfigExamples.notNumeric ConfigExamples.plainObjectText)
    as (_ & _ & _ & _ & _ & _ & Htyped).
  split; [apply Hnull; reflexivity|]. split.
  - apply (Htext ConfigExamples.fileText ConfigExamples.textDebounce "abc"%string
             _ []); reflexivity.
  - apply Htyped. reflexivity.
Defined.

(** Two requests after activation: 150 tokens in, 30 out, 2 requests. *)
Lemma X15_witness :
  TokenTracker.getSessionTokenUsage
    (TrackerFacts.recordAll [(100, 20); (50, 10)]
       (TokenTracker.resetSessionTokens (fun _ => None)))
  = {| TokenTracker.inputTokensEstimate := 150;
       TokenTracker.outputTokensEstimate := 30;
       TokenTracker.requestCount := 2 |}.
Proof.
  destruct (X15_session_and_lifetime_tallies_agree (fun _ => None)
              [(100, 20); (50, 10)]) as (Hs & _).
  exact Hs.
Defined.

Module StripFacts.
Import Config.

(** The text holds two slashes in a row. *)
Fixpoint hasComment (s : string) : bool :=
  match s with
  | EmptyString => false
  | String c rest =>
      match rest with
      | String c2 _ =>
          ((Ascii.eqb c "/"%char && Ascii.eqb c2 "/"%char) || hasComment rest)%bool
      | EmptyString => false
      end
  end.

Fixpoint countChar (ch : ascii) (s : string) : nat :=
  match s with
  | EmptyString => 0%nat
  | String c rest => ((if Ascii.eqb c ch then 1 else 0) + countChar ch rest)%nat
  end.

Definition firstIs (ch : ascii) (s : string) : bool :=
  match s with
  | String c _ => Ascii.eqb c ch
  | EmptyString => false
  end.

Lemma hasComment_cons c s :
  hasComment (String c s)
  = ((Ascii.eqb c "/"%char && firstIs "/"%char s) || hasComment s)%bool.
Proof. destruct s; simpl; [rewrite andb_false_r|]; reflexivity. Qed.

(** Outside a comment, the output starts with a slash only when the text
    starts with a slash that does not open a comment. *)
Lemma stripFrom_first text :
  firstIs "/"%char text = false ->
  firstIs "/"%char (stripFrom false text) = false.
Proof.
  destruct text as [|c rest]; [reflexivity|]. simpl. intros H.
  destruct rest as [|c2 rest2]; [exact H|].
  rewrite H. simpl. exact H.
Qed.

Lemma stripFrom_outside c c2 rest2 :
  stripFrom false (String c (String c2 rest2))
  = if (Ascii.eqb c "/"%char && Ascii.eqb c2 "/"%char)%bool
    then stripFrom true (String c2 rest2)
    else String c (stripFrom false (String c2 rest2)).
Proof. reflexivity. Qed.

Lemma stripFrom_clean text : forall inComment,
  hasComment (stripFrom inComment text) = false
  /\ (inComment = true -> firstIs "/"%char (stripFrom true text) = false).
Proof.
  induction text as [|c rest IH]; intros inComment; [split; reflexivity|].
  destruct (IH true) as [IHt IHf]. destruct (IH false) as [IHn _].
  assert (Hcomment : hasComment (stripFrom true (String c rest)) = false
                     /\ firstIs "/"%char (stripFrom true (String c rest))
                        = false).
  { simpl. destruct (Ascii.eqb c "010"%char) eqn:E.
    - rewrite hasComment_cons, IHn.
      apply Ascii.eqb_eq in E. subst c. split; reflexivity.
    - split; [exact IHt | apply IHf; reflexivity]. }
  destruct inComment; [split; [apply Hcomment | intros _; apply Hcomment]|].
  split; [|discriminate].
  destruct rest as [|c2 rest2]; [reflexivity|].
  rewrite stripFrom_outside.
  destruct (Ascii.eqb c "/"%char && Ascii.eqb c2 "/"%char)%bool eqn:E;
    [exact IHt|].
  rewrite hasComment_cons, IHn, orb_false_r.
  destruct (Ascii.eqb c "/"%char) eqn:Ec; [|reflexivity].
  rewrite andb_true_l in E |- *.
  apply (stripFrom_first (String c2 rest2)). exact E.
Qed.

Lemma stripFrom_newlines text : forall inComment,
  countChar "010"%char (stripFrom inComment text) = countChar "010"%char text.
Proof.
  induction text as [|c rest IH]; intros inComment; [reflexivity|].
  simpl. destruct inComment.
  - destruct (Ascii.eqb c "010"%char) eqn:E.
    + simpl. rewrite E, IH. reflexivity.
    + rewrite IH. reflexivity.
  - destruct rest as [|c2 rest2]; [reflexivity|].
    destruct (Ascii.eqb c "/"%char && Ascii.eqb c2 "/"%char)%bool eqn:E.
    + rewrite IH. apply andb_true_iff in E as [Ec _].
      apply Ascii.eqb_eq in Ec. subst c. reflexivity.
    + cbn [countChar]. rewrite IH. reflexivity.
Qed.

Lemma stripFrom_plain text :
  hasComment text = false -> stripFrom false text = text.
Proof.
  induction text as [|c rest IH]; [reflexivity|].
  intros H. simpl. destruct rest as [|c2 rest2]; [reflexivity|].
  simpl in H. apply orb_false_iff in H as [Hc Hrest].
  rewrite Hc, IH by exact Hrest. reflexivity.
Qed.

End StripFacts.

(** X18: [stripJsoncComments] leaves no [//] anywhere in its output, also
    not inside a JSON string (a value such as a URL is cut at its [//]);
    it keeps every newline, so line numbers of parse errors are those of
    the file; a text without [//] is returned as it is; stripping twice
    is stripping once. *)
Theorem X18_stripJsoncComments_removes_every_double_slash :
  forall (text : string),
    StripFacts.hasComment (Config.stripJsoncComments text) = false
    /\ StripFacts.countChar "010"%char (Config.stripJsoncComments text)
       = StripFacts.countChar "010"%char text
    /\ (StripFacts.hasComment text = false ->
        Config.stripJsoncComments text = text)
    /\ Config.stripJsoncComments (Config.stripJsoncComments text)
       = Config.stripJsoncComments text.
Proof.
  intros text. unfold Config.stripJsoncComments.
  pose proof (proj1 (StripFacts.stripFrom_clean text false)) as Hclean.
  split; [exact Hclean|]. split; [apply StripFacts.stripFrom_newlines|].
  split; [apply StripFacts.stripFrom_plain|].
  apply StripFacts.stripFrom_plain, Hclean.
Qed.

Lemma X18_witness :
  Config.stripJsoncComments "{ debounceMs: 900 } / 2"
  = "{ debounceMs: 900 } / 2"%string.
Proof.
  destruct (X18_stripJsoncComments_removes_every_double_slash
              "{ debounceMs: 900 } / 2") as (_ & _ & Hplain & _).
  apply Hplain. reflexivity.
Defined.

(* ---------------------------------------------------------------------- *)
(** ** architecture-agent.ts: priorities *)

Module PriorityFacts.
Import Agent.

Section Scores.
Variable minimatch : string -> string -> bool.

Lemma matches_one path pattern :
  Utils.matchesAnyPattern minimatch path [pattern] = minimatch path pattern.
Proof. unfold Utils.matchesAnyPattern. simpl. apply orb_false_r. Qed.

Lemma getPriorityScoreFrom_spec path filePriority : forall i,
  let k := getPriorityScoreFrom minimatch i path filePriority in
  (i <= k <= i + List.length filePriority)%nat
  /\ (forall j, (j < k - i)%nat ->
                minimatch path (nth j filePriority EmptyString) = false)
  /\ ((k < i + List.length filePriority)%nat ->
      minimatch path (nth (k - i) filePriority EmptyString) = true).
Proof.
  induction filePriority as [|pattern rest IH]; intros i;
    cbn [getPriorityScoreFrom List.length]; cbv zeta.
  - split; [lia|]. split; [intros j Hj; lia | lia].
  - rewrite matches_one. destruct (minimatch path pattern) eqn:E.
    + split; [lia|]. split; [intros j Hj; lia|].
      intros _. rewrite Nat.sub_diag. exact E.
    + destruct (IH (S i)) as (Hr & Hbefore & Hat).
      set (k := getPriorityScoreFrom minimatch (S i) path rest) in *.
      split; [lia|]. split.
      * intros j Hj. destruct j as [|j]; [exact E|].
        apply Hbefore. lia.
      * intros Hk. replace (k - i)%nat with (S (k - S i)) by lia.
        apply Hat. lia.
Qed.

Lemma matchesAny_nth path patterns :
  Utils.matchesAnyPattern minimatch path patterns = true <->
  exists j, (j < List.length patterns)%nat
            /\ minimatch path (nth j patterns EmptyString) = true.
Proof.
  unfold Utils.matchesAnyPattern. rewrite existsb_exists. split.
  - intros (p & Hin & Hp).
    destruct (In_nth _ _ EmptyString Hin) as (j & Hj & Hnth).
    exists j. rewrite Hnth. auto.
  - intros (j & Hj & Hp). exists (nth j patterns EmptyString).
    split; [apply nth_In, Hj | exact Hp].
Qed.

End Scores.

(** The pieces of a path that starts with a directory name. *)
Lemma split_under dir rest :
  SaveFacts.hasChar "/"%char dir = false ->
  Js.split "/"%char (dir ++ "/" ++ rest) = dir :: Js.split "/"%char rest.
Proof.
  induction dir as [|c dir IH]; simpl; [reflexivity|].
  intros H. apply orb_false_iff in H as [Hc Hdir].
  change (dir ++ String "/"%char rest)%string with (dir ++ "/" ++ rest)%string.
  rewrite Hc, IH by exact Hdir. reflexivity.
Qed.

Lemma split_length_one rest :
  List.length (Js.split "/"%char rest) = 1%nat
  <-> SaveFacts.hasChar "/"%char rest = false.
Proof.
  split.
  - intros H. destruct (SaveFacts.hasChar "/"%char rest) eqn:E; [|reflexivity].
    pose proof (PathFacts.split_several rest E). lia.
  - intros H. rewrite (PathFacts.split_one_piece rest H). reflexivity.
Qed.

End PriorityFacts.

(** X19: [getPriorityScore] is the index of the first [filePriority]
    pattern the path matches, and the number of patterns when it matches
    none: the score never exceeds that number; no pattern before the score
    matches; below that number, the pattern at the score matches; and the
    score is that number exactly when no pattern matches. *)
Theorem X19_getPriorityScore_is_first_matching_index :
  forall (minimatch : string -> string -> bool) (path : string)
         (filePriority : list string),
    let score := Agent.getPriorityScore minimatch path filePriority in
    (score <= List.length filePriority)%nat
    /\ (forall j, (j < score)%nat ->
                  minimatch path (nth j filePriority EmptyString) = false)
    /\ ((score < List.length filePriority)%nat ->
        minimatch path (nth score filePriority EmptyString) = true)
    /\ (score = List.length filePriority <->
        Utils.matchesAnyPattern minimatch path filePriority = false).
Proof.
  intros mm path fp score.
  destruct (PriorityFacts.getPriorityScoreFrom_spec mm path fp 0%nat)
    as (Hr & Hbefore & Hat).
  fold (Agent.getPriorityScore mm path fp) in Hr, Hbefore, Hat.
  fold score in Hr, Hbefore, Hat. rewrite Nat.sub_0_r in *. simpl in Hr, Hat.
  split; [lia|]. split; [exact Hbefore|]. split; [exact Hat|].
  split.
  - intros Hs.
    destruct (Utils.matchesAnyPattern mm path fp) eqn:E; [|reflexivity].
    apply PriorityFacts.matchesAny_nth in E as (j & Hj & Hp).
    rewrite Hbefore in Hp by lia. discriminate.
  - intros Hnone.
    destruct (Nat.eq_dec score (List.length fp)) as [|Hne]; [assumption|].
    assert (Hlt : (score < List.length fp)%nat) by lia.
    assert (Utils.matchesAnyPattern mm path fp = true).
    { apply PriorityFacts.matchesAny_nth. exists score. auto. }
    congruence.
Qed.

Lemma X19_witness :
  String.eqb "b"
    (nth (Agent.getPriorityScore
            (fun path pattern => String.eqb path pattern) "b"
            ["a"; "b"; "b"]%string)
         ["a"; "b"; "b"]%string EmptyString) = true.
Proof.
  destruct (X19_getPriorityScore_is_first_matching_index
              (fun path pattern => String.eqb path pattern) "b"
              ["a"; "b"; "b"]%string) as (_ & _ & Hat & _).
  apply Hat. vm_compute. lia.
Defined.

(** X20: the heuristic order of candidate files.  A path listed in
    [contextFiles] scores 0.  Otherwise a direct child of [src/] or [lib/]
    scores 1, anything deeper under [src/] or [lib/] scores 2, and a path
    whose first segment is neither scores 3; the score is never above 3. *)
Theorem X20_heuristicScore_tiers :
  forall (contextSet : list string) (path : string),
    (Agent.heuristicScore path contextSet <= 3)%nat
    /\ (Watcher.has contextSet path = true ->
        Agent.heuristicScore path contextSet = 0%nat)
    /\ (Watcher.has contextSet path = false ->
        (forall dir rest,
           dir = "src"%string \/ dir = "lib"%string ->
           path = (dir ++ "/" ++ rest)%string ->
           Agent.heuristicScore path contextSet
           = if SaveFacts.hasChar "/"%char rest then 2%nat else 1%nat)
        /\ (nth 0 (Js.split "/"%char path) EmptyString <> "src"%string ->
            nth 0 (Js.split "/"%char path) EmptyString <> "lib"%string ->
            Agent.heuristicScore path contextSet = 3%nat)).
Proof.
  intros ctx path. unfold Agent.heuristicScore.
  split; [|split].
  - destruct (Watcher.has ctx path); [lia|]. cbv zeta.
    destruct (_ && _)%bool; [lia|]. destruct (_ || _)%bool; lia.
  - intros ->. reflexivity.
  - intros ->. cbv zeta. split.
    + intros dir rest Hdir ->.
      rewrite PriorityFacts.split_under
        by (destruct Hdir as [-> | ->]; reflexivity).
      cbn [nth List.length].
      assert (Hfirst : (String.eqb dir "src" || String.eqb dir "lib")%bool
                       = true)
        by (destruct Hdir as [-> | ->]; reflexivity).
      rewrite Hfirst. cbn [andb].
      destruct (SaveFacts.hasChar "/"%char rest) eqn:E.
      * pose proof (PathFacts.split_several rest E) as Hlen.
        destruct (Js.split "/"%char rest) as [|p [|q ps]]; simpl in *;
          try lia; reflexivity.
      * rewrite (PathFacts.split_one_piece rest E). reflexivity.
    + intros H1 H2. apply String.eqb_neq in H1, H2. rewrite H1, H2.
      reflexivity.
Qed.

Lemma X20_witness :
  Agent.heuristicScore "src/app.ts" ["README.md"%string] = 1%nat
  /\ Agent.heuristicScore "lib/core/io.ts" ["README.md"%string] = 2%nat
  /\ Agent.heuristicScore "README.md" ["README.md"%string] = 0%nat
  /\ Agent.heuristicScore "api/x.ts" ["README.md"%string] = 3%nat.
Proof.
  destruct (X20_heuristicScore_tiers ["README.md"%string] "src/app.ts")
    as (_ & _ & H1).
  destruct (X20_heuristicScore_tiers ["README.md"%string] "lib/core/io.ts")
    as (_ & _ & H2).
  destruct (X20_heuristicScore_tiers ["README.md"%string] "README.md")
    as (_ & H0 & _).
  destruct (X20_heuristicScore_tiers ["README.md"%string] "api/x.ts")
    as (_ & _ & H3).
  split; [|split; [|split]].
  - destruct H1 as [H1 _]; [reflexivity|].
    apply (H1 "src"%string "app.ts"%string); [left|]; reflexivity.
  - destruct H2 as [H2 _]; [reflexivity|].
    apply (H2 "lib"%string "core/io.ts"%string); [right|]; reflexivity.
  - apply H0. reflexivity.
  - destruct H3 as [_ H3]; [reflexivity|]. apply H3; discriminate.
Defined.

Module OrderFacts.
Import Agent.

(** Insertion under a comparator that respects a transitive order. *)
Section Inserting.
Variable compare : string -> string -> Z.
Variable before : string -> string -> Prop.
Hypothesis before_trans : forall a b c, before a b -> before b c -> before a c.
Hypothesis compare_le : forall a b, compare a b <= 0 -> before a b.
Hypothesis compare_gt : forall a b, 0 < compare a b -> before b a.

Lemma insertBy_perm x l : Permutation (x :: l) (insertBy compare x l).
Proof.
  induction l as [|y rest IH]; simpl; [apply Permutation_refl|].
  destruct (compare y x <=? 0); [|apply Permutation_refl].
  eapply perm_trans; [apply perm_swap|]. apply perm_skip, IH.
Qed.

Lemma insertBy_in x l z : In z (insertBy compare x l) -> z = x \/ In z l.
Proof.
  intros H. apply (Permutation_in _ (Permutation_sym (insertBy_perm x l))) in H.
  destruct H; auto.
Qed.

Lemma insertBy_ordered x l :
  StronglySorted before l -> StronglySorted before (insertBy compare x l).
Proof.
  induction l as [|y rest IH]; intros HS; simpl.
  - repeat constructor.
  - inversion HS as [|? ? Hrest Hall]; subst.
    destruct (compare y x <=? 0) eqn:E.
    + apply Z.leb_le in E. constructor; [apply IH, Hrest|].
      apply Forall_forall. intros z Hz.
      apply insertBy_in in Hz as [-> | Hz].
      * apply compare_le, E.
      * rewrite Forall_forall in Hall. apply Hall, Hz.
    + apply Z.leb_gt in E. constructor; [exact HS|].
      pose proof (compare_gt y x E) as Hxy.
      constructor; [exact Hxy|].
      rewrite Forall_forall in *. intros z Hz. specialize (Hall z Hz).
      eapply before_trans; eassumption.
Qed.

Lemma sortBy_from l : forall acc,
  StronglySorted before acc ->
  Permutation (acc ++ l) (fold_left (fun a x => insertBy compare x a) l acc)
  /\ StronglySorted before
       (fold_left (fun a x => insertBy compare x a) l acc).
Proof.
  induction l as [|x rest IH]; intros acc HS; simpl.
  - rewrite app_nil_r. split; [apply Permutation_refl | exact HS].
  - destruct (IH (insertBy compare x acc) (insertBy_ordered x acc HS))
      as [Hp Hs].
    split; [|exact Hs].
    eapply perm_trans; [|exact Hp].
    eapply perm_trans; [apply Permutation_sym, Permutation_middle|].
    apply (Permutation_app_tail rest (insertBy_perm x acc)).
Qed.

Lemma sortBy_spec l :
  Permutation l (sortBy compare l) /\ StronglySorted before (sortBy compare l).
Proof. apply (sortBy_from l []). constructor. Qed.
End Inserting.

(** The order [prioritizeFiles] sorts by. *)
Section ByScore.
Variable localeCompare : string -> string -> Z.
Variable score : string -> nat.

Definition ascending (a b : string) : Prop := (score a <= score b)%nat.

Lemma ascending_trans a b c : ascending a b -> ascending b c -> ascending a c.
Proof. unfold ascending. lia. Qed.

Lemma compareBy_le a b : compareBy localeCompare score a b <= 0 -> ascending a b.
Proof.
  unfold compareBy, ascending.
  destruct (Nat.eqb (score a) (score b)) eqn:E; simpl.
  - apply Nat.eqb_eq in E. lia.
  - lia.
Qed.

Lemma compareBy_gt a b : 0 < compareBy localeCompare score a b -> ascending b a.
Proof.
  unfold compareBy, ascending.
  destruct (Nat.eqb (score a) (score b)) eqn:E; simpl.
  - apply Nat.eqb_eq in E. lia.
  - lia.
Qed.

Lemma sortBy_score l :
  Permutation l (sortBy (compareBy localeCompare score) l)
  /\ StronglySorted ascending (sortBy (compareBy localeCompare score) l).
Proof.
  apply sortBy_spec;
    [exact ascending_trans | exact compareBy_le | exact compareBy_gt].
Qed.
End ByScore.

(** The order of [array.sort()] on strings. *)
Definition codeOrder (a b : string) : Prop := String.leb a b = true.

Definition codeCompare (a b : string) : Z := if String.leb a b then 0 else 1.

Lemma codeOrder_trans a : forall b c,
  codeOrder a b -> codeOrder b c -> codeOrder a c.
Proof.
  unfold codeOrder, String.leb.
  induction a as [|x a IH]; intros [|y b] [|z c]; simpl; try easy.
  unfold Ascii.compare.
  destruct (N.compare_spec (N_of_ascii x) (N_of_ascii y));
    destruct (N.compare_spec (N_of_ascii y) (N_of_ascii z));
    destruct (N.compare_spec (N_of_ascii x) (N_of_ascii z));
    try easy; try lia.
  apply IH.
Qed.

Lemma insertSorted_insertBy x l :
  Js.insertSorted x l = insertBy codeCompare x l.
Proof.
  induction l as [|y rest IH]; simpl; [reflexivity|].
  unfold codeCompare at 1. destruct (String.leb y x); simpl;
    [rewrite IH|]; reflexivity.
Qed.

Lemma sort_sortBy l : Js.sort l = sortBy codeCompare l.
Proof.
  unfold Js.sort, sortBy. generalize (@nil string).
  induction l as [|x rest IH]; intros acc; simpl; [reflexivity|].
  rewrite insertSorted_insertBy. apply IH.
Qed.

Lemma sort_spec l :
  Permutation l (Js.sort l) /\ StronglySorted codeOrder (Js.sort l).
Proof.
  rewrite sort_sortBy. apply sortBy_spec.
  - exact codeOrder_trans.
  - unfold codeCompare, codeOrder. intros a b.
    destruct (String.leb a b); [reflexivity | lia].
  - unfold codeCompare, codeOrder. intros a b.
    destruct (String.leb a b) eqn:E; [lia|]. intros _.
    destruct (String.leb_total a b) as [H | H]; [congruence | exact H].
Qed.

End OrderFacts.

(** X21: [prioritizeFiles] keeps every candidate, adds none, and orders them
    by score: by [getPriorityScore] when [filePriority] is not empty, by
    [heuristicScore] otherwise.  A file with a lower score always comes
    before a file with a higher one, whatever the locale makes of the
    names. *)
Theorem X21_prioritizeFiles_orders_by_score :
  forall (minimatch : string -> string -> bool) (config : AsciiAgentConfig)
         (localeCompare : string -> string -> Z) (candidates : list string),
    let score :=
      match filePriority config with
      | _ :: _ => fun p => Agent.getPriorityScore minimatch p (filePriority config)
      | [] => fun p => Agent.heuristicScore p (contextFiles config)
      end in
    let prioritized :=
      Agent.prioritizeFiles minimatch config localeCompare candidates in
    Permutation candidates prioritized
    /\ StronglySorted (OrderFacts.ascending score) prioritized
    /\ (forall i j, (i < j < List.length prioritized)%nat ->
          (score (nth i prioritized EmptyString)
           <= score (nth j prioritized EmptyString))%nat).
Proof.
  intros mm cfg lc candidates score prioritized.
  assert (H : Permutation candidates prioritized
              /\ StronglySorted (OrderFacts.ascending score) prioritized).
  { unfold prioritized, Agent.prioritizeFiles, Agent.sortBy, score.
    destruct (filePriority cfg) as [|p ps]; apply OrderFacts.sortBy_score. }
  destruct H as [Hp Hs]. split; [exact Hp|]. split; [exact Hs|].
  clear Hp. induction Hs as [|x l Hl IH Hall]; intros i j Hij;
    [simpl in Hij; lia|].
  destruct j as [|j]; [lia|]. destruct i as [|i].
  - simpl. rewrite Forall_forall in Hall. apply Hall, nth_In.
    simpl in Hij. lia.
  - simpl. apply IH. simpl in Hij. lia.
Qed.

Lemma X21_witness :
  (Agent.heuristicScore
     (nth 0 (Agent.prioritizeFiles (fun _ _ => false)
               WatcherExamples.config500 (fun _ _ => 0%Z)
               ["docs/a.md"; "src/deep/x.ts"; "src/app.ts"]%string)
          EmptyString) []
   <= Agent.heuristicScore
        (nth 2 (Agent.prioritizeFiles (fun _ _ => false)
                  WatcherExamples.config500 (fun _ _ => 0%Z)
                  ["docs/a.md"; "src/deep/x.ts"; "src/app.ts"]%string)
             EmptyString) [])%nat.
Proof.
  destruct (X21_prioritizeFiles_orders_by_score (fun _ _ => false)
              WatcherExamples.config500 (fun _ _ => 0%Z)
              ["docs/a.md"; "src/deep/x.ts"; "src/app.ts"]%string)
    as (_ & _ & Horder).
  apply (Horder 0%nat 2%nat). vm_compute. lia.
Defined.

(* ---------------------------------------------------------------------- *)
(** ** architecture-agent.ts: walking the workspace *)

Module TreeFacts.
Import Agent.

(** Induction over a directory tree, with the hypothesis for every entry of
    a listing. *)
Section TreeInduction.
Variable P : FsNode -> Prop.
Hypothesis onFile : forall name, P (FsFile name).
Hypothesis onOther : forall name, P (FsOther name).
Hypothesis onUnreadable : forall name, P (FsDirectory name None).
Hypothesis onDirectory :
  forall name entries, Forall P entries -> P (FsDirectory name (Some entries)).

Fixpoint FsNode_tree_ind (n : FsNode) : P n :=
  match n with
  | FsFile name => onFile name
  | FsOther name => onOther name
  | FsDirectory name None => onUnreadable name
  | FsDirectory name (Some entries) =>
      onDirectory name entries
        ((fix all (l : list FsNode) : Forall P l :=
            match l with
            | [] => Forall_nil P
            | x :: rest => Forall_cons x (FsNode_tree_ind x) (all rest)
            end) entries)
  end.
End TreeInduction.

(** File and directory names hold no separator of either kind, as the
    names [readDirectory] returns. *)
Definition cleanName (name : string) : bool :=
  (negb (SaveFacts.hasChar "/"%char name)
   && negb (SaveFacts.hasChar "\"%char name))%bool.

Fixpoint wellNamed (n : FsNode) : bool :=
  (cleanName (nameOf n)
   && match n with
      | FsDirectory _ (Some entries) => forallb wellNamed entries
      | _ => true
      end)%bool.

Lemma lastSegmentFrom_clean name : forall acc,
  SaveFacts.hasChar "/"%char name = false ->
  Utils.lastSegmentFrom acc name = (acc ++ name)%string.
Proof.
  induction name as [|c name IH]; intros acc H; simpl.
  - clear. induction acc as [|x acc IH]; simpl; congruence.
  - simpl in H. apply orb_false_iff in H as [Hc Hn]. rewrite Hc.
    rewrite IH by exact Hn. rewrite <- SaveFacts.append_assoc_string.
    reflexivity.
Qed.

Lemma lastSegmentFrom_under base name : forall acc,
  SaveFacts.hasChar "/"%char name = false ->
  Utils.lastSegmentFrom acc (base ++ "/" ++ name) = name.
Proof.
  induction base as [|c base IH]; intros acc H.
  - simpl. apply (lastSegmentFrom_clean name EmptyString H).
  - change ((String c base ++ "/" ++ name)%string)
      with (String c (base ++ "/" ++ name)%string).
    simpl Utils.lastSegmentFrom.
    destruct (Ascii.eqb c "/"%char); apply IH, H.
Qed.

Lemma lastSegment_childPath base name :
  SaveFacts.hasChar "/"%char name = false ->
  Utils.lastSegment (childPath base name) = name.
Proof.
  intros H. unfold Utils.lastSegment, childPath.
  destruct base as [|c base].
  - apply (lastSegmentFrom_clean name EmptyString H).
  - apply lastSegmentFrom_under, H.
Qed.

Lemma childPath_clean base name :
  SaveFacts.hasChar "\"%char base = false ->
  SaveFacts.hasChar "\"%char name = false ->
  SaveFacts.hasChar "\"%char (childPath base name) = false.
Proof.
  intros Hb Hn. unfold childPath. destruct base as [|c base]; [exact Hn|].
  rewrite !SaveFacts.hasChar_append, Hb, Hn. reflexivity.
Qed.

Section Walking.
Variable minimatch : string -> string -> bool.
Variable config : AsciiAgentConfig.

(** What holds of every path the walk collects. *)
Definition collectable (p : string) : Prop :=
  Utils.matchesAnyPattern minimatch p (architectureWatchPatterns config) = true
  /\ Utils.matchesAnyPattern minimatch p (ignore config) = false
  /\ Utils.matchesAnyPattern minimatch (Utils.lastSegment p) (ignore config)
     = false
  /\ SaveFacts.hasChar "\"%char p = false.

Lemma visit_collectable n : forall base p,
  wellNamed n = true -> SaveFacts.hasChar "\"%char base = false ->
  In p (visit minimatch config base n) -> collectable p.
Proof.
  induction n as [name | name | name | name entries IH]
    using FsNode_tree_ind; intros base p HW Hbase Hin;
    cbn [visit nameOf] in Hin;
    destruct (ignored minimatch config (childPath base name) name) eqn:Eig;
    try contradiction;
    cbn [wellNamed nameOf] in HW;
    apply andb_true_iff in HW as [Hclean HW];
    unfold cleanName in Hclean;
    apply andb_true_iff in Hclean as [Hslash Hback];
    apply negb_true_iff in Hslash, Hback.
  - destruct (Utils.matchesAnyPattern minimatch (childPath base name)
                (architectureWatchPatterns config)) eqn:Earch;
      [|contradiction].
    destruct Hin as [<- | []].
    unfold ignored in Eig. apply orb_false_iff in Eig as [Ep En].
    unfold collectable. rewrite lastSegment_childPath by exact Hslash.
    repeat split; auto. apply childPath_clean; assumption.
  - apply in_flat_map in Hin as (child & Hchild & Hp).
    rewrite Forall_forall in IH.
    apply (IH child Hchild (childPath base name) p); auto.
    + rewrite forallb_forall in HW. apply HW, Hchild.
    + apply childPath_clean; assumption.
Qed.

Lemma walk_collectable entries p :
  forallb wellNamed entries = true ->
  In p (walk minimatch config (Some entries) EmptyString) -> collectable p.
Proof.
  intros HW Hin. cbn [walk] in Hin.
  apply in_flat_map in Hin as (child & Hchild & Hp).
  rewrite forallb_forall in HW.
  apply (visit_collectable child EmptyString p (HW child Hchild) eq_refl Hp).
Qed.

End Walking.

End TreeFacts.

(** X22: the files the agent reads as source context are files whose
    change triggers an architecture update.  In a workspace whose entry
    names hold no separators, every path [collectCandidateFiles] returns
    matches an [architectureWatchPatterns] pattern and is not ignored,
    neither by its path nor by its name; so the watcher classifies a change
    of that file as tree-and-architecture, unless the file is one of the
    two outputs or lies in the history directory. *)
Theorem X22_candidates_are_architecture_triggers :
  forall (minimatch : string -> string -> bool) (config : AsciiAgentConfig)
         (entries : list Agent.FsNode) (workspaceRoot p : string),
    forallb TreeFacts.wellNamed entries = true ->
    In p (Agent.collectCandidateFiles minimatch config (Some entries)) ->
    let rootPath :=
      Utils.stripTrailingSlash (Utils.normalizeSeparators workspaceRoot) in
    TreeFacts.collectable minimatch config p
    /\ Watcher.classifyEvent minimatch config workspaceRoot
         (rootPath ++ "/" ++ p)
       = if (Watcher.has (Watcher.outputFilePaths config) p
             || (Utils.startsWith p ".ascii_history/"
                 || String.eqb p ".ascii_history"))%bool
         then Watcher.Ignore else Watcher.TreeAndArch.
Proof.
  intros mm cfg entries root p HW Hin rootPath.
  assert (Hc : TreeFacts.collectable mm cfg p).
  { apply (TreeFacts.walk_collectable mm cfg entries p HW).
    unfold Agent.collectCandidateFiles in Hin.
    destruct (OrderFacts.sort_spec
                (Agent.walk mm cfg (Some entries) EmptyString)) as [Hp _].
    apply (Permutation_in _ (Permutation_sym Hp) Hin). }
  split; [exact Hc|].
  destruct Hc as (Harch & Hpath & Hname & Hback).
  unfold Watcher.classifyEvent. unfold rootPath.
  rewrite PathFacts.relative_under_root,
    (PathFacts.normalizeSeparators_fixed p Hback).
  rewrite Hpath, Hname, Harch. cbn [orb].
  destruct (Watcher.has (Watcher.outputFilePaths cfg) p); [reflexivity|].
  destruct (Utils.startsWith p ".ascii_history/" || String.eqb p ".ascii_history")%bool;
    reflexivity.
Qed.

Module TreeExamples.
Import Agent.

(** A workspace with sources, an ignored [node_modules], an unreadable
    directory and a symbolic link. *)
Definition workspace : list FsNode :=
  [FsDirectory "src"
     (Some [FsFile "b.ts"; FsFile "a.ts";
            FsDirectory "deep" (Some [FsFile "c.ts"])]);
   FsDirectory "node_modules" (Some [FsDirectory "src" (Some [FsFile "x.ts"])]);
   FsDirectory "locked" None;
   FsOther "link";
   FsFile "README.md"].

(** A matcher that knows the ignore name and the source pattern. *)
Definition matcher (path pattern : string) : bool :=
  (String.eqb path pattern
   || (String.eqb pattern "src/**" && Utils.startsWith path "src/"))%bool.

Example collected :
  collectCandidateFiles matcher ArchExamples.configSrc (Some workspace)
  = ["src/a.ts"; "src/b.ts"; "src/deep/c.ts"]%string.
Proof. reflexivity. Qed.

End TreeExamples.

Lemma X22_witness :
  Watcher.classifyEvent TreeExamples.matcher ArchExamples.configSrc "/ws/"
    "/ws/src/deep/c.ts" = Watcher.TreeAndArch.
Proof.
  destruct (X22_candidates_are_architecture_triggers TreeExamples.matcher
              ArchExamples.configSrc TreeExamples.workspace "/ws/"
              "src/deep/c.ts") as [_ Hclass].
  - reflexivity.
  - vm_compute. auto.
  - exact Hclass.
Defined.

(** X23: [collectCandidateFiles] returns what the walk pushed, nothing
    added or lost, in ascending code-unit order.  The walk pushes a file
    that is not ignored and matches an architecture pattern, and whatever
    the entries of a readable directory that is not ignored push; it
    pushes nothing for an ignored entry (so nothing below an ignored
    directory), for a directory that cannot be read, or for an entry that
    is neither file nor directory; a root that cannot be read gives the
    empty list. *)
Theorem X23_collectCandidateFiles_is_the_sorted_walk :
  forall (minimatch : string -> string -> bool) (config : AsciiAgentConfig)
         (root : option (list Agent.FsNode)),
    (Permutation (Agent.walk minimatch config root EmptyString)
       (Agent.collectCandidateFiles minimatch config root)
     /\ StronglySorted OrderFacts.codeOrder
          (Agent.collectCandidateFiles minimatch config root)
     /\ Agent.collectCandidateFiles minimatch config None = [])
    /\ (forall base name,
          Agent.ignored minimatch config (Agent.childPath base name) name
            = false ->
          (Utils.matchesAnyPattern minimatch (Agent.childPath base name)
             (architectureWatchPatterns config) = true ->
           Agent.visit minimatch config base (Agent.FsFile name)
             = [Agent.childPath base name])
          /\ (forall entries,
                Agent.visit minimatch config base
                  (Agent.FsDirectory name (Some entries))
                = flat_map
                    (Agent.visit minimatch config (Agent.childPath base name))
                    entries))
    /\ (forall base n,
          Agent.ignored minimatch config
            (Agent.childPath base (Agent.nameOf n)) (Agent.nameOf n) = true ->
          Agent.visit minimatch config base n = [])
    /\ (forall base name,
          Agent.visit minimatch config base (Agent.FsDirectory name None) = []
          /\ Agent.visit minimatch config base (Agent.FsOther name) = []).
Proof.
  intros mm cfg root. split; [|split; [|split]].
  - unfold Agent.collectCandidateFiles.
    destruct (OrderFacts.sort_spec (Agent.walk mm cfg root EmptyString))
      as [Hp Hs].
    repeat split; assumption.
  - intros base name Hig. split.
    + intros Hm. cbn [Agent.visit Agent.nameOf]. rewrite Hig, Hm. reflexivity.
    + intros entries. cbn [Agent.visit Agent.nameOf]. rewrite Hig.
      reflexivity.
  - intros base n Hig. destruct n as [name | name [entries|] | name];
      cbn [Agent.visit Agent.nameOf] in *; rewrite Hig; reflexivity.
  - intros base name. split; cbn [Agent.visit Agent.nameOf];
      destruct (Agent.ignored _ _ _ _); reflexivity.
Qed.

Lemma X23_witness :
  Agent.visit TreeExamples.matcher ArchExamples.configSrc EmptyString
    (Agent.FsDirectory "node_modules"
       (Some [Agent.FsDirectory "src" (Some [Agent.FsFile "x.ts"])]))
  = [].
Proof.
  destruct (X23_collectCandidateFiles_is_the_sorted_walk TreeExamples.matcher
              ArchExamples.configSrc None) as (_ & _ & Hignored & _).
  apply Hignored. reflexivity.
Defined.

(* ---------------------------------------------------------------------- *)
(** ** utils.ts: brace expansion *)

Module BraceFacts.
Import Glob.

Definition braceFree (s : string) : bool :=
  (negb (SaveFacts.hasChar "{"%char s) && negb (SaveFacts.hasChar "}"%char s))%bool.

Lemma countOpen_append a b :
  countOpen (a ++ b) = (countOpen a + countOpen b)%nat.
Proof.
  induction a as [|c a IH]; simpl; [reflexivity | rewrite IH; lia].
Qed.

Lemma countOpen_none s :
  countOpen s = 0%nat <-> SaveFacts.hasChar "{"%char s = false.
Proof.
  induction s as [|c s IH]; simpl; [tauto|].
  destruct (Ascii.eqb c "{"%char); simpl; [split; [lia | discriminate]|].
  exact IH.
Qed.

Lemma untilClose_shape s inner after :
  untilClose s = Some (inner, after) ->
  s = (inner ++ "}" ++ after)%string /\ braceFree inner = true.
Proof.
  revert inner. induction s as [|c s IH]; intros inner; simpl; [discriminate|].
  destruct (Ascii.eqb c "}"%char) eqn:Ec.
  - intros H. injection H as <- <-. apply Ascii.eqb_eq in Ec. subst c.
    split; reflexivity.
  - destruct (Ascii.eqb c "{"%char) eqn:Eo; [discriminate|].
    destruct (untilClose s) as [[i a]|]; [|discriminate].
    intros H. injection H as <- <-.
    destruct (IH i eq_refl) as [-> Hfree]. split; [reflexivity|].
    unfold braceFree in *. simpl. rewrite Eo, Ec. exact Hfree.
Qed.

Lemma exec_shape pattern before inner after :
  exec pattern = Some (before, inner, after) ->
  pattern = (before ++ "{" ++ inner ++ "}" ++ after)%string
  /\ braceFree inner = true.
Proof.
  revert before. induction pattern as [|c rest IH]; intros before; simpl;
    [discriminate|].
  destruct (Ascii.eqb c "{"%char) eqn:Eo.
  - destruct (untilClose rest) as [[i a]|] eqn:Eu.
    + intros H. injection H as <- <- <-.
      apply Ascii.eqb_eq in Eo. subst c.
      destruct (untilClose_shape _ _ _ Eu) as [-> Hfree]. split; auto.
    + destruct (exec rest) as [[[b i] a]|]; [|discriminate].
      intros H. injection H as <- <- <-.
      destruct (IH b eq_refl) as [-> Hfree]. split; auto.
  - destruct (exec rest) as [[[b i] a]|]; [|discriminate].
    intros H. injection H as <- <- <-.
    destruct (IH b eq_refl) as [-> Hfree]. split; auto.
Qed.

(** A pattern without an opening brace has no group to expand. *)
Lemma exec_none pattern : countOpen pattern = 0%nat -> exec pattern = None.
Proof.
  induction pattern as [|c rest IH]; simpl; [reflexivity|].
  destruct (Ascii.eqb c "{"%char); [discriminate|].
  simpl. intros H. rewrite IH by exact H. reflexivity.
Qed.

Lemma pieces_open inner :
  countOpen inner = 0%nat ->
  Forall (fun alt => countOpen alt = 0%nat) (Js.split ","%char inner).
Proof.
  induction inner as [|c rest IH]; simpl; [repeat constructor|].
  destruct (Ascii.eqb c "{"%char) eqn:Eo; [discriminate|]. simpl.
  intros H. specialize (IH H).
  destruct (Ascii.eqb c ","%char); [constructor; [reflexivity | exact IH]|].
  destruct (Js.split ","%char rest) as [|p ps];
    [repeat constructor; simpl; rewrite Eo; reflexivity|].
  inversion IH as [|? ? Hp Hps]; subst. constructor; [|exact Hps].
  simpl. rewrite Eo. exact Hp.
Qed.

(** Each alternative put in place of the group leaves one opening brace
    less. *)
Lemma expansion_smaller pattern before inner after alt :
  exec pattern = Some (before, inner, after) ->
  In alt (Js.split ","%char inner) ->
  (countOpen (before ++ alt ++ after) < countOpen pattern)%nat.
Proof.
  intros He Hin. destruct (exec_shape _ _ _ _ He) as [-> Hfree].
  unfold braceFree in Hfree. apply andb_true_iff in Hfree as [Ho _].
  apply negb_true_iff, countOpen_none in Ho.
  pose proof (pieces_open inner Ho) as Hall. rewrite Forall_forall in Hall.
  rewrite !countOpen_append, (Hall alt Hin), Ho. simpl. lia.
Qed.

Lemma flat_map_agree {A B} (f g : A -> list B) l :
  (forall x, In x l -> f x = g x) -> flat_map f l = flat_map g l.
Proof.
  induction l as [|x rest IH]; intros H; simpl; [reflexivity|].
  rewrite (H x) by (left; reflexivity). rewrite IH; [reflexivity|].
  intros y Hy. apply H. right. exact Hy.
Qed.

Lemma within_one_more fuel : forall pattern,
  (countOpen pattern <= fuel)%nat ->
  expandBracesWithin (S fuel) pattern = expandBracesWithin fuel pattern.
Proof.
  induction fuel as [|fuel IH]; intros pattern Hle.
  - simpl. rewrite exec_none by lia. reflexivity.
  - cbn [expandBracesWithin].
    destruct (exec pattern) as [[[before inner] after]|] eqn:He;
      [|reflexivity].
    apply flat_map_agree. intros alt Hin.
    apply IH. pose proof (expansion_smaller _ _ _ _ alt He Hin). lia.
Qed.

(** The depth bound is never reached: more fuel changes nothing. *)
Lemma within_enough extra : forall fuel pattern,
  (countOpen pattern <= fuel)%nat ->
  expandBracesWithin (extra + fuel) pattern = expandBracesWithin fuel pattern.
Proof.
  induction extra as [|extra IH]; intros fuel pattern Hle; [reflexivity|].
  change (S extra + fuel)%nat with (S (extra + fuel)).
  rewrite within_one_more by lia. apply IH, Hle.
Qed.

Lemma within_is_expandBraces fuel pattern :
  (countOpen pattern <= fuel)%nat ->
  expandBracesWithin fuel pattern = expandBraces pattern.
Proof.
  intros Hle. unfold expandBraces.
  replace fuel with ((fuel - countOpen pattern) + countOpen pattern)%nat by lia.
  apply within_enough. lia.
Qed.

(** The recursion of the source. *)
Lemma expandBraces_eq pattern :
  expandBraces pattern
  = match exec pattern with
    | None => [pattern]
    | Some (before, inner, after) =>
        flat_map (fun alt => expandBraces (before ++ alt ++ after))
                 (Js.split ","%char inner)
    end.
Proof.
  destruct (exec pattern) as [[[before inner] after]|] eqn:He.
  - unfold expandBraces at 1.
    destruct (countOpen pattern) as [|fuel] eqn:Ec.
    + rewrite exec_none in He by exact Ec. discriminate.
    + cbn [expandBracesWithin]. rewrite He.
      apply flat_map_agree. intros alt Hin.
      apply within_is_expandBraces.
      pose proof (expansion_smaller _ _ _ _ alt He Hin). lia.
  - unfold expandBraces. destruct (countOpen pattern); simpl; rewrite He;
      reflexivity.
Qed.

Lemma expanded_fully n : forall pattern,
  (countOpen pattern <= n)%nat ->
  expandBraces pattern <> []
  /\ forall r, In r (expandBraces pattern) -> exec r = None.
Proof.
  induction n as [|n IH]; intros pattern Hle; rewrite expandBraces_eq.
  - rewrite exec_none by lia. split; [discriminate|].
    intros r [<- | []]. apply exec_none. lia.
  - destruct (exec pattern) as [[[before inner] after]|] eqn:He.
    + assert (Hsmall : forall alt, In alt (Js.split ","%char inner) ->
                (countOpen (before ++ alt ++ after) <= n)%nat).
      { intros alt Hin. pose proof (expansion_smaller _ _ _ _ alt He Hin).
        lia. }
      split.
      * pose proof (PathFacts.split_nonempty ","%char inner) as Hne.
        destruct (Js.split ","%char inner) as [|alt alts]; [congruence|].
        simpl. destruct (IH _ (Hsmall alt (or_introl eq_refl))) as [Hx _].
        destruct (expandBraces (before ++ alt ++ after)); [congruence|].
        discriminate.
      * intros r Hr. apply in_flat_map in Hr as (alt & Hin & Hr).
        destruct (IH _ (Hsmall alt Hin)) as [_ Hall]. apply Hall, Hr.
    + split; [discriminate|]. intros r [<- | []]. exact He.
Qed.

Lemma untilClose_found inner after :
  braceFree inner = true ->
  untilClose (inner ++ "}" ++ after) = Some (inner, after).
Proof.
  unfold braceFree. induction inner as [|c inner IH]; [reflexivity|].
  simpl. intros H. apply andb_true_iff in H as [Ho Hc].
  apply negb_true_iff, orb_false_iff in Ho as [Ho1 Ho2].
  apply negb_true_iff, orb_false_iff in Hc as [Hc1 Hc2].
  rewrite Hc1, Ho1.
  change (inner ++ String "}"%char after)%string
    with (inner ++ "}" ++ after)%string.
  rewrite IH; [reflexivity|]. rewrite Ho2, Hc2. reflexivity.
Qed.

Lemma exec_found before inner after :
  countOpen before = 0%nat -> braceFree inner = true ->
  exec (before ++ "{" ++ inner ++ "}" ++ after) = Some (before, inner, after).
Proof.
  intros Hb Hi. induction before as [|c before IH].
  - simpl. change (inner ++ String "}"%char after)%string
      with (inner ++ "}" ++ after)%string.
    rewrite untilClose_found by exact Hi. reflexivity.
  - simpl in Hb |- *. destruct (Ascii.eqb c "{"%char); [discriminate|].
    simpl in Hb.
    change (before ++ String "{"%char (inner ++ String "}"%char after))%string
      with (before ++ "{" ++ inner ++ "}" ++ after)%string.
    rewrite IH by exact Hb. reflexivity.
Qed.

End BraceFacts.

(** X24: [expandBraces] terminates on every pattern and satisfies the
    recursion of the source: a pattern without a brace group is returned
    alone, otherwise the leftmost group that holds no brace is replaced by
    each of its comma-separated alternatives and the results are expanded
    in turn.
    The result is never empty and none of its patterns has a group left.
    A single group between brace-free text gives one pattern per
    alternative, in order; on a pattern without braces [minimatch] is
    [matchGlob] on the path with forward slashes. *)
Theorem X24_expandBraces_expands_every_group :
  forall (pattern : string),
    Glob.expandBraces pattern
    = match Glob.exec pattern with
      | None => [pattern]
      | Some (before, inner, after) =>
          flat_map (fun alt => Glob.expandBraces (before ++ alt ++ after))
                   (Js.split ","%char inner)
      end
    /\ Glob.expandBraces pattern <> []
    /\ (forall r, In r (Glob.expandBraces pattern) -> Glob.exec r = None)
    /\ (forall before inner after,
          Glob.countOpen before = 0%nat ->
          BraceFacts.braceFree inner = true ->
          Glob.countOpen after = 0%nat ->
          pattern = (before ++ "{" ++ inner ++ "}" ++ after)%string ->
          Glob.expandBraces pattern
          = map (fun alt => (before ++ alt ++ after)%string)
                (Js.split ","%char inner))
    /\ (forall matchGlob path,
          Glob.countOpen pattern = 0%nat ->
          Glob.minimatch matchGlob path pattern
          = matchGlob (Utils.normalizeSeparators path) pattern).
Proof.
  intros pattern.
  destruct (BraceFacts.expanded_fully (Glob.countOpen pattern) pattern
              (le_n _)) as [Hne Hfull].
  split; [apply BraceFacts.expandBraces_eq|].
  split; [exact Hne|]. split; [exact Hfull|]. split.
  - intros before inner after Hb Hi Ha ->.
    rewrite BraceFacts.expandBraces_eq, BraceFacts.exec_found by assumption.
    assert (Hpieces : Forall (fun alt => Glob.countOpen alt = 0%nat)
                        (Js.split ","%char inner)).
    { apply BraceFacts.pieces_open. unfold BraceFacts.braceFree in Hi.
      apply andb_true_iff in Hi as [Ho _].
      apply negb_true_iff in Ho. apply BraceFacts.countOpen_none, Ho. }
    induction Hpieces as [|alt alts Halt Halts IH]; [reflexivity|].
    simpl. rewrite IH.
    rewrite (BraceFacts.expandBraces_eq (before ++ alt ++ after)).
    rewrite BraceFacts.exec_none
      by (rewrite !BraceFacts.countOpen_append; lia).
    reflexivity.
  - intros matchGlob path Hc. unfold Glob.minimatch.
    rewrite BraceFacts.expandBraces_eq, BraceFacts.exec_none by exact Hc.
    simpl. apply orb_false_r.
Qed.

Lemma X24_witness :
  Glob.expandBraces "src/**/*.{ts,tsx,js,jsx}"
  = ["src/**/*.ts"; "src/**/*.tsx"; "src/**/*.js"; "src/**/*.jsx"]%string.
Proof.
  destruct (X24_expandBraces_expands_every_group "src/**/*.{ts,tsx,js,jsx}")
    as (_ & _ & _ & Hone & _).
  apply (Hone "src/**/*."%string "ts,tsx,js,jsx"%string EmptyString);
    reflexivity.
Defined.

(* ---------------------------------------------------------------------- *)
(** ** tree-generator.ts *)

Module TreeGenFacts.
Import Agent TreeGenerator.

(** The counter and the flag agree: the flag is set exactly when the
    counter has passed the maximum, which it does by one at most. *)
Definition counted (st : Progress) : Prop :=
  0 <= entryCount st <= MAX_ENTRIES + 1
  /\ (truncated st = true <-> entryCount st = MAX_ENTRIES + 1).

(** The line that reports the truncation. *)
Definition truncationLine (line : string) : Prop :=
  exists prefix remaining,
    line = (prefix ++ "... (truncated: " ++ showNumber remaining
            ++ " more entries not shown)")%string.

(** What a run of the walk does to the progress: one line per counted
    entry, and a truncation line last when the run is cut. *)
Definition tallies (run : Progress -> list string * Progress) : Prop :=
  forall st, counted st ->
    counted (snd (run st))
    /\ Z.of_nat (List.length (fst (run st)))
       = entryCount (snd (run st)) - entryCount st
    /\ (truncated st = false -> truncated (snd (run st)) = true ->
        truncationLine (last (fst (run st)) EmptyString)).

Ltac tally := unfold MAX_ENTRIES in *; cbn [entryCount truncated] in *; lia.

Ltac nothing :=
  cbn [entryLoop buildLines fst snd]; split; [assumption|];
  split; [simpl; lia | cbn [fst snd]; congruence].

Lemma last_after {A} (l l' : list A) d :
  l' <> [] -> last (l ++ l') d = last l' d.
Proof.
  intros Hne. induction l as [|x l IH]; [reflexivity|].
  simpl. destruct (l ++ l') eqn:E; [|exact IH].
  apply app_eq_nil in E as [_ E]. congruence.
Qed.

Lemma last_behind {A} (x : A) l d : l <> [] -> last (x :: l) d = last l d.
Proof. destruct l; [congruence | reflexivity]. Qed.

Lemma counted_next st :
  counted st -> truncated st = false ->
  entryCount st + 1 <= MAX_ENTRIES ->
  counted {| entryCount := entryCount st + 1; truncated := truncated st |}.
Proof.
  intros [Hr Ht] Hf Hle. split; [tally|]. cbn [entryCount truncated].
  rewrite Hf. split; [discriminate | tally].
Qed.

Lemma counted_room st :
  counted st -> truncated st = false -> entryCount st <= MAX_ENTRIES.
Proof.
  intros [Hr Ht] Hf.
  destruct (Z.eq_dec (entryCount st) (MAX_ENTRIES + 1)) as [E|E]; [|tally].
  apply Ht in E. congruence.
Qed.

Section Walk.
Variable minimatch : string -> string -> bool.
Variable config : Config.FullConfig.
Variable localeCompare : string -> string -> Z.

Local Abbreviation loop := (entryLoop minimatch config).
Local Abbreviation build := (buildLines minimatch config localeCompare).

Lemma entryLoop_tallies recur relPath prefix :
  (forall sub rp pf, tallies (recur sub rp pf)) ->
  forall items, tallies (loop recur relPath prefix items).
Proof.
  intros Hrec. induction items as [|n rest IH]; intros st Hst;
    [nothing|].
  cbn [entryLoop]. destruct (truncated st) eqn:Ht;
    [nothing|].
  pose proof (counted_room st Hst Ht) as Hroom.
  cbn [entryCount truncated].
  destruct (entryCount st + 1 >? MAX_ENTRIES) eqn:Ecap.
  - apply Z.gtb_lt in Ecap. cbn [fst snd List.length last]. split; [|split].
    + destruct Hst as [Hr _].
      split; [tally|]. split; [intros _; tally | reflexivity].
    + cbn [entryCount]. change (Z.of_nat 1) with 1. lia.
    + intros _ _. eexists _, _. reflexivity.
  - assert (Hle : entryCount st + 1 <= MAX_ENTRIES).
    { destruct (Z.gtb_spec (entryCount st + 1) MAX_ENTRIES);
        [discriminate | lia]. }
    pose proof (counted_next st Hst Ht Hle) as Hst1. rewrite Ht in *.
    set (st1 := {| entryCount := entryCount st + 1; truncated := false |})
      in *.
    assert (Hfile :
      forall line,
        let r := loop recur relPath prefix rest st1 in
        counted (snd r)
        /\ Z.of_nat (List.length (line :: fst r))
           = entryCount (snd r) - entryCount st
        /\ (truncated (snd r) = true ->
            truncationLine (last (line :: fst r) EmptyString))).
    { intros line r. destruct (IH st1 Hst1) as (Hc & Hl & Hlast).
      fold r in Hc, Hl, Hlast. split; [exact Hc|]. split.
      - cbn [List.length]. rewrite Nat2Z.inj_succ, Hl. unfold st1.
        cbn [entryCount]. lia.
      - intros Htr. specialize (Hlast eq_refl Htr).
        destruct (fst r) as [|x l] eqn:E.
        + exfalso. destruct Hc as [_ Hiff]. apply Hiff in Htr.
          change (Z.of_nat (List.length (@nil string))) with 0 in Hl.
          unfold st1 in Hl. tally.
        + rewrite last_behind by discriminate. exact Hlast. }
    destruct n as [name | name sub | name].
    + specialize (Hfile (prefix
                         ++ (if match rest with [] => true | _ => false end
                             then lastConnector else midConnector)
                         ++ name
                         ++ tagSuffixOf
                              (resolveTag minimatch
                                 (childPath relPath name)
                                 (tagMap config)))%string).
      cbv zeta in Hfile. cbn [nameOf].
      destruct (loop recur relPath prefix rest st1) as [restLines st3].
      cbn [fst snd] in *. destruct Hfile as (Hc & Hl & Hlast).
      split; [exact Hc|]. split; [exact Hl | intros _; exact Hlast].
    + cbn [nameOf].
      destruct (Hrec sub (childPath relPath name)
                  (prefix ++ (if match rest with [] => true | _ => false end
                              then lastPrefix else midPrefix))%string
                  st1 Hst1) as (Hc2 & Hl2 & Hlast2).
      destruct (recur sub (childPath relPath name) _ st1)
        as [childLines st2].
      cbn [fst snd] in *.
      destruct (IH st2 Hc2) as (Hc3 & Hl3 & Hlast3).
      destruct (loop recur relPath prefix rest st2) as [restLines st3] eqn:Er.
      cbn [fst snd] in *. split; [exact Hc3|]. split.
      * cbn [List.length]. rewrite Nat2Z.inj_succ, length_app, Nat2Z.inj_add.
        unfold st1 in Hl2. cbn [entryCount] in Hl2. lia.
      * intros _ Htr.
        destruct (truncated st2) eqn:Et2.
        -- assert (Hrest : restLines = [] /\ st3 = st2).
           { destruct rest as [|m rest']; cbn [entryLoop] in Er;
               [|rewrite Et2 in Er]; injection Er as <- <-; auto. }
           destruct Hrest as [-> ->]. rewrite app_nil_r.
           specialize (Hlast2 eq_refl eq_refl).
           destruct childLines as [|x l].
           ++ exfalso. destruct Hc2 as [_ Hiff]. apply Hiff in Et2.
              change (Z.of_nat (List.length (@nil string))) with 0 in Hl2.
              unfold st1 in Hl2. tally.
           ++ rewrite last_behind by discriminate. exact Hlast2.
        -- specialize (Hlast3 eq_refl Htr).
           destruct restLines as [|x l].
           ++ exfalso. destruct Hc3 as [_ Hiff3].
              apply Hiff3 in Htr. destruct Hc2 as [_ Hiff2].
              change (Z.of_nat (List.length (@nil string))) with 0 in Hl3.
              assert (E2 : entryCount st2 = MAX_ENTRIES + 1) by lia.
              apply Hiff2 in E2. congruence.
           ++ rewrite last_behind
                by (intros E; apply app_eq_nil in E as [_ E]; discriminate).
              rewrite last_after by discriminate. exact Hlast3.
    + specialize (Hfile (prefix
                         ++ (if match rest with [] => true | _ => false end
                             then lastConnector else midConnector)
                         ++ name
                         ++ tagSuffixOf
                              (resolveTag minimatch
                                 (childPath relPath name)
                                 (tagMap config)))%string).
      cbv zeta in Hfile. cbn [nameOf].
      destruct (loop recur relPath prefix rest st1) as [restLines st3].
      cbn [fst snd] in *. destruct Hfile as (Hc & Hl & Hlast).
      split; [exact Hc|]. split; [exact Hl | intros _; exact Hlast].
Qed.

Lemma buildLines_tallies fuel : forall listing relPath prefix,
  tallies (build fuel listing relPath prefix).
Proof.
  induction fuel as [|fuel IH]; intros listing relPath prefix st Hst;
    [nothing|].
  cbn [buildLines]. destruct (truncated st) eqn:Ht;
    [nothing|].
  destruct listing as [entries|]; [|nothing].
  destruct (entryLoop_tallies (build fuel) relPath prefix IH
              (sortEntries localeCompare (shown minimatch config relPath entries))
              st Hst) as (Hc & Hl & Hlast).
  split; [exact Hc|]. split; [exact Hl|]. intros _. exact (Hlast Ht).
Qed.

End Walk.

End TreeGenFacts.

Module TreeDepthFacts.
Import Agent TreeGenerator.

Lemma depthOf_directory name sub :
  depthOf (FsDirectory name sub) = depthOfListing sub.
Proof. destruct sub; reflexivity. Qed.

Lemma depthOf_entry entries n :
  In n entries ->
  (depthOf n
   <= fold_right (fun child d => Nat.max (depthOf child) d) 0%nat entries)%nat.
Proof.
  induction entries as [|x rest IH]; simpl; [contradiction|].
  intros [-> | H]; [lia|]. specialize (IH H). lia.
Qed.

Section Sorting.
Variable localeCompare : string -> string -> Z.

Lemma insertEntry_from x l z :
  In z (insertEntry localeCompare x l) -> z = x \/ In z l.
Proof.
  induction l as [|y rest IH]; simpl; [intros [<- | []]; auto|].
  destruct (compareEntries localeCompare y x <=? 0); simpl.
  - intros [<- | H]; [auto|]. destruct (IH H); auto.
  - intros [<- | [<- | H]]; auto.
Qed.

Lemma sortEntries_from l z :
  In z (sortEntries localeCompare l) -> In z l.
Proof.
  unfold sortEntries.
  assert (H : forall acc,
             In z (fold_left (fun a x => insertEntry localeCompare x a) l acc)
             -> In z acc \/ In z l).
  { induction l as [|x rest IH]; intros acc; simpl; [auto|].
    intros Hin. destruct (IH _ Hin) as [Ha | Hr]; [|auto].
    apply insertEntry_from in Ha as [-> | Ha]; auto. }
  intros Hin. destruct (H [] Hin) as [[] | Hl]. exact Hl.
Qed.
End Sorting.

Section Walk.
Variable minimatch : string -> string -> bool.
Variable config : Config.FullConfig.
Variable localeCompare : string -> string -> Z.

Local Abbreviation loop := (entryLoop minimatch config).
Local Abbreviation build := (buildLines minimatch config localeCompare).

(** The loop only calls [recur] on the listings of its directories. *)
Lemma entryLoop_agree recur1 recur2 relPath prefix : forall items st,
  (forall name sub, In (FsDirectory name sub) items ->
     forall rp pf st', recur1 sub rp pf st' = recur2 sub rp pf st') ->
  loop recur1 relPath prefix items st = loop recur2 relPath prefix items st.
Proof.
  induction items as [|n rest IH]; intros st Hsame; [reflexivity|].
  cbn [entryLoop]. destruct (truncated st); [reflexivity|].
  destruct (_ >? MAX_ENTRIES); [reflexivity|].
  assert (Hrest : forall st', loop recur1 relPath prefix rest st'
                              = loop recur2 relPath prefix rest st').
  { intros st'. apply IH. intros name sub Hin.
    apply (Hsame name sub). right. exact Hin. }
  destruct n as [name | name sub | name]; cbn [nameOf].
  - rewrite Hrest. reflexivity.
  - rewrite (Hsame name sub (or_introl eq_refl)).
    destruct (recur2 sub _ _ _) as [childLines st2]. rewrite Hrest.
    reflexivity.
  - rewrite Hrest. reflexivity.
Qed.

Lemma buildLines_one_more fuel : forall listing relPath prefix st,
  (depthOfListing listing <= fuel)%nat ->
  build (S fuel) listing relPath prefix st
  = build fuel listing relPath prefix st.
Proof.
  induction fuel as [|fuel IH]; intros listing relPath prefix st Hd.
  - destruct listing; simpl in Hd; lia.
  - change (build (S (S fuel)) listing relPath prefix st)
      with (if truncated st then ([], st)
            else match listing with
                 | None => ([], st)
                 | Some entries =>
                     loop (build (S fuel)) relPath prefix
                       (sortEntries localeCompare
                          (shown minimatch config relPath entries)) st
                 end).
    change (build (S fuel) listing relPath prefix st)
      with (if truncated st then ([], st)
            else match listing with
                 | None => ([], st)
                 | Some entries =>
                     loop (build fuel) relPath prefix
                       (sortEntries localeCompare
                          (shown minimatch config relPath entries)) st
                 end).
    destruct (truncated st); [reflexivity|].
    destruct listing as [entries|]; [|reflexivity].
    apply entryLoop_agree. intros name sub Hin rp pf st'.
    apply IH. apply sortEntries_from in Hin.
    unfold shown in Hin. apply filter_In in Hin as [Hin _].
    pose proof (depthOf_entry entries _ Hin) as Hn.
    rewrite depthOf_directory in Hn. simpl in Hd. lia.
Qed.

(** The depth bound is never reached: more fuel changes nothing. *)
Lemma buildLines_enough extra : forall fuel listing relPath prefix st,
  (depthOfListing listing <= fuel)%nat ->
  build (extra + fuel) listing relPath prefix st
  = build fuel listing relPath prefix st.
Proof.
  induction extra as [|extra IH]; intros fuel listing relPath prefix st Hd;
    [reflexivity|].
  change (S extra + fuel)%nat with (S (extra + fuel)).
  rewrite buildLines_one_more by lia. apply IH, Hd.
Qed.

End Walk.

End TreeDepthFacts.

(** X25: the file tree is capped.  Whatever the workspace holds,
    [buildLines] returns one line per entry it counted, and never more
    than [MAX_ENTRIES] + 1 = 5001 lines; the cap is reached exactly when
    the walk was cut, and then the last line is the truncation notice. *)
Theorem X25_file_tree_is_capped :
  forall (minimatch : string -> string -> bool) (config : Config.FullConfig)
         (localeCompare : string -> string -> Z) (fuel : nat)
         (listing : option (list Agent.FsNode)) (relPath prefix : string),
    let run :=
      TreeGenerator.buildLines minimatch config localeCompare fuel listing
        relPath prefix
        {| TreeGenerator.entryCount := 0; TreeGenerator.truncated := false |} in
    Z.of_nat (List.length (fst run)) = TreeGenerator.entryCount (snd run)
    /\ Z.of_nat (List.length (fst run)) <= TreeGenerator.MAX_ENTRIES + 1
    /\ (TreeGenerator.truncated (snd run) = true <->
        Z.of_nat (List.length (fst run)) = TreeGenerator.MAX_ENTRIES + 1)
    /\ (TreeGenerator.truncated (snd run) = true ->
        TreeGenFacts.truncationLine (last (fst run) EmptyString)).
Proof.
  intros mm cfg lc fuel listing relPath prefix run.
  assert (H0 : TreeGenFacts.counted
                 {| TreeGenerator.entryCount := 0;
                    TreeGenerator.truncated := false |}).
  { split; simpl; [unfold TreeGenerator.MAX_ENTRIES; lia|].
    split; [discriminate | unfold TreeGenerator.MAX_ENTRIES; lia]. }
  destruct (TreeGenFacts.buildLines_tallies mm cfg lc fuel listing relPath
              prefix _ H0) as ([Hr Hiff] & Hl & Hlast).
  fold run in Hr, Hiff, Hl, Hlast. cbn [TreeGenerator.entryCount] in Hl.
  rewrite Z.sub_0_r in Hl.
  split; [exact Hl|]. split; [lia|]. split; [rewrite Hl; exact Hiff|].
  intros Htr. apply Hlast; [reflexivity | exact Htr].
Qed.

Module TreeGenExamples.
Import Agent.

Definition plain : Config.FullConfig :=
  {| Config.core := ArchExamples.configSrc;
     Config.autoWatchEnabled := true;
     Config.tags := Some [("src/**"%string, "[source]"%string)] |}.

(** Names compared as code units. *)
Definition byCode (a b : string) : Z :=
  match String.compare a b with
  | Lt => -1
  | Eq => 0
  | Gt => 1
  end.

Definition small : list FsNode :=
  [FsFile "README.md";
   FsDirectory "node_modules" (Some [FsFile "x.js"]);
   FsDirectory "src" (Some [FsFile "b.ts"; FsFile "a.ts"])].

Definition smallLines : list string :=
  ["ws/"%string;
   (TreeGenerator.midConnector ++ "src/")%string;
   (TreeGenerator.midPrefix ++ TreeGenerator.midConnector
      ++ "a.ts  [source]")%string;
   (TreeGenerator.midPrefix ++ TreeGenerator.lastConnector
      ++ "b.ts  [source]")%string;
   (TreeGenerator.lastConnector ++ "README.md")%string].

Example small_tree :
  TreeGenerator.generateFileTree TreeExamples.matcher plain byCode
    "/home/me/ws" (Some small)
  = (Js.join Assembler.newline smallLines ++ Assembler.newline)%string.
Proof. reflexivity. Qed.

End TreeGenExamples.

Lemma X25_witness :
  Z.of_nat
    (List.length
       (fst (TreeGenerator.buildLines TreeExamples.matcher
               TreeGenExamples.plain TreeGenExamples.byCode 2
               (Some TreeGenExamples.small) EmptyString EmptyString
               {| TreeGenerator.entryCount := 0;
                  TreeGenerator.truncated := false |})))
  = 4.
Proof.
  destruct (X25_file_tree_is_capped TreeExamples.matcher
              TreeGenExamples.plain TreeGenExamples.byCode 2
              (Some TreeGenExamples.small) EmptyString EmptyString)
    as (Hcount & _).
  rewrite Hcount. reflexivity.
Defined.

(** X26: [generateFileTree] is total and its output has a fixed shape.
    The recursion of [buildLines] never goes deeper than the workspace
    does, so a larger bound gives the same lines.  The output is the root
    line (the last segment of the root path and a slash; the two
    fallbacks of [rootName] are never taken) followed by the body lines,
    joined by newlines and ended by one; an unreadable root gives the
    root line alone. *)
Theorem X26_generateFileTree_shape :
  forall (minimatch : string -> string -> bool) (config : Config.FullConfig)
         (localeCompare : string -> string -> Z) (rootPath : string)
         (root : option (list Agent.FsNode)) (extra : nat)
         (relPath prefix : string) (st : TreeGenerator.Progress),
    TreeGenerator.buildLines minimatch config localeCompare
      (extra + TreeGenerator.depthOfListing root) root relPath prefix st
    = TreeGenerator.buildLines minimatch config localeCompare
        (TreeGenerator.depthOfListing root) root relPath prefix st
    /\ TreeGenerator.generateFileTree minimatch config localeCompare rootPath
         root
       = (Js.join Assembler.newline
            ((Utils.lastSegment rootPath ++ "/")%string
             :: fst (TreeGenerator.buildLines minimatch config localeCompare
                       (TreeGenerator.depthOfListing root) root EmptyString
                       EmptyString
                       {| TreeGenerator.entryCount := 0;
                          TreeGenerator.truncated := false |}))
          ++ Assembler.newline)%string
    /\ TreeGenerator.generateFileTree minimatch config localeCompare rootPath
         None
       = (Utils.lastSegment rootPath ++ "/" ++ Assembler.newline)%string
    /\ Utils.endsWith
         (TreeGenerator.generateFileTree minimatch config localeCompare
            rootPath root) Assembler.newline = true.
Proof.
  intros mm cfg lc rootPath root extra relPath prefix st.
  assert (Hroot : last (Js.split "/"%char rootPath) EmptyString
                  = Utils.lastSegment rootPath).
  { unfold Utils.lastSegment. rewrite PathFacts.lastSegmentFrom_split.
    destruct (Js.split "/"%char rootPath) as [|p [|q ps]]; reflexivity. }
  split; [apply TreeDepthFacts.buildLines_enough; lia|].
  unfold TreeGenerator.generateFileTree. cbv zeta. rewrite Hroot.
  split; [reflexivity|]. split.
  - cbn [TreeGenerator.depthOfListing TreeGenerator.buildLines
         TreeGenerator.truncated fst Js.join].
    rewrite <- SaveFacts.append_assoc_string. reflexivity.
  - apply SaveFacts.endsWith_appended.
Qed.

Lemma X26_witness :
  TreeGenerator.generateFileTree TreeExamples.matcher TreeGenExamples.plain
    TreeGenExamples.byCode "/home/me/ws" None
  = ("ws/" ++ Assembler.newline)%string.
Proof.
  destruct (X26_generateFileTree_shape TreeExamples.matcher
              TreeGenExamples.plain TreeGenExamples.byCode "/home/me/ws"
              None 0 EmptyString EmptyString
              {| TreeGenerator.entryCount := 0;
                 TreeGenerator.truncated := false |})
    as (_ & _ & Hnone & _).
  exact Hnone.
Defined.

(* ---------------------------------------------------------------------- *)
(** ** architecture-agent.ts: what reaches the prompt *)

Module ContextFacts.

Section Pipeline.
Variable minimatch : string -> string -> bool.
Variable config : AsciiAgentConfig.
Variable localeCompare : string -> string -> Z.
Variable readFile : string -> option string.
Variable model : option Assembler.LanguageModelChat.
Variable tokenBudget : nat.

(** The sections [gatherSourceContext(config, workspaceRoot, tokenBudget,
    model)] joins: the candidates are collected, put in priority order,
    and read while they fit. *)
Definition sourceSections (root : option (list Agent.FsNode)) : list string :=
  Assembler.selectedSections readFile model tokenBudget
    (Agent.prioritizeFiles minimatch config localeCompare
       (Agent.collectCandidateFiles minimatch config root)).

Lemma prioritized_from candidates p :
  In p (Agent.prioritizeFiles minimatch config localeCompare candidates) ->
  In p candidates.
Proof.
  unfold Agent.prioritizeFiles. intros H.
  destruct (filePriority config) as [|x xs].
  - destruct (OrderFacts.sortBy_score localeCompare
                (fun q => Agent.heuristicScore q (contextFiles config))
                candidates) as [Hp _].
    apply (Permutation_in _ (Permutation_sym Hp) H).
  - destruct (OrderFacts.sortBy_score localeCompare
                (fun q => Agent.getPriorityScore minimatch q (x :: xs))
                candidates) as [Hp _].
    apply (Permutation_in _ (Permutation_sym Hp) H).
Qed.

End Pipeline.

End ContextFacts.

(** X27: only watched, not ignored files reach the source context of the
    prompt, and never more than the budget.  In a workspace whose entry names hold no
    separators, every section of the source context is the whole section
    of a readable file that matches an [architectureWatchPatterns]
    pattern and that the [ignore] patterns match neither by path nor by
    name, with none of its ancestors ignored; the measured size of all
    sections together stays within the token budget. *)
Theorem X27_source_context_holds_only_watched_files :
  forall (minimatch : string -> string -> bool) (config : AsciiAgentConfig)
         (localeCompare : string -> string -> Z)
         (readFile : string -> option string)
         (model : option Assembler.LanguageModelChat) (tokenBudget : nat)
         (entries : list Agent.FsNode),
    forallb TreeFacts.wellNamed entries = true ->
    let sections :=
      ContextFacts.sourceSections minimatch config localeCompare readFile
        model tokenBudget (Some entries) in
    (forall section, In section sections ->
       exists relPath content,
         section = Assembler.fileSectionOf relPath content
         /\ readFile relPath = Some content
         /\ In relPath
              (Agent.walk minimatch config (Some entries) EmptyString)
         /\ TreeFacts.collectable minimatch config relPath)
    /\ (Assembler.measuredSize model sections <= tokenBudget)%nat.
Proof.
  intros mm cfg lc readFile model budget entries HW sections. split.
  - intros section Hin.
    unfold sections, ContextFacts.sourceSections, Assembler.selectedSections
      in Hin.
    apply AssemblerFacts.gatherLoop_whole in Hin
      as [[] | (relPath & content & Hp & Hr & ->)].
    exists relPath, content. split; [reflexivity|]. split; [exact Hr|].
    apply ContextFacts.prioritized_from in Hp.
    unfold Agent.collectCandidateFiles in Hp.
    destruct (OrderFacts.sort_spec
                (Agent.walk mm cfg (Some entries) EmptyString)) as [Hperm _].
    apply (Permutation_in _ (Permutation_sym Hperm)) in Hp.
    split; [exact Hp|].
    apply (TreeFacts.walk_collectable mm cfg entries relPath HW Hp).
  - unfold sections, ContextFacts.sourceSections, Assembler.selectedSections.
    destruct (AssemblerFacts.gatherLoop_within readFile model budget
                (Agent.prioritizeFiles mm cfg lc
                   (Agent.collectCandidateFiles mm cfg (Some entries)))
                [] 0%nat eq_refl (Nat.le_0_l _)) as [Heq Hle].
    rewrite <- Heq. exact Hle.
Qed.

Module ContextExamples.

(** Every file reads as one line. *)
Definition oneLine (relPath : string) : option string := Some "x"%string.

End ContextExamples.

Lemma X27_witness :
  (Assembler.measuredSize None
     (ContextFacts.sourceSections TreeExamples.matcher ArchExamples.configSrc
        TreeGenExamples.byCode ContextExamples.oneLine None 12
        (Some TreeExamples.workspace))
   <= 12)%nat.
Proof.
  destruct (X27_source_context_holds_only_watched_files TreeExamples.matcher
              ArchExamples.configSrc TreeGenExamples.byCode
              ContextExamples.oneLine None 12 TreeExamples.workspace)
    as [_ Hsize].
  - reflexivity.
  - exact Hsize.
Defined.

(* ---------------------------------------------------------------------- *)
(** ** tree-generator.ts: the order of a listing *)

Module ListingFacts.
Import Agent TreeGenerator.

(** No file stands before a directory. *)
Definition directoriesFirst (a b : FsNode) : Prop :=
  isDirectory b = true -> isDirectory a = true.

Section Sorting.
Variable localeCompare : string -> string -> Z.

Local Abbreviation compare := (compareEntries localeCompare).
Local Abbreviation insert := (insertEntry localeCompare).

Lemma compareEntries_le a b : compare a b <= 0 -> directoriesFirst a b.
Proof.
  unfold compareEntries, directoriesFirst.
  destruct (isDirectory a), (isDirectory b); simpl; intros; auto; try lia.
Qed.

Lemma compareEntries_gt a b : 0 < compare a b -> directoriesFirst b a.
Proof.
  unfold compareEntries, directoriesFirst.
  destruct (isDirectory a), (isDirectory b); simpl; intros; auto; try lia.
Qed.

Lemma insertEntry_perm x l : Permutation (x :: l) (insert x l).
Proof.
  induction l as [|y rest IH]; cbn [insertEntry]; [apply Permutation_refl|].
  destruct (compare y x <=? 0); [|apply Permutation_refl].
  eapply perm_trans; [apply perm_swap|]. apply perm_skip, IH.
Qed.

Lemma insertEntry_first x l :
  StronglySorted directoriesFirst l ->
  StronglySorted directoriesFirst (insert x l).
Proof.
  induction l as [|y rest IH]; intros HS; cbn [insertEntry].
  - repeat constructor.
  - inversion HS as [|? ? Hrest Hall]; subst.
    destruct (compare y x <=? 0) eqn:E.
    + apply Z.leb_le in E. constructor; [apply IH, Hrest|].
      apply Forall_forall. intros z Hz.
      apply TreeDepthFacts.insertEntry_from in Hz as [-> | Hz].
      * apply compareEntries_le, E.
      * rewrite Forall_forall in Hall. apply Hall, Hz.
    + apply Z.leb_gt in E. constructor; [exact HS|].
      pose proof (compareEntries_gt y x E) as Hxy.
      constructor; [exact Hxy|].
      rewrite Forall_forall in *. intros z Hz. specialize (Hall z Hz).
      unfold directoriesFirst in *. auto.
Qed.

Lemma sortEntries_spec l : forall acc,
  StronglySorted directoriesFirst acc ->
  Permutation (acc ++ l) (fold_left (fun a x => insert x a) l acc)
  /\ StronglySorted directoriesFirst (fold_left (fun a x => insert x a) l acc).
Proof.
  induction l as [|x rest IH]; intros acc HS; simpl.
  - rewrite app_nil_r. split; [apply Permutation_refl | exact HS].
  - destruct (IH (insert x acc) (insertEntry_first x acc HS)) as [Hp Hs].
    split; [|exact Hs].
    eapply perm_trans; [|exact Hp].
    eapply perm_trans; [apply Permutation_sym, Permutation_middle|].
    apply (Permutation_app_tail rest (insertEntry_perm x acc)).
Qed.
End Sorting.

End ListingFacts.

(** X28: in every directory of the tree the entries listed are exactly the
    entries that are not ignored (by path or by name), each once, with
    all directories before all other entries, whatever the locale makes
    of the names. *)
Theorem X28_listing_shows_directories_first :
  forall (minimatch : string -> string -> bool) (config : Config.FullConfig)
         (localeCompare : string -> string -> Z) (relPath : string)
         (entries : list Agent.FsNode),
    let listed :=
      TreeGenerator.sortEntries localeCompare
        (TreeGenerator.shown minimatch config relPath entries) in
    Permutation (TreeGenerator.shown minimatch config relPath entries) listed
    /\ (forall n, In n listed <->
          In n entries
          /\ Agent.ignored minimatch (Config.core config)
               (Agent.childPath relPath (Agent.nameOf n)) (Agent.nameOf n)
             = false)
    /\ (forall i j, (i < j < List.length listed)%nat ->
          TreeGenerator.isDirectory (nth j listed (Agent.FsOther EmptyString))
            = true ->
          TreeGenerator.isDirectory (nth i listed (Agent.FsOther EmptyString))
            = true).
Proof.
  intros mm cfg lc relPath entries listed.
  destruct (ListingFacts.sortEntries_spec lc
              (TreeGenerator.shown mm cfg relPath entries) []
              (SSorted_nil _)) as [Hp Hs].
  fold (TreeGenerator.sortEntries lc
          (TreeGenerator.shown mm cfg relPath entries)) in Hp, Hs.
  fold listed in Hp, Hs. simpl in Hp.
  split; [exact Hp|]. split.
  - intros n. split.
    + intros Hin. apply (Permutation_in _ (Permutation_sym Hp)) in Hin.
      unfold TreeGenerator.shown in Hin. apply filter_In in Hin as [Hin Hs'].
      apply negb_true_iff in Hs'. auto.
    + intros [Hin Hig]. apply (Permutation_in _ Hp).
      unfold TreeGenerator.shown. apply filter_In. split; [exact Hin|].
      apply negb_true_iff, Hig.
  - clear Hp. induction Hs as [|x l Hl IH Hall]; intros i j Hij;
      [simpl in Hij; lia|].
    destruct j as [|j]; [lia|]. destruct i as [|i].
    + simpl. intros Hj. rewrite Forall_forall in Hall.
      apply (Hall (nth j l (Agent.FsOther EmptyString)));
        [apply nth_In; simpl in Hij; lia | exact Hj].
    + simpl. apply IH. simpl in Hij. lia.
Qed.

Lemma X28_witness :
  In (Agent.FsFile "README.md")
    (TreeGenerator.sortEntries TreeGenExamples.byCode
       (TreeGenerator.shown TreeExamples.matcher TreeGenExamples.plain
          EmptyString TreeGenExamples.small))
  /\ ~ In (Agent.FsDirectory "node_modules" (Some [Agent.FsFile "x.js"]))
        (TreeGenerator.sortEntries TreeGenExamples.byCode
           (TreeGenerator.shown TreeExamples.matcher TreeGenExamples.plain
              EmptyString TreeGenExamples.small)).
Proof.
  destruct (X28_listing_shows_directories_first TreeExamples.matcher
              TreeGenExamples.plain TreeGenExamples.byCode EmptyString
              TreeGenExamples.small) as (_ & Hlisted & _).
  split.
  - apply Hlisted. split; [simpl; auto | reflexivity].
  - intros Hin. apply Hlisted in Hin as [_ Hig]. vm_compute in Hig.
    discriminate.
Defined.

(* ---------------------------------------------------------------------- *)
(** ** lm-client.ts: the caller's cancellation token *)

Module TokenFacts.
Import LmClient LmFacts.

(** Call [c] streams its first attempt with [fullText] so far; its token
    source is intact; [wired] tells whether the caller passed a token. *)
Definition streamingWith (wired : bool) (fullText : string) (c : nat)
  (s : Client) : Prop :=
  calls s c = Streaming 0 fullText /\ cancelled s c = false
  /\ tokenListener s c = wired.

Lemma streamingWith_chunk wired fullText c chunk s :
  streamingWith wired fullText c s ->
  streamingWith wired (fullText ++ chunk) c (step (Chunk c chunk) s).
Proof.
  intros (Hc & Hx & Hw). simpl. unfold chunkArrived. rewrite Hc, Hx.
  unfold streamingWith. cbn. rewrite upd_same. auto.
Qed.

Lemma streamingWith_chunks wired c chunks : forall fullText s,
  streamingWith wired fullText c s ->
  streamingWith wired (fold_left String.append chunks fullText) c
    (run (map (Chunk c) chunks) s).
Proof.
  induction chunks as [|chunk rest IH]; intros fullText s H; [exact H|].
  unfold run in *. simpl. apply IH, streamingWith_chunk, H.
Qed.

Lemma streamingWith_start wired c s :
  calls s c = NotCalled -> isAvailable s = true ->
  streamingWith wired EmptyString c
    (run [SendPrompt c wired; ResponseArrived c] s).
Proof.
  intros Hc Hav. unfold isAvailable in Hav.
  destruct (cachedModel s) as [m|] eqn:Em; [|discriminate].
  apply negb_true_iff in Hav.
  unfold run. simpl. unfold sendPrompt. rewrite Hc, Hav, Em.
  unfold responseArrived. rewrite calls_beginRequest, upd_same.
  unfold streamingWith. cbn [calls setCall set_calls].
  rewrite upd_same. split; [reflexivity|].
  cbn [cancelled tokenListener setCall set_calls].
  rewrite cancelled_beginRequest, upd_same. split; [reflexivity|].
  unfold beginRequest. cbv zeta. cbn. apply upd_same.
Qed.

End TokenFacts.

(** X29: cancelling the token the caller passed to [sendPrompt] makes the
    call return what it has, without throwing.  With a token, once the
    stream has delivered some chunks and the token is cancelled, the
    token source of the call is cancelled (and only that happens), and at
    the next thing the stream delivers, a chunk or its end, the call
    returns the text of the chunks received before; after that the
    listener is gone and a further cancellation does nothing.  Without a
    token the same cancellation does nothing at all. *)
Theorem X29_external_cancellation_returns_partial_text :
  forall (s : LmClient.Client) (c : nat) (chunks : list string),
    LmClient.calls s c = LmClient.NotCalled ->
    LmClient.isAvailable s = true ->
    let streamed wired :=
      LmClient.run
        ([LmClient.SendPrompt c wired; LmClient.ResponseArrived c]
         ++ map (LmClient.Chunk c) chunks) s in
    (let s1 := LmClient.step (LmClient.ExternalCancel c) (streamed true) in
     LmClient.effects s1
       = LmClient.effects (streamed true) ++ [LmClient.CancelCts c]
     /\ LmClient.calls s1 c = LmClient.calls (streamed true) c
     /\ forall next,
          LmFacts.delivery c next ->
          let s2 := LmClient.step next s1 in
          LmClient.calls s2 c = LmClient.Returned (LmFacts.accumulate chunks)
          /\ LmClient.currentRequestCts s2 = None
          /\ LmClient.step (LmClient.ExternalCancel c) s2 = s2)
    /\ LmClient.step (LmClient.ExternalCancel c) (streamed false)
       = streamed false.
Proof.
  intros s c chunks Hc Hav streamed.
  assert (Hst : forall wired,
             TokenFacts.streamingWith wired (LmFacts.accumulate chunks) c
               (streamed wired)
             /\ LmClient.currentRequestCts (streamed wired) = Some c).
  { intros wired. unfold streamed, LmFacts.accumulate.
    unfold LmClient.run. rewrite fold_left_app.
    fold (LmClient.run [LmClient.SendPrompt c wired; LmClient.ResponseArrived c] s).
    fold (LmClient.run (map (LmClient.Chunk c) chunks)
            (LmClient.run [LmClient.SendPrompt c wired;
                           LmClient.ResponseArrived c] s)).
    pose proof (TokenFacts.streamingWith_start wired c s Hc Hav) as H0.
    split; [apply TokenFacts.streamingWith_chunks, H0|].
    assert (Hslot0 : LmClient.currentRequestCts
                       (LmClient.run [LmClient.SendPrompt c wired;
                                      LmClient.ResponseArrived c] s)
                     = Some c).
    { unfold LmClient.isAvailable in Hav.
      destruct (LmClient.cachedModel s) as [m|] eqn:Em; [|discriminate].
      apply negb_true_iff in Hav.
      unfold LmClient.run. simpl. unfold LmClient.sendPrompt.
      rewrite Hc, Hav, Em. unfold LmClient.responseArrived.
      rewrite LmFacts.calls_beginRequest, LmFacts.upd_same. reflexivity. }
    revert H0 Hslot0.
    generalize (LmClient.run [LmClient.SendPrompt c wired;
                              LmClient.ResponseArrived c] s).
    generalize (@EmptyString).
    induction chunks as [|chunk rest IH]; intros txt st H0 Hslot0;
      [exact Hslot0|].
    unfold LmClient.run. simpl.
    apply (IH (txt ++ chunk)%string);
      [apply TokenFacts.streamingWith_chunk, H0|].
    destruct H0 as (H1 & H2 & _). unfold LmClient.chunkArrived.
    rewrite H1, H2. exact Hslot0. }
  split.
  - destruct (Hst true) as [(H1 & H2 & H3) Hslot].
    generalize dependent (streamed true). intros st H1 H2 H3 Hslot. cbv zeta.
    assert (E1 : LmClient.step (LmClient.ExternalCancel c) st
                 = LmClient.cancelCts c st).
    { simpl. unfold LmClient.externalCancel. rewrite H3. reflexivity. }
    rewrite E1. split; [reflexivity|]. split; [reflexivity|].
    intros next Hnext.
    assert (E2 : LmClient.step next (LmClient.cancelCts c st)
                 = LmClient.settle c
                     (LmClient.Returned (LmFacts.accumulate chunks))
                     (LmClient.cancelCts c st)).
    { destruct Hnext as [-> | [chunk ->]]; simpl.
      - unfold LmClient.streamEnded. cbn [LmClient.calls LmClient.cancelCts
          LmClient.emit LmClient.set_effects LmClient.set_cancelled].
        rewrite H1. reflexivity.
      - unfold LmClient.chunkArrived. cbn [LmClient.calls LmClient.cancelled
          LmClient.cancelCts LmClient.emit LmClient.set_effects
          LmClient.set_cancelled].
        rewrite H1, LmFacts.upd_same. reflexivity. }
    rewrite E2. rewrite LmFacts.calls_settle, LmFacts.upd_same,
      ErrorFacts.slot_settle.
    cbn [LmClient.currentRequestCts LmClient.cancelCts LmClient.emit
         LmClient.set_effects LmClient.set_cancelled].
    rewrite Hslot, Nat.eqb_refl. split; [reflexivity|]. split; [reflexivity|].
    simpl LmClient.step. unfold LmClient.externalCancel.
    assert (Hoff : LmClient.tokenListener
                     (LmClient.settle c
                        (LmClient.Returned (LmFacts.accumulate chunks))
                        (LmClient.cancelCts c st)) c = false).
    { unfold LmClient.settle. cbv zeta.
      cbn [LmClient.currentRequestCts LmClient.set_tokenListener
           LmClient.cancelCts LmClient.emit LmClient.set_effects
           LmClient.set_cancelled].
      rewrite Hslot, Nat.eqb_refl. cbn. apply LmFacts.upd_same. }
    rewrite Hoff. reflexivity.
  - destruct (Hst false) as [(_ & _ & H3) _].
    simpl LmClient.step. unfold LmClient.externalCancel. rewrite H3.
    reflexivity.
Qed.

Module TokenExamples.

(** A client whose eager selection has found a model. *)
Definition ready : LmClient.Client :=
  LmClient.step (LmClient.SelectionResolved 0 (Some [LmExamples.copilot]))
    (LmClient.createLmClient 0).

End TokenExamples.

(** Two chunks, then the caller cancels: the next chunk is dropped and the
    call returns the first two. *)
Lemma X29_witness :
  LmClient.calls
    (LmClient.step (LmClient.Chunk 5 "ef")
       (LmClient.step (LmClient.ExternalCancel 5)
          (LmClient.run
             ([LmClient.SendPrompt 5 true; LmClient.ResponseArrived 5]
              ++ map (LmClient.Chunk 5) ["ab"; "cd"]%string)
             TokenExamples.ready))) 5
  = LmClient.Returned (LmFacts.accumulate ["ab"; "cd"]%string).
Proof.
  destruct (X29_external_cancellation_returns_partial_text
              TokenExamples.ready 5 ["ab"; "cd"]%string)
    as [(_ & _ & Hnext) _].
  - reflexivity.
  - reflexivity.
  - destruct (Hnext (LmClient.Chunk 5 "ef")) as [Hret _].
    + right. exists "ef"%string. reflexivity.
    + exact Hret.
Defined.

(* ---------------------------------------------------------------------- *)
(** ** The request arbiter: supersession while the stream delivers *)

(** X30: last write wins while the superseded request is not rejected.
    When [sendPrompt] is called while the request of a prior call is in
    flight, the prior token source is cancelled and disposed before the
    new request is sent; as long as the service does not reject the prior
    request, the prior call never throws and returns the text it had
    accumulated as soon as its stream delivers anything; the second call,
    when nothing supersedes or cancels it, returns everything its stream
    delivers; and at no point do two calls hold an uncancelled request. *)
Theorem X30_last_write_wins_while_stream_delivers :
  forall (s : LmClient.Client) (A B : nat) (token : bool)
         (m : LmClient.LanguageModelChat),
    LmFacts.singleFlight s ->
    LmClient.cachedModel s = Some m ->
    LmClient.quotaCooldown s = false ->
    LmFacts.requestInFlight (LmClient.calls s A) = true ->
    LmClient.cancelled s A = false ->
    LmClient.calls s B = LmClient.NotCalled ->
    let s1 := LmClient.step (LmClient.SendPrompt B token) s in
    LmClient.effects s1
      = LmClient.effects s ++
        [LmClient.CancelCts A; LmClient.DisposeCts A; LmClient.SendRequest B 0]
    /\ LmClient.cancelled s1 A = true
    /\ LmClient.currentRequestCts s1 = Some B
    /\ (forall evs,
          forallb (fun ev => negb (LmFacts.isFailureOf A ev)) evs = true ->
          (forall err,
             LmClient.calls (LmClient.run evs s1) A <> LmClient.Threw err)
          /\ (forall t,
                LmClient.calls (LmClient.run evs s1) A = LmClient.Returned t ->
                t = LmFacts.textSoFar (LmClient.calls s A))
          /\ (forall next,
                LmFacts.delivery A next ->
                filter (LmFacts.aboutCall A) evs
                  = LmFacts.remainingStream A (LmClient.calls s A) next ->
                LmClient.calls (LmClient.run evs s1) A
                  = LmClient.Returned
                      (LmFacts.textSoFar (LmClient.calls s A))))
    /\ (forall evs chunks,
          forallb (LmFacts.benign B) evs = true ->
          filter (LmFacts.aboutCall B) evs = LmFacts.streamScript B chunks ->
          LmClient.calls (LmClient.run evs s1) B
            = LmClient.Returned (LmFacts.accumulate chunks))
    /\ (forall evs c1 c2,
          LmFacts.live (LmClient.run evs s1) c1 ->
          LmFacts.live (LmClient.run evs s1) c2 -> c1 = c2).
Proof.
  intros s A B token m SF Hm Hq HA HcA HB s1.
  assert (Hslot : LmClient.currentRequestCts s = Some A).
  { apply SF. split; [|exact HcA].
    destruct (LmClient.calls s A); simpl in *; congruence. }
  assert (Hne : A <> B).
  { intros ->. rewrite HB in HA. discriminate. }
  assert (Es1 : s1 = LmClient.beginRequest B token s).
  { unfold s1. simpl. unfold LmClient.sendPrompt. rewrite HB, Hq, Hm.
    reflexivity. }
  assert (HcA1 : LmClient.cancelled s1 A = true).
  { rewrite Es1, LmFacts.cancelled_beginRequest.
    rewrite LmFacts.upd_other by exact Hne.
    unfold LmClient.cancelCurrent. rewrite Hslot. cbn.
    apply LmFacts.upd_same. }
  assert (HA1 : LmClient.calls s1 A = LmClient.calls s A).
  { rewrite Es1, LmFacts.calls_beginRequest. apply LmFacts.upd_other, Hne. }
  assert (HstA : LmFacts.steady (LmClient.calls s1 A) = true).
  { rewrite HA1. destruct (LmClient.calls s A); simpl in *; congruence. }
  assert (HB1 : LmClient.calls s1 B = LmClient.AwaitingResponse 0).
  { rewrite Es1, LmFacts.calls_beginRequest. apply LmFacts.upd_same. }
  assert (HcB1 : LmClient.cancelled s1 B = false).
  { rewrite Es1, LmFacts.cancelled_beginRequest. apply LmFacts.upd_same. }
  assert (SF1 : LmFacts.singleFlight s1) by apply LmFacts.singleFlight_step, SF.
  split; [|split; [exact HcA1|split]].
  - rewrite Es1. unfold LmClient.beginRequest, LmClient.sendRequest,
      LmClient.setCall, LmClient.emit, LmClient.cancelCurrent.
    rewrite Hslot. cbn. rewrite <- !app_assoc. reflexivity.
  - rewrite Es1. reflexivity.
  - split; [|split].
    + intros evs Hnf.
      pose proof (LmFacts.run_cancelled A evs s1 HcA1 HstA Hnf) as E.
      rewrite HA1 in E.
      destruct (LmFacts.cancelledReplay_outcome
                  (filter (LmFacts.aboutCall A) evs)
                  (LmClient.calls s A) (LmClient.calls s A) HA
                  (or_introl eq_refl)) as [Hthrow Hret].
      rewrite <- E in Hthrow, Hret.
      split; [exact Hthrow | split; [exact Hret|]].
      intros next Hnext Hproj. rewrite E, Hproj.
      destruct (LmClient.calls s A); simpl in HA; try discriminate;
        destruct Hnext as [-> | [x ->]]; reflexivity.
    + intros evs chunks Hb Hproj.
      rewrite (LmFacts.run_live B evs s1 HcB1); [| |exact Hb].
      * rewrite Hproj, HB1. apply LmFacts.liveReplay_script.
      * rewrite HB1. reflexivity.
    + intros evs c1 c2.
      apply LmFacts.at_most_one_live, LmFacts.singleFlight_run, SF1.
Qed.

(** Call 1 has received "ab" when call 2 supersedes it: the next chunk of
    call 1 is dropped and call 1 returns "ab"; call 2 returns all of its
    own stream. *)
Lemma X30_witness :
  LmClient.calls
    (LmClient.run (LmClient.Chunk 1 "cd"
                     :: LmFacts.streamScript 2 ["x"; "y"]%string)
       (LmClient.step (LmClient.SendPrompt 2 false) LmExamples.streamingOne)) 1
  = LmClient.Returned "ab"
  /\ LmClient.calls
       (LmClient.run (LmClient.Chunk 1 "cd"
                        :: LmFacts.streamScript 2 ["x"; "y"]%string)
          (LmClient.step (LmClient.SendPrompt 2 false) LmExamples.streamingOne)) 2
     = LmClient.Returned "xy".
Proof.
  destruct (X30_last_write_wins_while_stream_delivers LmExamples.streamingOne
              1 2 false LmExamples.copilot) as (_ & _ & _ & Hprior & Hnext & _).
  - apply LmFacts.singleFlight_run, LmFacts.singleFlight_create.
  - reflexivity.
  - reflexivity.
  - reflexivity.
  - reflexivity.
  - reflexivity.
  - split.
    + destruct (Hprior (LmClient.Chunk 1 "cd"
                          :: LmFacts.streamScript 2 ["x"; "y"]%string))
        as (_ & _ & Hret); [reflexivity|].
      apply (Hret (LmClient.Chunk 1 "cd"));
        [right; exists "cd"%string; reflexivity | reflexivity].
    + apply (Hnext (LmClient.Chunk 1 "cd"
                      :: LmFacts.streamScript 2 ["x"; "y"]%string)
                   ["x"; "y"]%string); reflexivity.
Defined.
